(* ===== verification/_CoqProject ===== *)
-Q . S2P
Prelude.v
Float64.v
GoString.v
Web.v
Errors.v
Classify.v
HttpFetch.v
FetchSpec.v
ProxyPool.v
ProxyPoolSpec.v
RateLimit.v
Metrics.v
MetricsSpec.v
Reporter.v
Model.v
Worker.v
WorkerSpec.v
PoolRun.v
PoolRunSpec.v
Robots.v
Extract.v
ExtractSpec.v
CrawlScope.v
ScopeSpec.v
Crawl.v
Coordinator.v
CoordSpec.v
CrawlSpec.v
CrawlTotals.v
Jobs.v
JobsSpec.v
Parser.v
Schema.v
RawJSON.v
Store.v
Browser.v
RenderSpec.v
BrowserPool.v
BrowserSpec.v
BrowserLife.v
Pipeline.v
Commands.v
Process.v
Shutdown.v
LoadTest.v
BrowserRefine.v
Fixture.v
