(* ===== verification/Prelude.v ===== *)
(** * web-harvester: a verification development

    The program acquires pages: a SERP harvester and a web crawler share one
    acquisition stack.  Jobs enter through an HTTP API, a scheduler or a
    configuration file and travel over a queue to a pool of workers; each
    attempt of a worker takes a proxy from a rotating pool, waits at a rate
    limiter, fetches through plain HTTP, a headless browser, both, or a data
    provider, and feeds the classified outcome back into proxy cooldowns and
    rates.  Results are parsed and written to a sink.  The crawler uses the same
    attempts, obeys robots.txt and follows links within a scope.

    ** Files and the code they model (paths under src/)

    - [Prelude], [Float64], [GoString], [Web]: shared lemmas and tactics, 64-bit
      wrap-around, time; IEEE binary64; Go strings and UTF-8; URLs, and the
      classes [NetURL] (net/url) and [DOM] (goquery).
    - [Errors], [Classify]: internal/fetcher/errors.go, fetcher.go, classify.go,
      failover.go.  Error trees with errors.Is/As as the inductive [goerr].
    - [HttpFetch]: internal/fetcher/http.go, provider.go, mock.go.
    - [Browser], [BrowserPool]: internal/fetcher/playwright.go.  [Browser] is one
      navigation ([render]) over the operations of a page (class [PageOps]) and
      the profile and context options of a session; [BrowserPool] is the pool of
      sessions, its fields guarded by [mu], [slots] and [Close] ([closed] is an
      atomic outside [mu], so [Close] can begin while a fetch that holds [mu] is
      launching); [BrowserLife] is what is asked of the driver when it starts,
      makes a session and stops.
    - [ProxyPool]: internal/proxy/pool.go.  Proxies are shared objects in a store
      ([Reload] keeps them by key); clock readings and random draws are arguments.
    - [RateLimit]: internal/ratelimit/limiter.go over the class [TokenBucket] with
      the laws [TokenBucketLaws].
    - [Metrics], [Reporter]: internal/metrics.  Counters are changed by events,
      which the other components emit; [Reporter] holds the progress lines and
      the metrics server.
    - [Model]: internal/model.
    - [Worker]: internal/worker/pool.go.  A [World] holds the pool, the limiter,
      the network, the clock and the events so far; at every blocking point
      [others] replaces the shared parts by whatever other goroutines left.
    - [PoolRun]: [Pool.Run] of the same file: the source, the channel and the
      workers as a transition system, each increment and write a step.
    - [Robots]: internal/robots/robots.go.
    - [Extract], [CrawlScope], [Crawl], [Coordinator]: internal/extract,
      internal/crawl/target.go and crawler.go.  A visit is a state transformer;
      the loop of [Run] with its workers is a transition system; [CrawlTotals]
      runs the two together with the statistics of a crawl.
    - [Jobs]: internal/api/server.go, internal/scheduler, internal/queue.
    - [Parser]: internal/parser.  [Schema], [Store]: internal/store; [RawJSON] is
      the copy that encoding/json makes of raw messages.
    - [Commands]: internal/config, cmd/harvester, cmd/crawl and cmd/api: what
      [main] decides before work starts.  [Process]: their [main] as traces of
      what is acquired, started, released and left, in a small writer-and-exit
      monad.
      [LoadTest]: cmd/loadtest.
    - [Shutdown]: the API's server with its requests in flight, the signal, a
      failing server and the return of [main] (cmd/api, internal/api/server.go).
    - [Fixture]: tests/integration/fixture and fixtureserver, the scripted site
      and proxies of the end-to-end run, and the fetchers run against them.
    - [Pipeline]: the API, the stream, the workers, the rows and the status
      endpoint composed.

    The files ending in [Spec] and [BrowserRefine] hold the theorems of the
    component; the others hold theirs themselves.

    ** How state and concurrency are modelled

    Sequential code is a function from state to state and result.  A critical
    section is one atomic step, but for the one that launches the browser, which is
    two, with the lock held between them.  Goroutines appear in two ways: as an arbitrary
    change of the shared state between the steps of one goroutine ([Worker],
    [Crawl]), with theorems for every such change; and as a transition system
    over all of them ([Coordinator], [BrowserPool], [PoolRun], [Shutdown]), with invariants
    by induction over [reach], [breach] and the closure of the steps.  [PoolRun]
    knows of a job only what [process] may do (class [JobContract], discharged by
    [process_contract]).  Rate changes interleave between their read and
    their write ([RateLimit]).  Integers are Z with 64-bit wrap-around where the
    code computes with them; a panic is [None] or a constructor of its own.

    ** What the theorems show

    - Browser pool: it refines an abstract lease of at most [PoolSize] sessions;
      counts and gauges are exact in every reachable state; what a reused session
      guarantees; [Close] is final, and a launch it overtakes is closed by it; the
      launch backoff; the answer, the status and the counters of a fetch.
    - HTTP fetcher: how many requests a fetch sends, what the second one submits,
      what is counted as handled consent, and which answers are results.
    - Worker pool: every attempt and job is counted exactly once, for one worker
      and for every interleaving of [Run], which returns within a bounded number
      of steps; the loops terminate; a blocked proxy is cooling afterwards
      unless its cooldown is zero; the retry delay.
    - Proxy pool and limiter: a chosen proxy is not cooling; cooldown escalation;
      the pool stays well-formed over all operations; rates stay between floor
      and ceiling.
    - Crawler: safety of all interleavings (budget, depth, scope, no page twice),
      termination, progress, completeness up to the budget, spacing by
      Crawl-delay, accounting of a visit and of a whole crawl (with the writes that
      fail, and the rules in the robots cache that decided each page), exactness of
      the scope; robots.txt round trip with the groups a substring test picks,
      longest match and caching; extraction is independent of map order.
    - Jobs: every branch of the API; jobs reach workers intact; what is
      acknowledged and when; the status endpoint is exact; the parsers
      take over every field, and rows of valid UTF-8 texts fit the schema and lose
      nothing but the spelling of raw JSON.
    - Metrics: percentiles, well-formed scrapes, a last line that accounts for
      the harvest.
    - Start-up and end: parser and fetcher fit, a harvest has jobs, each target of
      a crawl the fetcher it asks for, requests to targets only after review, the
      API starts with the schedule it was given; a process that returns has
      released what it acquired, the last first, after its work, but for a
      harvest's sink and the Redis clients, and one that exits early has released
      nothing; the shutdown of the API cuts the requests in flight; a load test
      accounts for every query.
    - Fixture: a rate-limited proxy's first answer is reported as such, the next
      page goes to the browser, and a captcha page never does.
    - Behaviour that departs from the code's comments or intent is stated as a
      theorem too: [robots_latin1_panics], [crawl_depth_race],
      [uppercase_host_follows_nothing], [backoff_bounds], [stream_acks_handed],
      [provider_4xx_retried], [retry_after_wraps], [foreign_charset_refused],
      [fatal_skips_close], [api_shutdown_cuts_requests], [substring_agent].

    ** Fuel

    Only [Worker.nextProxy] is unbounded in the code (it waits until a proxy
    leaves cooldown or its deadline passes) and takes fuel: two rounds are enough
    while nobody else changes the pool ([nextProxy_terminates]).
    Every other loop is structural: over the retries left, the lines of a file,
    the bytes of a string, the doublings left.  Runs of the transition systems
    are lists of events; [crawl_terminates] bounds their length.

    ** Parameters

    Code outside the repository is an argument: net/url, goquery, regexp,
    encoding/json, time/rate, http.Client and net/http's routing, Playwright,
    Redis, the database, cron, YAML, files and the environment, the clock and
    math/rand.  Laws are assumed only where a theorem says so ([RateLimit],
    [Store.marshalDistinguishes] for instance).

    ** Not modelled

    The text of log lines, reports and tables (the values they print are), and
    the memory statistics of the load test; connection pooling and cookie jars,
    which belong to the client; how long a blocking call takes, beyond the
    clock readings the code makes itself. *)

From stdpp Require Export base tactics option list relations gmap strings.
From Stdlib Require Export ZArith Lia.
From stdpp Require Export sorting.

(** ** Scope, hint database and tactics of the development *)

Declare Scope go_scope.
Delimit Scope go_scope with go.

Create HintDb harvest discriminated.
Create Rewrite HintDb harvest_rw.

(** Case analysis on every [if] and [match] of the goal, closing what is
    decided by linear arithmetic or by constructor clash. *)
Ltac go_cases :=
  repeat first
    [ progress simplify_eq/=
    | case_match
    | case_bool_decide
    | case_decide ];
  try (done || lia).

(** Break the conjunctions, existentials and pairs of the context. *)
Ltac split_hyps :=
  repeat match goal with
    | H : _ /\ _ |- _ => destruct H
    | H : exists _, _ |- _ => destruct H
    | H : (_, _) = (_, _) |- _ => injection H as ?; subst
    end.

(** ** Machine integers

    Go's [int], [int64] and [time.Duration] are two's complement 64-bit
    integers, [uint64] wraps modulo 2^64.  They are modelled as [Z] kept in
    range by writing the wrap-around where an operation can leave it. *)

Open Scope Z_scope.

Definition int64_min : Z := - 2 ^ 63.
Definition int64_max : Z := 2 ^ 63 - 1.

Definition wrap64 (z : Z) : Z := (z + 2 ^ 63) mod 2 ^ 64 - 2 ^ 63.
Definition wrapu64 (z : Z) : Z := z mod 2 ^ 64.

(** [x << n] on a signed 64-bit operand: shift counts of 64 or more give 0. *)
Definition shl64 (x n : Z) : Z :=
  if 64 <=? n then 0 else wrap64 (Z.shiftl x n).

Definition in_int64 (z : Z) : Prop := int64_min <= z <= int64_max.

Lemma wrap64_id z : in_int64 z -> wrap64 z = z.
Proof.
  unfold in_int64, int64_min, int64_max, wrap64; intros Hz.
  rewrite Z.mod_small; lia.
Qed.

Lemma wrap64_range z : in_int64 (wrap64 z).
Proof.
  unfold in_int64, int64_min, int64_max, wrap64.
  pose proof (Z.mod_pos_bound (z + 2 ^ 63) (2 ^ 64)) as Hb. lia.
Qed.

Lemma wrap64_wrap_add a b : wrap64 (wrap64 a + b) = wrap64 (a + b).
Proof.
  unfold wrap64. replace ((a + 2 ^ 63) mod 2 ^ 64 - 2 ^ 63 + b + 2 ^ 63)
    with ((a + 2 ^ 63) mod 2 ^ 64 + b) by lia.
  rewrite Zplus_mod_idemp_l. do 2 f_equal. lia.
Qed.

Lemma wrapu64_id z : 0 <= z < 2 ^ 64 -> wrapu64 z = z.
Proof. unfold wrapu64. intros. by rewrite Z.mod_small. Qed.

Lemma wrapu64_range z : 0 <= wrapu64 z < 2 ^ 64.
Proof. unfold wrapu64. apply Z.mod_pos_bound. lia. Qed.

(** ** Time

    A [time.Time] is the number of nanoseconds since Go's zero time, so that
    [IsZero] is [= 0]; [Time.Add] does not wrap in the range where durations
    live.  A [time.Duration] is a signed 64-bit number of nanoseconds. *)

Abbreviation time := Z (only parsing).
Abbreviation duration := Z (only parsing).

Definition Before (t u : time) : bool := t <? u.
Definition After (t u : time) : bool := u <? t.
Definition IsZero (t : time) : bool := t =? 0.
Definition zeroTime : time := 0.

Definition Nanosecond : duration := 1.
Definition Microsecond : duration := 1000 * Nanosecond.
Definition Millisecond : duration := 1000 * Microsecond.
Definition Second : duration := 1000 * Millisecond.
Definition Minute : duration := 60 * Second.

(** ** Lists *)

Lemma Forall_lookup_default {A} (P : A -> Prop) (l : list A) i x :
  Forall P l -> l !! i = Some x -> P x.
Proof. intros HF Hi. by eapply Forall_lookup_1 in HF. Qed.

Lemma lookup_lt_total {A} (l : list A) i :
  (i < length l)%nat -> exists x, l !! i = Some x.
Proof. intros Hi. by apply lookup_lt_is_Some_2 in Hi as [x Hx]; exists x. Qed.

Lemma elem_of_filter_bool {A} (f : A -> bool) (l : list A) x :
  x ∈ List.filter f l <-> x ∈ l /\ f x = true.
Proof. rewrite !list_elem_of_In. apply filter_In. Qed.

(** An element in the middle of a list, and what replacing it gives. *)
Lemma list_split_at {A} (l : list A) i x : l !! i = Some x ->
  exists a b, l = a ++ x :: b /\ forall y, <[i := y]> l = a ++ y :: b.
Proof.
  intros Hi. exists (take i l), (drop (S i) l). split; [by rewrite take_drop_middle|].
  intros y. apply insert_take_drop. by eapply lookup_lt_Some.
Qed.

(** Counting the elements that satisfy a test. *)
Definition countb {A} (f : A -> bool) (l : list A) : nat := length (List.filter f l).

Lemma countb_middle {A} (f : A -> bool) a x b :
  countb f (a ++ x :: b) = (countb f (a ++ b) + if f x then 1 else 0)%nat.
Proof. unfold countb. rewrite !List.filter_app, !length_app. simpl. destruct (f x); simpl; lia. Qed.

Lemma countb_app {A} (f : A -> bool) a b : countb f (a ++ b) = (countb f a + countb f b)%nat.
Proof. unfold countb. by rewrite List.filter_app, length_app. Qed.

#[export] Instance filter_Permutation {A} (f : A -> bool) : Proper (Permutation ==> Permutation) (List.filter f).
Proof.
  intros l l' Hp. induction Hp; simpl; repeat case_match; try done; eauto using Permutation.
Qed.

Lemma countb_none {A} (f : A -> bool) l : (forall x, x ∈ l -> f x = false) -> countb f l = 0%nat.
Proof.
  unfold countb. induction l as [|x l IH]; intros Hf; [done|]. simpl. rewrite (Hf x) by (by left).
  apply IH. intros y Hy. apply Hf. by right.
Qed.

Lemma countb_full {A} (f : A -> bool) l : (forall x, x ∈ l -> f x = true) -> countb f l = length l.
Proof.
  unfold countb. induction l as [|x l IH]; intros Hf; [done|]. simpl. rewrite (Hf x) by (by left). simpl. f_equal.
  apply IH. intros y Hy. apply Hf. by right.
Qed.

Lemma countb_sublist {A} (f : A -> bool) l l' : l `sublist_of` l' -> (countb f l <= countb f l')%nat.
Proof. unfold countb. induction 1; simpl; [done|case_match; simpl; lia|case_match; simpl; lia]. Qed.

Lemma countb_perm {A} (f : A -> bool) l l' : l ≡ₚ l' -> countb f l = countb f l'.
Proof. intros Hp. unfold countb. by rewrite Hp. Qed.

Lemma countb_all {A} (f : A -> bool) l : countb f l = length l -> Forall (fun x => f x = true) l.
Proof.
  unfold countb. induction l as [|x l IH]; intros Hc; [constructor|]. simpl in Hc.
  assert (Hle : (length (List.filter f l) <= length l)%nat) by (clear; induction l; simpl; [lia|case_match; simpl; lia]).
  destruct (f x) eqn:Hf; simpl in Hc; [constructor; [done|apply IH; lia]|lia].
Qed.

Lemma countb_le {A} (f : A -> bool) l : (countb f l <= length l)%nat.
Proof. unfold countb. induction l as [|x l IH]; [done|]. simpl. destruct (f x); simpl; lia. Qed.

Lemma omap_middle {A B} (f : A -> option B) a x b :
  omap f (a ++ x :: b) ≡ₚ option_list (f x) ++ omap f (a ++ b).
Proof.
  rewrite !omap_app. cbn [omap list_omap]. destruct (f x) as [y|]; cbn [option_list app]; [|done].
  apply Permutation_sym, (Permutation_middle (omap f a) (omap f b) y).
Qed.

(** *** Sorting

    Insertion sort by a strict order, keeping the order of equal elements. *)

Fixpoint insertBy {A} (ltb : A -> A -> bool) (x : A) (l : list A) : list A :=
  match l with
  | [] => [x]
  | y :: rest => if ltb x y then x :: l else y :: insertBy ltb x rest
  end.

Definition sortBy {A} (ltb : A -> A -> bool) (l : list A) : list A :=
  fold_left (fun acc x => insertBy ltb x acc) l [].

Lemma insertBy_perm {A} (ltb : A -> A -> bool) x l : insertBy ltb x l ≡ₚ x :: l.
Proof.
  induction l as [|y l IH]; simpl; [done|]. destruct (ltb x y); [done|].
  rewrite IH. apply perm_swap.
Qed.

Lemma sortBy_perm {A} (ltb : A -> A -> bool) l : sortBy ltb l ≡ₚ l.
Proof.
  unfold sortBy. enough (H : forall acc, fold_left (fun acc x => insertBy ltb x acc) l acc ≡ₚ l ++ acc)
    by (rewrite H; by rewrite app_nil_r).
  induction l as [|x l IH]; intros acc; simpl; [done|]. rewrite IH, insertBy_perm.
  symmetry. apply Permutation_middle.
Qed.

Section Sorted.
Context {A} (ltb : A -> A -> bool).
Context (total : forall x y, ltb x y = true -> ltb y x = false).
Context (trans : forall x y z, ltb y x = false -> ltb z y = false -> ltb z x = false).

Abbreviation le := (fun x y => ltb y x = false).

Lemma insertBy_sorted x l : StronglySorted le l -> StronglySorted le (insertBy ltb x l).
Proof.
  induction 1 as [|y l Hl IH HF]; simpl; [by repeat constructor|].
  destruct (ltb x y) eqn:Hxy.
  - constructor; [by constructor|]. constructor; [by apply total|].
    eapply Forall_impl; [exact HF|]. intros z Hz. apply (trans _ y); [by apply total|done].
  - constructor; [done|]. rewrite insertBy_perm. by constructor.
Qed.

Lemma sortBy_sorted l : StronglySorted le (sortBy ltb l).
Proof.
  unfold sortBy. enough (H : forall acc, StronglySorted le acc ->
    StronglySorted le (fold_left (fun acc x => insertBy ltb x acc) l acc)) by (apply H; constructor).
  induction l as [|x l IH]; intros acc Hacc; simpl; [done|]. by apply IH, insertBy_sorted.
Qed.

(** Sorting by a strict total order gives one result for all permutations. *)
Lemma sortBy_unique (antisym : forall x y, ltb x y = false -> ltb y x = false -> x = y) l l' :
  l ≡ₚ l' -> sortBy ltb l = sortBy ltb l'.
Proof.
  intros Hp. assert (AntiSymm (=) le) by (intros x y ??; by apply antisym).
  apply (StronglySorted_unique le); [apply sortBy_sorted..|].
  by rewrite !sortBy_perm.
Qed.
End Sorted.

(** A left fold whose steps commute for elements with different keys does not
    depend on the order of a list with distinct keys. *)
Lemma fold_left_perm {A B K} (key : B -> K) (f : A -> B -> A) :
  (forall a x y, key x <> key y -> f (f a x) y = f (f a y) x) ->
  forall l l', l ≡ₚ l' -> NoDup (map key l) -> forall a, fold_left f l a = fold_left f l' a.
Proof.
  intros Hcomm l l' Hp. induction Hp as [|x l l' _ IH|x y l|l1 l2 l3 Hp12 IH12 _ IH23]; intros Hnd a; cbn [fold_left map] in *.
  - done.
  - apply NoDup_cons in Hnd as [_ Hnd]. by apply IH.
  - apply NoDup_cons in Hnd as [Hy _]. f_equal. apply Hcomm. intros He. apply Hy. rewrite He. by left.
  - rewrite IH12 by done. apply IH23. by rewrite <- Hp12.
Qed.

(** ** Step sequences

    A run of a component is a list of operations executed from a state. *)

Definition runs {S O} (exec : O -> S -> S) (ops : list O) (s : S) : S :=
  fold_left (fun s o => exec o s) ops s.

Lemma runs_invariant {S O} (exec : O -> S -> S) (P : S -> Prop) (Q : O -> S -> Prop) :
  (forall o s, P s -> P (exec o s)) ->
  forall ops s, P s -> P (runs exec ops s).
Proof. intros Hstep ops. induction ops; simpl; eauto. Qed.

#[export] Hint Rewrite @length_app @length_fmap @length_insert : harvest_rw.
