(* ===== verification/Float64.v ===== *)
(** * IEEE 754 binary64, as the program's [float64] computes

    The Go program keeps proxy health, request rates and percentile ranks in
    [float64].  The operations here are the executable specification of the
    binary64 format ([SpecFloat], round to nearest even), so that every
    arithmetic step of the source is translated with its rounding.  The lemmas
    are the comparison facts (a total preorder away from NaN) and the
    rounding facts (a rounded result never crosses a representable bound)
    that the components use. *)

From Stdlib Require Export SpecFloat.
From S2P Require Import Prelude.

Abbreviation f64 := spec_float (only parsing).

Definition prec64 : Z := 53.
Definition emax64 : Z := 1024.

Definition f64_add (x y : f64) : f64 := SFadd prec64 emax64 x y.
Definition f64_sub (x y : f64) : f64 := SFsub prec64 emax64 x y.
Definition f64_mul (x y : f64) : f64 := SFmul prec64 emax64 x y.
Definition f64_div (x y : f64) : f64 := SFdiv prec64 emax64 x y.
Definition f64_ltb (x y : f64) : bool := SFltb x y.
Definition f64_leb (x y : f64) : bool := SFleb x y.

(** Conversion of an integer, [float64(z)]. *)
Definition f64_of_Z (z : Z) : f64 := binary_normalize prec64 emax64 z 0 false.

(** A decimal constant [n/d] of the source, rounded once as the compiler does. *)
Definition f64_const (n d : positive) : f64 :=
  f64_div (S754_finite false n 0) (S754_finite false d 0).

Definition f64_zero : f64 := S754_zero false.
Definition f64_one : f64 := f64_of_Z 1.

(** ** Comparison

    [SFcompare] orders floats lexicographically by sign, exponent and
    mantissa; [key] is that lexicographic rank. *)

Definition is_nan (x : f64) : bool :=
  match x with S754_nan => true | _ => false end.

Definition key (x : f64) : Z * Z * Z :=
  match x with
  | S754_zero _ => (0, 0, 0)
  | S754_infinity s => (if s then -2 else 2, 0, 0)
  | S754_nan => (0, 0, 0)
  | S754_finite s m e => if s then (-1, - e, - Zpos m) else (1, e, Zpos m)
  end.

Definition key_le (a b : Z * Z * Z) : Prop :=
  let '(a1, a2, a3) := a in let '(b1, b2, b3) := b in
  a1 < b1 \/ (a1 = b1 /\ (a2 < b2 \/ (a2 = b2 /\ a3 <= b3))).

Lemma f64_leb_key x y :
  f64_leb x y = true <-> is_nan x = false /\ is_nan y = false /\ key_le (key x) (key y).
Proof.
  unfold f64_leb, SFleb, key_le.
  destruct x as [s1|s1| |s1 m1 e1], y as [s2|s2| |s2 m2 e2];
    try destruct s1; try destruct s2; simpl;
    try (split; intros; split_hyps; done || lia || (repeat split; lia)).
  - destruct (Z.compare_spec e1 e2); rewrite ?Pos.compare_cont_spec; simpl;
      try (split; intros; split_hyps; done || lia || (repeat split; lia)).
    change (PosDef.Pos.compare_cont Eq m1 m2) with (Pos.compare m1 m2).
    destruct (Pos.compare_spec m1 m2); simpl;
      split; intros; split_hyps; done || lia || (repeat split; lia).
  - destruct (Z.compare_spec e1 e2); simpl;
      try (split; intros; split_hyps; done || lia || (repeat split; lia)).
    change (PosDef.Pos.compare_cont Eq m1 m2) with (Pos.compare m1 m2).
    destruct (Pos.compare_spec m1 m2); simpl;
      split; intros; split_hyps; done || lia || (repeat split; lia).
Qed.

Lemma f64_ltb_leb x y : is_nan x = false -> is_nan y = false -> f64_ltb x y = negb (f64_leb y x).
Proof.
  unfold f64_ltb, SFltb, f64_leb, SFleb.
  destruct x as [s1|s1| |s1 m1 e1], y as [s2|s2| |s2 m2 e2]; try done;
    intros _ _; try (destruct s1; done); try (destruct s2; done);
    try (destruct s1, s2; done).
  simpl. rewrite (Z.compare_antisym e1 e2).
  change (PosDef.Pos.compare_cont Eq m1 m2) with (Pos.compare m1 m2).
  change (PosDef.Pos.compare_cont Eq m2 m1) with (Pos.compare m2 m1).
  rewrite (Pos.compare_antisym m1 m2).
  destruct s1, s2; try done; destruct (e1 ?= e2); try done; simpl;
    destruct (Pos.compare m1 m2); done.
Qed.

Lemma f64_ltb_nan x y : f64_ltb x y = true -> is_nan x = false /\ is_nan y = false.
Proof. destruct x, y; cbn; try done. Qed.

Lemma f64_leb_nan x y : f64_leb x y = true -> is_nan x = false /\ is_nan y = false.
Proof. rewrite f64_leb_key. tauto. Qed.

Lemma f64_leb_refl x : is_nan x = false -> f64_leb x x = true.
Proof.
  intros Hx. rewrite f64_leb_key. unfold key_le.
  destruct (key x) as [[??]?]. repeat split; try done. lia.
Qed.

Lemma f64_leb_trans x y z : f64_leb x y = true -> f64_leb y z = true -> f64_leb x z = true.
Proof.
  rewrite !f64_leb_key; unfold key_le; intros (Hx & Hy & H1) (_ & Hz & H2).
  destruct (key x) as [[??]?], (key y) as [[??]?], (key z) as [[??]?].
  repeat split; try done. lia.
Qed.

Lemma f64_leb_total x y : is_nan x = false -> is_nan y = false ->
  f64_leb x y = true \/ f64_leb y x = true.
Proof.
  intros Hx Hy. rewrite !f64_leb_key. unfold key_le.
  destruct (key x) as [[??]?], (key y) as [[??]?].
  destruct (decide (key_le (z, z0, z1) (z2, z3, z4))) as [H|H];
    [left | right]; repeat split; try done; unfold key_le in *; lia.
Qed.

Lemma f64_ltb_false_leb x y :
  is_nan x = false -> is_nan y = false -> f64_ltb x y = false -> f64_leb y x = true.
Proof. intros Hx Hy. rewrite f64_ltb_leb by done. by destruct (f64_leb y x). Qed.

Lemma f64_ltb_leb_incl x y : f64_ltb x y = true -> f64_leb x y = true.
Proof.
  intros H. destruct (f64_ltb_nan _ _ H) as [Hx Hy].
  rewrite f64_ltb_leb in H by done.
  destruct (f64_leb_total x y Hx Hy) as [|H']; [done|]. by rewrite H' in H.
Qed.

(** ** Rounding

    [binary_round_aux] shifts the exact mantissa right to the target exponent
    remembering a rounding bit and a sticky bit, and rounds to nearest even.
    The next lemmas compute that shift and show that rounding is monotone. *)

Lemma iter_pos_nat {A} (f : A -> A) p x :
  SpecFloat.iter_pos f p x = Nat.iter (Pos.to_nat p) f x.
Proof.
  revert x. induction p as [p IH|p IH|]; intros x; cbn [SpecFloat.iter_pos]; [..|done].
  - rewrite !IH. replace (Pos.to_nat p~1) with (Pos.to_nat p + (Pos.to_nat p + 1))%nat by lia.
    rewrite !Nat.iter_add. done.
  - rewrite !IH. replace (Pos.to_nat p~0) with (Pos.to_nat p + Pos.to_nat p)%nat by lia.
    by rewrite Nat.iter_add.
Qed.

Lemma shr_1_pos m r s : 0 <= m ->
  shr_1 (Build_shr_record m r s) = Build_shr_record (m / 2) (Z.odd m) (r || s).
Proof.
  intros Hm. destruct m as [|[p|p|]|p]; try done; try lia; unfold shr_1; f_equal.
  - replace (Z.pos p~1) with (1 + Z.pos p * 2) by lia. rewrite Z.div_add by lia. done.
  - replace (Z.pos p~0) with (0 + Z.pos p * 2) by lia. rewrite Z.div_add by lia. done.
Qed.

Definition shr_ref (m : Z) (n : nat) : shr_record :=
  match n with
  | O => Build_shr_record m false false
  | S k => Build_shr_record (m / 2 ^ Z.of_nat n) (Z.odd (m / 2 ^ Z.of_nat k))
             (negb (m mod 2 ^ Z.of_nat k =? 0))
  end.

Lemma mod_pow2_succ m k : 0 <= k ->
  m mod 2 ^ (k + 1) = m mod 2 ^ k + 2 ^ k * (if Z.odd (m / 2 ^ k) then 1 else 0).
Proof.
  intros Hk. assert (0 < 2 ^ k) by (apply Z.pow_pos_nonneg; lia).
  rewrite Z.pow_add_r, Z.pow_1_r by lia.
  rewrite Z.rem_mul_r by lia.
  rewrite (Zmod_odd (m / 2 ^ k)). destruct (Z.odd _); lia.
Qed.

Lemma pow2_pos n : 0 <= n -> 0 < 2 ^ n.
Proof. intros. by apply Z.pow_pos_nonneg. Qed.

Lemma shr_iter m n : 0 <= m ->
  Nat.iter n shr_1 (Build_shr_record m false false) = shr_ref m n.
Proof.
  intros Hm. induction n as [|n IH]; [done|]. simpl Nat.iter. rewrite IH.
  destruct n as [|k].
  { unfold shr_ref at 1. rewrite shr_1_pos by done. unfold shr_ref. f_equal.
    - by rewrite Z.div_1_r.
    - by rewrite Z.mod_1_r. }
  pose proof (pow2_pos (Z.of_nat k) ltac:(lia)).
  pose proof (pow2_pos (Z.of_nat (S k)) ltac:(lia)).
  unfold shr_ref at 1. rewrite shr_1_pos by (by apply Z.div_pos).
  unfold shr_ref. f_equal.
  - rewrite Z.div_div by lia. f_equal. rewrite (Nat2Z.inj_succ (S k)), Z.pow_succ_r by lia. lia.
  - replace (Z.of_nat (S k)) with (Z.of_nat k + 1) by lia. rewrite mod_pow2_succ by lia.
    pose proof (Z.mod_pos_bound m (2 ^ Z.of_nat k) ltac:(lia)).
    destruct (Z.odd _); simpl;
    destruct (m mod 2 ^ Z.of_nat k =? 0) eqn:E1; simpl; symmetry; lia.
Qed.

(** The same record read off the value scaled by a power of two: quotient,
    half bit and sticky bit at position [K]. *)
Definition shr_val (V K : Z) : shr_record :=
  Build_shr_record (V / 2 ^ K) (Z.odd (V / 2 ^ (K - 1))) (negb (V mod 2 ^ (K - 1) =? 0)).

Definition rne_val (V K : Z) : Z :=
  round_nearest_even (V / 2 ^ K) (loc_of_shr_record (shr_val V K)).

Lemma scale_div m a k : 0 <= a -> 0 <= k -> (m * 2 ^ a) / 2 ^ (a + k) = m / 2 ^ k.
Proof.
  intros. rewrite Z.pow_add_r by done. pose proof (pow2_pos a ltac:(done)).
  pose proof (pow2_pos k ltac:(done)).
  rewrite (Z.mul_comm m), Z.div_mul_cancel_l by lia. done.
Qed.

Lemma scale_mod m a k : 0 <= a -> 0 <= k -> (m * 2 ^ a) mod 2 ^ (a + k) = 2 ^ a * (m mod 2 ^ k).
Proof.
  intros. rewrite Z.pow_add_r by done. pose proof (pow2_pos a ltac:(done)).
  pose proof (pow2_pos k ltac:(done)).
  rewrite (Z.mul_comm m), Z.mul_mod_distr_l by lia. done.
Qed.

Lemma shr_ref_val M a n : 0 < a -> shr_ref M n = shr_val (M * 2 ^ a) (a + Z.of_nat n).
Proof.
  intros Ha. unfold shr_val. rewrite scale_div by lia. destruct n as [|k].
  - cbn [Z.of_nat]. unfold shr_ref.
    replace (M * 2 ^ a) with (2 * M * 2 ^ (a - 1))
      by (rewrite <- (Z.succ_pred a) at 2; rewrite Z.pow_succ_r by lia; lia).
    rewrite Z.add_0_r, Z.div_1_r. pose proof (pow2_pos (a - 1) ltac:(lia)).
    rewrite Z.div_mul, Z.mod_mul by lia. by rewrite Z.odd_mul.
  - replace (a + Z.of_nat (S k) - 1) with (a + Z.of_nat k) by lia.
    rewrite scale_div, scale_mod by lia. unfold shr_ref. f_equal. f_equal.
    pose proof (pow2_pos a ltac:(lia)).
    destruct (Z.eqb_spec (M mod 2 ^ Z.of_nat k) 0) as [->|Hne];
      symmetry; [apply Z.eqb_eq; lia | apply Z.eqb_neq; nia].
Qed.

Lemma rne_val_bounds V K : V / 2 ^ K <= rne_val V K <= V / 2 ^ K + 1.
Proof.
  unfold rne_val, round_nearest_even.
  destruct (loc_of_shr_record _) as [|[]]; try lia.
  destruct (IntDef.Z.even _); lia.
Qed.

Lemma rne_val_mono V1 V2 K : 1 <= K -> 0 <= V1 <= V2 -> rne_val V1 K <= rne_val V2 K.
Proof.
  intros HK HV. pose proof (pow2_pos (K - 1) ltac:(lia)) as HH.
  assert (HK2 : forall V, V / 2 ^ K = V / 2 ^ (K - 1) / 2).
  { intros V. rewrite Z.div_div by lia. f_equal.
    rewrite <- (Z.succ_pred K) at 1. rewrite Z.pow_succ_r by lia. 
    replace (Z.pred K) with (K - 1) by lia. lia. }
  unfold rne_val, round_nearest_even, shr_val. rewrite !HK2.
  pose proof (Z.div_le_mono V1 V2 _ HH ltac:(lia)) as Hu.
  pose proof (Z.div_mod V1 (2 ^ (K - 1)) ltac:(lia)) as E1.
  pose proof (Z.div_mod V2 (2 ^ (K - 1)) ltac:(lia)) as E2.
  pose proof (Z.mod_pos_bound V1 _ HH). pose proof (Z.mod_pos_bound V2 _ HH).
  set (u1 := V1 / 2 ^ (K - 1)) in *. set (u2 := V2 / 2 ^ (K - 1)) in *.
  set (t1 := V1 mod 2 ^ (K - 1)) in *. set (t2 := V2 mod 2 ^ (K - 1)) in *.
  assert (Ht : u1 = u2 -> t1 <= t2) by nia. clear E1 E2.
  pose proof (Zdiv2_odd_eqn u1) as D1. pose proof (Zdiv2_odd_eqn u2) as D2.
  rewrite !Z.div2_div in *.
  change IntDef.Z.even with Z.even.
  destruct (decide (u1 = u2)) as [Heq|Hne].
  - specialize (Ht Heq). rewrite <- Heq.
    destruct (Z.odd u1), (Z.eqb_spec t1 0), (Z.eqb_spec t2 0); simpl; repeat case_match; lia.
  - assert (u1 < u2) by lia. clear Ht.
    destruct (Z.odd u1), (Z.odd u2), (t1 =? 0), (t2 =? 0); simpl; repeat case_match; lia.
Qed.

(** Position of the scaled integers below: every exponent of the format and of
    an exact product is above [-bias]. *)
Definition bias : Z := 2200.

Definition target_exp (M E : Z) : Z := Z.max (Zdigits2 M + E - 53) (-1074).

(** The float a rounded mantissa [0 <= R <= 2^53] at exponent [e] denotes. *)
Definition mk_rounded (s : bool) (R e : Z) : f64 :=
  match R with
  | Z0 => S754_zero s
  | Zpos m => if R =? 2 ^ 53
              then if e + 1 <=? 971 then S754_finite s (2 ^ 52)%positive (e + 1) else S754_infinity s
              else if e <=? 971 then S754_finite s m e else S754_infinity s
  | Zneg _ => S754_nan
  end.

Lemma digits2_bounds p : 2 ^ (Zpos (digits2_pos p) - 1) <= Zpos p < 2 ^ Zpos (digits2_pos p).
Proof.
  induction p as [p IH|p IH|]; cbn [digits2_pos]; [..|done];
    change PosDef.Pos.succ with Pos.succ; rewrite Pos2Z.inj_succ;
    rewrite Z.pow_succ_r by lia;
    replace (Z.succ (Zpos (digits2_pos p)) - 1) with (Z.succ (Zpos (digits2_pos p) - 1)) by lia;
    rewrite Z.pow_succ_r by lia; lia.
Qed.

Lemma Zdigits2_pos M : 0 < M -> 1 <= Zdigits2 M /\ 2 ^ (Zdigits2 M - 1) <= M < 2 ^ Zdigits2 M.
Proof. destruct M; try lia. intros _. simpl Zdigits2. pose proof (digits2_bounds p). lia. Qed.

Lemma Zdigits2_le M d : 0 < M < 2 ^ d -> 0 <= d -> Zdigits2 M <= d.
Proof.
  intros HM Hd. destruct (Zdigits2_pos M) as (? & ? & ?); [lia|].
  destruct (Z.le_gt_cases (Zdigits2 M) d) as [|Hgt]; [done|].
  pose proof (Z.pow_le_mono_r 2 d (Zdigits2 M - 1)). lia.
Qed.

Lemma Zdigits2_ge M d : 2 ^ d <= M -> 0 <= d -> d + 1 <= Zdigits2 M.
Proof.
  intros HM Hd. pose proof (pow2_pos d Hd).
  destruct (Zdigits2_pos M) as (? & ? & ?); [lia|].
  destruct (Z.le_gt_cases (d + 1) (Zdigits2 M)) as [|Hgt]; [done|].
  pose proof (Z.pow_le_mono_r 2 (Zdigits2 M) d). lia.
Qed.

Lemma shr_fexp_ref M E : 0 <= M ->
  shr_fexp prec64 emax64 M E loc_Exact =
    (shr_ref M (Z.to_nat (target_exp M E - E)), E + Z.max 0 (target_exp M E - E)).
Proof.
  intros HM. unfold shr_fexp, fexp, emin, prec64, emax64.
  change (3 - 1024 - 53) with (-1074). fold (target_exp M E).
  unfold shr_record_of_loc.
  destruct (target_exp M E - E) as [|p|p] eqn:Hn; simpl.
  - f_equal; lia.
  - rewrite iter_pos_nat, shr_iter by done.
    rewrite Z2Nat.inj_pos. f_equal.
  - f_equal; lia.
Qed.

Lemma rounded_range M E : 0 < M -> E <= target_exp M E -> - bias < E ->
  let e := target_exp M E in
  let R := rne_val (M * 2 ^ (E + bias)) (e + bias) in
  0 <= R <= 2 ^ 53 /\ (-1074 < e -> 2 ^ 52 <= R).
Proof.
  intros HM HE Hb e R. destruct (Zdigits2_pos M HM) as (Hd & Hlo & Hhi).
  assert (Hq : M * 2 ^ (E + bias) / 2 ^ (e + bias) = M / 2 ^ (e - E)).
  { replace (e + bias) with ((E + bias) + (e - E)) by lia. apply scale_div; unfold bias in *; lia. }
  pose proof (rne_val_bounds (M * 2 ^ (E + bias)) (e + bias)) as HR. rewrite Hq in HR. fold R in HR.
  pose proof (pow2_pos (e - E) ltac:(lia)) as Hp.
  assert (0 <= M / 2 ^ (e - E)) by (apply Z.div_pos; lia).
  assert (M / 2 ^ (e - E) < 2 ^ 53).
  { apply Z.div_lt_upper_bound; [done|]. rewrite <- Z.pow_add_r by lia.
    pose proof (Z.pow_le_mono_r 2 (Zdigits2 M) (e - E + 53)). unfold target_exp in e. lia. }
  split; [lia|]. intros He.
  assert (2 ^ 52 <= M / 2 ^ (e - E)); [|lia].
  apply Z.div_le_lower_bound; [done|]. rewrite <- Z.pow_add_r by lia.
  replace (e - E + 52) with (Zdigits2 M - 1) by (unfold target_exp in e; lia). done.
Qed.

Lemma round_aux_spec s M E : 0 < M -> E <= target_exp M E -> - bias < E ->
  binary_round_aux prec64 emax64 s M E loc_Exact =
    mk_rounded s (rne_val (M * 2 ^ (E + bias)) (target_exp M E + bias)) (target_exp M E).
Proof.
  intros HM HE Hb. pose proof (rounded_range M E HM HE Hb) as [HR HR'].
  unfold binary_round_aux. rewrite shr_fexp_ref by lia.
  set (e := target_exp M E) in *. replace (E + Z.max 0 (e - E)) with e by lia.
  rewrite (shr_ref_val M (E + bias)) by lia.
  replace (E + bias + Z.of_nat (Z.to_nat (e - E))) with (e + bias) by lia.
  change (round_nearest_even (shr_m (shr_val ?V ?K)) _) with (rne_val V K).
  set (R := rne_val (M * 2 ^ (E + bias)) (e + bias)) in *.
  rewrite shr_fexp_ref by lia.
  change (emax64 - prec64) with 971. unfold mk_rounded.
  destruct R as [|p|p] eqn:ER; [|destruct (Z.eqb_spec (Zpos p) (2 ^ 53)) as [Hp|Hp]|lia].
  - replace (target_exp 0 e - e) with (Z.max (-53) (-1074 - e)) by (unfold target_exp; simpl; lia).
    replace (Z.to_nat (Z.max (-53) (-1074 - e))) with O by (unfold e, target_exp; lia). done.
  - rewrite Hp. replace (target_exp (2 ^ 53) e) with (e + 1)
      by (unfold target_exp; change (Zdigits2 (2 ^ 53)) with 54; unfold e, target_exp; lia).
    replace (e + 1 - e) with 1 by lia. done.
  - destruct (Zdigits2_pos (Zpos p) ltac:(lia)) as (? & ? & ?).
    pose proof (Zdigits2_le (Zpos p) 53 ltac:(lia) ltac:(lia)).
    replace (Z.to_nat (target_exp (Zpos p) e - e)) with O by (unfold target_exp in *; lia).
    replace (Z.max 0 (target_exp (Zpos p) e - e)) with 0 by (unfold target_exp in *; lia).
    by rewrite Z.add_0_r.
Qed.

(** A rounded pair [(R, e)] as the format normalises it. *)
Definition normal_pair (R e : Z) : Prop :=
  -1074 <= e /\ 0 <= R <= 2 ^ 53 /\ (-1074 < e -> 2 ^ 52 <= R).

Lemma mk_rounded_leb R1 e1 R2 e2 : normal_pair R1 e1 -> normal_pair R2 e2 ->
  R1 * 2 ^ (e1 + bias) <= R2 * 2 ^ (e2 + bias) ->
  f64_leb (mk_rounded false R1 e1) (mk_rounded false R2 e2) = true.
Proof.
  intros (He1 & HR1 & HN1) (He2 & HR2 & HN2) Hle.
  assert (Hlex : R1 = 0 \/ e1 < e2 \/ (e1 = e2 /\ R1 <= R2) \/
                 (e1 = e2 + 1 /\ R1 = 2 ^ 52 /\ R2 = 2 ^ 53)).
  { destruct (decide (R1 = 0)); [by left|right].
    destruct (Z.lt_trichotomy e1 e2) as [|[->|Hgt]]; [by left| |].
    - pose proof (pow2_pos (e2 + bias) ltac:(unfold bias; lia)). right; left. nia.
    - right; right.
      replace (e1 + bias) with ((e1 - e2) + (e2 + bias)) in Hle by lia.
      rewrite Z.pow_add_r in Hle by (unfold bias; lia).
      pose proof (pow2_pos (e2 + bias) ltac:(unfold bias; lia)).
      assert (R1 * 2 ^ (e1 - e2) <= R2) by nia.
      specialize (HN1 ltac:(lia)).
      destruct (decide (e1 = e2 + 1)) as [->|].
      + replace (e2 + 1 - e2) with 1 in * by lia. lia.
      + pose proof (Z.pow_le_mono_r 2 2 (e1 - e2) ltac:(lia) ltac:(lia)). nia. }
  unfold mk_rounded.
  destruct R1 as [|p1|p1]; [| |lia].
  { destruct R2 as [|p2|p2]; [done| |lia]. repeat case_match; done. }
  destruct R2 as [|p2|p2]; [|destruct (Z.eqb_spec (Zpos p1) (2 ^ 53)) as [Hp1|],
     (Z.eqb_spec (Zpos p2) (2 ^ 53)) as [Hp2|]|lia].
  - pose proof (pow2_pos (e1 + bias) ltac:(unfold bias; lia)). lia.
  - destruct (Z.leb_spec (e1 + 1) 971), (Z.leb_spec (e2 + 1) 971);
      apply f64_leb_key; unfold key_le; simpl; repeat split; lia.
  - destruct (Z.leb_spec (e1 + 1) 971), (Z.leb_spec e2 971);
      apply f64_leb_key; unfold key_le; simpl; repeat split; lia.
  - destruct (Z.leb_spec e1 971), (Z.leb_spec (e2 + 1) 971);
      apply f64_leb_key; unfold key_le; simpl; repeat split; lia.
  - destruct (Z.leb_spec e1 971), (Z.leb_spec e2 971);
      apply f64_leb_key; unfold key_le; simpl; repeat split; lia.
Qed.

Lemma target_exp_mono M1 E1 M2 E2 : 0 < M1 -> 0 < M2 -> - bias < E1 -> - bias < E2 ->
  M1 * 2 ^ (E1 + bias) <= M2 * 2 ^ (E2 + bias) -> target_exp M1 E1 <= target_exp M2 E2.
Proof.
  intros H1 H2 Hb1 Hb2 Hle. unfold target_exp.
  destruct (Zdigits2_pos M1 H1) as (? & Hlo & _), (Zdigits2_pos M2 H2) as (? & _ & Hhi).
  enough (Zdigits2 M1 + E1 <= Zdigits2 M2 + E2) by lia.
  apply Z.nlt_ge. intros Hlt.
  assert (2 ^ (Zdigits2 M1 - 1 + (E1 + bias)) < 2 ^ (Zdigits2 M2 + (E2 + bias))).
  { rewrite (Z.pow_add_r 2 (Zdigits2 M1 - 1)), (Z.pow_add_r 2 (Zdigits2 M2)) by lia.
    apply Z.le_lt_trans with (M1 * 2 ^ (E1 + bias));
      [apply Z.mul_le_mono_nonneg_r; [apply Z.pow_nonneg; lia|done]|].
    apply Z.le_lt_trans with (M2 * 2 ^ (E2 + bias)); [done|].
    apply Z.mul_lt_mono_pos_r; [apply pow2_pos; lia|done]. }
  apply Z.pow_lt_mono_r_iff in H3; lia.
Qed.

(** The rounding of [M * 2^E] to a float. *)
Definition round64 (M E : Z) : f64 :=
  mk_rounded false (rne_val (M * 2 ^ (E + bias)) (target_exp M E + bias)) (target_exp M E).

Definition roundable (M E : Z) : Prop := 0 < M /\ E <= target_exp M E /\ - bias < E.

Lemma roundable_pair M E : roundable M E ->
  normal_pair (rne_val (M * 2 ^ (E + bias)) (target_exp M E + bias)) (target_exp M E).
Proof.
  intros (HM & HE & Hb). pose proof (rounded_range M E HM HE Hb) as [H1 H2].
  split; [unfold target_exp; lia|]. by split.
Qed.

Lemma round64_mono M1 E1 M2 E2 : roundable M1 E1 -> roundable M2 E2 ->
  M1 * 2 ^ (E1 + bias) <= M2 * 2 ^ (E2 + bias) ->
  f64_leb (round64 M1 E1) (round64 M2 E2) = true.
Proof.
  intros Hr1 Hr2 Hle. pose proof (roundable_pair _ _ Hr1) as P1. pose proof (roundable_pair _ _ Hr2) as P2.
  destruct Hr1 as (H1 & HE1 & Hb1), Hr2 as (H2 & HE2 & Hb2).
  pose proof (target_exp_mono M1 E1 M2 E2 H1 H2 Hb1 Hb2 Hle) as Ht.
  apply mk_rounded_leb; [done..|].
  destruct P1 as (P1 & R1 & _), P2 as (P2 & R2 & N2).
  destruct (decide (target_exp M1 E1 = target_exp M2 E2)) as [Heq|Hne].
  - rewrite Heq. apply Z.mul_le_mono_nonneg_r; [apply Z.pow_nonneg; lia|].
    apply rne_val_mono; [unfold bias; lia|]. split; [|done].
    apply Z.mul_nonneg_nonneg; [lia | apply Z.pow_nonneg; lia].
  - specialize (N2 ltac:(lia)).
    generalize dependent (rne_val (M1 * 2 ^ (E1 + bias)) (target_exp M1 E1 + bias)); intros X1 R1.
    generalize dependent (rne_val (M2 * 2 ^ (E2 + bias)) (target_exp M2 E2 + bias)); intros X2 R2 N2.
    replace (2 ^ (target_exp M2 E2 + bias))
      with (2 ^ (target_exp M2 E2 - target_exp M1 E1) * 2 ^ (target_exp M1 E1 + bias))
      by (rewrite <- Z.pow_add_r by (unfold bias; lia); f_equal; lia).
    pose proof (pow2_pos (target_exp M1 E1 + bias) ltac:(unfold bias; lia)) as HP.
    pose proof (Z.pow_le_mono_r 2 1 (target_exp M2 E2 - target_exp M1 E1) ltac:(lia) ltac:(lia)) as HQ.
    rewrite Z.mul_assoc. apply Z.mul_le_mono_nonneg_r; [lia|]. nia.
Qed.

(** ** Non-negative finite floats and their value *)

Definition nonneg (x : f64) : Prop :=
  match x with
  | S754_zero _ => True
  | S754_finite false m e => bounded prec64 emax64 m e = true
  | _ => False
  end.

(** The value scaled by [2^bias]. *)
Definition fv (x : f64) : Z :=
  match x with
  | S754_finite false m e => Zpos m * 2 ^ (e + bias)
  | _ => 0
  end.

Lemma nonneg_not_nan x : nonneg x -> is_nan x = false.
Proof. by destruct x. Qed.

Lemma bounded_target m e : bounded prec64 emax64 m e = true ->
  target_exp (Zpos m) e = e /\ -1074 <= e <= 971 /\ Zpos m < 2 ^ 53.
Proof.
  unfold bounded, canonical_mantissa, fexp, emin, prec64, emax64. rewrite andb_true_iff.
  intros [Hc He]. apply Z.eqb_eq in Hc. apply Z.leb_le in He.
  destruct (Zdigits2_pos (Zpos m) ltac:(lia)) as (Hd & Hlo & Hhi).
  unfold target_exp. simpl Zdigits2 in *.
  pose proof (Z.pow_le_mono_r 2 (Zpos (digits2_pos m)) 53). lia.
Qed.

Lemma bounded_roundable m e : bounded prec64 emax64 m e = true -> roundable (Zpos m) e.
Proof. intros (Ht & ? & ?)%bounded_target. unfold roundable, bias. lia. Qed.

Lemma round64_fix m e : bounded prec64 emax64 m e = true ->
  round64 (Zpos m) e = S754_finite false m e.
Proof.
  intros (Ht & He & Hm)%bounded_target. unfold round64. rewrite Ht.
  pose proof (pow2_pos (e + bias) ltac:(unfold bias; lia)) as HP.
  pose proof (pow2_pos (e + bias - 1) ltac:(unfold bias; lia)) as HP'.
  assert (HS : 2 ^ (e + bias) = 2 * 2 ^ (e + bias - 1)).
  { rewrite <- Z.pow_succ_r by (unfold bias; lia). f_equal. lia. }
  assert (Hr : rne_val (Zpos m * 2 ^ (e + bias)) (e + bias) = Zpos m).
  { unfold rne_val, shr_val. rewrite Z.div_mul by lia.
    rewrite HS, Z.mul_assoc, Z.div_mul, Z.mod_mul by lia.
    rewrite Z.mul_comm, Z.odd_mul. done. }
  rewrite Hr. unfold mk_rounded.
  destruct (Z.eqb_spec (Zpos m) (2 ^ 53)); [lia|].
  destruct (Z.leb_spec e 971); [done|lia].
Qed.

Lemma round64_nonneg M E y : roundable M E -> nonneg y ->
  f64_leb (round64 M E) y = true -> nonneg (round64 M E).
Proof.
  intros Hr Hy Hle. pose proof (roundable_pair _ _ Hr) as (He & HR & HN).
  unfold round64, mk_rounded in *.
  destruct (rne_val _ _) as [|p|p] eqn:Ep; [done| |lia].
  assert (Hninf : f64_leb (S754_infinity false) y = false).
  { destruct y as [[]| | |[]]; try done. }
  unfold nonneg, bounded, canonical_mantissa, fexp, emin, prec64, emax64.
  destruct (Z.eqb_spec (Zpos p) (2 ^ 53)).
  - destruct (Z.leb_spec (target_exp M E + 1) 971); [|congruence].
    rewrite andb_true_iff, Z.eqb_eq, Z.leb_le.
    change (Zpos (digits2_pos (2 ^ 52))) with 53. lia.
  - destruct (Z.leb_spec (target_exp M E) 971); [|congruence].
    rewrite andb_true_iff, Z.eqb_eq, Z.leb_le.
    pose proof (Zdigits2_le (Zpos p) 53 ltac:(lia) ltac:(lia)) as Hd. simpl Zdigits2 in Hd.
    destruct (decide (-1074 < target_exp M E)); [|lia].
    pose proof (Zdigits2_ge (Zpos p) 52 ltac:(lia) ltac:(lia)) as Hd'. simpl Zdigits2 in Hd'. lia.
Qed.

Lemma fv_nonneg x : 0 <= fv x.
Proof.
  destruct x as [| | |[] m e]; simpl; lia.
Qed.

Lemma fv_pos m e : bounded prec64 emax64 m e = true -> 0 < fv (S754_finite false m e).
Proof.
  intros (_ & He & _)%bounded_target. simpl.
  apply Z.mul_pos_pos; [lia | apply pow2_pos; unfold bias; lia].
Qed.

Lemma fv_leb x y : nonneg x -> nonneg y -> fv x <= fv y -> f64_leb x y = true.
Proof.
  intros Hx Hy Hle.
  destruct x as [s1| | |[] m1 e1]; try done; destruct y as [s2| | |[] m2 e2]; try done.
  - pose proof (fv_pos _ _ Hx). simpl in Hle, H. lia.
  - rewrite <- (round64_fix m1 e1 Hx), <- (round64_fix m2 e2 Hy).
    apply round64_mono; [by apply bounded_roundable.. | done].
Qed.

Lemma leb_fv x y : nonneg x -> nonneg y -> f64_leb x y = true -> fv x <= fv y.
Proof.
  intros Hx Hy Hle. destruct (Z.le_gt_cases (fv x) (fv y)) as [|Hgt]; [done|].
  assert (Hle' : f64_leb y x = true) by (apply fv_leb; [done..|lia]).
  apply f64_leb_key in Hle as (_ & _ & H1), Hle' as (_ & _ & H2).
  destruct x as [s1| | |[] m1 e1]; try done; destruct y as [s2| | |[] m2 e2]; try done;
    unfold key_le in *; simpl in H1, H2; try lia.
  assert (e1 = e2) by lia. assert (Zpos m1 = Zpos m2) by lia. simplify_eq. lia.
Qed.

(** ** Monotone arithmetic *)

Lemma iter_xO d m : Zpos (Pos.iter xO m d) = Zpos m * 2 ^ Zpos d.
Proof.
  induction d as [|d IH] using Pos.peano_ind; [simpl; lia|].
  rewrite Pos.iter_succ. rewrite Pos2Z.inj_succ, Z.pow_succ_r by lia. lia.
Qed.

Lemma shl_align_value m e e' : - bias <= e' -> - bias <= e ->
  Zpos (shl_align m e e').1 * 2 ^ ((shl_align m e e').2 + bias) = Zpos m * 2 ^ (e + bias)
  /\ (shl_align m e e').2 = Z.min e e'.
Proof.
  intros Hb' Hb. unfold shl_align. destruct (e' - e) as [|p|p] eqn:He; simpl; split; try lia.
  change (PosDef.Pos.iter xO m p) with (Pos.iter xO m p). rewrite iter_xO.
  rewrite <- Z.mul_assoc. rewrite <- Z.pow_add_r by lia. f_equal. f_equal. lia.
Qed.

Lemma binary_round_value M E : - bias < E ->
  exists M' E', roundable M' E' /\ binary_round prec64 emax64 false M E = round64 M' E'
    /\ M' * 2 ^ (E' + bias) = Zpos M * 2 ^ (E + bias).
Proof.
  intros Hb. unfold binary_round.
  change (fexp prec64 emax64 (Zpos (digits2_pos M) + E)) with (target_exp (Zpos M) E).
  set (t := target_exp (Zpos M) E).
  assert (Ht : - bias <= t) by (unfold t, target_exp, bias; lia).
  destruct (shl_align_value M E t Ht ltac:(lia)) as [Hv He].
  destruct (shl_align M E t) as [mz ez] eqn:Eq. simpl in *. subst ez.
  exists (Zpos mz), (Z.min E t). split_and!; [|unfold round64; apply round_aux_spec|done]; [|lia| |].
  1: split_and!; [lia| |unfold t, target_exp, bias in *; lia].
  1,2: apply Z.le_trans with t; [lia|].
  3: unfold t, target_exp, bias in *; lia.
  1,2: assert (Hsame : target_exp (Zpos M) E <= target_exp (Zpos mz) (Z.min E t));
    [|unfold t at 1; lia].
  1,2: apply target_exp_mono; [lia|lia|done| |lia]; unfold t, target_exp, bias in *; lia.
Qed.

Lemma f64_add_round x y : nonneg x -> nonneg y -> 0 < fv x + fv y ->
  exists M E, roundable M E /\ f64_add x y = round64 M E /\ M * 2 ^ (E + bias) = fv x + fv y.
Proof.
  intros Hx Hy Hpos.
  destruct x as [s1| | |[] m1 e1]; try done; destruct y as [s2| | |[] m2 e2]; try done.
  - exists (Zpos m2), e2. split_and!; [by apply bounded_roundable | by rewrite round64_fix | done].
  - exists (Zpos m1), e1. split_and!; [by apply bounded_roundable | by rewrite round64_fix | simpl; lia].
  - destruct (bounded_target _ _ Hx) as (_ & He1 & _), (bounded_target _ _ Hy) as (_ & He2 & _).
    unfold f64_add, SFadd. set (ez := Z.min e1 e2).
    assert (Hez : - bias < ez) by (unfold ez, bias; lia).
    destruct (shl_align_value m1 e1 ez) as [Hv1 Hz1]; [lia | unfold bias; lia|].
    destruct (shl_align_value m2 e2 ez) as [Hv2 Hz2]; [lia | unfold bias; lia|].
    rewrite Hz1 in Hv1. rewrite Hz2 in Hv2.
    replace (Z.min e1 ez) with ez in Hv1 by lia. replace (Z.min e2 ez) with ez in Hv2 by lia.
    cbn [cond_Zopp]. rewrite <- Pos2Z.inj_add. unfold binary_normalize.
    destruct (binary_round_value ((shl_align m1 e1 ez).1 + (shl_align m2 e2 ez).1) ez Hez)
      as (M & E & HR & Heq & Hval).
    exists M, E. split_and!; [done..|]. rewrite Hval. simpl fv. rewrite <- Hv1, <- Hv2.
    rewrite Pos2Z.inj_add. lia.
Qed.

Lemma f64_mul_round x y : nonneg x -> nonneg y -> 0 < fv x -> 0 < fv y ->
  exists M E, roundable M E /\ f64_mul x y = round64 M E
    /\ M * 2 ^ (E + bias) * 2 ^ bias = fv x * fv y.
Proof.
  intros Hx Hy Px Py.
  destruct x as [s1| | |[] m1 e1]; try done; destruct y as [s2| | |[] m2 e2]; try done.
  pose proof (bounded_target _ _ Hx) as (Ht1 & He1 & Hm1).
  pose proof (bounded_target _ _ Hy) as (Ht2 & He2 & Hm2).
  assert (HR : roundable (Zpos (m1 * m2)) (e1 + e2)).
  { split_and!; [lia| |unfold bias; lia]. unfold target_exp in *.
    destruct (Zdigits2_pos (Zpos m1) ltac:(lia)) as (D1 & L1 & _).
    destruct (Zdigits2_pos (Zpos m2) ltac:(lia)) as (D2 & L2 & _).
    rewrite Pos2Z.inj_mul.
    destruct (decide (e1 = -1074 /\ e2 = -1074)) as [|Hn]; [lia|].
    assert (53 <= Zdigits2 (Zpos m1) \/ 53 <= Zdigits2 (Zpos m2)) as [Hd|Hd] by lia.
    - pose proof (Z.pow_le_mono_r 2 52 (Zdigits2 (Zpos m1) - 1)).
      pose proof (Zdigits2_ge (Zpos m1 * Zpos m2) 52 ltac:(nia) ltac:(lia)). lia.
    - pose proof (Z.pow_le_mono_r 2 52 (Zdigits2 (Zpos m2) - 1)).
      pose proof (Zdigits2_ge (Zpos m1 * Zpos m2) 52 ltac:(nia) ltac:(lia)). lia. }
  exists (Zpos (m1 * m2)), (e1 + e2). split_and!; [done| |].
  - unfold f64_mul, SFmul. destruct HR as (? & ? & ?). by apply round_aux_spec.
  - simpl fv. rewrite Pos2Z.inj_mul.
    replace (2 ^ (e1 + e2 + bias) ) with (2 ^ (e1 + e2 + bias)) by done.
    transitivity (Zpos m1 * Zpos m2 * (2 ^ (e1 + e2 + bias) * 2 ^ bias)); [lia|].
    rewrite <- Z.pow_add_r by (unfold bias; lia).
    replace (e1 + e2 + bias + bias) with ((e1 + bias) + (e2 + bias)) by lia.
    rewrite Z.pow_add_r by (unfold bias; lia). lia.
Qed.

Lemma round64_ge_zero M E x : roundable M E -> nonneg x -> fv x = 0 -> f64_leb x (round64 M E) = true.
Proof.
  intros Hr Hx Hz. destruct (roundable_pair _ _ Hr) as (_ & HR & _).
  destruct x as [s| | |[] m e]; try done; [|pose proof (fv_pos _ _ Hx); lia].
  unfold round64, mk_rounded. destruct (rne_val _ _); try lia; repeat case_match; done.
Qed.

Lemma f64_add_mono x x' y y' : nonneg x -> nonneg x' -> nonneg y -> nonneg y' ->
  f64_leb x x' = true -> f64_leb y y' = true -> f64_leb (f64_add x y) (f64_add x' y') = true.
Proof.
  intros Hx Hx' Hy Hy' Lx Ly. apply leb_fv in Lx, Ly; [|done..].
  pose proof (fv_nonneg x). pose proof (fv_nonneg y).
  destruct (decide (fv x' + fv y' = 0)) as [Hz|Hnz].
  { destruct x as [[]| | |[] m1 e1]; try done; try (pose proof (fv_pos _ _ Hx); lia);
    destruct x' as [[]| | |[] m2 e2]; try done; try (pose proof (fv_pos _ _ Hx'); lia);
    destruct y as [[]| | |[] m3 e3]; try done; try (pose proof (fv_pos _ _ Hy); lia);
    destruct y' as [[]| | |[] m4 e4]; try done; try (pose proof (fv_pos _ _ Hy'); lia). }
  destruct (f64_add_round x' y') as (M' & E' & HR' & -> & HV'); [done..|lia|]. 
  destruct (decide (fv x + fv y = 0)) as [Hz|Hnz'].
  { assert (nonneg (f64_add x y) /\ fv (f64_add x y) = 0) as [Hs1 Hs2].
    { destruct x as [[]| | |[] m1 e1]; try done; try (pose proof (fv_pos _ _ Hx); lia);
      destruct y as [[]| | |[] m3 e3]; try done; try (pose proof (fv_pos _ _ Hy); lia). }
    by apply round64_ge_zero. }
  destruct (f64_add_round x y) as (M & E & HR & -> & HV); [done..|lia|]. 
  apply round64_mono; [done..|lia].
Qed.

Lemma f64_mul_mono_r c x x' : nonneg c -> nonneg x -> nonneg x' ->
  f64_leb x x' = true -> f64_leb (f64_mul c x) (f64_mul c x') = true.
Proof.
  intros Hc Hx Hx' Lx. pose proof (leb_fv _ _ Hx Hx' Lx) as Lv.
  pose proof (fv_nonneg x). pose proof (fv_nonneg c).
  destruct c as [[]| | |[] mc ec]; try done.
  1,2: destruct x as [[]| | |[]]; try done; destruct x' as [[]| | |[]]; done.
  pose proof (fv_pos _ _ Hc).
  destruct x' as [s'| | |[] m' e']; try done.
  { destruct x as [[]| | |[] m e]; try done; destruct s'; done. }
  pose proof (fv_pos _ _ Hx').
  destruct (f64_mul_round _ _ Hc Hx' ltac:(done) ltac:(done)) as (M' & E' & HR' & -> & HV').
  destruct x as [s| | |[] m e]; try done.
  { by apply round64_ge_zero. }
  pose proof (fv_pos _ _ Hx).
  destruct (f64_mul_round _ _ Hc Hx ltac:(done) ltac:(done)) as (M & E & HR & -> & HV).
  apply round64_mono; [done..|].
  pose proof (pow2_pos bias ltac:(unfold bias; lia)) as HB. nia.
Qed.

Lemma f64_add_0_r x : nonneg x -> f64_leb x (f64_add x f64_zero) = true.
Proof.
  destruct x as [[]| | |[] m e]; try done.
  intros _. change (f64_add (S754_finite false m e) f64_zero) with (S754_finite false m e).
  by apply f64_leb_refl.
Qed.

(** Adding a non-negative amount never decreases. *)
Lemma f64_add_ge_l x y : nonneg x -> nonneg y -> f64_leb x (f64_add x y) = true.
Proof.
  intros Hx Hy. eapply f64_leb_trans; [by apply f64_add_0_r|].
  apply f64_add_mono; try done.
  - by apply f64_leb_refl, nonneg_not_nan.
  - apply fv_leb; try done. apply fv_nonneg.
Qed.

Lemma f64_add_nonneg x y z : nonneg x -> nonneg y -> nonneg z ->
  f64_leb (f64_add x y) z = true -> nonneg (f64_add x y).
Proof.
  intros Hx Hy Hz Hle. destruct (decide (fv x + fv y = 0)) as [H0|H0].
  - destruct x as [[]| | |[] m1 e1]; try done; try (pose proof (fv_pos _ _ Hx));
      destruct y as [[]| | |[] m2 e2]; try done; try (pose proof (fv_pos _ _ Hy));
      simpl in *; lia.
  - pose proof (fv_nonneg x). pose proof (fv_nonneg y).
    destruct (f64_add_round x y) as (M & E & HR & Heq & _); [done..|lia|].
    rewrite Heq in *. by eapply round64_nonneg.
Qed.

Lemma f64_mul_nonneg x y z : nonneg x -> nonneg y -> nonneg z ->
  f64_leb (f64_mul x y) z = true -> nonneg (f64_mul x y).
Proof.
  intros Hx Hy Hz Hle.
  destruct x as [s1| | |[] m1 e1]; try done; destruct y as [s2| | |[] m2 e2]; try done.
  destruct (f64_mul_round _ _ Hx Hy (fv_pos _ _ Hx) (fv_pos _ _ Hy)) as (M & E & HR & Heq & _).
  rewrite Heq in *. by eapply round64_nonneg.
Qed.

(** Scaling by a factor of at most 1 never increases. *)
Lemma f64_mul_le_l x c : nonneg x -> nonneg c -> f64_leb c f64_one = true ->
  nonneg (f64_mul x c) /\ f64_leb (f64_mul x c) x = true.
Proof.
  intros Hx Hc Hle. assert (H1 : nonneg f64_one) by (by vm_compute).
  assert (Hm : f64_leb (f64_mul x c) x = true).
  { eapply f64_leb_trans; [by apply f64_mul_mono_r|].
    destruct x as [[]| | |[] m e]; try done.
    destruct (f64_mul_round _ _ Hx H1 (fv_pos _ _ Hx) ltac:(by vm_compute)) as (M & E & HR & -> & HV).
    rewrite <- (round64_fix m e Hx). apply round64_mono; [done|by apply bounded_roundable|].
    assert (Hone : fv f64_one = 2 ^ bias) by (by vm_compute). rewrite Hone in HV.
    pose proof (pow2_pos bias ltac:(unfold bias; lia)). simpl fv in HV.
    apply Z.mul_reg_r in HV; lia. }
  split; [|done]. by apply (f64_mul_nonneg x c x).
Qed.

(** ** Division

    The quotient's location bits are two further binary digits of an exact
    mantissa, so a division rounds like an exact value. *)

Definition loc_quarters (l : location) : Z :=
  match l with
  | loc_Exact => 0
  | loc_Inexact Lt => 1
  | loc_Inexact Eq => 2
  | loc_Inexact Gt => 3
  end.

Lemma loc_quarters_range l : 0 <= loc_quarters l <= 3.
Proof. destruct l as [|[]]; simpl; lia. Qed.

Lemma shr_record_quarters q l : 0 <= q ->
  shr_record_of_loc q l = Nat.iter 2 shr_1 (Build_shr_record (4 * q + loc_quarters l) false false).
Proof.
  intros Hq. pose proof (loc_quarters_range l). rewrite shr_iter by lia. unfold shr_ref.
  change (2 ^ Z.of_nat 2) with 4. change (2 ^ Z.of_nat 1) with 2.
  replace ((4 * q + loc_quarters l) / 4) with q by (apply (Z.div_unique _ 4 q (loc_quarters l)); lia).
  replace ((4 * q + loc_quarters l) / 2) with (2 * q + loc_quarters l / 2)
    by (rewrite <- (Z.div_add_l (2 * q)) by lia; f_equal; lia).
  replace ((4 * q + loc_quarters l) mod 2) with (loc_quarters l mod 2)
    by (rewrite <- (Z.mod_add (loc_quarters l) (2 * q)) by lia; f_equal; lia).
  rewrite Z.odd_add, Z.odd_mul. by destruct l as [|[]].
Qed.

Lemma target_quarters q l e : 0 < q -> target_exp (4 * q + loc_quarters l) (e - 2) = target_exp q e.
Proof.
  intros Hq. pose proof (loc_quarters_range l). unfold target_exp.
  destruct (Zdigits2_pos q Hq) as (Hd & Hlo & Hhi).
  pose proof (Zdigits2_le (4 * q + loc_quarters l) (Zdigits2 q + 2)) as Hle.
  pose proof (Zdigits2_ge (4 * q + loc_quarters l) (Zdigits2 q + 1)) as Hge.
  rewrite Z.pow_add_r in Hle by lia.
  replace (Zdigits2 q + 1) with (Zdigits2 q - 1 + 2) in Hge by lia.
  rewrite Z.pow_add_r in Hge by lia. change (2 ^ 2) with 4 in *. lia.
Qed.

Lemma target_quarters_zero l e : -1074 <= e ->
  e <= -1074 -> target_exp (4 * 0 + loc_quarters l) (e - 2) = -1074 /\ target_exp 0 e = -1074.
Proof. unfold target_exp. destruct l as [|[]]; simpl; lia. Qed.

Lemma round_aux_quarters q l e : 0 <= q -> 0 < 4 * q + loc_quarters l -> -1074 <= e ->
  (q = 0 -> e = -1074) -> e <= target_exp q e ->
  roundable (4 * q + loc_quarters l) (e - 2) /\
  binary_round_aux prec64 emax64 false q e l = round64 (4 * q + loc_quarters l) (e - 2).
Proof.
  intros Hq HM He Hz Ht.
  assert (Hsame : target_exp (4 * q + loc_quarters l) (e - 2) = target_exp q e).
  { destruct (decide (q = 0)) as [->|]; [|apply target_quarters; lia].
    destruct (target_quarters_zero l e) as [-> ->]; lia. }
  assert (HR : roundable (4 * q + loc_quarters l) (e - 2)) by (unfold roundable, bias; lia).
  split; [done|]. unfold round64. rewrite <- round_aux_spec by (unfold roundable in HR; lia).
  unfold binary_round_aux. rewrite (shr_fexp_ref (4 * q + loc_quarters l)) by lia.
  rewrite Hsame.
  assert (Hl : shr_fexp prec64 emax64 q e l =
    (shr_ref (4 * q + loc_quarters l) (Z.to_nat (target_exp q e - (e - 2))),
     e - 2 + Z.max 0 (target_exp q e - (e - 2)))).
  { unfold shr_fexp, fexp, emin, prec64, emax64.
    change (3 - 1024 - 53) with (-1074). fold (target_exp q e).
    rewrite shr_record_quarters by done.
    replace (Z.to_nat (target_exp q e - (e - 2))) with (Z.to_nat (target_exp q e - e) + 2)%nat by lia.
    rewrite <- shr_iter, Nat.iter_add by lia.
    destruct (target_exp q e - e) as [|p|p] eqn:Hn; unfold shr.
    - f_equal; lia.
    - rewrite iter_pos_nat. f_equal; lia.
    - lia. }
  by rewrite Hl.
Qed.

(** Dividing a non-negative float by a constant [m2 * 2^-t] of at least 2
    gives a non-negative float no larger than the dividend. *)
Lemma f64_div_le x m2 t : nonneg x -> 0 <= t -> 2 * 2 ^ t <= Zpos m2 ->
  nonneg (f64_div x (S754_finite false m2 (- t))) /\
  f64_leb (f64_div x (S754_finite false m2 (- t))) x = true.
Proof.
  intros Hx Ht Hm2. destruct x as [[]| | |[] m1 e1]; try done.
  enough (exists M E, roundable M E /\ f64_div (S754_finite false m1 e1) (S754_finite false m2 (- t)) = round64 M E
            /\ M * 2 ^ (E + bias) <= fv (S754_finite false m1 e1)) as (M & E & HR & Heq & HV).
  { assert (Hle : f64_leb (round64 M E) (S754_finite false m1 e1) = true).
    { rewrite <- (round64_fix m1 e1 Hx). by apply round64_mono, HV; [|apply bounded_roundable]. }
    rewrite Heq. split; [|done]. by eapply round64_nonneg. }
  destruct (bounded_target _ _ Hx) as (_ & He1 & _).
  unfold f64_div, SFdiv, SFdiv_core_binary. cbn [xorb].
  change (fexp prec64 emax64 ?d) with (Z.max (d - 53) (-1074)).
  set (d1 := Zdigits2 (Zpos m1)). set (d2 := Zdigits2 (Zpos m2)).
  set (e' := Z.min (Z.max (d1 + e1 - (d2 + - t) - 53) (-1074)) (e1 - - t)).
  set (s := e1 - - t - e').
  assert (Hs : 0 <= s) by lia.
  replace (match s with Z0 => _ | Zpos _ => _ | Zneg _ => _ end) with (Zpos m1 * 2 ^ s)
    by (destruct s; [lia|by rewrite Z.shiftl_mul_pow2 by lia|lia]).
  pose proof (pow2_pos s Hs) as Hps. pose proof (pow2_pos t Ht) as Hpt.
  pose proof (Z_div_mod (Zpos m1 * 2 ^ s) (Zpos m2) ltac:(lia)) as Hdiv.
  destruct (Z.div_eucl (Zpos m1 * 2 ^ s) (Zpos m2)) as [q r]. destruct Hdiv as [Hqr Hr].
  set (l := new_location (Zpos m2) r).
  assert (Hq : 0 <= q) by nia.
  assert (Hk : q = 0 -> 0 < loc_quarters l).
  { intros ->. assert (0 < r) by nia. unfold l, new_location, new_location_even, new_location_odd.
    destruct (Z.eqb_spec r 0); [lia|]. repeat case_match; simpl; repeat case_match; lia. }
  destruct (Zdigits2_pos (Zpos m1) ltac:(lia)) as (Hd1 & Hlo1 & Hhi1).
  destruct (Zdigits2_pos (Zpos m2) ltac:(lia)) as (Hd2 & Hlo2 & Hhi2).
  fold d1 in Hd1, Hlo1, Hhi1. fold d2 in Hd2, Hlo2, Hhi2.
  assert (Hz : q = 0 -> e' = -1074).
  { intros ->. assert (d1 + s <= d2); [|lia]. apply Z.nlt_ge. intros Hgt.
    pose proof (Z.pow_le_mono_r 2 d2 (d1 - 1 + s) ltac:(lia) ltac:(lia)) as Hp.
    rewrite Z.pow_add_r in Hp by lia. nia. }
  assert (Htar : e' <= target_exp q e').
  { destruct (decide (q = 0)) as [->|Hn]; [rewrite Hz by done; unfold target_exp; simpl; lia|].
    unfold target_exp. enough (d1 + s - d2 <= Zdigits2 q) by lia.
    destruct (Zdigits2_pos q ltac:(lia)) as (Hdq & _ & Hhq). apply Z.nlt_ge. intros Hgt.
    pose proof (Z.pow_le_mono_r 2 (Zdigits2 q + d2) (d1 - 1 + s) ltac:(lia) ltac:(lia)) as Hp.
    rewrite !Z.pow_add_r in Hp by lia. nia. }
  destruct (round_aux_quarters q l e') as [HR Heq]; [lia| |lia|done|done|].
  { destruct (decide (q = 0)); [specialize (Hk ltac:(done)); lia|]. pose proof (loc_quarters_range l). lia. }
  exists (4 * q + loc_quarters l), (e' - 2). split_and!; [done|done|]. simpl fv.
  pose proof (loc_quarters_range l) as Hl.
  destruct (decide (q = 0)) as [->|Hn].
  - pose proof (Z.pow_le_mono_r 2 (2 + (e' - 2 + bias)) (e1 + bias) ltac:(lia) ltac:(rewrite Hz by done; lia)) as Hp.
    rewrite Z.pow_add_r in Hp by (unfold bias; lia). change (2 ^ 2) with 4 in Hp.
    pose proof (pow2_pos (e' - 2 + bias) ltac:(unfold bias; lia)). nia.
  - pose proof (pow2_pos (e' - 2 + bias) ltac:(unfold bias; lia)) as HP.
    assert (Hx4 : Zpos m1 * 2 ^ (e1 + bias) * 2 ^ t = 4 * (Zpos m1 * 2 ^ s) * 2 ^ (e' - 2 + bias)).
    { change 4 with (2 ^ 2).
      transitivity (Zpos m1 * (2 ^ (e1 + bias) * 2 ^ t)); [lia|].
      transitivity (Zpos m1 * (2 ^ 2 * 2 ^ s * 2 ^ (e' - 2 + bias))); [|lia].
      rewrite <- !Z.pow_add_r by (unfold bias; lia). do 2 f_equal. lia. }
    assert (H1 : (4 * q + loc_quarters l) * 2 ^ t <= 8 * q * 2 ^ t) by (apply Z.mul_le_mono_nonneg_r; lia).
    assert (H2 : q * (2 * 2 ^ t) <= q * Zpos m2) by (apply Z.mul_le_mono_nonneg_l; lia).
    assert ((4 * q + loc_quarters l) * 2 ^ t <= 4 * (Zpos m1 * 2 ^ s)) by lia.
    apply (Z.mul_le_mono_pos_r _ _ (2 ^ t)); [done|]. rewrite Hx4.
    transitivity ((4 * q + loc_quarters l) * 2 ^ t * 2 ^ (e' - 2 + bias)); [lia|].
    apply Z.mul_le_mono_nonneg_r; lia.
Qed.

(** ** Conversions *)

(** [int(x)]: truncation toward zero.  The conversion of NaN, of an infinity
    or of a value outside the integer type is implementation-specific in Go;
    the components only convert values they keep in range. *)
Definition f64_trunc (x : f64) : Z :=
  match x with
  | S754_finite s m e =>
      let a := if 0 <=? e then Zpos m * 2 ^ e else Zpos m / 2 ^ (- e) in
      if s then - a else a
  | _ => 0
  end.

Lemma f64_trunc_fv x : nonneg x -> f64_trunc x = fv x / 2 ^ bias.
Proof.
  destruct x as [[]| | |[] m e]; try done. intros (_ & He & _)%bounded_target. simpl.
  pose proof (pow2_pos bias ltac:(unfold bias; lia)) as HB.
  destruct (Z.leb_spec 0 e).
  - rewrite Z.pow_add_r by (unfold bias; lia). rewrite Z.mul_assoc, Z.div_mul by lia. done.
  - replace bias with ((e + bias) + (- e)) at 2 by lia. rewrite scale_div; unfold bias; lia.
Qed.

Lemma f64_trunc_mono x y : nonneg x -> nonneg y -> f64_leb x y = true ->
  0 <= f64_trunc x <= f64_trunc y.
Proof.
  intros Hx Hy Hle. rewrite !f64_trunc_fv by done.
  pose proof (pow2_pos bias ltac:(unfold bias; lia)) as HB.
  pose proof (leb_fv x y Hx Hy Hle). pose proof (fv_nonneg x).
  split; [by apply Z.div_pos | by apply Z.div_le_mono].
Qed.

Lemma f64_of_Z_nonneg n : 0 <= n <= 2 ^ 63 -> nonneg (f64_of_Z n).
Proof.
  intros Hn. destruct n as [|p|p]; [done| |lia]. unfold f64_of_Z, binary_normalize.
  destruct (binary_round_value p 0 ltac:(unfold bias; lia)) as (M & E & HR & -> & HV).
  apply (round64_nonneg _ _ (S754_finite false (2 ^ 52)%positive 11)); [done..|].
  rewrite <- (round64_fix _ 11) by done. apply round64_mono; [done|by apply bounded_roundable|].
  rewrite HV. rewrite (Z.pow_add_r 2 11) by (unfold bias; lia).
  pose proof (pow2_pos bias ltac:(unfold bias; lia)). change (0 + bias) with bias. nia.
Qed.
