(* ===== verification/GoString.v ===== *)
(** * Go strings

    A Go [string] is a sequence of bytes; [for range], [regexp] and the
    Unicode-aware functions of [strings] decode it as UTF-8.  This file holds
    what the source uses of [strings], [unicode/utf8], [strconv] and
    [net/url.PathUnescape], executable and at byte level, with the lemmas the
    components share. *)

From Stdlib Require Import Ascii.
From Stdlib Require OrdersEx.
From S2P Require Import Prelude.

Open Scope string_scope.
Open Scope Z_scope.

#[global] Arguments String.append !_ _ : simpl nomatch.

(** ** Bytes and runes *)

Definition byteval (a : ascii) : Z := Z.of_N (N_of_ascii a).

Definition chr (n : N) : ascii := ascii_of_N n.

(** A string in double quotes, as attribute selectors write it. *)
Definition quoted (s : string) : string := String (chr 34) "" ++ s ++ String (chr 34) "".

Definition len (s : string) : Z := Z.of_nat (String.length s).

Definition RuneError : Z := 65533.

Definition isCont (a : ascii) : bool := (128 <=? byteval a) && (byteval a <=? 191).

Definition between (lo hi : Z) (a : ascii) : bool := (lo <=? byteval a) && (byteval a <=? hi).

(** The range allowed for the byte after a lead byte (it excludes overlong
    encodings, surrogates and values above U+10FFFF). *)
Definition second_ok (lead b : ascii) : bool :=
  match byteval lead with
  | 224 => between 160 191 b
  | 237 => between 128 159 b
  | 240 => between 144 191 b
  | 244 => between 128 143 b
  | _ => isCont b
  end.

(** The sequence of runes with the bytes each one occupies; an invalid byte is
    [RuneError] of width 1, as [utf8.DecodeRuneInString] returns it. *)
Fixpoint decode (s : string) : list (Z * string) :=
  match s with
  | EmptyString => []
  | String b0 s1 =>
      let bad := (RuneError, String b0 EmptyString) in
      if byteval b0 <? 128 then (byteval b0, String b0 EmptyString) :: decode s1
      else if between 194 223 b0 then
        match s1 with
        | String b1 s2 =>
            if isCont b1
            then ((byteval b0 - 192) * 64 + (byteval b1 - 128), String b0 (String b1 EmptyString)) :: decode s2
            else bad :: decode s1
        | EmptyString => [bad]
        end
      else if between 224 239 b0 then
        match s1 with
        | String b1 ((String b2 s3) as s2) =>
            if second_ok b0 b1 && isCont b2
            then ((byteval b0 - 224) * 4096 + (byteval b1 - 128) * 64 + (byteval b2 - 128),
                  String b0 (String b1 (String b2 EmptyString))) :: decode s3
            else bad :: decode s1
        | _ => bad :: decode s1
        end
      else if between 240 244 b0 then
        match s1 with
        | String b1 (String b2 (String b3 s4)) =>
            if second_ok b0 b1 && isCont b2 && isCont b3
            then ((byteval b0 - 240) * 262144 + (byteval b1 - 128) * 4096 +
                  (byteval b2 - 128) * 64 + (byteval b3 - 128),
                  String b0 (String b1 (String b2 (String b3 EmptyString)))) :: decode s4
            else bad :: decode s1
        | _ => bad :: decode s1
        end
      else bad :: decode s1
  end.

Definition runes (s : string) : list Z := map fst (decode s).

Definition badRune (p : Z * string) : bool := (p.1 =? RuneError) && (String.length p.2 =? 1)%nat.

(** [utf8.ValidString] *)
Definition validUTF8 (s : string) : bool := negb (existsb badRune (decode s)).

Definition concat_bytes (l : list (Z * string)) : string := String.concat "" (map snd l).

(** ** [strings] *)

Definition HasPrefix (s p : string) : bool := String.prefix p s.

Fixpoint Contains (s sub : string) : bool :=
  HasPrefix s sub || match s with EmptyString => false | String _ rest => Contains rest sub end.

Fixpoint str_rev (acc s : string) : string :=
  match s with EmptyString => acc | String a rest => str_rev (String a acc) rest end.

Definition HasSuffix (s p : string) : bool := String.prefix (str_rev "" p) (str_rev "" s).

Definition TrimPrefix (s p : string) : string :=
  if HasPrefix s p then String.substring (String.length p) (String.length s - String.length p) s else s.

Definition TrimSuffix (s p : string) : string :=
  if HasSuffix s p then String.substring 0 (String.length s - String.length p) s else s.

(** [strings.Cut(s, string(c))] for a one-byte separator. *)
Fixpoint CutByte (c : ascii) (s : string) : string * string * bool :=
  match s with
  | EmptyString => ("", "", false)
  | String a rest =>
      if Ascii.eqb a c then ("", rest, true)
      else let '(before, after, found) := CutByte c rest in
           (String a before, after, found)
  end.

(** [strings.Split(s, string(c))]. *)
Fixpoint SplitByte (c : ascii) (s : string) : list string :=
  match s with
  | EmptyString => [""]
  | String a rest =>
      if Ascii.eqb a c then "" :: SplitByte c rest
      else match SplitByte c rest with
           | [] => [String a ""]
           | w :: ws => String a w :: ws
           end
  end.

(** [strings.Join(ws, sep)] *)
Definition Join (sep : string) (ws : list string) : string := String.concat sep ws.

(** [unicode.IsSpace] *)
Definition IsSpace (r : Z) : bool :=
  ((9 <=? r) && (r <=? 13)) || (r =? 32) || (r =? 133) || (r =? 160) || (r =? 5760) ||
  ((8192 <=? r) && (r <=? 8202)) || (r =? 8232) || (r =? 8233) || (r =? 8239) || (r =? 8287) || (r =? 12288).

Fixpoint dropSpace (l : list (Z * string)) : list (Z * string) :=
  match l with
  | p :: rest => if IsSpace p.1 then dropSpace rest else l
  | [] => []
  end.

(** UTF-8 is self-synchronising, so decoding from the end (as [TrimRight] does)
    finds the same trailing white space as decoding from the start. *)
Definition TrimSpace (s : string) : string :=
  concat_bytes (reverse (dropSpace (reverse (dropSpace (decode s))))).

(** [strings.Fields]: the maximal runs of non-space runes. *)
Fixpoint fields_loop (cur : string) (l : list (Z * string)) : list string :=
  match l with
  | [] => if decide (cur = "") then [] else [cur]
  | (r, b) :: rest =>
      if IsSpace r then ((if decide (cur = "") then [] else [cur]) ++ fields_loop "" rest)%list
      else fields_loop (cur ++ b) rest
  end.

Definition Fields (s : string) : list string := fields_loop "" (decode s).

(** [strings.ToLower].  Two non-ASCII letters lower to ASCII ones (U+0130 to
    [i], U+212A to [k]); every other non-ASCII rune has a non-ASCII image, which
    the model takes to be itself: the source compares the result with, or
    searches it for, ASCII text, or lowers host names, which are ASCII. *)
Definition lowerRune (p : Z * string) : string :=
  let '(r, b) := p in
  if (65 <=? r) && (r <=? 90) then String (chr (Z.to_N (r + 32))) ""
  else if r =? 304 then "i"
  else if r =? 8490 then "k"
  else b.

Definition ToLower (s : string) : string := String.concat "" (map lowerRune (decode s)).

(** ** [strconv] *)

Definition digit (a : ascii) : option Z :=
  let v := byteval a in if (48 <=? v) && (v <=? 57) then Some (v - 48) else None.

Fixpoint digits (acc : Z) (s : string) : option Z :=
  match s with
  | EmptyString => Some acc
  | String a rest => match digit a with Some d => digits (acc * 10 + d) rest | None => None end
  end.

(** [strconv.Atoi]: an optional sign and decimal digits, in range of [int]. *)
Definition Atoi (s : string) : option Z :=
  let '(neg, body) := match s with
                      | String "-" rest => (true, rest)
                      | String "+" rest => (false, rest)
                      | _ => (false, s)
                      end in
  if decide (body = "") then None
  else match digits 0 body with
       | None => None
       | Some n =>
           let v := if neg : bool then - n else n in
           if (int64_min <=? v) && (v <=? int64_max) then Some v else None
       end.

(** ** [net/url.PathUnescape] *)

Definition unhex (a : ascii) : option Z :=
  let v := byteval a in
  if (48 <=? v) && (v <=? 57) then Some (v - 48)
  else if (97 <=? v) && (v <=? 102) then Some (v - 87)
  else if (65 <=? v) && (v <=? 70) then Some (v - 55)
  else None.

(** [None] is the [EscapeError] of a malformed escape. *)
Fixpoint PathUnescape (s : string) : option string :=
  match s with
  | EmptyString => Some ""
  | String "%" (String a (String b rest)) =>
      match unhex a, unhex b with
      | Some x, Some y => String (chr (Z.to_N (x * 16 + y))) <$> PathUnescape rest
      | _, _ => None
      end
  | String "%" _ => None
  | String a rest => String a <$> PathUnescape rest
  end.

(** ** Lemmas *)

Fixpoint allb (p : ascii -> bool) (s : string) : bool :=
  match s with EmptyString => true | String a rest => p a && allb p rest end.

Lemma byteval_range a : 0 <= byteval a < 256.
Proof.
  unfold byteval. pose proof (N_ascii_bounded a). lia.
Qed.

Lemma str_app_assoc (a b c : string) : (a ++ b) ++ c = a ++ (b ++ c).
Proof. induction a as [|x a IH]; cbn [String.append String.length allb str_rev]; [done|]. by rewrite IH. Qed.

Lemma str_app_nil_r (a : string) : a ++ "" = a.
Proof. induction a as [|x a IH]; cbn [String.append String.length allb str_rev]; [done|]. by rewrite IH. Qed.

Lemma str_length_app (a b : string) : String.length (a ++ b) = (String.length a + String.length b)%nat.
Proof. induction a as [|x a IH]; cbn [String.append String.length allb str_rev]; [done|]. by rewrite IH. Qed.

Lemma str_rev_app acc a b : str_rev acc (a ++ b) = str_rev (str_rev acc a) b.
Proof. revert acc. induction a as [|x a IH]; intros acc; cbn [String.append str_rev]; [done|]. by rewrite IH. Qed.

Lemma str_rev_acc acc s : str_rev acc s = str_rev "" s ++ acc.
Proof.
  revert acc. induction s as [|x s IH]; intros acc; cbn [str_rev]; [done|].
  rewrite IH, (IH (String x "")). rewrite str_app_assoc. done.
Qed.

Lemma str_rev_involutive s : str_rev "" (str_rev "" s) = s.
Proof.
  induction s as [|x s IH]; simpl; [done|].
  rewrite (str_rev_acc (String x "")), str_rev_app. cbn [str_rev String.append]. by rewrite IH.
Qed.

Lemma allb_app p a b : allb p (a ++ b) = allb p a && allb p b.
Proof. induction a as [|x a IH]; cbn [String.append String.length allb str_rev]; [done|]. by rewrite IH, andb_assoc. Qed.

Lemma allb_impl (p q : ascii -> bool) s : (forall a, p a = true -> q a = true) -> allb p s = true -> allb q s = true.
Proof.
  intros Hpq. induction s as [|a s IH]; simpl; [done|].
  rewrite !andb_true_iff. intros [H1 H2]. auto.
Qed.

Definition isASCII (a : ascii) : bool := byteval a <? 128.

(** ASCII strings decode byte by byte. *)
Lemma decode_ascii_cons a s : isASCII a = true -> decode (String a s) = (byteval a, String a "") :: decode s.
Proof. unfold isASCII. cbn [decode]. by intros ->. Qed.

(** Decoding loses no byte. *)
Lemma decode_concat s : concat_bytes (decode s) = s.
Proof.
  unfold concat_bytes.
  assert (Hc : forall p l, String.concat "" (map snd (p :: l)) = (p : Z * string).2 ++ String.concat "" (map snd l)).
  { intros p [|q l]; cbn; [by rewrite str_app_nil_r|done]. }
  enough (H : forall n s, (String.length s < n)%nat -> String.concat "" (map snd (decode s)) = s) by (eapply H; eauto).
  intros n. induction n as [|n IH]; intros [|b0 s1] Hn; [lia|lia|done|]. cbn [String.length] in Hn.
  assert (Hbad : String.concat "" (map snd ((RuneError, String b0 "") :: decode s1)) = String b0 s1).
  { rewrite Hc. cbn [snd String.append]. by rewrite IH by lia. }
  cbn [decode]. repeat case_match; subst; try exact Hbad; rewrite Hc; cbn [snd String.append]; rewrite ?IH by (simpl in *; lia); done.
Qed.

Lemma validUTF8_ascii s : allb isASCII s = true -> validUTF8 s = true.
Proof.
  unfold validUTF8. rewrite negb_true_iff.
  induction s as [|a s IH]; [done|]. cbn [allb]. rewrite andb_true_iff. intros [Ha Hs].
  rewrite decode_ascii_cons by done. cbn [existsb]. rewrite IH by done. rewrite orb_false_r.
  unfold badRune, isASCII, RuneError in *. cbn [fst snd]. apply Z.ltb_lt in Ha. lia.
Qed.

(** A word: printable ASCII bytes, none of them white space. *)
Definition wordByte (a : ascii) : bool := between 33 126 a.

Lemma wordByte_ascii a : wordByte a = true -> isASCII a = true.
Proof. unfold wordByte, between, isASCII. lia. Qed.

Lemma wordByte_space a : wordByte a = true -> IsSpace (byteval a) = false.
Proof. unfold wordByte, between, IsSpace. lia. Qed.

Lemma decode_word s : allb wordByte s = true -> Forall (fun p => IsSpace p.1 = false) (decode s).
Proof.
  induction s as [|a s IH]; [by constructor|]. cbn [allb]. rewrite andb_true_iff. intros [Ha Hs].
  rewrite decode_ascii_cons by (by apply wordByte_ascii). constructor; [|auto].
  by apply wordByte_space.
Qed.

Lemma dropSpace_none l : Forall (fun p => IsSpace p.1 = false) l -> dropSpace l = l.
Proof. destruct 1 as [|p l Hp]; [done|]. simpl. by rewrite Hp. Qed.

Lemma TrimSpace_word s : allb wordByte s = true -> TrimSpace (String " " s) = s.
Proof.
  intros Hs. pose proof (decode_word s Hs) as Hf. unfold TrimSpace.
  rewrite decode_ascii_cons by done.
  change (dropSpace ((byteval " ", " ") :: decode s)) with (dropSpace (decode s)).
  rewrite (dropSpace_none (decode s)) by done.
  rewrite dropSpace_none by (by apply Forall_reverse).
  rewrite reverse_involutive. apply decode_concat.
Qed.

Lemma CutByte_absent c s : allb (fun a => negb (Ascii.eqb a c)) s = true -> CutByte c s = (s, "", false).
Proof.
  induction s as [|a s IH]; [done|]. cbn [allb]. rewrite andb_true_iff, negb_true_iff. intros [Ha Hs].
  cbn [CutByte]. by rewrite Ha, IH.
Qed.

Lemma CutByte_present c a b : allb (fun x => negb (Ascii.eqb x c)) a = true ->
  CutByte c (a ++ String c b) = (a, b, true).
Proof.
  induction a as [|x a IH]; cbn [allb String.append CutByte].
  - by rewrite Ascii.eqb_refl.
  - rewrite andb_true_iff, negb_true_iff. intros [Hx Ha]. by rewrite Hx, IH.
Qed.

(** *** Valid UTF-8, one character at a time *)

(** A well-formed character: what [decode] reads it as does not depend on what
    follows, and only its first byte is not a continuation byte. *)
Record rune_chunk (r : Z) (c : string) : Prop := mkChunk {
  chunk_good : badRune (r, c) = false;
  chunk_decode : forall t, decode (c ++ t) = (r, c) :: decode t;
  chunk_head : exists a c', c = String a c' /\ isCont a = false /\ allb isCont c' = true }.

Lemma second_ok_cont lead b : second_ok lead b = true -> isCont b = true.
Proof. unfold second_ok, isCont, between. intros H. repeat case_match; lia. Qed.

Lemma decode_cons_valid a s : validUTF8 (String a s) = true ->
  exists r c rest, String a s = c ++ rest /\ rune_chunk r c /\ validUTF8 rest = true.
Proof.
  unfold validUTF8. rewrite negb_true_iff. intros Hv.
  assert (Hbad : forall t, decode (String a s) = (RuneError, String a "") :: t -> False).
  { intros t Ht. rewrite Ht in Hv. by vm_compute in Hv. }
  assert (Hgo : forall r c rest, String a s = c ++ rest ->
    (forall t, decode (c ++ t) = (r, c) :: decode t) ->
    (exists a c', c = String a c' /\ isCont a = false /\ allb isCont c' = true) ->
    exists r c rest, String a s = c ++ rest /\ rune_chunk r c /\ negb (existsb badRune (decode rest)) = true).
  { intros r c rest He Hd Hh. exists r, c, rest. split; [done|].
    rewrite He, Hd in Hv. cbn [existsb] in Hv. apply orb_false_iff in Hv as [Hv1 Hv2].
    split; [by constructor|]. by rewrite Hv2. }
  cbn [decode] in Hbad. destruct (byteval a <? 128) eqn:Ha1.
  { apply (Hgo (byteval a) (String a "") s); [done| |].
    - intros t. cbn [String.append decode]. by rewrite Ha1.
    - exists a, "". split_and!; [done| |done]. unfold isCont. lia. }
  assert (Hhead : between 194 223 a = true \/ between 224 239 a = true \/ between 240 244 a = true -> isCont a = false)
    by (unfold between, isCont; lia).
  destruct (between 194 223 a) eqn:Ha2.
  { destruct s as [|b s]; [by destruct (Hbad [])|].
    destruct (isCont b) eqn:Hb; [|by destruct (Hbad (decode (String b s)))].
    eapply (Hgo _ (String a (String b "")) s); [done| |].
    - intros t. cbn [String.append decode]. rewrite Ha1, Ha2, Hb. done.
    - exists a, (String b ""). cbn [allb]. rewrite Hb. split_and!; [done|by apply Hhead; left|done]. }
  destruct (between 224 239 a) eqn:Ha3.
  { destruct s as [|b [|b2 s]]; [by edestruct Hbad|by edestruct Hbad|].
    destruct (second_ok a b && isCont b2) eqn:Hb; [|by edestruct Hbad].
    eapply (Hgo _ (String a (String b (String b2 ""))) s); [done| |].
    - intros t. cbn [String.append decode]. rewrite Ha1, Ha2, Ha3, Hb. done.
    - apply andb_true_iff in Hb as [Hb Hb2]. apply second_ok_cont in Hb.
      exists a, (String b (String b2 "")). cbn [allb]. rewrite Hb, Hb2. split_and!; [done|by apply Hhead; right; left|done]. }
  destruct (between 240 244 a) eqn:Ha4; [|by edestruct Hbad].
  destruct s as [|b [|b2 [|b3 s]]]; [by edestruct Hbad..|].
  destruct (second_ok a b && isCont b2 && isCont b3) eqn:Hb; [|by edestruct Hbad].
  eapply (Hgo _ (String a (String b (String b2 (String b3 "")))) s); [done| |].
  - intros t. cbn [String.append decode]. rewrite Ha1, Ha2, Ha3, Ha4, Hb. done.
  - apply andb_true_iff in Hb as [Hb Hb3]. apply andb_true_iff in Hb as [Hb Hb2]. apply second_ok_cont in Hb.
    exists a, (String b (String b2 (String b3 ""))). cbn [allb]. rewrite Hb, Hb2, Hb3.
    split_and!; [done|by apply Hhead; right; right|done].
Qed.

(** Induction on a valid string by characters. *)
Lemma validUTF8_ind (P : string -> Prop) : P "" ->
  (forall r c rest, rune_chunk r c -> validUTF8 rest = true -> P rest -> P (c ++ rest)) ->
  forall s, validUTF8 s = true -> P s.
Proof.
  intros H0 Hstep s. enough (H : forall n s, (String.length s < n)%nat -> validUTF8 s = true -> P s) by (eapply H; eauto).
  intros n. induction n as [|n IH]; intros [|a s'] Hn Hv; [lia|lia|done|].
  destruct (decode_cons_valid a s' Hv) as (r & c & rest & He & Hc & Hr).
  assert (Hlen : (String.length rest < n)%nat).
  { pose proof (f_equal String.length He) as Hl. rewrite str_length_app in Hl.
    destruct (chunk_head _ _ Hc) as (b & c' & -> & _). cbn [String.length] in *. lia. }
  rewrite He. by apply (Hstep r); [|done|apply IH].
Qed.

Lemma validUTF8_chunk r c s : rune_chunk r c -> validUTF8 (c ++ s) = validUTF8 s.
Proof. intros Hc. unfold validUTF8. rewrite (chunk_decode _ _ Hc). cbn [existsb]. by rewrite (chunk_good _ _ Hc). Qed.

Lemma validUTF8_head a s : validUTF8 (String a s) = true -> isCont a = false.
Proof.
  intros Hv. destruct (decode_cons_valid a s Hv) as (r & c & rest & He & Hc & _).
  destruct (chunk_head _ _ Hc) as (b & c' & -> & Hb & _). cbn [String.append] in He. by injection He as <- _.
Qed.

(** *** The order of strings *)

Lemma ltb_lt s t : String.ltb s t = true <-> OrdersEx.String_as_OT.lt s t.
Proof.
  unfold String.ltb. change (OrdersEx.String_as_OT.lt s t) with (String.compare s t = Lt).
  destruct (String.compare s t); by split.
Qed.

Lemma ltb_total s t : String.ltb s t = true -> String.ltb t s = false.
Proof.
  unfold String.ltb. rewrite (String.compare_antisym t s). by destruct (String.compare s t).
Qed.

Lemma ltb_antisym s t : String.ltb s t = false -> String.ltb t s = false -> s = t.
Proof.
  unfold String.ltb. rewrite (String.compare_antisym t s).
  destruct (String.compare s t) eqn:Hc; [|done|done]. intros _ _. by apply String.compare_eq_iff.
Qed.

Lemma ltb_trans x y z : String.ltb y x = false -> String.ltb z y = false -> String.ltb z x = false.
Proof.
  intros H1 H2. destruct (String.ltb z x) eqn:H3; [exfalso|done].
  destruct (String.ltb x y) eqn:H4.
  - apply ltb_lt in H3, H4. pose proof (OrdersEx.String_as_OT.lt_strorder) as [_ Htr].
    assert (Hzy : OrdersEx.String_as_OT.lt z y) by (by eapply Htr). apply ltb_lt in Hzy. congruence.
  - rewrite (ltb_antisym x y) in H3 by done. congruence.
Qed.

(** [sort.Strings] *)
Definition sortStrings (l : list string) : list string := sortBy String.ltb l.

Lemma sortStrings_perm l : sortStrings l ≡ₚ l.
Proof. apply sortBy_perm. Qed.

Lemma sortStrings_unique l l' : l ≡ₚ l' -> sortStrings l = sortStrings l'.
Proof. apply sortBy_unique; [apply ltb_total|apply ltb_trans|apply ltb_antisym]. Qed.

(** *** Prefixes and suffixes *)

Lemma prefix_spec p s : String.prefix p s = true <-> exists r, s = p ++ r.
Proof.
  revert s. induction p as [|a p IH]; intros s.
  - split; [|by destruct s]. intros _. by exists s.
  - destruct s as [|b s]; cbn [String.prefix].
    + split; [done|]. by intros [r Hr].
    + destruct (Ascii.ascii_dec a b) as [->|Hne].
      * rewrite IH. split; intros [r Hr]; exists r; [by rewrite Hr|by injection Hr].
      * split; [done|]. intros [r Hr]. by injection Hr as <-.
Qed.

Lemma HasSuffix_spec s p : HasSuffix s p = true <-> exists r, s = r ++ p.
Proof.
  unfold HasSuffix. rewrite prefix_spec. split; intros [r Hr].
  - exists (str_rev "" r). rewrite <- (str_rev_involutive s), Hr, str_rev_app, str_rev_involutive. apply str_rev_acc.
  - exists (str_rev "" r). rewrite Hr, str_rev_app. apply str_rev_acc.
Qed.

(** *** Lower case *)

(** The characters of a string: an ASCII byte, or bytes none of which is. *)
Lemma decode_chunks s : Forall (fun p => (exists a, isASCII a = true /\ p = (byteval a, String a "")) \/
  allb (fun b => negb (isASCII b)) p.2 = true) (decode s).
Proof.
  enough (H : forall n s, (String.length s < n)%nat -> Forall (fun p => (exists a, isASCII a = true /\ p = (byteval a, String a "")) \/
    allb (fun b => negb (isASCII b)) p.2 = true) (decode s)) by (eapply H; eauto).
  intros n. induction n as [|n IH]; intros [|b0 s1] Hn; [lia|lia|constructor|]. cbn [String.length] in Hn.
  cbn [decode]. destruct (byteval b0 <? 128) eqn:H0.
  { constructor; [left; by exists b0|]. apply IH. lia. }
  assert (Hn0 : isASCII b0 = false) by done.
  assert (Hcont : forall b, isCont b = true -> isASCII b = false) by (unfold isCont, isASCII; intros; lia).
  assert (Hsec : forall a b, second_ok a b = true -> isASCII b = false).
  { intros a b Hb. apply Hcont. revert Hb. unfold second_ok, isCont, between. intros Hb. repeat case_match; lia. }
  assert (Hbad : Forall (fun p => (exists a, isASCII a = true /\ p = (byteval a, String a "")) \/
    allb (fun b => negb (isASCII b)) p.2 = true) ((RuneError, String b0 "") :: decode s1)).
  { constructor; [right; cbn [snd allb]; by rewrite Hn0|]. apply IH. lia. }
  repeat match goal with |- context [match ?x with _ => _ end] => destruct x eqn:?; try exact Hbad end; subst;
    repeat match goal with H : (_ && _)%bool = true |- _ => apply andb_true_iff in H as [? ?] end;
    (constructor; [right; cbn [snd allb]|apply IH; cbn [String.length] in *; lia]);
    repeat match goal with
      | H : isCont _ = true |- _ => apply Hcont in H
      | H : second_ok _ _ = true |- _ => apply Hsec in H
      end;
    repeat match goal with H : isASCII _ = false |- _ => rewrite H; clear H end; done.
Qed.

Definition isUpper (a : ascii) : bool := between 65 90 a.

Lemma concat_app_allb q l : Forall (fun s => allb q s = true) l -> allb q (String.concat "" l) = true.
Proof.
  induction 1 as [|s l Hs _ IH]; [done|]. destruct l as [|s' l]; [exact Hs|].
  change (allb q (s ++ "" ++ String.concat "" (s' :: l)) = true). by rewrite !allb_app, Hs, IH.
Qed.

(** Lower-cased text has no ASCII upper-case letter. *)
Lemma ToLower_lower s : allb (fun a => negb (isUpper a)) (ToLower s) = true.
Proof.
  unfold ToLower. apply concat_app_allb. rewrite Forall_map. eapply Forall_impl; [apply decode_chunks|].
  intros [r b] Hp. unfold lowerRune. destruct (_ && _) eqn:Hr.
  { cbn [allb]. rewrite andb_true_r, negb_true_iff. unfold isUpper, between, byteval, chr.
    rewrite N_ascii_embedding by lia. rewrite Z2N.id by lia. apply andb_false_iff. right. lia. }
  destruct (r =? 304); [done|]. destruct (r =? 8490); [done|].
  destruct Hp as [(a & Ha & [= -> ->])|Hb].
  - cbn [allb]. unfold isUpper, between. rewrite andb_true_r. by rewrite Hr.
  - cbn [snd] in Hb. revert Hb. apply allb_impl. intros a. unfold isUpper, isASCII, between. lia.
Qed.
