(* ===== verification/Web.v ===== *)
(** * URLs and documents

    The two libraries every fetching component calls: [net/url], whose values
    are the record [URL] and whose parser and printer are the class [NetURL];
    and [goquery], whose selections are the abstract type of the class [DOM].
    [Hostname] and [Port] are computed from the host as [net/url] does.  The
    instances at the end make witnesses executable. *)

From Stdlib Require Import Ascii.
From S2P Require Import Prelude GoString.

Open Scope string_scope.
Open Scope Z_scope.

(** ** [net/url] *)

Record URL := mkURL {
  Scheme : string;
  User : string;        (* the userinfo, as printed *)
  Host : string;
  Path : string;
  RawPath : string;
  RawQuery : string;
  Fragment : string;
  RawFragment : string }.

#[export] Instance URL_eq_dec : EqDecision URL.
Proof. solve_decision. Defined.

Class NetURL := {
  url_Parse : string -> option URL;
  url_String : URL -> string;
  url_EscapedPath : URL -> string;
  (** [base.Parse(ref)]: parse and resolve against [base]. *)
  url_Resolve : URL -> string -> option URL }.

(** The text before and after the last [:] of a string, if any. *)
Fixpoint lastColon (s : string) : option (string * string) :=
  match s with
  | EmptyString => None
  | String a rest =>
      match lastColon rest with
      | Some (b, c) => Some (String a b, c)
      | None => if Ascii.eqb a ":" then Some ("", rest) else None
      end
  end.

Definition isDigit (a : ascii) : bool := between 48 57 a.

(** [splitHostPort] of [net/url]. *)
Definition splitHostPort (hostport : string) : string * string :=
  let '(host, port) :=
    match lastColon hostport with
    | Some (h, p) => if allb isDigit p then (h, p) else (hostport, "")
    | None => (hostport, "")
    end in
  if HasPrefix host "[" && HasSuffix host "]"
  then (String.substring 1 (String.length host - 2) host, port)
  else (host, port).

Definition Hostname (u : URL) : string := (splitHostPort (Host u)).1.
Definition Port (u : URL) : string := (splitHostPort (Host u)).2.

(** ** [net/url.QueryEscape] and [Values.Encode] *)

Definition unreserved (a : ascii) : bool :=
  between 48 57 a || between 65 90 a || between 97 122 a ||
  Ascii.eqb a "-" || Ascii.eqb a "_" || Ascii.eqb a "." || Ascii.eqb a "~".

Definition upperhex (n : Z) : ascii := chr (Z.to_N (if n <? 10 then 48 + n else 55 + n)).

Fixpoint QueryEscape (s : string) : string :=
  match s with
  | EmptyString => ""
  | String a rest =>
      if Ascii.eqb a " " then String "+" (QueryEscape rest)
      else if unreserved a then String a (QueryEscape rest)
      else String "%" (String (upperhex (byteval a / 16)) (String (upperhex (byteval a mod 16)) (QueryEscape rest)))
  end.

(** [url.Values] in insertion order; [Encode] sorts by key, keeping the order
    of one key's values. *)
Definition Values : Type := list (string * string).

Definition Set_ (k v : string) (vs : Values) : Values :=
  (List.filter (fun kv => negb (bool_decide (kv.1 = k))) vs ++ [(k, v)])%list.

Definition Add (k v : string) (vs : Values) : Values := (vs ++ [(k, v)])%list.

Definition sortKeys (vs : Values) : Values := sortBy (fun a b => String.ltb a.1 b.1) vs.

Definition Encode (vs : Values) : string :=
  Join "&" (map (fun kv => QueryEscape kv.1 ++ "=" ++ QueryEscape kv.2) (sortKeys vs)).

(** ** [goquery] *)

Class DOM := {
  Sel : Type;
  NewDocument : string -> option Sel;
  Find : string -> Sel -> Sel;
  First : Sel -> Sel;
  Each : Sel -> list Sel;
  Text : Sel -> string;
  Html : Sel -> option string;
  Attr : string -> Sel -> option string;
  NodeName : Sel -> string;
  (** A clone of the selection with the descendants matching a selector removed. *)
  Without : string -> Sel -> Sel }.

Definition Length `{DOM} (s : Sel) : Z := Z.of_nat (length (Each s)).

Definition AttrOr `{DOM} (name dflt : string) (s : Sel) : string := default dflt (Attr name s).

(** ** Instances for examples *)

(** URLs of the form [scheme://host/path]. *)
Definition toyParse (s : string) : option URL :=
  match CutByte ":" s with
  | (sch, String "/" (String "/" rest), true) =>
      let '(host, path, slash) := CutByte "/" rest in
      Some (mkURL sch "" host (if slash : bool then "/" ++ path else "") "" "" "" "")
  | _ => None
  end.

#[export] Instance toyURL : NetURL :=
  {| url_Parse := toyParse;
     url_String u := Scheme u ++ "://" ++ Host u ++ Path u;
     url_EscapedPath u := Path u;
     url_Resolve base r :=
       if HasPrefix r "/" then Some (mkURL (Scheme base) "" (Host base) r "" "" "" "") else toyParse r |}.

(** A document is the text of the page; a selector matches once if it occurs in it. *)
#[export] Instance toyDOM : DOM :=
  {| Sel := string;
     NewDocument s := Some s;
     Find sel s := if Contains s sel then sel else "";
     First s := s;
     Each s := if decide (s = "") then [] else [s];
     Text s := s;
     Html s := Some s;
     Attr name s := if Contains s name then Some name else None;
     NodeName s := s;
     Without _ s := s |}.
