(* ===== verification/Errors.v ===== *)
(** * Errors and fetch results ([internal/fetcher/errors.go], [fetcher.go])

    A Go [error] is a tree: values wrapped by [fmt.Errorf("%w")], by error
    types with [Unwrap], or joined.  [chain] lists the tree in the order
    [errors.Is] and [errors.As] visit it. *)

From Stdlib Require Import Ascii.
From S2P Require Import Prelude GoString.

Open Scope string_scope.
Open Scope Z_scope.

Record RateLimitError := mkRateLimit { rlStatus : Z; rlRetryAfter : duration; rlBody : string }.

Record BlockedError := mkBlocked { Reason : string; bURL : string; bStatus : Z; bBody : string }.

#[warnings="-register-all"]
Inductive goerr :=
  | EText (msg : string)                 (* errors.New, fmt.Errorf without %w *)
  | EWrapf (msg : string) (e : goerr)    (* fmt.Errorf with %w *)
  | EJoin (es : list goerr)              (* errors.Join *)
  | ERateLimit (e : RateLimitError)      (* *fetcher.RateLimitError *)
  | EBlocked (e : BlockedError)          (* *fetcher.BlockedError *)
  | EStatus (code : Z)                   (* *fetcher.StatusError *)
  | ETransport (e : goerr)               (* *fetcher.TransportError *)
  | ECanceled                            (* context.Canceled *)
  | EDeadlineExceeded                    (* context.DeadlineExceeded, a net.Error that timed out *)
  | EPlaywrightTimeout                   (* playwright.ErrTimeout *)
  | EUrl (e : goerr)                     (* *url.Error *)
  | ENet (timeout : bool)                (* any other net.Error *)
  | EDropped (attempts : Z) (canceled : bool) (e : option goerr).  (* *worker.DroppedError *)

Fixpoint chain (e : goerr) : list goerr :=
  e :: match e with
       | EWrapf _ e' | ETransport e' | EUrl e' => chain e'
       | EJoin es => flat_map chain es
       | EDropped _ _ (Some e') => chain e'
       | _ => []
       end.

(** [errors.As]: the first value of the chain of the wanted type. *)
Fixpoint firstAs {A} (f : goerr -> option A) (es : list goerr) : option A :=
  match es with
  | [] => None
  | e :: rest => match f e with Some a => Some a | None => firstAs f rest end
  end.

Definition As {A} (f : goerr -> option A) (e : goerr) : option A := firstAs f (chain e).

Definition Is (f : goerr -> bool) (e : goerr) : bool := existsb f (chain e).

Definition asRateLimit (e : goerr) : option RateLimitError :=
  match e with ERateLimit r => Some r | _ => None end.
Definition asBlocked (e : goerr) : option BlockedError :=
  match e with EBlocked b => Some b | _ => None end.
Definition asStatus (e : goerr) : option Z := match e with EStatus c => Some c | _ => None end.
Definition asTransport (e : goerr) : option unit := match e with ETransport _ => Some tt | _ => None end.
Definition asUrl (e : goerr) : option unit := match e with EUrl _ => Some tt | _ => None end.
Definition asDropped (e : goerr) : option (Z * bool) :=
  match e with EDropped n c _ => Some (n, c) | _ => None end.
Definition isCanceled (e : goerr) : bool := match e with ECanceled => true | _ => false end.
Definition isDeadline (e : goerr) : bool := match e with EDeadlineExceeded => true | _ => false end.
Definition isPlaywrightTimeout (e : goerr) : bool := match e with EPlaywrightTimeout => true | _ => false end.

(** [net.Error.Timeout()]; a [*url.Error] asks the error it holds. *)
Fixpoint Timeout (e : goerr) : bool :=
  match e with EUrl e' => Timeout e' | ENet t => t | EDeadlineExceeded => true | _ => false end.

(** [errors.As] to [net.Error], with the [Timeout()] of the value found. *)
Definition asNet (e : goerr) : option bool :=
  match e with EUrl _ | ENet _ | EDeadlineExceeded => Some (Timeout e) | _ => None end.

(** ** Requests and responses *)

Record Request := mkRequest {
  Query : string;
  rURL : string;
  UserAgent : string;
  ProxyURL : string;
  Country : string;
  Language : string;
  Device : string;
  WaitSelector : string }.

Record Response := mkResponse {
  StatusCode : Z;
  Body : string;
  Latency : duration;
  ContentType : string;
  FinalURL : string }.

Definition FetchResult : Type := goerr + Response.

(** ** Retry-After *)

(** [time.Until]: the difference saturates at the range of a duration. *)
Definition Until (t now : time) : duration := Z.max int64_min (Z.min int64_max (t - now)).

(** [http.ParseTime] is a parameter: the absolute time a date header denotes. *)
Definition parseRetryAfter (ParseTime : string -> option time) (now : time) (header : string) : duration * bool :=
  if decide (header = "") then (0, false)
  else match Atoi header with
       | Some secs => if secs <? 0 then (0, false) else (wrap64 (secs * Second), true)
       | None =>
           match ParseTime header with
           | Some t => let d := Until t now in if d <? 0 then (0, false) else (d, true)
           | None => (0, false)
           end
       end.

(** [truncate(s, n)] of playwright.go: at most [n] bytes. *)
Definition truncate (s : string) (n : Z) : string :=
  if len s <=? n then s else String.substring 0 (Z.to_nat n) s.
