(* ===== verification/Classify.v ===== *)
(** * Classifying fetch results ([internal/fetcher/classify.go], [failover.go])

    Recognising block pages, turning any fetch error into an [Outcome], and the
    fetcher that falls back from HTTP to a browser. *)

From Stdlib Require Import Ascii.
From S2P Require Import Prelude GoString Web Errors.

Open Scope string_scope.
Open Scope Z_scope.

(** ** Outcomes *)

Inductive Outcome :=
  | OutcomeSuccess | OutcomeRateLimited | OutcomeCaptcha | OutcomeConsent | OutcomeInterstitial
  | OutcomeChallenge | OutcomeTimeout | OutcomeTransport | OutcomeServerError | OutcomeClientError
  | OutcomeCanceled | OutcomeOther.

#[export] Instance Outcome_eq_dec : EqDecision Outcome.
Proof. solve_decision. Defined.

Definition outcomeString (o : Outcome) : string :=
  match o with
  | OutcomeSuccess => "success"
  | OutcomeRateLimited => "rate_limited"
  | OutcomeCaptcha => "captcha"
  | OutcomeConsent => "consent"
  | OutcomeInterstitial => "interstitial"
  | OutcomeChallenge => "challenge"
  | OutcomeTimeout => "timeout"
  | OutcomeTransport => "transport"
  | OutcomeServerError => "http_5xx"
  | OutcomeClientError => "http_4xx"
  | OutcomeCanceled => "canceled"
  | OutcomeOther => "other"
  end.

Definition Retryable (o : Outcome) : bool :=
  match o with OutcomeSuccess | OutcomeClientError | OutcomeCanceled => false | _ => true end.

Definition Blocked (o : Outcome) : bool :=
  match o with OutcomeCaptcha | OutcomeInterstitial | OutcomeChallenge => true | _ => false end.

Definition reasonOutcome (reason : string) : Outcome :=
  if decide (reason = "captcha") then OutcomeCaptcha
  else if decide (reason = "consent") then OutcomeConsent
  else if decide (reason = "challenge") then OutcomeChallenge
  else OutcomeInterstitial.

(** [Classify] of a non-nil error. *)
Definition Classify (e : goerr) : Outcome :=
  match As asRateLimit e with
  | Some _ => OutcomeRateLimited
  | None =>
  match As asBlocked e with
  | Some b => reasonOutcome (Reason b)
  | None =>
  match As asStatus e with
  | Some code => if 500 <=? code then OutcomeServerError else OutcomeClientError
  | None =>
  if Is isCanceled e then OutcomeCanceled
  else if Is isDeadline e || Is isPlaywrightTimeout e then OutcomeTimeout
  else if default false (As asNet e) then OutcomeTimeout
  else if bool_decide (is_Some (As asTransport e)) || bool_decide (is_Some (As asUrl e))
          || bool_decide (is_Some (As asNet e)) then OutcomeTransport
  else OutcomeOther
  end end end.

Definition classifyResult (r : FetchResult) : Outcome :=
  match r with inl e => Classify e | inr _ => OutcomeSuccess end.

(** ** Pages *)

Inductive pageKind := pageNormal | pageConsent | pageCaptcha | pageInterstitial | pageChallenge.

#[export] Instance pageKind_eq_dec : EqDecision pageKind.
Proof. solve_decision. Defined.

Definition maxBlockedBody : Z := Z.shiftl 256 10.

Definition blockedErrorFor (kind : pageKind) (pageURL : string) (status : Z) (body : string)
    : option BlockedError :=
  let mk reason := Some (mkBlocked reason pageURL status (truncate body maxBlockedBody)) in
  match kind with
  | pageCaptcha => mk "captcha"
  | pageConsent => mk "consent"
  | pageInterstitial => mk "interstitial"
  | pageChallenge => mk "challenge"
  | pageNormal => None
  end.

Definition isHTML (contentType : string) : bool :=
  let ct := ToLower contentType in bool_decide (ct = "") || Contains ct "html".

(** The selectors of the recognised pages. *)
Definition captchaSelector : string :=
  "#captcha-form, form[action*=" ++ quoted "/sorry/" ++ "], .g-recaptcha, #recaptcha, iframe[src*=" ++ quoted "recaptcha" ++ "]".
Definition consentSelector : string :=
  "form[action*=" ++ quoted "consent" ++ "], input[name=" ++ quoted "set_eom" ++ "]".
Definition cfSelector : string :=
  "#challenge-form, #challenge-running, #challenge-stage, #cf-challenge-running, form[action*=" ++ quoted "__cf_chl" ++ "]".
Definition vendorSelector : string :=
  "iframe[src*=" ++ quoted "captcha-delivery.com" ++ "], #px-captcha".
Definition widgetSelector : string :=
  ".g-recaptcha, iframe[src*=" ++ quoted "recaptcha" ++ "], .h-captcha, iframe[src*=" ++ quoted "hcaptcha.com" ++
  "], .cf-turnstile, iframe[src*=" ++ quoted "challenges.cloudflare.com" ++ "]".
Definition rejectConsentForm : string :=
  "form:has(input[name=" ++ quoted "set_eom" ++ "][value=" ++ quoted "true" ++ "])".

Section Pages.
Context {N : NetURL} {D : DOM}.

Definition classifyPage (pageURL html : string) : pageKind :=
  let u := url_Parse pageURL in
  if match u with Some u => Contains (Path u) "/sorry/" | None => false end then pageCaptcha
  else if match u with Some u => Contains (Path u) "/httpservice/retry/enablejs" | None => false end
  then pageInterstitial
  else
    match NewDocument html with
    | None => pageNormal
    | Some doc =>
        if 0 <? Length (Find captchaSelector doc)
        then pageCaptcha
        else if match u with Some u => HasPrefix (Hostname u) "consent." | None => false end
                || (0 <? Length (Find consentSelector doc))
        then pageConsent
        else pageNormal
    end.

Definition classifyGenericPage (pageURL : string) (status : Z) (html : string) : pageKind :=
  if match url_Parse pageURL with
     | Some u => Contains (Path u) "/cdn-cgi/challenge-platform/"
     | None => false
     end then pageChallenge
  else
    match NewDocument html with
    | None => pageNormal
    | Some doc =>
        if (0 <? Length (Find cfSelector doc))
           || (((status =? 403) || (status =? 503)) &&
               HasPrefix (TrimSpace (Text (First (Find "title" doc)))) "Just a moment")
           || (0 <? Length (Find vendorSelector doc))
        then pageChallenge
        else if (400 <=? status) &&
                (0 <? Length (Find widgetSelector doc))
        then pageCaptcha
        else pageNormal
    end.

(** *** The JavaScript-check shell

    The regular expressions [noscriptBlock] and [metaRefresh] on decoded text.
    Case folding is that of [(?i)]: besides ASCII case, [s] folds with U+017F
    and [k] with U+212A. *)

Definition fold (r : Z) : Z :=
  if (65 <=? r) && (r <=? 90) then r + 32
  else if r =? 383 then 115
  else if r =? 8490 then 107
  else r.

Definition text : Type := list (Z * string).

Fixpoint stripFold (lit : list Z) (l : text) : option text :=
  match lit, l with
  | [], _ => Some l
  | c :: lit', (r, _) :: l' => if fold r =? c then stripFold lit' l' else None
  | _ :: _, [] => None
  end.

Fixpoint afterGT (l : text) : option text :=
  match l with
  | [] => None
  | (r, _) :: l' => if r =? 62 then Some l' else afterGT l'
  end.

(** The shortest text before a closing tag, and what follows it. *)
Fixpoint untilClose (l : text) : option (text * text) :=
  match stripFold (runes "</noscript>") l with
  | Some rest => Some ([], rest)
  | None =>
      match l with
      | [] => None
      | p :: l' => match untilClose l' with Some (b, rest) => Some (p :: b, rest) | None => None end
      end
  end.

Definition noscriptAt (l : text) : option (text * text) :=
  l1 ← stripFold (runes "<noscript") l; l2 ← afterGT l1; untilClose l2.

(** [FindAllStringSubmatch], with as much fuel as runes. *)
Fixpoint noscriptBlocks (fuel : nat) (l : text) : list text :=
  match fuel with
  | O => []
  | S fuel' =>
      match noscriptAt l with
      | Some (b, rest) => b :: noscriptBlocks fuel' rest
      | None => match l with [] => [] | _ :: l' => noscriptBlocks fuel' l' end
      end
  end.

Definition isBlank (r : Z) : bool :=
  (r =? 9) || (r =? 10) || (r =? 12) || (r =? 13) || (r =? 32).

Fixpoint dropBlank (l : text) : text :=
  match l with (r, b) :: l' => if isBlank r then dropBlank l' else l | [] => [] end.

Definition dropQuote (l : text) : text :=
  match l with (r, b) :: l' => if (r =? 34) || (r =? 39) then l' else l | [] => [] end.

Definition metaRefreshAt (l : text) : bool :=
  match stripFold (runes "http-equiv") l with
  | Some l1 =>
      match stripFold (runes "=") (dropBlank l1) with
      | Some l2 => bool_decide (is_Some (stripFold (runes "refresh") (dropQuote (dropBlank l2))))
      | None => false
      end
  | None => false
  end.

Fixpoint metaRefresh (l : text) : bool :=
  metaRefreshAt l || match l with [] => false | _ :: l' => metaRefresh l' end.

Definition requiresJS (rawHTML : string) : bool :=
  let l := decode rawHTML in
  existsb (fun m => metaRefresh m && Contains (concat_bytes m) "/httpservice/retry/enablejs")
    (noscriptBlocks (length l) l).

Definition minShellText : Z := 200.

Definition executableTypes : list string :=
  [""; "module"; "text/javascript"; "application/javascript"; "text/ecmascript"; "application/ecmascript"].

Definition looksLikeJSShell (rawHTML : string) : bool :=
  match NewDocument rawHTML with
  | None => false
  | Some doc =>
      let executable := List.filter (fun s => bool_decide (ToLower (TrimSpace (AttrOr "type" "" s)) ∈ executableTypes))
                          (Each (Find "script" doc)) in
      if match executable with [] => true | _ => false end then false
      else
        let body := Without "script, style, noscript, template, svg" (Find "body" doc) in
        len (Join " " (Fields (Text body))) <? minShellText
  end.

End Pages.

(** ** Failover ([failover.go])

    A fetcher is a state-passing function: what it did so far is its state. *)

Definition Fetcher (S : Type) : Type := Request -> S -> S * FetchResult.

Definition DefaultFailoverOn (o : Outcome) : bool :=
  bool_decide (o = OutcomeInterstitial) || bool_decide (o = OutcomeConsent).

Section Failover.
Context {S : Type}.

(** [ctxDone] is [ctx.Err() != nil] in the state after the primary fetch;
    [onFailover] the metrics callback. *)
Record FailoverFetcher := mkFailover {
  Primary : Fetcher S;
  Secondary : Fetcher S;
  FailoverOn : option (Outcome -> bool);
  OnFailover : option (Outcome -> S -> S) }.

Definition failoverFetch (f : FailoverFetcher) (ctxDone : S -> bool) : Fetcher S := fun req s =>
  let '(s1, r) := Primary f req s in
  match r with
  | inr _ => (s1, r)
  | inl e =>
      if ctxDone s1 then (s1, r)
      else
        let outcome := Classify e in
        if negb (default DefaultFailoverOn (FailoverOn f) outcome) then (s1, inl e)
        else
          let s2 := match OnFailover f with Some cb => cb outcome s1 | None => s1 end in
          Secondary f req s2
  end.

(** [Close]: the [Close] of each fetcher that has one ([None] otherwise), with
    [errors.Join] of the results, which is nil when they all are. *)
Definition failoverClose (primary secondary : option (S -> S * option goerr)) (s : S) : S * option goerr :=
  let close c s := match c with
                   | Some f => let '(s, err) := f s in (s, option_list err)
                   | None => (s, [])
                   end in
  let '(s, e1) := close primary s in
  let '(s, e2) := close secondary s in
  (s, match (e1 ++ e2)%list with [] => None | es => Some (EJoin es) end).

End Failover.
