(* ===== verification/HttpFetch.v ===== *)
(** * The HTTP and provider fetchers ([internal/fetcher/http.go], [provider.go], [mock.go])

    [http.Client.Do] is the function [clientDo]: what a request is answered
    with, given the requests sent before it (cookies and connections are the
    client's business).  A fetch is a state transformer over the requests sent
    and the number of consent walls dismissed. *)

From Stdlib Require Import Ascii.
From S2P Require Import Prelude GoString Web Errors Classify.

Open Scope string_scope.
Open Scope Z_scope.

(** ** Exchanges *)

Record HttpReq := mkHttpReq {
  Method : string;
  Target : string;
  ReqBody : string;
  Headers : list (string * string);
  Via : string }.          (* the proxy URL of the transport, "" = direct *)

Record HttpResp := mkHttpResp {
  Status : Z;
  RespURL : URL;           (* resp.Request.URL, after redirects *)
  Header : string -> string;
  RespBody : string;
  BodyErr : option goerr }. (* the read error after [RespBody], if any *)

Record NetState := mkNet { sent : list HttpReq; consentsHandled : nat }.

Definition maxBodyBytes : Z := Z.shiftl 5 20.

Section Fetchers.
Context {N : NetURL} {D : DOM}.
Context (clientDo : list HttpReq -> HttpReq -> goerr + HttpResp).
Context (ParseTime : string -> option time) (now : time) (elapsed : duration).
(** The [*url.Error] of a URL that does not parse. *)
Context (badURL : string -> goerr).

Definition invalidURL (s : string) : goerr := EUrl (badURL s).

(** [do]: send, and read at most [maxBodyBytes] of the body. *)
Definition do_ (r : HttpReq) (s : NetState) : NetState * (goerr + (Z * URL * (string -> string) * string)) :=
  let s1 := mkNet (sent s ++ [r])%list (consentsHandled s) in
  match clientDo (sent s) r with
  | inl e => (s1, inl (EWrapf "fetcher: request failed" e))
  | inr resp =>
      match BodyErr resp with
      | Some e => if len (RespBody resp) <? maxBodyBytes
                  then (s1, inl (ETransport (EWrapf "read body" e)))
                  else (s1, inr (Status resp, RespURL resp, Header resp, truncate (RespBody resp) maxBodyBytes))
      | None => (s1, inr (Status resp, RespURL resp, Header resp, truncate (RespBody resp) maxBodyBytes))
      end
  end.

Definition setHeaders (userAgent : string) : list (string * string) :=
  let ua := if decide (userAgent = "") then "Mozilla/5.0 (compatible; web-harvester/0.1)" else userAgent in
  [("User-Agent", ua); ("Accept-Language", "en-US,en;q=0.9")].

(** [http.NewRequestWithContext]: fails when the URL does not parse. *)
Definition newRequest (method target body via : string) (headers : list (string * string)) : goerr + HttpReq :=
  match url_Parse target with
  | None => inl (invalidURL target)
  | Some _ => inr (mkHttpReq method target body headers via)
  end.

(** *** HTTPFetcher *)

Record HTTPFetcher := mkHTTPFetcher {
  Endpoint : string;
  Generic : bool;
  DetectAppShells : bool }.

Definition classify (f : HTTPFetcher) (pageURL : string) (status : Z) (html : string) : pageKind :=
  if Generic f then classifyGenericPage pageURL status html else classifyPage pageURL html.

Definition needsJS (f : HTTPFetcher) (rawHTML : string) : bool :=
  if Generic f then DetectAppShells f && looksLikeJSShell rawHTML else requiresJS rawHTML.

(** [transportFor]: the error of an invalid proxy URL; pooling is the client's. *)
Definition transportFor (proxyURL : string) : option goerr :=
  if decide (proxyURL = "") then None
  else match url_Parse proxyURL with
       | Some _ => None
       | None => Some (EWrapf "fetcher: invalid proxy url" (invalidURL proxyURL))
       end.

Definition searchURL (f : HTTPFetcher) (req : Request) : string :=
  if decide (rURL req = "") then
    let q := Set_ "q" (Query req) [] in
    let q := if decide (Country req = "") then q else Set_ "gl" (Country req) q in
    let q := if decide (Language req = "") then q else Set_ "hl" (Language req) q in
    Endpoint f ++ "?" ++ Encode q
  else rURL req.

(** [rejectConsentRequest]: [None] when the page has no usable form. *)
Definition rejectConsentRequest (pageURL : URL) (body userAgent via : string) : goerr + option HttpReq :=
  match NewDocument body with
  | None => inr None
  | Some doc =>
      let form := First (Find rejectConsentForm doc) in
      if Length form =? 0 then inr None
      else
        match url_Resolve pageURL (AttrOr "action" "" form) with
        | None => inr None
        | Some target =>
            let values := fold_left (fun vs i => Add (AttrOr "name" "" i) (AttrOr "value" "" i) vs)
                            (Each (Find "input[name]" form)) [] in
            let isGet := match Attr "method" form with
                         | Some m => bool_decide (ToLower m = "get")
                         | None => false
                         end in
            let r := if isGet
                     then newRequest "GET" (url_String (mkURL (Scheme target) (User target) (Host target) (Path target)
                                      (RawPath target) (Encode values) (Fragment target) (RawFragment target)))
                            "" via (setHeaders userAgent)
                     else newRequest "POST" (url_String target) (Encode values) via
                            (("Content-Type", "application/x-www-form-urlencoded") :: setHeaders userAgent) in
            match r with
            | inl e => inl (EWrapf "fetcher: build consent request" e)
            | inr r => inr (Some r)
            end
        end
  end.

(** The end of [Fetch], once the final page and its kind are known. *)
Definition finish (status : Z) (finalURL : URL) (header : string -> string) (body : string)
    (kind : pageKind) : FetchResult :=
  match blockedErrorFor kind (url_String finalURL) status body with
  | Some b => inl (EBlocked b)
  | None =>
      if status =? 429
      then inl (ERateLimit (mkRateLimit status (parseRetryAfter ParseTime now (header "Retry-After")).1
                              (truncate body 512)))
      else if 400 <=? status then inl (EStatus status)
      else inr (mkResponse status body elapsed (header "Content-Type") (url_String finalURL))
  end.

Definition withJSCheck (f : HTTPFetcher) (kind : pageKind) (contentType body : string) : pageKind :=
  if bool_decide (kind = pageNormal) && isHTML contentType && needsJS f body then pageInterstitial else kind.

Definition httpFetch (f : HTTPFetcher) : Fetcher NetState := fun req s =>
  match transportFor (ProxyURL req) with
  | Some e => (s, inl e)
  | None =>
  match newRequest "GET" (searchURL f req) "" (ProxyURL req) (setHeaders (UserAgent req)) with
  | inl e => (s, inl (EWrapf "fetcher: build request" e))
  | inr r1 =>
  let '(s1, res1) := do_ r1 s in
  match res1 with
  | inl e => (s1, inl e)
  | inr (status, finalURL, header, body) =>
      let ct := header "Content-Type" in
      let kind := if isHTML ct then classify f (url_String finalURL) status body else pageNormal in
      if decide (kind = pageConsent) then
        match rejectConsentRequest finalURL body (UserAgent req) (ProxyURL req) with
        | inl e => (s1, inl e)
        | inr None => (s1, finish status finalURL header body pageConsent)
        | inr (Some r2) =>
            let '(s2, res2) := do_ r2 s1 in
            match res2 with
            | inl e => (s2, inl e)
            | inr (status2, finalURL2, header2, body2) =>
                let s3 := mkNet (sent s2) (S (consentsHandled s2)) in
                let kind2 := classify f (url_String finalURL2) status2 body2 in
                (s3, finish status2 finalURL2 header2 body2
                       (withJSCheck f kind2 (header2 "Content-Type") body2))
            end
        end
      else (s1, finish status finalURL header body (withJSCheck f kind ct body))
  end end end.

(** *** ProviderFetcher

    [encoding/json] is the class [JSON]: decoding the top-level object into its
    raw members, the two fields read from an [ai_overview] stub (its token and
    how many text blocks it holds), the optional wrapper of a follow-up answer,
    and printing a top-level object. *)

Record ProviderFetcher := mkProvider { BaseURL : string; APIKey : string; Engine : string }.

Definition NewProviderFetcher (baseURL apiKey engine : string) : ProviderFetcher :=
  mkProvider baseURL apiKey (if decide (engine = "") then "google" else engine).

Definition doGet (f : ProviderFetcher) (proxyURL : string) (params : Values) (s : NetState)
    : NetState * (goerr + (string * Z * (string -> string))) :=
  if negb (bool_decide (proxyURL = "")) && negb (bool_decide (is_Some (url_Parse proxyURL)))
  then (s, inl (EWrapf "invalid proxy url" (invalidURL proxyURL)))
  else
    let params := if decide (APIKey f = "") then params else Set_ "api_key" (APIKey f) params in
    let u := BaseURL f ++ "?" ++ Encode params in
    match newRequest "GET" u "" proxyURL [("Accept", "application/json")] with
    | inl e => (s, inl (EWrapf "build request" e))
    | inr r =>
        let s1 := mkNet (sent s ++ [r])%list (consentsHandled s) in
        match clientDo (sent s) r with
        | inl e => (s1, inl e)
        | inr resp =>
            match BodyErr resp with
            | Some e => if len (RespBody resp) <? maxBodyBytes
                        then (s1, inl (EWrapf "read body" e))
                        else (s1, inr (truncate (RespBody resp) maxBodyBytes, Status resp, Header resp))
            | None => (s1, inr (truncate (RespBody resp) maxBodyBytes, Status resp, Header resp))
            end
        end
    end.

Class JSON := {
  UnmarshalTop : string -> option (gmap string string);
  UnmarshalStub : string -> option (string * nat);
  UnmarshalWrapper : string -> option string;
  MarshalTop : gmap string string -> option string }.

Context {J : JSON}.

Definition fetchAIOverviewPage (f : ProviderFetcher) (proxyURL pageToken : string) (s : NetState)
    : NetState * (goerr + string) :=
  let q := Set_ "page_token" pageToken (Set_ "engine" "google_ai_overview" []) in
  let '(s1, r) := doGet f proxyURL q s in
  match r with
  | inl e => (s1, inl (EWrapf "ai_overview follow-up request failed" e))
  | inr (body, status, _) =>
      if negb (status =? 200) then (s1, inl (EText "ai_overview follow-up status"))
      else match UnmarshalWrapper body with
           | Some w => (s1, inr (if decide (w = "") then body else w))
           | None => (s1, inr body)
           end
  end.

Definition resolveAIOverview (f : ProviderFetcher) (proxyURL body : string) (s : NetState) : NetState * string :=
  match UnmarshalTop body with
  | None => (s, body)
  | Some top =>
      match top !! "ai_overview" with
      | None => (s, body)
      | Some raw =>
          match UnmarshalStub raw with
          | None => (s, body)
          | Some (token, blocks) =>
              if bool_decide (token = "") || (0 <? blocks)%nat then (s, body)
              else
                let '(s1, r) := fetchAIOverviewPage f proxyURL token s in
                match r with
                | inl _ => (s1, body)
                | inr resolved =>
                    (s1, default body (MarshalTop (<["ai_overview" := resolved]> top)))
                end
          end
      end
  end.

Definition providerParams (f : ProviderFetcher) (req : Request) : Values :=
  let q := Set_ "q" (Query req) (Set_ "engine" (Engine f) []) in
  let q := if decide (Country req = "") then q else Set_ "gl" (Country req) q in
  let q := if decide (Language req = "") then q else Set_ "hl" (Language req) q in
  if decide (Device req = "") then q else Set_ "device" (Device req) q.

Definition providerFetch (f : ProviderFetcher) : Fetcher NetState := fun req s =>
  let '(s1, r) := doGet f (ProxyURL req) (providerParams f req) s in
  match r with
  | inl e => (s1, inl (EWrapf "provider fetcher: request failed" e))
  | inr (body, status, headers) =>
      if status =? 429
      then (s1, inl (ERateLimit (mkRateLimit status (parseRetryAfter ParseTime now (headers "Retry-After")).1 body)))
      else if negb (status =? 200)
      then (s1, inl (EText "provider fetcher: unexpected status"))
      else
        let '(s2, body) := resolveAIOverview f (ProxyURL req) body s1 in
        (s2, inr (mkResponse status body elapsed "" ""))
  end.

End Fetchers.

(** A decoder that understands nothing, for examples. *)
#[export] Instance noJSON : JSON :=
  {| UnmarshalTop _ := None; UnmarshalStub _ := None; UnmarshalWrapper _ := None; MarshalTop _ := None |}.

(** ** The mock fetcher ([mock.go])

    [ctxEnded] tells whether the context ended before the simulated latency. *)

Record Mock := mkMock { fixtures : list string; counter : Z; FailEvery : Z }.

(** An entry of the directory, with what [os.ReadFile] answers for it. *)
Record DirEntry := mkEntry { deName : string; deIsDir : bool; deRead : goerr + string }.

(** [filepath.Ext]: from the last dot of the last element. *)
Fixpoint extFrom (best s : string) : string :=
  match s with
  | EmptyString => best
  | String a rest => if Ascii.eqb a "/" then extFrom "" rest else if Ascii.eqb a "." then extFrom s rest else extFrom best rest
  end.

Definition Ext (name : string) : string := extFrom "" name.

(** The loop over the entries. *)
Fixpoint readFixtures (entries : list DirEntry) : goerr + list string :=
  match entries with
  | [] => inr []
  | e :: rest =>
      if deIsDir e || negb (bool_decide (Ext (deName e) = ".html")) then readFixtures rest
      else match deRead e with
           | inl err => inl (EWrapf ("mock fetcher: read fixture " ++ deName e) err)
           | inr b => match readFixtures rest with inl err => inl err | inr bs => inr (b :: bs) end
           end
  end.

(** [entries] is what [os.ReadDir] answers. *)
Definition NewMockFromDir (dir : string) (entries : goerr + list DirEntry) : goerr + Mock :=
  match entries with
  | inl err => inl (EWrapf "mock fetcher: read dir" err)
  | inr es =>
      match readFixtures es with
      | inl err => inl err
      | inr [] => inl (EText ("mock fetcher: no .html fixtures found in " ++ dir))
      | inr fixtures => inr (mkMock fixtures 0 0)
      end
  end.

Inductive MockResult := MockResp (r : FetchResult) | MockPanic.

Definition mockFetch (ctxErr : option goerr) (elapsed : duration) (m : Mock) : Mock * MockResult :=
  let n := wrapu64 (counter m + 1) in
  let m1 := mkMock (fixtures m) n (FailEvery m) in
  match ctxErr with
  | Some e => (m1, MockResp (inl e))
  | None =>
      if (0 <? FailEvery m) && (n mod FailEvery m =? 0)
      then (m1, MockResp (inl (EText "mock fetcher: simulated failure")))
      else
        let i := Z.rem (wrap64 (n - 1)) (Z.of_nat (length (fixtures m))) in
        match (if i <? 0 then None else fixtures m !! Z.to_nat i) with
        | Some body => (m1, MockResp (inr (mkResponse 200 body elapsed "" "")))
        | None => (m1, MockPanic)
        end
  end.
