(* ===== verification/FetchSpec.v ===== *)
(** * Properties of the fetchers

    What the worker pool relies on: errors keep their meaning under wrapping,
    a page is only returned when nothing recognised it as a block, block pages
    are never sent on to the browser, and the exceptions found. *)

From Stdlib Require Import Ascii.
From S2P Require Import Prelude GoString Web Errors Classify HttpFetch.

Open Scope string_scope.
Open Scope Z_scope.

(** ** Error chains *)

(** [wrapped e x]: [x] is [e] inside any number of single-error wrappers. *)
Inductive wrapped (e : goerr) : goerr -> Prop :=
  | wrap_self : wrapped e e
  | wrap_fmt m x : wrapped e x -> wrapped e (EWrapf m x)
  | wrap_url x : wrapped e x -> wrapped e (EUrl x)
  | wrap_transport x : wrapped e x -> wrapped e (ETransport x)
  | wrap_dropped n c x : wrapped e x -> wrapped e (EDropped n c (Some x)).

(** Errors that settle the outcome whatever network errors surround them. *)
Definition decisive (e : goerr) : bool :=
  match e with
  | ERateLimit _ | EBlocked _ | EStatus _ | ECanceled | EDeadlineExceeded | EPlaywrightTimeout => true
  | _ => false
  end.

Lemma As_wrapped {A} (f : goerr -> option A) e x : wrapped e x ->
  (forall m y, f (EWrapf m y) = None) -> (forall y, f (EUrl y) = None) ->
  (forall y, f (ETransport y) = None) -> (forall n c y, f (EDropped n c y) = None) ->
  As f x = As f e.
Proof.
  intros Hw H1 H2 H3 H4. unfold As.
  induction Hw; simpl; [done|rewrite H1|rewrite H2|rewrite H3|rewrite H4]; done.
Qed.

Lemma Is_wrapped f e x : wrapped e x ->
  (forall m y, f (EWrapf m y) = false) -> (forall y, f (EUrl y) = false) ->
  (forall y, f (ETransport y) = false) -> (forall n c y, f (EDropped n c y) = false) ->
  Is f x = Is f e.
Proof.
  intros Hw H1 H2 H3 H4. unfold Is.
  induction Hw; simpl; [done|rewrite H1|rewrite H2|rewrite H3|rewrite H4]; done.
Qed.

(** *** Network timeouts

    A [*url.Error] passes on the [Timeout()] of the error it holds, but only of
    that one: [errors.As] stops at it. *)

(** The timeout, or [*url.Error]s directly around it. *)
Inductive direct : goerr -> Prop :=
  | direct_net : direct (ENet true)
  | direct_url x : direct x -> direct (EUrl x).

(** The timeout can be seen: no other layer lies between it and a [*url.Error]. *)
Inductive heard : goerr -> Prop :=
  | heard_direct x : direct x -> heard x
  | heard_fmt m x : heard x -> heard (EWrapf m x)
  | heard_transport x : heard x -> heard (ETransport x)
  | heard_dropped n c x : heard x -> heard (EDropped n c (Some x)).

Lemma Timeout_direct x : wrapped (ENet true) x -> Timeout x = true <-> direct x.
Proof.
  induction 1 as [|m x _ _|x _ IH|x _ _|n c x _ _]; cbn [Timeout]; [split; [constructor|done]| |rewrite IH| |];
    split; intros H; try done; try (by inversion H); by constructor.
Qed.

Lemma asNet_heard x : wrapped (ENet true) x -> exists b, As asNet x = Some b /\ (b = true <-> heard x).
Proof.
  induction 1 as [|m x _ (b & Hb & IH)|x Hw _|x _ (b & Hb & IH)|n c x _ (b & Hb & IH)].
  - exists true. split; [done|]. split; [by repeat constructor|done].
  - exists b. split; [done|]. rewrite IH. split; [by constructor|]. intros H; inversion H as [? Hd| | |]; [by inversion Hd|done].
  - exists (Timeout x). split; [done|]. rewrite (Timeout_direct x Hw). split; [by intros; apply heard_direct, direct_url|].
    intros H; inversion H as [? Hd| | |]. by inversion Hd.
  - exists b. split; [done|]. rewrite IH. split; [by constructor|]. intros H; inversion H as [? Hd| | |]; [by inversion Hd|done].
  - exists b. split; [done|]. rewrite IH. split; [by constructor|]. intros H; inversion H as [? Hd| | |]; [by inversion Hd|done].
Qed.

(** C30. What wrapping does to a fetch error.  A rate limit, block page, HTTP
    status, cancellation, context deadline or Playwright timeout is classified
    the same however many [fmt.Errorf], [*url.Error], [TransportError] or
    [DroppedError] layers the fetchers put around it.  The timeout of another
    network error stays a timeout as long as no [*url.Error] holds it behind
    another layer; behind one it becomes a transport error. *)
Theorem classify_wrap_transparent e x : wrapped e x ->
  (decisive e = true -> Classify x = Classify e) /\
  (e = ENet true -> Classify e = OutcomeTimeout /\
     (heard x -> Classify x = OutcomeTimeout) /\ (~ heard x -> Classify x = OutcomeTransport)).
Proof.
  intros Hw. unfold Classify.
  rewrite (As_wrapped asRateLimit e x), (As_wrapped asBlocked e x), (As_wrapped asStatus e x) by done.
  rewrite (Is_wrapped isCanceled e x), (Is_wrapped isDeadline e x), (Is_wrapped isPlaywrightTimeout e x) by done.
  split; [by destruct e|]. intros ->. destruct (asNet_heard x Hw) as ([|] & -> & Hb); cbn; (split; [done|]).
  - split; [done|]. intros Hn. by destruct Hn; apply Hb.
  - rewrite orb_true_r. split; [|done]. by intros Hh%Hb.
Qed.

Lemma classify_wrap_transparent_witness :
  Classify (EWrapf "fetcher: request failed" (EUrl (EWrapf "dial" ECanceled))) = OutcomeCanceled /\
  Classify (EWrapf "fetcher: request failed" (EUrl (ENet true))) = OutcomeTimeout /\
  Classify (EUrl (EWrapf "dial" (ENet true))) = OutcomeTransport.
Proof.
  split; [|split].
  - refine (proj1 (classify_wrap_transparent ECanceled _ _) eq_refl). apply wrap_fmt, wrap_url, wrap_fmt, wrap_self.
  - refine (proj1 (proj2 (proj2 (classify_wrap_transparent (ENet true) _ _) eq_refl)) _);
      [repeat constructor|apply heard_fmt, heard_direct, direct_url, direct_net].
  - refine (proj2 (proj2 (proj2 (classify_wrap_transparent (ENet true) _ _) eq_refl)) _); [repeat constructor|].
    intros H. inversion H as [y Hd| | |]. inversion Hd as [|z Hz]. inversion Hz.
Defined.

(** ** The HTTP fetcher *)

Definition kindOutcome (k : pageKind) : Outcome :=
  match k with
  | pageNormal => OutcomeSuccess
  | pageConsent => OutcomeConsent
  | pageCaptcha => OutcomeCaptcha
  | pageInterstitial => OutcomeInterstitial
  | pageChallenge => OutcomeChallenge
  end.

(** The outcome of an answered page: a recognised page decides, else the status. *)
Definition answerOutcome (kind : pageKind) (status : Z) : Outcome :=
  if decide (kind = pageNormal) then
    if status =? 429 then OutcomeRateLimited
    else if 500 <=? status then OutcomeServerError
    else if 400 <=? status then OutcomeClientError
    else OutcomeSuccess
  else kindOutcome kind.

Lemma str_length_substring0 n s : (String.length (String.substring 0 n s) <= n)%nat.
Proof.
  revert s. induction n as [|n IH]; intros [|a s]; cbn [String.substring String.length]; try lia.
  specialize (IH s). lia.
Qed.

Lemma truncate_len s n : 0 <= n -> len (truncate s n) <= n.
Proof.
  intros Hn. unfold truncate. destruct (Z.leb_spec (len s) n); [done|].
  pose proof (str_length_substring0 (Z.to_nat n) s). unfold len. lia.
Qed.

Section Http.
Context {N : NetURL} {D : DOM}.
Context (clientDo : list HttpReq -> HttpReq -> goerr + HttpResp).
Context (ParseTime : string -> option time) (now : time) (elapsed : duration) (badURL : string -> goerr).

Abbreviation fetch := (httpFetch clientDo ParseTime now elapsed badURL).
Abbreviation done_ := (finish ParseTime now elapsed).

Lemma finish_outcome status u header body kind :
  classifyResult (done_ status u header body kind) = answerOutcome kind status.
Proof.
  unfold finish, answerOutcome. destruct kind; try reflexivity. simpl.
  destruct (Z.eqb_spec status 429) as [->|]; [reflexivity|].
  destruct (Z.leb_spec 400 status); cbn; [unfold Classify; cbn|]; destruct (Z.leb_spec 500 status); try done; lia.
Qed.

Lemma finish_success status u header body kind resp :
  done_ status u header body kind = inr resp ->
  kind = pageNormal /\ status < 400 /\ resp = mkResponse status body elapsed (header "Content-Type") (url_String u).
Proof.
  unfold finish. destruct kind; try done. cbn. destruct (status =? 429); [done|].
  destruct (Z.leb_spec 400 status); [done|]. by intros [= <-].
Qed.

Lemma withJSCheck_normal f kind ct body : withJSCheck f kind ct body = pageNormal ->
  kind = pageNormal /\ (isHTML ct = true -> needsJS f body = false).
Proof.
  unfold withJSCheck. destruct (bool_decide (kind = pageNormal)) eqn:Hk; cbn [andb].
  - apply bool_decide_eq_true in Hk as ->. destruct (isHTML ct), (needsJS f body); try done.
  - by apply bool_decide_eq_false in Hk.
Qed.

(** What [do] gets for [r], the requests [h] having been sent: an answer whose
    body could be read, or was long enough before it could not. *)
Definition answered (h : list HttpReq) (r : HttpReq) (a : Z * URL * (string -> string) * string) : Prop :=
  exists resp, clientDo h r = inr resp /\ (BodyErr resp = None \/ maxBodyBytes <= len (RespBody resp)) /\
    a = (Status resp, RespURL resp, Header resp, truncate (RespBody resp) maxBodyBytes).

Lemma do_spec r s : let '(s1, res) := do_ clientDo r s in
  s1 = mkNet (sent s ++ [r])%list (consentsHandled s) /\ forall a, res = inr a <-> answered (sent s) r a.
Proof.
  unfold do_, answered. destruct (clientDo (sent s) r) as [e|resp]; [split; [done|]; split; [done|by intros (? & ? & _)]|].
  destruct (BodyErr resp) as [e|] eqn:He; [destruct (Z.ltb_spec (len (RespBody resp)) maxBodyBytes)|]; (split; [done|]); intros a.
  - split; [done|]. intros (x & [= <-] & [Hx|Hx] & _); [congruence|lia].
  - split; [intros [= <-]; exists resp; auto|]. by intros (x & [= <-] & _ & ->).
  - split; [intros [= <-]; exists resp; auto|]. by intros (x & [= <-] & _ & ->).
Qed.

Lemma answered_len h r status u header body : answered h r (status, u, header, body) -> len body <= maxBodyBytes.
Proof. intros (resp & _ & _ & [= -> -> -> ->]). apply truncate_len. by vm_compute. Qed.

(** *** What the two requests are *)

(** The search page, or the URL of the request. *)
Definition pageRequest (f : HTTPFetcher) (req : Request) (r : HttpReq) : Prop :=
  r = mkHttpReq "GET" (searchURL f req) "" (setHeaders (UserAgent req)) (ProxyURL req) /\
  transportFor badURL (ProxyURL req) = None /\ is_Some (url_Parse (searchURL f req)).

(** An HTML answer that is a consent wall. *)
Definition wall (f : HTTPFetcher) (a : Z * URL * (string -> string) * string) : Prop :=
  let '(status, u, header, body) := a in
  isHTML (header "Content-Type") = true /\ classify f (url_String u) status body = pageConsent.

(** The submission of the "reject all" form of that page: all its named inputs, in
    document order, to its action, by its method. *)
Definition submission (a : Z * URL * (string -> string) * string) (req : Request) (r : HttpReq) : Prop :=
  let '(_, u, _, body) := a in
  exists doc target, NewDocument body = Some doc /\
    let form := First (Find rejectConsentForm doc) in
    Length form <> 0 /\ url_Resolve u (AttrOr "action" "" form) = Some target /\ is_Some (url_Parse (Target r)) /\
    let fields := map (fun i => (AttrOr "name" "" i, AttrOr "value" "" i)) (Each (Find "input[name]" form)) in
    (option_map ToLower (Attr "method" form) = Some "get" /\
       r = mkHttpReq "GET" (url_String (mkURL (Scheme target) (User target) (Host target) (Path target) (RawPath target)
                              (Encode fields) (Fragment target) (RawFragment target))) ""
             (setHeaders (UserAgent req)) (ProxyURL req) \/
     option_map ToLower (Attr "method" form) <> Some "get" /\
       r = mkHttpReq "POST" (url_String target) (Encode fields)
             (("Content-Type", "application/x-www-form-urlencoded") :: setHeaders (UserAgent req)) (ProxyURL req)).

Lemma fields_spec (l : list Sel) vs : fold_left (fun vs i => Add (AttrOr "name" "" i) (AttrOr "value" "" i) vs) l vs =
  (vs ++ map (fun i => (AttrOr "name" "" i, AttrOr "value" "" i)) l)%list.
Proof.
  revert vs. induction l as [|i l IH]; intros vs; cbn [fold_left map]; [by rewrite app_nil_r|].
  rewrite IH. unfold Add. by rewrite <- app_assoc.
Qed.

Lemma reject_submission status u header body req r :
  rejectConsentRequest badURL u body (UserAgent req) (ProxyURL req) = inr (Some r) <-> submission (status, u, header, body) req r.
Proof.
  unfold rejectConsentRequest, submission, newRequest. destruct (NewDocument body) as [doc|]; [|split; [done|by intros (? & ? & ? & _)]].
  cbv zeta. set (form := First (Find rejectConsentForm doc)).
  assert (Hdoc : forall d, Some doc = Some d -> First (Find rejectConsentForm d) = form) by (by intros d [= <-]).
  destruct (Z.eqb_spec (Length form) 0) as [H0|H0].
  { split; [done|]. intros (d & target & Hd & Hl & _). by rewrite (Hdoc d Hd) in Hl. }
  destruct (url_Resolve u (AttrOr "action" "" form)) as [target|] eqn:Ht.
  2: { split; [done|]. intros (d & target & Hd & _ & Hr & _). rewrite (Hdoc d Hd) in Hr. congruence. }
  rewrite fields_spec. cbn [app].
  assert (Hget : match Attr "method" form with Some m => bool_decide (ToLower m = "get") | None => false end =
            bool_decide (option_map ToLower (Attr "method" form) = Some "get")).
  { destruct (Attr "method" form) as [m|]; cbn; [|done]. apply bool_decide_ext. split; congruence. }
  rewrite Hget. split.
  - case_bool_decide as Hm; destruct (url_Parse _) as [p|] eqn:Hp; try done; intros [= <-]; exists doc, target;
      (split; [done|]); cbv zeta; fold form; (split; [done|]); (split; [done|]); (split; [cbn; by rewrite Hp|]); auto.
  - intros (d & target' & Hd & Hl & Hr & Hp & Hcase). rewrite (Hdoc d Hd) in Hl, Hr, Hcase. rewrite Ht in Hr. injection Hr as <-.
    destruct Hcase as [[Hm ->]|[Hm ->]]; [rewrite bool_decide_eq_true_2 by done|rewrite bool_decide_eq_false_2 by done];
      destruct Hp as [p Hp]; cbn in Hp; by rewrite Hp.
Qed.

(** The requests of one fetch after [h], and how many consents it counts: none when
    the request cannot be made; the page, when it is no consent wall or one that
    cannot be submitted; the page and the submission, counted if it was answered. *)
Inductive exchange (f : HTTPFetcher) (req : Request) (h : list HttpReq) : list HttpReq -> nat -> Prop :=
  | ex_none : (forall r, ~ pageRequest f req r) -> exchange f req h [] 0
  | ex_page r1 : pageRequest f req r1 ->
      (forall a, answered h r1 a -> wall f a -> forall r2, ~ submission a req r2) -> exchange f req h [r1] 0
  | ex_submit r1 a r2 n : pageRequest f req r1 -> answered h r1 a -> wall f a -> submission a req r2 ->
      (n <= 1)%nat -> (n = 1%nat <-> exists a2, answered (h ++ [r1])%list r2 a2) -> exchange f req h [r1; r2] n.

(** The response made of the answer to the last request. *)
Definition responded (f : HTTPFetcher) (h reqs : list HttpReq) (resp : Response) : Prop :=
  exists before q status u header body, reqs = (before ++ [q])%list /\
    answered (h ++ before)%list q (status, u, header, body) /\
    resp = mkResponse status body elapsed (header "Content-Type") (url_String u) /\
    status < 400 /\ len body <= maxBodyBytes /\
    (isHTML (header "Content-Type") = true ->
       classify f (url_String u) status body = pageNormal /\ needsJS f body = false).

Lemma responded_finish f h before q status u header body kind resp :
  answered (h ++ before)%list q (status, u, header, body) ->
  (isHTML (header "Content-Type") = true -> kind = classify f (url_String u) status body) ->
  done_ status u header body (withJSCheck f kind (header "Content-Type") body) = inr resp ->
  responded f h (before ++ [q]) resp.
Proof.
  intros Ha Hkind Hfin. apply finish_success in Hfin as (Hk & Hs & ->). apply withJSCheck_normal in Hk as [Hk Hjs].
  exists before, q, status, u, header, body. split_and!; try done; [by eapply answered_len|].
  intros Hh. split; [by rewrite <- Hkind|by apply Hjs].
Qed.

Lemma answered_fun h r a b : answered h r a -> answered h r b -> a = b.
Proof. intros (x & Hx & _ & ->) (y & Hy & _ & ->). rewrite Hx in Hy. by injection Hy as ->. Qed.

(** No HTML response was due. *)
Definition withheld (f : HTTPFetcher) (h reqs : list HttpReq) : Prop :=
  forall resp, isHTML (ContentType resp) = true -> ~ responded f h reqs resp.

Lemma withheld_unanswered f h before q : (forall a, ~ answered (h ++ before)%list q a) -> withheld f h (before ++ [q]).
Proof.
  intros Hno resp _ (b' & q' & st & u & hd & bd & Heq & Ha & _). apply app_inj_tail in Heq as [<- <-]. by eapply Hno.
Qed.

Lemma withheld_finish f h before q status u header body kind e :
  answered (h ++ before)%list q (status, u, header, body) ->
  (isHTML (header "Content-Type") = true -> kind = classify f (url_String u) status body) ->
  done_ status u header body (withJSCheck f kind (header "Content-Type") body) = inl e -> withheld f h (before ++ [q]).
Proof.
  intros Ha Hkind Hfin resp Hhtml (b' & q' & st & u' & hd & bd & Heq & Ha' & -> & Hst & _ & Hok).
  apply app_inj_tail in Heq as [<- <-]. pose proof (answered_fun _ _ _ _ Ha Ha') as [= <- <- <- <-].
  cbn [ContentType] in Hhtml. destruct (Hok Hhtml) as [Hc Hjs]. rewrite (Hkind Hhtml), Hc in Hfin.
  unfold withJSCheck in Hfin. rewrite Hhtml, Hjs in Hfin. cbn in Hfin. unfold finish in Hfin. cbn in Hfin.
  destruct (Z.eqb_spec status 429); [lia|]. by destruct (Z.leb_spec 400 status); [lia|].
Qed.

(** C20. What the HTTP fetcher sends and returns.  It asks for the search page, or
    the URL of the request, through the request's proxy, unless the URL or the
    proxy is invalid; a second request is sent exactly when the HTML answer is a
    consent wall with a usable "reject all" form, and it is the submission of that
    form with all its named inputs; a consent is counted exactly when that was
    answered.  A response is made of the last answer, and only of one with a
    status below 400 and at most 5 MiB which, if HTML, was recognised neither as a
    block or consent wall nor as a page needing JavaScript; and an HTML answer of
    that kind is always returned. *)
Theorem http_fetch_sound f req s :
  let '(s', r) := fetch f req s in
  exists reqs n, sent s' = (sent s ++ reqs)%list /\ consentsHandled s' = (consentsHandled s + n)%nat /\
    exchange f req (sent s) reqs n /\
    match r with inl _ => withheld f (sent s) reqs | inr resp => responded f (sent s) reqs resp end.
Proof.
  unfold httpFetch. destruct (transportFor _ _) as [e|] eqn:Ht.
  { exists [], 0%nat. rewrite app_nil_r, Nat.add_0_r. split_and!; try done.
    - constructor. intros r (_ & Hn & _). congruence.
    - intros resp _ (b & q & st & u & hd & bd & Heq & _). by destruct b. }
  unfold newRequest. destruct (url_Parse (searchURL f req)) as [p|] eqn:Hp.
  2: { exists [], 0%nat. rewrite app_nil_r, Nat.add_0_r. split_and!; try done.
    - constructor. intros r (_ & _ & [q Hq]). congruence.
    - intros resp _ (b & q & st & u & hd & bd & Heq & _). by destruct b. }
  set (r1 := mkHttpReq _ _ _ _ _). assert (Hpage : pageRequest f req r1) by (split_and!; [done..|by rewrite Hp]).
  pose proof (do_spec r1 s) as Hdo. destruct (do_ clientDo r1 s) as [s1 res1]. destruct Hdo as [-> Ha].
  assert (Hone : forall r : FetchResult, (forall a, answered (sent s) r1 a -> wall f a -> forall r2, ~ submission a req r2) ->
    match r with inl _ => withheld f (sent s) [r1] | inr resp => responded f (sent s) [r1] resp end ->
    exists reqs n, (sent s ++ [r1])%list = (sent s ++ reqs)%list /\ consentsHandled s = (consentsHandled s + n)%nat /\
      exchange f req (sent s) reqs n /\ match r with inl _ => withheld f (sent s) reqs | inr resp => responded f (sent s) reqs resp end).
  { intros r Hno Hr. exists [r1], 0%nat. rewrite Nat.add_0_r. split_and!; try done. by constructor. }
  destruct res1 as [e|[[[status u] header] body]]; [apply (Hone (inl e)); [intros a Haa; by apply Ha in Haa|]; apply (withheld_unanswered f (sent s) [] r1); intros a Haa;
    rewrite app_nil_r in Haa; by apply Ha in Haa|].
  pose proof (proj1 (Ha _) eq_refl) as Ha1.
  assert (Hfun : forall a, answered (sent s) r1 a -> a = (status, u, header, body)) by (intros a Haa; apply Ha in Haa; congruence).
  assert (Hkind : isHTML (header "Content-Type") = true ->
    (if isHTML (header "Content-Type") then classify f (url_String u) status body else pageNormal) = classify f (url_String u) status body)
    by (by intros ->).
  destruct (decide (_ = pageConsent)) as [Hc|Hc].
  2: { apply Hone.
       - intros a Haa. apply Hfun in Haa as ->. intros [Hh Hw] r2. by rewrite Hh in Hc.
       - destruct (done_ _ _ _ _ _) as [e|resp] eqn:Hfin.
         + eapply (withheld_finish f (sent s) [] r1 status u header body); [by rewrite app_nil_r|exact Hkind|exact Hfin].
         + eapply (responded_finish f (sent s) [] r1 status u header body); [by rewrite app_nil_r|exact Hkind|exact Hfin]. }
  assert (Hwall : wall f (status, u, header, body)) by (destruct (isHTML _) eqn:Hh; [by split|done]).
  assert (Hheld : withheld f (sent s) [r1]).
  { intros resp _ (b & q & st & u' & hd & bd & Heq & Haa & _ & _ & _ & Hok). apply (app_inj_tail [] b r1 q) in Heq as [<- <-].
    rewrite app_nil_r in Haa. apply Hfun in Haa as [= -> -> -> ->]. destruct Hwall as [Hh Hw]. destruct (Hok Hh) as [Hn _]. congruence. }
  pose proof (reject_submission status u header body req) as Hrej.
  destruct (rejectConsentRequest _ _ _ _ _) as [e|[r2|]].
  { apply (Hone (inl e)); [|done]. intros a Haa _ r2. apply Hfun in Haa as ->. by rewrite <- Hrej. }
  2: { assert (Hfin : exists b, done_ status u header body pageConsent = inl (EBlocked b)) by (by eexists). destruct Hfin as [b ->].
       apply (Hone (inl (EBlocked b))); [|done]. intros a Haa _ r2. apply Hfun in Haa as ->. by rewrite <- Hrej. }
  pose proof (proj1 (Hrej r2) eq_refl) as Hsub.
  pose proof (do_spec r2 (mkNet (sent s ++ [r1])%list (consentsHandled s))) as Hdo2.
  destruct (do_ clientDo r2 _) as [s2 res2]. destruct Hdo2 as [-> Ha2]. cbn [sent consentsHandled] in *.
  assert (Htwo : forall n (r : FetchResult), (n <= 1)%nat -> (n = 1%nat <-> exists a2, answered (sent s ++ [r1])%list r2 a2) ->
    match r with inl _ => withheld f (sent s) [r1; r2] | inr resp => responded f (sent s) [r1; r2] resp end ->
    exists reqs m, ((sent s ++ [r1]) ++ [r2])%list = (sent s ++ reqs)%list /\ (n + consentsHandled s)%nat = (consentsHandled s + m)%nat /\
      exchange f req (sent s) reqs m /\ match r with inl _ => withheld f (sent s) reqs | inr resp => responded f (sent s) reqs resp end).
  { intros n r Hn Hiff Hr. exists [r1; r2], n. rewrite <- app_assoc. split_and!; [done|lia|by eapply ex_submit|done]. }
  destruct res2 as [e|[[[status2 u2] header2] body2]]; cbn [sent consentsHandled].
  - apply (Htwo 0%nat (inl e)); [lia|split; [done|]; intros (a2 & Haa); by apply Ha2 in Haa|].
    apply (withheld_unanswered f (sent s) [r1] r2). intros a Haa. by apply Ha2 in Haa.
  - pose proof (proj1 (Ha2 _) eq_refl) as Haa2. apply (Htwo 1%nat); [lia|split; [by eexists|done]|].
    destruct (done_ _ _ _ _ _) as [e|resp] eqn:Hfin.
    + by apply (withheld_finish f (sent s) [r1] r2 status2 u2 header2 body2 _ e) in Hfin.
    + by apply (responded_finish f (sent s) [r1] r2 status2 u2 header2 body2 _ resp) in Hfin.
Qed.

(** ** Hybrid mode *)

(** In hybrid mode a block never reaches the browser: when the HTTP fetch
    ends in anything but a JavaScript check or a consent wall (a CAPTCHA, a
    vendor challenge, a rate limit, an HTTP or network error, or a success),
    the browser is not called and its result stands; in the two other cases
    the browser is called exactly once, unless the context has ended. *)
Theorem hybrid_never_renders_blocks {S} (primary secondary : Fetcher S) (ctxDone : S -> bool) cb req s :
  let f := mkFailover primary secondary None cb in
  let '(s1, r1) := primary req s in
  let o := classifyResult r1 in
  if bool_decide (o = OutcomeInterstitial) || bool_decide (o = OutcomeConsent) then
    failoverFetch f ctxDone req s =
      if ctxDone s1 then (s1, r1) else secondary req (default (fun _ s => s) cb o s1)
  else failoverFetch f ctxDone req s = (s1, r1).
Proof.
  cbv zeta. unfold failoverFetch. cbn [Primary Secondary FailoverOn OnFailover].
  destruct (primary req s) as [s1 [e|resp]]; cbn [classifyResult]; [|done].
  destruct (ctxDone s1); [by destruct (_ || _)|]. simpl. unfold DefaultFailoverOn.
  destruct (_ || _); simpl; [|done]. by destruct cb.
Qed.

(** The outcome of an answered page: any recognised page (block, consent,
    JavaScript check) decides, whatever its status; otherwise 429 is a rate
    limit, 5xx a server error, other 4xx a client error and the rest success. *)
Theorem http_answer_outcome f req s s1 r1 status u header body :
  transportFor badURL (ProxyURL req) = None ->
  newRequest badURL "GET" (searchURL f req) "" (ProxyURL req) (setHeaders (UserAgent req)) = inr r1 ->
  do_ clientDo r1 s = (s1, inr (status, u, header, body)) ->
  let kind := if isHTML (header "Content-Type") then classify f (url_String u) status body else pageNormal in
  kind <> pageConsent ->
  classifyResult (fetch f req s).2 =
    answerOutcome (withJSCheck f kind (header "Content-Type") body) status /\ (fetch f req s).1 = s1.
Proof.
  intros Ht Hr Hd kind Hk. unfold httpFetch. rewrite Ht, Hr, Hd. fold kind.
  rewrite decide_False by done. split; [apply finish_outcome|done].
Qed.

End Http.

Lemma http_answer_outcome_witness :
  let u := mkURL "https" "" "a.test" "/" "" "" "" "" in
  let resp := mkHttpResp 503 u (fun _ => "text/html") "<p>busy</p>" None in
  let f := mkHTTPFetcher "https://a.test/search" false false in
  let req := mkRequest "q" "" "" "" "" "" "" "" in
  classifyResult (httpFetch (fun _ _ => inr resp) (fun _ => None) 0 0 (fun _ => EText "parse") f req (mkNet [] 0)).2
    = OutcomeServerError.
Proof.
  intros u resp f req.
  refine (proj1 (http_answer_outcome (fun _ _ => inr resp) (fun _ => None) 0 0 (fun _ => EText "parse") f req
                   (mkNet [] 0) _ _ 503 u (fun _ => "text/html") "<p>busy</p>" _ _ _ _)).
  - reflexivity.
  - reflexivity.
  - reflexivity.
  - vm_compute. discriminate.
Defined.

(** ** The provider *)

Section Provider.
Context {N : NetURL} {J : JSON}.
Context (clientDo : list HttpReq -> HttpReq -> goerr + HttpResp).
Context (ParseTime : string -> option time) (now : time) (elapsed : duration) (badURL : string -> goerr).

Abbreviation pfetch := (providerFetch clientDo ParseTime now elapsed badURL).

Lemma doGet_sent f via q s : let '(s1, r) := doGet clientDo badURL f via q s in
  exists l, sent s1 = (sent s ++ l)%list /\ (length l <= 1)%nat.
Proof.
  unfold doGet. destruct (_ && _); [exists []; rewrite app_nil_r; simpl; split; [done|lia]|].
  destruct (newRequest _ _ _ _ _ _) as [e|r]; [exists []; rewrite app_nil_r; simpl; split; [done|lia]|].
  destruct (clientDo (sent s) r) as [e|resp]; [by exists [r]|].
  destruct (BodyErr resp); [destruct (_ <? _)|]; by exists [r].
Qed.

Lemma resolve_spec f via body s : let '(s1, b) := resolveAIOverview clientDo badURL f via body s in
  (exists l, sent s1 = (sent s ++ l)%list /\ (length l <= 1)%nat) /\
  (b = body \/ exists top resolved, UnmarshalTop body = Some top /\ is_Some (top !! "ai_overview") /\
     MarshalTop (<["ai_overview" := resolved]> top) = Some b).
Proof.
  assert (Hn : exists l, sent s = (sent s ++ l)%list /\ (length l <= 1)%nat)
    by (exists []; rewrite app_nil_r; simpl; split; [done|lia]).
  unfold resolveAIOverview. destruct (UnmarshalTop body) as [top|] eqn:Ht; [|by split; [|left]].
  destruct (top !! "ai_overview") as [raw|] eqn:Hr; [|by split; [|left]].
  destruct (UnmarshalStub raw) as [[token blocks]|]; [|by split; [|left]].
  destruct (_ || _); [by split; [|left]|]. unfold fetchAIOverviewPage.
  pose proof (doGet_sent f via (Set_ "page_token" token (Set_ "engine" "google_ai_overview" [])) s) as Hd.
  destruct (doGet _ _ _ _ _ _) as [s1 [e|[[b1 st] hd]]]; [by split; [|left]|].
  destruct (negb (st =? 200)); [by split; [|left]|].
  assert (Hfin : forall res, b1 = b1 -> (default body (MarshalTop (<["ai_overview" := res]> top)) = body \/
     exists top0 resolved, Some top = Some top0 /\ is_Some (top0 !! "ai_overview") /\
       MarshalTop (<["ai_overview" := resolved]> top0) = Some (default body (MarshalTop (<["ai_overview" := res]> top))))).
  { intros res _. destruct (MarshalTop (<["ai_overview" := res]> top)) as [m|] eqn:Hm; [right|by left].
    exists top, res. rewrite Hr. simpl. eauto. }
  destruct (UnmarshalWrapper b1); split; try done; by apply Hfin.
Qed.

(** A provider fetch makes at most two requests, and the AI-overview
    follow-up is never fatal: once the search itself was answered with a 200
    the fetch succeeds, with the provider's body unchanged or with only its
    [ai_overview] member replaced. *)
Theorem provider_followup_nonfatal f req s :
  let '(s', r) := pfetch f req s in
  (exists l, sent s' = (sent s ++ l)%list /\ (length l <= 2)%nat) /\
  forall s1 body headers,
    doGet clientDo badURL f (ProxyURL req) (providerParams f req) s = (s1, inr (body, 200, headers)) ->
    exists resp, r = inr resp /\ StatusCode resp = 200 /\
      (Body resp = body \/ exists top resolved, UnmarshalTop body = Some top /\ is_Some (top !! "ai_overview") /\
         MarshalTop (<["ai_overview" := resolved]> top) = Some (Body resp)).
Proof.
  unfold providerFetch.
  pose proof (doGet_sent f (ProxyURL req) (providerParams f req) s) as Hd.
  destruct (doGet _ _ _ _ _ s) as [s1 [e|[[body st] hd]]]; destruct Hd as (l & Hl & Hlen).
  { split; [exists l; split; [done|lia]|]. intros s1' b h Hq. congruence. }
  destruct (Z.eqb_spec st 429) as [->|].
  { split; [exists l; split; [done|lia]|]. intros s1' b h Hq. congruence. }
  destruct (Z.eqb_spec st 200) as [->|]; cbn [negb].
  2: { split; [exists l; split; [done|lia]|]. intros s1' b h Hq. congruence. }
  pose proof (resolve_spec f (ProxyURL req) body s1) as Hres.
  destruct (resolveAIOverview _ _ _ _ _ _) as [s2 b2]. destruct Hres as ((l2 & Hl2 & Hlen2) & Hb).
  split.
  - exists (l ++ l2)%list. rewrite length_app, Hl2, Hl, <- app_assoc. split; [done|lia].
  - intros s1' b h Hq. injection Hq as -> -> ->. eexists. split; [done|]. by split.
Qed.

(** A provider's HTTP error loses its status: any answer other than 200 and
    429, a 401 or 404 included, becomes an untyped error that [Classify]
    cannot tell from an unknown failure, so the worker retries it and blames
    the proxy, where the other fetchers' 4xx end the job. *)
Theorem provider_4xx_retried f req s s1 body status headers :
  doGet clientDo badURL f (ProxyURL req) (providerParams f req) s = (s1, inr (body, status, headers)) ->
  status <> 200 -> status <> 429 ->
  classifyResult (pfetch f req s).2 = OutcomeOther /\ Retryable (classifyResult (pfetch f req s).2) = true /\
  (400 <= status < 500 -> Retryable (Classify (EStatus status)) = false).
Proof.
  intros Hg H200 H429. unfold providerFetch. rewrite Hg.
  apply Z.eqb_neq in H429 as ->. apply Z.eqb_neq in H200 as ->. cbn [negb].
  split; [done|]. split; [done|]. intros Hs. unfold Classify. cbn.
  destruct (Z.leb_spec 500 status); [lia|done].
Qed.

End Provider.

Lemma provider_4xx_retried_witness :
  let resp := mkHttpResp 401 (mkURL "https" "" "api.test" "/" "" "" "" "") (fun _ => "") "bad key" None in
  let f := NewProviderFetcher "https://api.test/search" "k" "" in
  let req := mkRequest "q" "" "" "" "" "" "" "" in
  classifyResult (providerFetch (fun _ _ => inr resp) (fun _ => None) 0 0 (fun _ => EText "parse") f req (mkNet [] 0)).2
    = OutcomeOther.
Proof.
  intros resp f req.
  refine (proj1 (provider_4xx_retried (fun _ _ => inr resp) (fun _ => None) 0 0 (fun _ => EText "parse") f req
                   (mkNet [] 0) _ "bad key" 401 (fun _ => "") _ _ _)).
  - reflexivity.
  - discriminate.
  - discriminate.
Defined.

(** [Retry-After] seconds are multiplied in 64 bits: a large value wraps, here to
    a negative duration reported as valid. *)
Lemma retry_after_wraps pt now :
  parseRetryAfter pt now "9223372037" = (-9223372036709551616, true).
Proof. by vm_compute. Qed.

(** ** The mock fetcher *)

(** The fixtures are the [.html] files, in directory order; loading fails if
    there are none or one cannot be read. *)
Lemma readFixtures_spec es fs : readFixtures es = inr fs ->
  Forall2 (fun e b => deRead e = inr b)
    (List.filter (fun e => negb (deIsDir e || negb (bool_decide (Ext (deName e) = ".html")))) es) fs.
Proof.
  revert fs. induction es as [|e es IH]; intros fs Hr; cbn [readFixtures] in Hr; [injection Hr as <-; constructor|].
  cbn [List.filter]. destruct (deIsDir e || _); cbn [negb]; [by apply IH|].
  destruct (deRead e) as [|b] eqn:He; [done|]. destruct (readFixtures es) as [|bs]; [done|]. injection Hr as <-.
  constructor; [done|by apply IH].
Qed.

(** A mock fetcher built from a directory answers every call that is neither
    canceled nor a simulated failure, for its first [2^63 - 1] calls, with the
    fixtures in rotation: it never indexes out of range. *)
Theorem mock_rotates dir entries m0 k elapsed : NewMockFromDir dir entries = inr m0 -> 0 <= k < int64_max ->
  let m := mkMock (fixtures m0) k 0 in
  exists body, fixtures m0 !! Z.to_nat (k mod Z.of_nat (length (fixtures m0))) = Some body /\
    mockFetch None elapsed m = (mkMock (fixtures m0) (k + 1) 0, MockResp (inr (mkResponse 200 body elapsed "" ""))).
Proof.
  intros Hn Hk m. unfold NewMockFromDir in Hn. destruct entries as [|es]; [done|].
  destruct (readFixtures es) as [|[|f fs]]; [done..|]. injection Hn as <-. cbn [fixtures] in *.
  assert (Hlen : 0 < Z.of_nat (length (f :: fs))) by (cbn [length]; lia).
  pose proof (Z.mod_pos_bound k _ Hlen) as Hm.
  destruct (lookup_lt_is_Some_2 (f :: fs) (Z.to_nat (k mod Z.of_nat (length (f :: fs))))) as [body Hb]; [lia|].
  exists body. split; [done|]. unfold mockFetch, m. cbn [counter FailEvery fixtures].
  rewrite wrapu64_id by (unfold int64_max in Hk; lia). rewrite Z.add_simpl_r, wrap64_id by (unfold in_int64, int64_min; lia).
  rewrite Z.rem_mod_nonneg by lia. change (0 <? 0) with false. cbn [andb].
  rewrite (proj2 (Z.ltb_ge _ 0)) by lia. by rewrite Hb.
Qed.

Lemma mock_rotates_witness :
  mockFetch None 7 (mkMock ["<a>"; "<b>"] 3 0) = (mkMock ["<a>"; "<b>"] 4 0, MockResp (inr (mkResponse 200 "<b>" 7 "" ""))).
Proof.
  destruct (mock_rotates "d" (inr [mkEntry "notes.txt" false (inl (EText "x")); mkEntry "1.html" false (inr "<a>"); mkEntry "2.html" false (inr "<b>")])
    (mkMock ["<a>"; "<b>"] 0 0) 3 7) as (body & Hb & H); [by vm_compute|by vm_compute|].
  vm_compute in Hb. injection Hb as <-. exact H.
Defined.
