(* ===== verification/ProxyPool.v ===== *)
(** * The rotating proxy pool ([internal/proxy/pool.go])

    A [Pool] hands out egress identities.  The Go code shares [*Proxy]
    pointers between the pool's slice, its [byURL] map and the workers that
    hold a proxy while a request is in flight, so the model keeps an explicit
    store of proxies addressed by allocation number: a proxy dropped by
    [Reload] stays in the store and may still be reported on.

    The clock is a parameter: an operation that reads [time.Now()] several
    times takes [clk], the successive readings, and one that reads it once
    takes [now].  [rand.Intn] and [rand.Float64] are the arguments [intn] and
    [rnd] of the strategies that use them. *)

From S2P Require Import Prelude Float64.

(** ** Data *)

Inductive Strategy := RoundRobin | Random | WeightedSuccessRate.

Inductive Outcome := Success | Failure | Blocked | RateLimited | Neutral.

#[export] Instance Strategy_eq_dec : EqDecision Strategy.
Proof. solve_decision. Defined.

#[export] Instance Outcome_eq_dec : EqDecision Outcome.
Proof. solve_decision. Defined.

Definition healthAlpha : f64 := f64_const 2 10.
(** The compiler folds [1-healthAlpha] exactly before rounding it. *)
Definition healthKeep : f64 := f64_const 8 10.

Record Proxy := mkProxy {
  URL : string;
  consecutiveFails : Z;
  bannedUntil : time;
  totalSuccess : Z;
  totalFailure : Z;
  lastUsedAt : time;
  banStreak : Z;
  health : f64;
  hasHealth : bool }.

Definition freshProxy (u : string) : Proxy :=
  mkProxy u 0 zeroTime 0 0 zeroTime 0 f64_zero false.

Definition Key (p : Proxy) : string := if decide (URL p = ""%string) then "direct"%string else URL p.

Definition isBanned (now : time) (p : Proxy) : bool := Before now (bannedUntil p).

Definition healthLocked (p : Proxy) : f64 :=
  if hasHealth p then health p else S754_finite true (2 ^ 52) (-52).

Definition recordHealthLocked (ok : bool) (p : Proxy) : Proxy :=
  let v := if ok then f64_one else f64_zero in
  let h := if hasHealth p then f64_add (f64_mul healthKeep (health p)) (f64_mul healthAlpha v)
           else v in
  mkProxy (URL p) (consecutiveFails p) (bannedUntil p) (totalSuccess p) (totalFailure p)
    (lastUsedAt p) (banStreak p) h true.

Record Stats := mkStats {
  sURL : string;
  sTotalSuccess : Z;
  sTotalFailure : Z;
  sConsecutiveFails : Z;
  sBanned : bool;
  sBannedUntil : time;
  sLastUsedAt : time;
  sBanStreak : Z;
  sHealth : f64 }.

Definition stats (now : time) (p : Proxy) : Stats :=
  mkStats (URL p) (totalSuccess p) (totalFailure p) (consecutiveFails p) (isBanned now p)
    (bannedUntil p) (lastUsedAt p) (banStreak p) (healthLocked p).

(** [SuccessRate]: the sum of the two [uint64] counters wraps. *)
Definition SuccessRate (s : Stats) : f64 :=
  let total := wrapu64 (sTotalSuccess s + sTotalFailure s) in
  if total =? 0 then f64_zero else f64_div (f64_of_Z (sTotalSuccess s)) (f64_of_Z total).

(** ** Updates of one proxy *)

Definition set_fails (n : Z) (p : Proxy) : Proxy :=
  mkProxy (URL p) n (bannedUntil p) (totalSuccess p) (totalFailure p) (lastUsedAt p)
    (banStreak p) (health p) (hasHealth p).
Definition set_bannedUntil (t : time) (p : Proxy) : Proxy :=
  mkProxy (URL p) (consecutiveFails p) t (totalSuccess p) (totalFailure p) (lastUsedAt p)
    (banStreak p) (health p) (hasHealth p).
Definition set_streak (n : Z) (p : Proxy) : Proxy :=
  mkProxy (URL p) (consecutiveFails p) (bannedUntil p) (totalSuccess p) (totalFailure p)
    (lastUsedAt p) n (health p) (hasHealth p).
Definition set_lastUsed (t : time) (p : Proxy) : Proxy :=
  mkProxy (URL p) (consecutiveFails p) (bannedUntil p) (totalSuccess p) (totalFailure p) t
    (banStreak p) (health p) (hasHealth p).
Definition incr_success (p : Proxy) : Proxy :=
  mkProxy (URL p) (consecutiveFails p) (bannedUntil p) (wrapu64 (totalSuccess p + 1))
    (totalFailure p) (lastUsedAt p) (banStreak p) (health p) (hasHealth p).
Definition incr_failure (p : Proxy) : Proxy :=
  mkProxy (URL p) (consecutiveFails p) (bannedUntil p) (totalSuccess p)
    (wrapu64 (totalFailure p + 1)) (lastUsedAt p) (banStreak p) (health p) (hasHealth p).

(** ** The pool *)

Record Pool := mkPool {
  heap : gmap nat Proxy;      (* every Proxy object ever allocated *)
  fresh_ptr : nat;
  proxies : list nat;
  byURL : gmap string nat;
  idx : nat;
  banThreshold : Z;
  banCooldown : duration;
  strategy : Strategy;
  MaxCooldown : duration }.

Definition set_heap (h : gmap nat Proxy) (pl : Pool) : Pool :=
  mkPool h (fresh_ptr pl) (proxies pl) (byURL pl) (idx pl) (banThreshold pl) (banCooldown pl)
    (strategy pl) (MaxCooldown pl).
Definition set_idx (i : nat) (pl : Pool) : Pool :=
  mkPool (heap pl) (fresh_ptr pl) (proxies pl) (byURL pl) i (banThreshold pl) (banCooldown pl)
    (strategy pl) (MaxCooldown pl).

(** [&Proxy{URL: u}] *)
Definition allocProxy (u : string) (pl : Pool) : Pool * nat :=
  (mkPool (<[fresh_ptr pl := freshProxy u]> (heap pl)) (S (fresh_ptr pl)) (proxies pl) (byURL pl)
     (idx pl) (banThreshold pl) (banCooldown pl) (strategy pl) (MaxCooldown pl), fresh_ptr pl).

(** Dereference of a [*Proxy]; the pool's pointers are never nil. *)
Definition deref (pl : Pool) (p : nat) : Proxy := default (freshProxy "") (heap pl !! p).

Definition update (p : nat) (f : Proxy -> Proxy) (pl : Pool) : Pool :=
  set_heap (alter f p (heap pl)) pl.

Definition orDirect (urls : list string) : list string :=
  match urls with [] => [""%string] | _ => urls end.

(** The body of [setProxies]: each URL gets a new proxy, appended to the slice. *)
Fixpoint setProxies_loop (urls : list string) (pl : Pool) : Pool :=
  match urls with
  | [] => pl
  | u :: rest =>
      let '(pl1, p) := allocProxy u pl in
      setProxies_loop rest
        (mkPool (heap pl1) (fresh_ptr pl1) (proxies pl1 ++ [p]) (<[u := p]> (byURL pl1)) (idx pl1)
           (banThreshold pl1) (banCooldown pl1) (strategy pl1) (MaxCooldown pl1))
  end.

Definition setProxies (urls : list string) (pl : Pool) : Pool :=
  setProxies_loop (orDirect urls)
    (mkPool (heap pl) (fresh_ptr pl) [] (byURL pl) (idx pl) (banThreshold pl) (banCooldown pl)
       (strategy pl) (MaxCooldown pl)).

Definition NewPool (urls : list string) (thr : Z) (cooldown : duration) : Pool :=
  setProxies urls (mkPool ∅ 0 [] ∅ 0 thr cooldown RoundRobin 0).

(** [Reload]: the new slice and map are built from the old map. *)
Fixpoint reload_loop (old : gmap string nat) (urls : list string)
    (newProxies : list nat) (newByURL : gmap string nat) (pl : Pool)
    : Pool * list nat * gmap string nat :=
  match urls with
  | [] => (pl, newProxies, newByURL)
  | u :: rest =>
      match old !! u with
      | Some existing =>
          reload_loop old rest (newProxies ++ [existing]) (<[u := existing]> newByURL) pl
      | None =>
          let '(pl1, p) := allocProxy u pl in
          reload_loop old rest (newProxies ++ [p]) (<[u := p]> newByURL) pl1
      end
  end.

Definition Reload (urls : list string) (pl : Pool) : Pool :=
  let '(pl1, newProxies, newByURL) := reload_loop (byURL pl) (orDirect urls) [] ∅ pl in
  mkPool (heap pl1) (fresh_ptr pl1) newProxies newByURL 0
    (banThreshold pl1) (banCooldown pl1) (strategy pl1) (MaxCooldown pl1).

(** ** Choosing a proxy *)

Inductive NextResult := Got (p : nat) | ErrAllBanned | IndexPanic.

#[export] Instance NextResult_eq_dec : EqDecision NextResult.
Proof. solve_decision. Defined.

Definition markUsed (now : time) (p : nat) (pl : Pool) : Pool := update p (set_lastUsed now) pl.

(** The loop of [nextRoundRobinLocked] with [k] iterations left, the next
    clock reading being [clk i]. *)
Fixpoint rr_loop (clk : nat -> time) (n i k : nat) (pl : Pool) : Pool * NextResult :=
  match k with
  | O => (pl, ErrAllBanned)
  | S k' =>
      match proxies pl !! idx pl with
      | None => (pl, IndexPanic)
      | Some p =>
          let pl1 := set_idx ((idx pl + 1) mod n)%nat pl in
          if isBanned (clk i) (deref pl1 p) then rr_loop clk n (S i) k' pl1
          else (markUsed (clk (S i)) p pl1, Got p)
      end
  end.

Definition nextRoundRobinLocked (clk : nat -> time) (pl : Pool) : Pool * NextResult :=
  let n := length (proxies pl) in rr_loop clk n 0 n pl.

(** [healthyLocked]: the proxy at slice position [i] is checked at reading [i]. *)
Fixpoint healthy_loop (clk : nat -> time) (i : nat) (pl : Pool) (ps : list nat) : list nat :=
  match ps with
  | [] => []
  | p :: rest =>
      if isBanned (clk i) (deref pl p) then healthy_loop clk (S i) pl rest
      else p :: healthy_loop clk (S i) pl rest
  end.

Definition healthyLocked (clk : nat -> time) (pl : Pool) : list nat :=
  healthy_loop clk 0 pl (proxies pl).

Definition nextRandomLocked (clk : nat -> time) (intn : nat -> nat) (pl : Pool) : Pool * NextResult :=
  let healthy := healthyLocked clk pl in
  if (length healthy =? 0)%nat then (pl, ErrAllBanned)
  else match healthy !! intn (length healthy) with
       | None => (pl, IndexPanic)
       | Some p => (markUsed (clk (length (proxies pl))) p pl, Got p)
       end.

Definition weightFloor : f64 := f64_const 1 10.

Definition weightOf (p : Proxy) : f64 :=
  let w := healthLocked p in
  let w := if f64_ltb w f64_zero then f64_const 5 10 else w in
  if f64_ltb w weightFloor then weightFloor else w.

(** The selection loop: subtract weights from [r] until it is used up. *)
Fixpoint pickWeighted (r : f64) (i : nat) (weights : list f64) : option nat :=
  match weights with
  | [] => None
  | w :: rest =>
      let r := f64_sub r w in
      if f64_leb r f64_zero then Some i else pickWeighted r (S i) rest
  end.

Definition nextWeightedLocked (clk : nat -> time) (rnd : f64) (pl : Pool) : Pool * NextResult :=
  let healthy := healthyLocked clk pl in
  if (length healthy =? 0)%nat then (pl, ErrAllBanned)
  else
    let weights := map (fun p => weightOf (deref pl p)) healthy in
    let total := fold_left f64_add weights f64_zero in
    let used := clk (length (proxies pl) + length healthy)%nat in
    let i := default (length healthy - 1)%nat (pickWeighted (f64_mul rnd total) 0 weights) in
    match healthy !! i with
    | None => (pl, IndexPanic)
    | Some p => (markUsed used p pl, Got p)
    end.

Definition Next (clk : nat -> time) (intn : nat -> nat) (rnd : f64) (pl : Pool) : Pool * NextResult :=
  match strategy pl with
  | Random => nextRandomLocked clk intn pl
  | WeightedSuccessRate => nextWeightedLocked clk rnd pl
  | RoundRobin => nextRoundRobinLocked clk pl
  end.

(** ** Reporting outcomes *)

(** The doubling loop [for i := 0; i < p.banStreak && d < max; i++ { d *= 2 }]
    with [streak] iterations left. *)
Fixpoint doubling (streak : nat) (max d : duration) : duration :=
  match streak with
  | O => d
  | S s => if d <? max then doubling s max (wrap64 (d * 2)) else d
  end.

Definition maxCooldownOf (pl : Pool) : duration :=
  if MaxCooldown pl <=? 0 then wrap64 (16 * banCooldown pl) else MaxCooldown pl.

Definition escalatedCooldownLocked (pl : Pool) (p : Proxy) : Proxy * duration :=
  let max := maxCooldownOf pl in
  let d := doubling (Z.to_nat (banStreak p)) max (banCooldown pl) in
  let d := if max <? d then max else d in
  (set_streak (wrap64 (banStreak p + 1)) p, d).

Definition coolLocked (now : time) (d : duration) (p : Proxy) : Proxy * bool :=
  let wasCooling := Before now (bannedUntil p) in
  let until := now + d in
  let p := if After until (bannedUntil p) then set_bannedUntil until p else p in
  (set_fails 0 p, negb wasCooling).

Definition reportOutcome (pl : Pool) (now : time) (outcome : Outcome) (retryAfter : duration)
    (p : Proxy) : Proxy * bool :=
  match outcome with
  | Success => (recordHealthLocked true (incr_success (set_streak 0 (set_fails 0 p))), false)
  | Neutral => (p, false)
  | _ =>
      let p := recordHealthLocked false (incr_failure p) in
      match outcome with
      | RateLimited =>
          if 0 <? retryAfter then coolLocked now retryAfter p
          else let '(p, d) := escalatedCooldownLocked pl p in coolLocked now d p
      | Blocked => let '(p, d) := escalatedCooldownLocked pl p in coolLocked now d p
      | _ =>
          let p := set_fails (wrap64 (consecutiveFails p + 1)) p in
          if (0 <? banThreshold pl) && (banThreshold pl <=? consecutiveFails p)
          then let '(p, d) := escalatedCooldownLocked pl p in coolLocked now d p
          else (p, false)
      end
  end.

Definition ReportOutcome (p : nat) (outcome : Outcome) (retryAfter : duration) (now : time)
    (pl : Pool) : Pool * bool :=
  let '(x, cooled) := reportOutcome pl now outcome retryAfter (deref pl p) in
  (update p (fun _ => x) pl, cooled).

Definition ReportResult (p : nat) (failed : bool) (now : time) (pl : Pool) : Pool * bool :=
  if failed then ReportOutcome p Failure 0 now pl else ReportOutcome p Success 0 now pl.

(** ** Queries *)

Fixpoint nextAvailable_loop (now : time) (pl : Pool) (earliest : time) (ps : list nat) : time :=
  match ps with
  | [] => earliest
  | p :: rest =>
      let until := bannedUntil (deref pl p) in
      if negb (Before now until) then zeroTime
      else nextAvailable_loop now pl
             (if IsZero earliest || Before until earliest then until else earliest) rest
  end.

Definition NextAvailableAt (now : time) (pl : Pool) : time :=
  nextAvailable_loop now pl zeroTime (proxies pl).

Fixpoint counts_loop (clk : nat -> time) (i : nat) (pl : Pool) (ps : list nat) (a c : Z) : Z * Z :=
  match ps with
  | [] => (a, c)
  | p :: rest =>
      if isBanned (clk i) (deref pl p) then counts_loop clk (S i) pl rest a (wrap64 (c + 1))
      else counts_loop clk (S i) pl rest (wrap64 (a + 1)) c
  end.

Definition Counts (clk : nat -> time) (pl : Pool) : Z * Z := counts_loop clk 0 pl (proxies pl) 0 0.

Definition Size (pl : Pool) : nat := length (proxies pl).

Definition AllStats (clk : nat -> time) (pl : Pool) : list Stats :=
  imap (fun i p => stats (clk i) (deref pl p)) (proxies pl).

(** ** Runs of the pool

    Every exported operation that changes state, as a step; a report may name
    any proxy that was ever handed out, dropped ones included. *)

Inductive pool_op :=
  | OpReload (urls : list string)
  | OpNext (clk : nat -> time) (intn : nat -> nat) (rnd : f64)
  | OpReport (p : nat) (o : Outcome) (retryAfter : duration) (now : time).

Definition exec_op (op : pool_op) (pl : Pool) : Pool :=
  match op with
  | OpReload urls => Reload urls pl
  | OpNext clk intn rnd => fst (Next clk intn rnd pl)
  | OpReport p o ra now => fst (ReportOutcome p o ra now pl)
  end.

Definition with_config (s : Strategy) (maxCd : duration) (pl : Pool) : Pool :=
  mkPool (heap pl) (fresh_ptr pl) (proxies pl) (byURL pl) (idx pl) (banThreshold pl)
    (banCooldown pl) s maxCd.

(** The contract of [rand.Intn]: a result below its argument. *)
Definition intn_ok (intn : nat -> nat) : Prop := forall n, (0 < n)%nat -> (intn n < n)%nat.

Definition op_ok (op : pool_op) : Prop :=
  match op with OpNext _ intn _ => intn_ok intn | _ => True end.

Inductive reachable : Pool -> Prop :=
  | reach_new urls thr cd s maxCd : reachable (with_config s maxCd (NewPool urls thr cd))
  | reach_step op pl : reachable pl -> op_ok op -> reachable (exec_op op pl).

(** Well-formedness: the slice is never empty, the round-robin cursor is in
    range, and slice, map and store agree. *)
Record pool_wf (pl : Pool) : Prop := {
  wf_nonempty : proxies pl <> [];
  wf_idx : (idx pl < length (proxies pl))%nat;
  wf_slice : forall p, p ∈ proxies pl -> exists x, heap pl !! p = Some x /\ is_Some (byURL pl !! URL x);
  wf_map : forall u p, byURL pl !! u = Some p ->
             p ∈ proxies pl /\ exists x, heap pl !! p = Some x /\ URL x = u;
  wf_fresh : forall p x, heap pl !! p = Some x -> (p < fresh_ptr pl)%nat }.

(** ** Well-formedness is preserved *)

Definition linked (h : gmap nat Proxy) (ps : list nat) (m : gmap string nat) : Prop :=
  (forall p, p ∈ ps -> exists x, h !! p = Some x /\ is_Some (m !! URL x)) /\
  (forall u p, m !! u = Some p -> p ∈ ps /\ exists x, h !! p = Some x /\ URL x = u).

Definition store_ok (h : gmap nat Proxy) (n : nat) : Prop :=
  forall p x, h !! p = Some x -> (p < n)%nat.

Lemma linked_snoc h ps m p x :
  linked h ps m -> h !! p = Some x -> linked h (ps ++ [p]) (<[URL x := p]> m).
Proof.
  intros [Hs Hm] Hp. split.
  - intros q [Hq|Hq]%elem_of_app.
    + destruct (Hs q Hq) as (y & Hy & Hsome). exists y. split; [done|].
      destruct (decide (URL x = URL y)) as [->|]; [by rewrite lookup_insert_eq|].
      by rewrite lookup_insert_ne.
    + apply list_elem_of_singleton in Hq as ->. exists x. by rewrite lookup_insert_eq.
  - intros u q. rewrite lookup_insert_Some. intros [[<- <-]|[? Hq]].
    + split; [|by exists x]. apply elem_of_app; right. by apply list_elem_of_singleton.
    + destruct (Hm u q Hq) as [??]. split; [|done]. apply elem_of_app; by left.
Qed.

Lemma linked_weaken h h' ps m : h ⊆ h' -> linked h ps m -> linked h' ps m.
Proof.
  intros Hsub [Hs Hm]. split.
  - intros p Hp. destruct (Hs p Hp) as (x & Hx & ?). exists x.
    split; [by eapply lookup_weaken|done].
  - intros u p Hp. destruct (Hm u p Hp) as (? & x & Hx & ?). split; [done|].
    exists x. split; [by eapply lookup_weaken|done].
Qed.

Lemma linked_alter h ps m f p : (forall x, URL (f x) = URL x) ->
  linked h ps m -> linked (alter f p h) ps m.
Proof.
  intros Hf [Hs Hm].
  assert (Hlk : forall q x, h !! q = Some x ->
            exists y, alter f p h !! q = Some y /\ URL y = URL x).
  { intros q x Hq. rewrite lookup_alter. case_decide; subst; rewrite Hq; simpl; eauto. }
  split.
  - intros q Hq. destruct (Hs q Hq) as (x & Hx & ?).
    destruct (Hlk q x Hx) as (y & ? & Hy). exists y. by rewrite Hy.
  - intros u q Hq. destruct (Hm u q Hq) as (? & x & Hx & <-). split; [done|].
    destruct (Hlk q x Hx) as (y & ? & Hy). eauto.
Qed.

Lemma store_ok_alter h n f p : store_ok h n -> store_ok (alter f p h) n.
Proof.
  intros Hok q x. rewrite lookup_alter.
  case_decide; subst; [|eauto]. destruct (h !! q) eqn:Hq; [|done]. eauto.
Qed.

Lemma store_ok_alloc h n x : store_ok h n -> store_ok (<[n := x]> h) (S n) /\ h ⊆ <[n := x]> h.
Proof.
  intros Hok. split.
  - intros q y [[<- <-]|[? Hq]]%lookup_insert_Some; [lia|]. apply Hok in Hq. lia.
  - apply insert_subseteq. destruct (h !! n) eqn:Hn; [|done]. apply Hok in Hn. lia.
Qed.

Lemma wf_linked pl : pool_wf pl <->
  proxies pl <> [] /\ (idx pl < length (proxies pl))%nat /\
  linked (heap pl) (proxies pl) (byURL pl) /\ store_ok (heap pl) (fresh_ptr pl).
Proof.
  split.
  - intros [H1 H2 H3 H4 H5]. split_and!; done.
  - intros (? & ? & [H3 H4] & ?). by constructor.
Qed.

Lemma orDirect_nonempty urls : orDirect urls <> [].
Proof. by destruct urls. Qed.

Lemma setProxies_loop_linked urls : forall pl,
  linked (heap pl) (proxies pl) (byURL pl) -> store_ok (heap pl) (fresh_ptr pl) ->
  let pl' := setProxies_loop urls pl in
  linked (heap pl') (proxies pl') (byURL pl') /\ store_ok (heap pl') (fresh_ptr pl') /\
  length (proxies pl') = (length (proxies pl) + length urls)%nat /\ idx pl' = idx pl.
Proof.
  induction urls as [|u urls IH]; intros pl Hl Hs; simpl; [split_and!; done || lia|].
  destruct (store_ok_alloc _ _ (freshProxy u) Hs) as [Hs' Hsub].
  edestruct IH as (IH1 & IH2 & IH3 & IH4); [| |split_and!; [exact IH1|exact IH2| |exact IH4]].
  - simpl. apply (linked_snoc _ _ _ _ (freshProxy u)).
    + by eapply linked_weaken.
    + apply lookup_insert_eq.
  - done.
  - rewrite IH3. simpl. rewrite length_app. simpl. lia.
Qed.

Lemma NewPool_wf urls thr cd : pool_wf (NewPool urls thr cd).
Proof.
  unfold NewPool, setProxies. apply wf_linked.
  edestruct (setProxies_loop_linked (orDirect urls)) as (Hl & Hs & Hlen & Hidx);
    [| |split_and!; [| |exact Hl|exact Hs]].
  - by split; [set_solver|].
  - by intros ??.
  - intros He. rewrite He in Hlen. simpl in Hlen.
    pose proof (orDirect_nonempty urls). by destruct (orDirect urls).
  - rewrite Hidx, Hlen. simpl. pose proof (orDirect_nonempty urls).
    destruct (orDirect urls); simpl; [done|lia].
Qed.

Lemma take_snoc_inv {A} (l l' : list A) x :
  take (length l + 1) l' = l ++ [x] -> l' !! length l = Some x /\ take (length l) l' = l.
Proof.
  intros H. split.
  - rewrite <- (lookup_take_lt _ (length l + 1)) by lia. rewrite H.
    by rewrite lookup_app_r, Nat.sub_diag by lia.
  - apply (f_equal (take (length l))) in H.
    rewrite take_take, take_app_length in H. by replace (_ `min` _)%nat with (length l) in H by lia.
Qed.

Lemma reload_loop_linked old urls : forall pl nps nm,
  linked (heap pl) nps nm -> store_ok (heap pl) (fresh_ptr pl) ->
  (forall u p, old !! u = Some p -> exists x, heap pl !! p = Some x /\ URL x = u) ->
  let '(pl', nps', nm') := reload_loop old urls nps nm pl in
  linked (heap pl') nps' nm' /\ store_ok (heap pl') (fresh_ptr pl') /\
  length nps' = (length nps + length urls)%nat /\ heap pl ⊆ heap pl' /\
  Forall2 (fun u p => exists x, heap pl' !! p = Some x /\ URL x = u /\
     (forall q, old !! u = Some q -> p = q) /\
     (old !! u = None -> x = freshProxy u)) urls (drop (length nps) nps') /\
  take (length nps) nps' = nps.
Proof.
  induction urls as [|u urls IH]; intros pl nps nm Hl Hs Hold; simpl.
  { rewrite drop_all, take_ge by lia. split_and!; done || lia || constructor. }
  destruct (old !! u) as [q|] eqn:Hu.
  - destruct (Hold u q Hu) as (x & Hx & Hxu).
    specialize (IH pl (nps ++ [q]) (<[u := q]> nm)).
    destruct (reload_loop _ _ _ _ _) as [[pl' nps'] nm'].
    destruct IH as (IH1 & IH2 & IH3 & IH4 & IH5 & IH6); [|done..|].
    { rewrite <- Hxu. by apply linked_snoc. }
    rewrite length_app in *. simpl in *. apply take_snoc_inv in IH6 as [Hnth Htake]. split_and!; try done; [lia|].
      rewrite (drop_S _ q) by done. constructor; [|by rewrite Nat.add_1_r in IH5].
      exists x. split_and!; [by eapply lookup_weaken|done|congruence|congruence].
  - destruct (store_ok_alloc _ _ (freshProxy u) Hs) as [Hs' Hsub].
    set (pl1 := fst (allocProxy u pl)).
    specialize (IH pl1 (nps ++ [fresh_ptr pl]) (<[u := fresh_ptr pl]> nm)).
    change (reload_loop old urls _ _ _) with
      (reload_loop old urls (nps ++ [fresh_ptr pl]) (<[u := fresh_ptr pl]> nm) pl1).
    destruct (reload_loop _ _ _ _ _) as [[pl' nps'] nm'].
    destruct IH as (IH1 & IH2 & IH3 & IH4 & IH5 & IH6).
    { apply (linked_snoc _ _ _ _ (freshProxy u)); [by eapply linked_weaken|apply lookup_insert_eq]. }
    { done. }
    { intros v p Hv. destruct (Hold v p Hv) as (x & Hx & ?). exists x.
      split; [|done]. simpl. by eapply lookup_weaken. }
    rewrite length_app in *. simpl in *. apply take_snoc_inv in IH6 as [Hnth Htake]. split_and!; try done; [lia|by etrans|].
      rewrite (drop_S _ (fresh_ptr pl)) by done. constructor; [|by rewrite Nat.add_1_r in IH5].
      exists (freshProxy u). split_and!; [|done|congruence|done].
      eapply lookup_weaken; [|exact IH4]. apply lookup_insert_eq.
Qed.

(** ** Operations seen from one proxy *)

(** [report] keeps the URL and never shortens a cooldown. *)
Lemma coolLocked_facts now d x :
  let '(y, b) := coolLocked now d x in
  URL y = URL x /\ bannedUntil y = Z.max (bannedUntil x) (now + d) /\
  b = negb (isBanned now x) /\ consecutiveFails y = 0 /\ banStreak y = banStreak x /\
  health y = health x /\ hasHealth y = hasHealth x /\
  totalSuccess y = totalSuccess x /\ totalFailure y = totalFailure x.
Proof.
  unfold coolLocked, After, isBanned.
  destruct (Z.ltb_spec (bannedUntil x) (now + d)); simpl; split_and!; done || lia.
Qed.

Ltac cool_facts :=
  match goal with |- context [coolLocked ?n ?d ?y] =>
    let Hc := fresh "Hcool" in
    pose proof (coolLocked_facts n d y) as Hc; destruct (coolLocked n d y)
  end.

Lemma recordHealthLocked_facts ok x :
  let y := recordHealthLocked ok x in
  URL y = URL x /\ bannedUntil y = bannedUntil x /\ consecutiveFails y = consecutiveFails x /\
  banStreak y = banStreak x /\ totalSuccess y = totalSuccess x /\ totalFailure y = totalFailure x /\
  lastUsedAt y = lastUsedAt x /\ hasHealth y = true.
Proof. done. Qed.

Lemma reportOutcome_keeps pl now o ra x :
  URL (reportOutcome pl now o ra x).1 = URL x /\
  bannedUntil x <= bannedUntil (reportOutcome pl now o ra x).1.
Proof.
  unfold reportOutcome, escalatedCooldownLocked.
  destruct o; [done| | | |done]; [destruct (_ && _)| |destruct (0 <? ra)]; try done;
    cool_facts; destruct_and!; simpl in *; split; congruence || lia.
Qed.

Lemma report_heap p o ra now pl q x :
  heap pl !! q = Some x ->
  heap (ReportOutcome p o ra now pl).1 !! q =
    Some (if decide (q = p) then (reportOutcome pl now o ra x).1 else x).
Proof.
  intros Hq. unfold ReportOutcome, deref. destruct (decide (q = p)) as [->|Hne].
  - rewrite Hq. simpl. destruct (reportOutcome _ _ _ _ _) as [y b] eqn:E. simpl.
    by rewrite lookup_alter_eq, Hq.
  - destruct (reportOutcome _ _ _ _ _) as [y b]. simpl. by rewrite lookup_alter_ne.
Qed.

(** ** The round-robin loop *)

Lemma rr_loop_spec clk n k : forall i pl,
  length (proxies pl) = n -> (idx pl < n)%nat ->
  let '(pl', r) := rr_loop clk n i k pl in
  match r with
  | Got p => exists j, (j < k)%nat /\ proxies pl !! ((idx pl + j) mod n)%nat = Some p /\
               isBanned (clk (i + j)%nat) (deref pl p) = false /\
               (forall j' q, (j' < j)%nat -> proxies pl !! ((idx pl + j') mod n)%nat = Some q ->
                  isBanned (clk (i + j')%nat) (deref pl q) = true) /\
               pl' = markUsed (clk (S (i + j))) p (set_idx ((idx pl + S j) mod n)%nat pl)
  | ErrAllBanned =>
      (forall j q, (j < k)%nat -> proxies pl !! ((idx pl + j) mod n)%nat = Some q ->
         isBanned (clk (i + j)%nat) (deref pl q) = true) /\
      pl' = set_idx ((idx pl + k) mod n)%nat pl
  | IndexPanic => False
  end.
Proof.
  induction k as [|k IH]; intros i pl Hn Hidx; simpl.
  { split; [lia|]. rewrite Nat.add_0_r, Nat.mod_small by lia. by destruct pl. }
  destruct (lookup_lt_is_Some_2 (proxies pl) (idx pl) ltac:(lia)) as [p Hp]. rewrite Hp.
  change (deref (set_idx ?i pl) p) with (deref pl p).
  destruct (isBanned (clk i) (deref pl p)) eqn:Hb.
  - specialize (IH (S i) (set_idx ((idx pl + 1) mod n)%nat pl) Hn).
    destruct (rr_loop _ _ _ _ _) as [pl' r]. simpl in IH.
    specialize (IH ltac:(apply Nat.mod_upper_bound; lia)).
    assert (Hmod : forall j, (((idx pl + 1) mod n + j) mod n = (idx pl + S j) mod n)%nat).
    { intros j. rewrite Nat.Div0.add_mod_idemp_l. f_equal. lia. }
    assert (H0 : ((idx pl + 0) mod n = idx pl)%nat) by (rewrite Nat.add_0_r; by apply Nat.mod_small).
    destruct r as [q| |]; [| |done].
    + destruct IH as (j & Hj & Hq & Hok & Hprev & ->). rewrite Hmod in Hq.
      exists (S j). replace (i + S j)%nat with (S i + j)%nat by lia. split_and!; [lia|done..| |].
      * intros [|j'] q' Hlt Hq'; [rewrite H0 in Hq'; rewrite Nat.add_0_r; congruence|].
        replace (i + S j')%nat with (S i + j')%nat by lia.
        eapply Hprev; [|by rewrite Hmod]. lia.
      * rewrite Hmod. done.
    + destruct IH as [Hall ->]. split; [|by rewrite Hmod].
      intros [|j] q Hlt Hq; [rewrite H0 in Hq; rewrite Nat.add_0_r; congruence|].
      replace (i + S j)%nat with (S i + j)%nat by lia. eapply Hall; [|by rewrite Hmod]. lia.
  - exists O. rewrite !Nat.add_0_r. rewrite (Nat.mod_small (idx pl)) by lia.
    split_and!; [lia|done|done|lia|done].
Qed.

(** Every slice position is visited by the [n] iterations. *)
Lemma mod_covers n a m : (a < n)%nat -> (m < n)%nat ->
  exists j, (j < n)%nat /\ ((a + j) mod n = m)%nat.
Proof.
  intros Ha Hm. destruct (decide (a <= m)%nat).
  - exists (m - a)%nat. split; [lia|]. replace (a + (m - a))%nat with m by lia. by apply Nat.mod_small.
  - exists (n - a + m)%nat. split; [lia|].
    replace (a + (n - a + m))%nat with (m + 1 * n)%nat by lia.
    rewrite Nat.Div0.mod_add. by apply Nat.mod_small.
Qed.

Lemma healthy_loop_spec clk pl ps : forall i p,
  p ∈ healthy_loop clk i pl ps <->
  exists j, ps !! j = Some p /\ isBanned (clk (i + j)%nat) (deref pl p) = false.
Proof.
  induction ps as [|q ps IH]; intros i p; simpl.
  { split; [by intros ?%not_elem_of_nil|]. by intros (j & Hj & _). }
  assert (Hidx : forall j, (S i + j = i + S j)%nat) by lia.
  destruct (isBanned (clk i) (deref pl q)) eqn:Hq; [|rewrite elem_of_cons]; rewrite IH; split.
  - intros (j & Hj & Hb). exists (S j). by rewrite <- Hidx.
  - intros ([|j] & Hj & Hb); simpl in Hj.
    + injection Hj as ->. rewrite Nat.add_0_r in Hb. congruence.
    + exists j. by rewrite Hidx.
  - intros [->|(j & Hj & Hb)]; [exists O; by rewrite Nat.add_0_r|].
    exists (S j). by rewrite <- Hidx.
  - intros ([|j] & Hj & Hb); simpl in Hj.
    + injection Hj as ->. by left.
    + right. exists j. by rewrite Hidx.
Qed.

Lemma pickWeighted_bound r ws : forall i j, pickWeighted r i ws = Some j -> (i <= j < i + length ws)%nat.
Proof.
  revert r. induction ws as [|w ws IH]; intros r i j; simpl; [done|].
  destruct (f64_leb _ _); [intros [= <-]; lia|]. intros H%IH. lia.
Qed.

(** What one [Next] does, for every strategy: the pool changes only in its
    cursor and in the [lastUsedAt] of the proxy returned. *)
Lemma Next_spec clk intn rnd pl : pool_wf pl -> intn_ok intn ->
  let '(pl', r) := Next clk intn rnd pl in
  match r with
  | Got p => p ∈ proxies pl /\ (exists i, isBanned (clk i) (deref pl p) = false) /\
             exists i t, (i < length (proxies pl))%nat /\ pl' = markUsed t p (set_idx i pl)
  | ErrAllBanned => (forall p, p ∈ proxies pl -> exists i, isBanned (clk i) (deref pl p) = true) /\
             exists i, (i < length (proxies pl))%nat /\ pl' = set_idx i pl
  | IndexPanic => False
  end.
Proof.
  intros Hwf Hintn. pose proof (wf_idx _ Hwf) as Hidx.
  assert (Hhealthy : forall h, h = healthyLocked clk pl ->
    (length h = 0%nat -> (forall p, p ∈ proxies pl -> exists i, isBanned (clk i) (deref pl p) = true)) /\
    (forall k p, h !! k = Some p -> p ∈ proxies pl /\ exists i, isBanned (clk i) (deref pl p) = false)).
  { intros h ->. split.
    - intros Hz%nil_length_inv p [j Hj]%list_elem_of_lookup_1. exists j.
      destruct (isBanned (clk j) (deref pl p)) eqn:Hb; [done|].
      assert (Hin : p ∈ healthyLocked clk pl) by (apply healthy_loop_spec; by exists j).
      rewrite Hz in Hin. by apply not_elem_of_nil in Hin.
    - intros k p Hk%list_elem_of_lookup_2. apply healthy_loop_spec in Hk as (j & Hj & Hb).
      split; [by eapply list_elem_of_lookup_2|eauto]. }
  assert (Hid : pl = set_idx (idx pl) pl) by (by destruct pl).
  unfold Next. destruct (strategy pl).
  - unfold nextRoundRobinLocked.
    pose proof (rr_loop_spec clk _ (length (proxies pl)) 0 pl eq_refl Hidx) as Hrr.
    destruct (rr_loop _ _ _ _ _) as [pl' [p| |]]; [| |done].
    + destruct Hrr as (j & Hj & Hp & Hb & _ & ->). split_and!.
      * by eapply list_elem_of_lookup_2.
      * eauto.
      * eexists _, _. split; [|done]. apply Nat.mod_upper_bound. lia.
    + destruct Hrr as [Hall ->]. split.
      * intros p [m Hm]%list_elem_of_lookup_1.
        destruct (mod_covers (length (proxies pl)) (idx pl) m) as (j & Hj & Hjm);
          [done|by eapply lookup_lt_Some|].
        eexists. eapply Hall; [exact Hj|]. by rewrite Hjm.
      * eexists. split; [|done]. apply Nat.mod_upper_bound. lia.
  - unfold nextRandomLocked.
    destruct (Hhealthy _ eq_refl) as [H0 Hin]. set (h := healthyLocked clk pl) in *.
    destruct (Nat.eqb_spec (length h) 0) as [Hz|Hz].
    + split; [by apply H0|]. by exists (idx pl).
    + destruct (lookup_lt_is_Some_2 h (intn (length h))) as [p Hp]; [apply Hintn; lia|].
      rewrite Hp. destruct (Hin _ _ Hp). split_and!; try done. exists (idx pl). eexists.
      split; [done|]. by rewrite <- Hid.
  - unfold nextWeightedLocked.
    destruct (Hhealthy _ eq_refl) as [H0 Hin]. set (h := healthyLocked clk pl) in *.
    destruct (Nat.eqb_spec (length h) 0) as [Hz|Hz].
    + split; [by apply H0|]. by exists (idx pl).
    + set (k := default _ _).
      destruct (lookup_lt_is_Some_2 h k) as [p Hp].
      { unfold k. destruct (pickWeighted _ _ _) as [j|] eqn:Hj; simpl; [|lia].
        apply pickWeighted_bound in Hj. rewrite length_map in Hj. lia. }
      rewrite Hp. destruct (Hin _ _ Hp). split_and!; try done. exists (idx pl). eexists.
      split; [done|]. by rewrite <- Hid.
Qed.

(** ** Heap evolution *)

Lemma update_wf p f pl : (forall x, URL (f x) = URL x) -> pool_wf pl -> pool_wf (update p f pl).
Proof.
  rewrite !wf_linked. intros Hf (? & ? & ? & ?).
  split_and!; [done..|by apply linked_alter|by apply store_ok_alter].
Qed.

Lemma set_idx_wf i pl : (i < length (proxies pl))%nat -> pool_wf pl -> pool_wf (set_idx i pl).
Proof. rewrite !wf_linked. intros ? (? & ? & ? & ?). by split_and!. Qed.

Lemma Reload_spec urls pl : pool_wf pl ->
  pool_wf (Reload urls pl) /\ heap pl ⊆ heap (Reload urls pl) /\
  Forall2 (fun u p => exists x, heap (Reload urls pl) !! p = Some x /\ URL x = u /\
     (forall q, byURL pl !! u = Some q -> p = q) /\
     (byURL pl !! u = None -> x = freshProxy u)) (orDirect urls) (proxies (Reload urls pl)).
Proof.
  intros Hwf. pose proof Hwf as [Hne Hidx Hs Hm Hf]. unfold Reload.
  pose proof (reload_loop_linked (byURL pl) (orDirect urls) pl [] ∅) as H.
  destruct (reload_loop _ _ _ _ _) as [[pl1 nps] nm].
  destruct H as (H1 & H2 & H3 & H4 & H5 & _).
  { by split; [set_solver|]. }
  { exact Hf. }
  { intros u p Hu. by destruct (Hm u p Hu). }
  simpl in *. rewrite drop_0 in H5. split_and!; [|done|done].
  apply wf_linked. simpl. pose proof (orDirect_nonempty urls) as Hor.
  destruct (orDirect urls); [done|]. simpl in H3.
  split_and!; [by intros ->|lia|done|done].
Qed.

(** Every operation keeps the store's objects, never shortens a cooldown and
    keeps each object's URL. *)
Lemma exec_op_heap op pl p x : pool_wf pl -> op_ok op -> heap pl !! p = Some x ->
  exists y, heap (exec_op op pl) !! p = Some y /\ URL y = URL x /\ bannedUntil x <= bannedUntil y.
Proof.
  intros Hwf Hok Hp. destruct op as [urls|clk intn rnd|q o ra now]; simpl.
  - destruct (Reload_spec urls pl Hwf) as (_ & Hsub & _). exists x.
    split; [by eapply lookup_weaken|]. split; [done|lia].
  - pose proof (Next_spec clk intn rnd pl Hwf Hok) as H.
    destruct (Next clk intn rnd pl) as [pl' [q| |]]; [| |done].
    + destruct H as (_ & _ & i & t & _ & ->). simpl. rewrite lookup_alter.
      case_decide; subst; rewrite Hp; simpl; eexists; split_and!; done || lia.
    + destruct H as (_ & i & _ & ->). simpl. exists x. split_and!; done || lia.
  - rewrite (report_heap _ _ _ _ _ _ _ Hp). destruct (reportOutcome_keeps pl now o ra x).
    case_decide; eexists; split_and!; done || lia.
Qed.

Lemma exec_op_wf op pl : pool_wf pl -> op_ok op -> pool_wf (exec_op op pl).
Proof.
  intros Hwf Hok. destruct op as [urls|clk intn rnd|p o ra now]; simpl.
  - by destruct (Reload_spec urls pl Hwf).
  - pose proof (Next_spec clk intn rnd pl Hwf Hok) as H.
    destruct (Next clk intn rnd pl) as [pl' [q| |]]; [| |done].
    + destruct H as (_ & _ & i & t & Hi & ->). apply update_wf; [done|]. by apply set_idx_wf.
    + destruct H as (_ & i & Hi & ->). by apply set_idx_wf.
  - unfold ReportOutcome. destruct (heap pl !! p) as [x|] eqn:Hp.
    + pose proof (report_heap p o ra now pl p x Hp) as Hr. unfold ReportOutcome in Hr.
      pose proof (reportOutcome_keeps pl now o ra (deref pl p)) as [Hu _].
      unfold deref in Hu at 2. rewrite Hp in Hu. simpl in Hu.
      destruct (reportOutcome _ _ _ _ _) as [y b]. simpl in *.
      rewrite wf_linked in Hwf |- *. destruct Hwf as (H1 & H2 & H3 & H4). simpl.
      do 2 (split; [done|]). split; [|by apply store_ok_alter].
      replace (alter (fun _ => y) p (heap pl)) with
        (alter (fun z => if decide (URL z = URL y) then y else z) p (heap pl)).
      { apply linked_alter; [|done]. intros z. by destruct (decide (URL z = URL y)). }
      apply map_eq. intros i. rewrite !lookup_alter. destruct (decide (p = i)) as [<-|]; [|done].
      rewrite Hp. simpl. by rewrite decide_True by (by rewrite Hu).
    + destruct (reportOutcome _ _ _ _ _) as [y b]. simpl.
      replace (update p (fun _ => y) pl) with pl; [done|]. unfold update, set_heap.
      destruct pl; simpl in *. f_equal. apply map_eq. intros i. rewrite lookup_alter.
      case_decide; subst; by rewrite ?Hp.
Qed.

Lemma reachable_wf_lemma pl : reachable pl -> pool_wf pl.
Proof.
  induction 1 as [urls thr cd s m|op pl _ IH Hok].
  - pose proof (NewPool_wf urls thr cd) as Hn. rewrite wf_linked in Hn |- *. done.
  - by apply exec_op_wf.
Qed.
#[export] Hint Resolve reachable_wf_lemma exec_op_wf : harvest.

(** ** Health scores *)

Definition health_ok (x : Proxy) : Prop :=
  nonneg (health x) /\ f64_leb (health x) f64_one = true.

Lemma health_const_ok : nonneg healthKeep /\ nonneg healthAlpha /\ nonneg f64_one /\ nonneg f64_zero
  /\ f64_add (f64_mul healthKeep f64_one) (f64_mul healthAlpha f64_one) = f64_one.
Proof. split_and!; by vm_compute. Qed.

Lemma f64_mul_le_one c h : nonneg c -> nonneg h -> f64_mul c f64_one = c ->
  f64_leb h f64_one = true -> f64_leb (f64_mul c h) c = true /\ nonneg (f64_mul c h).
Proof.
  intros Hc Hh H1 Hle.
  assert (Hone : nonneg f64_one) by (by vm_compute).
  pose proof (f64_mul_mono_r c h f64_one Hc Hh Hone Hle) as H. rewrite H1 in H.
  split; [done|]. by apply (f64_mul_nonneg c h c).
Qed.

Lemma ewma_ok h v : nonneg h -> f64_leb h f64_one = true -> v = f64_zero \/ v = f64_one ->
  let e := f64_add (f64_mul healthKeep h) (f64_mul healthAlpha v) in
  nonneg e /\ f64_leb e f64_one = true.
Proof.
  intros Hh Hle Hv e. destruct health_const_ok as (Hk & Ha & H1 & H0 & Hsum).
  assert (Hv' : nonneg v /\ f64_leb v f64_one = true) by (destruct Hv as [-> | ->]; split; [assumption|vm_compute; reflexivity|assumption|vm_compute; reflexivity]).
  destruct (f64_mul_le_one healthKeep h) as [Lk Nk]; [done..|by vm_compute|done|].
  destruct (f64_mul_le_one healthAlpha v) as [La Na]; [done|tauto|by vm_compute|tauto|].
  assert (He : f64_leb e f64_one = true).
  { unfold e. rewrite <- Hsum.
    apply f64_add_mono; [done|by vm_compute|done|by vm_compute| |];
      apply f64_mul_mono_r; tauto. }
  split; [|done]. by apply (f64_add_nonneg _ _ f64_one).
Qed.

(** ** Cooldown lengths *)

(** Configurations whose cooldown arithmetic stays inside [int64]: a positive
    base of at most 2^58 ns (about nine years) and a cap of at most 2^62 ns. *)
Definition config_ok (pl : Pool) : Prop :=
  0 < banCooldown pl <= 2 ^ 58 /\ MaxCooldown pl <= 2 ^ 62.

Lemma maxCooldownOf_ok pl : config_ok pl -> 0 < maxCooldownOf pl <= 2 ^ 62.
Proof.
  unfold config_ok, maxCooldownOf. intros [? ?]. destruct (Z.leb_spec (MaxCooldown pl) 0); [|lia].
  rewrite wrap64_id by (unfold in_int64, int64_min, int64_max; lia). lia.
Qed.

Lemma doubling_min s : forall max d, 0 < max <= 2 ^ 62 -> 0 < d <= int64_max ->
  0 < doubling s max d /\ Z.min max (doubling s max d) = Z.min max (d * 2 ^ Z.of_nat s).
Proof.
  induction s as [|s IH]; intros max d Hmax Hd; [simpl; lia|].
  cbn [doubling]. rewrite Nat2Z.inj_succ, Z.pow_succ_r by lia.
  pose proof (pow2_pos (Z.of_nat s) ltac:(lia)).
  destruct (Z.ltb_spec d max).
  - rewrite wrap64_id by (unfold in_int64, int64_min, int64_max in *; lia).
    destruct (IH max (d * 2)) as [H1 H2]; [done|unfold int64_max in *; lia|].
    split; [done|]. rewrite H2. f_equal. lia.
  - split; [lia|]. rewrite !Z.min_l; nia.
Qed.

Lemma escalated_spec pl x : config_ok pl ->
  (escalatedCooldownLocked pl x).1 = set_streak (wrap64 (banStreak x + 1)) x /\
  0 < (escalatedCooldownLocked pl x).2 <= maxCooldownOf pl /\
  (0 <= banStreak x ->
   (escalatedCooldownLocked pl x).2 = Z.min (maxCooldownOf pl) (banCooldown pl * 2 ^ banStreak x)).
Proof.
  intros Hc. pose proof (maxCooldownOf_ok pl Hc) as Hm. destruct Hc as [Hb _].
  destruct (doubling_min (Z.to_nat (banStreak x)) (maxCooldownOf pl) (banCooldown pl)) as [H1 H2];
    [done|unfold int64_max; lia|].
  unfold escalatedCooldownLocked. simpl.
  assert (Hd : forall m d : Z, (if m <? d then m else d) = Z.min m d)
    by (intros m d; destruct (Z.ltb_spec m d); lia).
  rewrite Hd. split_and!; [done|lia|lia|]. intros Hs. rewrite H2. by rewrite Z2Nat.id.
Qed.

Lemma isBanned_after now x y d : bannedUntil y = Z.max (bannedUntil x) (now + d) -> 0 < d ->
  isBanned now y = true.
Proof. unfold isBanned, Before. intros -> ?. apply Z.ltb_lt. lia. Qed.

(** Whether an outcome cools the proxy, and for how long. *)
Definition cools (pl : Pool) (o : Outcome) (ra : duration) (x : Proxy) : option duration :=
  match o with
  | Success | Neutral => None
  | RateLimited => Some (if 0 <? ra then ra else (escalatedCooldownLocked pl x).2)
  | Blocked => Some (escalatedCooldownLocked pl x).2
  | Failure => if (0 <? banThreshold pl) && (banThreshold pl <=? wrap64 (consecutiveFails x + 1))
               then Some (escalatedCooldownLocked pl x).2 else None
  end.

Lemma reportOutcome_cools pl now o ra x :
  let '(y, b) := reportOutcome pl now o ra x in
  match cools pl o ra x with
  | Some d => b = negb (isBanned now x) /\ bannedUntil y = Z.max (bannedUntil x) (now + d) /\
              consecutiveFails y = 0
  | None => b = false /\ bannedUntil y = bannedUntil x
  end.
Proof.
  unfold reportOutcome, cools.
  destruct o; [done| | | |done]; [|destruct (escalatedCooldownLocked _ _) as [z d] eqn:He|
    destruct (0 <? ra)].
  - change (consecutiveFails (set_fails ?n _)) with n.
    change (consecutiveFails (recordHealthLocked _ (incr_failure x))) with (consecutiveFails x).
    destruct (_ && _); [|done].
    unfold escalatedCooldownLocked. cool_facts. destruct_and!. simpl in *. by split_and!.
  - unfold escalatedCooldownLocked in *. injection He as <- <-.
    cool_facts. destruct_and!. simpl in *. by split_and!.
  - cool_facts. destruct_and!. simpl in *. by split_and!.
  - unfold escalatedCooldownLocked. cool_facts. destruct_and!. simpl in *. by split_and!.
Qed.

Lemma cools_pos pl o ra x d : config_ok pl -> cools pl o ra x = Some d -> 0 < d.
Proof.
  intros Hc. pose proof (escalated_spec pl x Hc) as (_ & Hd & _). unfold cools.
  generalize dependent ((escalatedCooldownLocked pl x).2). intros e He.
  destruct o; [done| | | |done]; [case_match; [|done]| |]; intros [= <-]; [lia..|].
  destruct (Z.ltb_spec 0 ra); lia.
Qed.

Lemma reportOutcome_transition pl now o ra x : config_ok pl ->
  (reportOutcome pl now o ra x).2 = true <->
  isBanned now x = false /\ isBanned now (reportOutcome pl now o ra x).1 = true.
Proof.
  intros Hc. pose proof (reportOutcome_cools pl now o ra x) as H.
  destruct (reportOutcome pl now o ra x) as [y b]. simpl.
  destruct (cools pl o ra x) as [d|] eqn:Hd.
  - destruct H as (-> & Hb & _). apply cools_pos in Hd; [|done].
    rewrite (isBanned_after now x y d Hb Hd). destruct (isBanned now x); split; naive_solver.
  - destruct H as (-> & Hb). unfold isBanned. rewrite Hb. split; [done|]. intros [??]; congruence.
Qed.

(** ** The soonest recovery *)

Lemma nextAvailable_loop_spec now pl ps : forall e, 0 <= now -> (e = 0 \/ now < e) ->
  let r := nextAvailable_loop now pl e ps in
  ((exists p, p ∈ ps /\ isBanned now (deref pl p) = false) /\ r = 0) \/
  ((forall p, p ∈ ps -> isBanned now (deref pl p) = true /\ r <= bannedUntil (deref pl p)) /\
   (e <> 0 -> r <= e) /\ (ps <> [] \/ e <> 0 -> now < r) /\
   (r = e \/ exists p, p ∈ ps /\ bannedUntil (deref pl p) = r)).
Proof.
  induction ps as [|p ps IH]; intros e Hnow He; simpl.
  { right. split_and!; [|lia|naive_solver lia|by left]. intros p Hp. by apply not_elem_of_nil in Hp. }
  change (Before now (bannedUntil (deref pl p))) with (isBanned now (deref pl p)).
  destruct (isBanned now (deref pl p)) eqn:Hb; simpl.
  2: { left. split; [|done]. exists p. split; [by left|done]. }
  set (u := bannedUntil (deref pl p)).
  assert (Hu : now < u) by (unfold isBanned, Before in Hb; fold u in Hb; lia).
  set (e' := if IsZero e || Before u e then u else e).
  assert (He' : now < e' /\ e' <= u /\ (e <> 0 -> e' <= e) /\ (e' = e \/ e' = u)).
  { unfold e', IsZero, Before. destruct (Z.eqb_spec e 0), (Z.ltb_spec u e); simpl; lia. }
  destruct He' as (He1 & He2 & He3 & He4).
  destruct (IH e' Hnow ltac:(lia)) as [[(q & Hq & Hqb) Hr]|(Hall & Hle & Hlt & Hor)].
  - left. split; [|done]. exists q. split; [by right|done].
  - right. split_and!.
    + intros q [->|Hq]%elem_of_cons; [|by apply Hall]. split; [done|]. fold u. specialize (Hle ltac:(lia)). lia.
    + specialize (Hle ltac:(lia)). lia.
    + intros _. apply Hlt. right. lia.
    + destruct Hor as [->|(q & Hq & Hqr)].
      * destruct He4 as [->| ->]; [by left|]. right. exists p. split; [by left|done].
      * right. exists q. split; [by right|done].
Qed.

Lemma Next_waits clk intn rnd pl : pool_wf pl -> intn_ok intn ->
  ((exists p, p ∈ proxies pl /\ forall i, isBanned (clk i) (deref pl p) = false) ->
   exists q, (Next clk intn rnd pl).2 = Got q) /\
  ((forall p i, p ∈ proxies pl -> isBanned (clk i) (deref pl p) = true) ->
   (Next clk intn rnd pl).2 = ErrAllBanned).
Proof.
  intros Hwf Hi. pose proof (Next_spec clk intn rnd pl Hwf Hi) as H.
  destruct (Next clk intn rnd pl) as [pl' [q| |]]; simpl; [| |done].
  - split; [by exists q|]. intros Hall. destruct H as (Hq & (i & Hb) & _).
    rewrite (Hall q i Hq) in Hb. done.
  - split; [|done]. intros (p & Hp & Hb). destruct H as [Hall _].
    destruct (Hall p Hp) as (i & Hi'). by rewrite Hb in Hi'.
Qed.

Lemma deref_markUsed t p i pl q : bannedUntil (deref (markUsed t p (set_idx i pl)) q) = bannedUntil (deref pl q).
Proof.
  unfold deref. simpl. rewrite lookup_alter. case_decide; subst; [|done].
  by destruct (heap pl !! q).
Qed.

Lemma health_ok_report pl now o ra x : health_ok x -> health_ok (reportOutcome pl now o ra x).1.
Proof.
  intros [Hn Hl].
  assert (Hrec : forall ok y, health y = health x -> hasHealth y = hasHealth x ->
                   health_ok (recordHealthLocked ok y)).
  { intros ok y Hy Hh. unfold health_ok, recordHealthLocked. simpl. rewrite Hy.
    destruct (hasHealth y); [by apply ewma_ok; [..|destruct ok; tauto]|].
    destruct ok; split; by vm_compute. }
  assert (Hcool : forall d y, health_ok y -> health_ok (coolLocked now d y).1).
  { intros d y Hy. cool_facts. destruct_and!. unfold health_ok in *. simpl. congruence. }
  unfold reportOutcome, escalatedCooldownLocked.
  destruct o; [by apply Hrec| | | |done]; [destruct (_ && _)| |destruct (0 <? ra)];
    try apply Hcool; by apply Hrec.
Qed.

Definition store_healthy (pl : Pool) : Prop := forall p x, heap pl !! p = Some x -> health_ok x.

Lemma freshProxy_health u : health_ok (freshProxy u).
Proof. split; by vm_compute. Qed.

Lemma store_healthy_insert (h : gmap nat Proxy) n u : (forall p x, h !! p = Some x -> health_ok x) ->
  forall p x, <[n := freshProxy u]> h !! p = Some x -> health_ok x.
Proof.
  intros Hh p x [[<- <-]|[_ Hx]]%lookup_insert_Some; [apply freshProxy_health|eauto].
Qed.

Lemma setProxies_loop_healthy urls : forall pl, store_healthy pl -> store_healthy (setProxies_loop urls pl).
Proof.
  induction urls as [|u urls IH]; intros pl Hh; simpl; [done|].
  apply IH. unfold store_healthy. simpl. by apply store_healthy_insert.
Qed.

Lemma reload_loop_healthy old urls : forall pl nps nm,
  store_healthy pl -> store_healthy (reload_loop old urls nps nm pl).1.1.
Proof.
  induction urls as [|u urls IH]; intros pl nps nm Hh; simpl; [done|].
  destruct (old !! u); simpl; apply IH; [done|].
  unfold store_healthy. simpl. by apply store_healthy_insert.
Qed.

Lemma alter_healthy f (h : gmap nat Proxy) p : (forall x, health_ok x -> health_ok (f x)) ->
  (forall q x, h !! q = Some x -> health_ok x) -> forall q x, alter f p h !! q = Some x -> health_ok x.
Proof.
  intros Hf Hh q x. rewrite lookup_alter. case_decide; subst; [|eauto].
  destruct (h !! q) eqn:Hq; simpl; [|done]. intros [= <-]. eauto.
Qed.

Lemma reachable_healthy pl : reachable pl -> store_healthy pl.
Proof.
  induction 1 as [urls thr cd s m|op pl Hr IH Hok].
  - unfold store_healthy. simpl. apply setProxies_loop_healthy. intros p x. simpl.
    by rewrite lookup_empty.
  - destruct op as [urls|clk intn rnd|p o ra now]; simpl.
    + pose proof (reload_loop_healthy (byURL pl) (orDirect urls) pl [] ∅ IH) as H.
      unfold Reload. by destruct (reload_loop _ _ _ _ _) as [[pl1 nps] nm].
    + pose proof (Next_spec clk intn rnd pl (reachable_wf_lemma pl Hr) Hok) as H.
      destruct (Next clk intn rnd pl) as [pl' [q| |]]; [| |done].
      * destruct H as (_ & _ & i & t & _ & ->). unfold store_healthy. simpl.
        by apply alter_healthy.
      * by destruct H as (_ & i & _ & ->).
    + intros q x Hx. destruct (heap pl !! q) as [y|] eqn:Hq.
      * rewrite (report_heap _ _ _ _ _ _ _ Hq) in Hx. case_decide; injection Hx as <-.
        -- apply health_ok_report. by eapply IH.
        -- by eapply IH.
      * unfold ReportOutcome in Hx. destruct (reportOutcome _ _ _ _ _). simpl in Hx.
        rewrite lookup_alter in Hx. case_decide; subst; by rewrite Hq in Hx.
Qed.

(** Successive calls of [Next], each with its own clock readings. *)
Fixpoint nexts (intn : nat -> nat) (rnd : f64) (clks : list (nat -> time)) (pl : Pool)
    : list NextResult :=
  match clks with
  | [] => []
  | clk :: rest => let '(pl', r) := Next clk intn rnd pl in r :: nexts intn rnd rest pl'
  end.

(** Failures reported on one proxy at successive times. *)
Fixpoint failures (pl : Pool) (nows : list time) (x : Proxy) : Proxy * list bool :=
  match nows with
  | [] => (x, [])
  | now :: rest =>
      let '(y, b) := reportOutcome pl now Failure 0 x in
      let '(z, bs) := failures pl rest y in (z, b :: bs)
  end.

Lemma failure_below pl now x : 0 <= consecutiveFails x < int64_max ->
  consecutiveFails x + 1 < banThreshold pl ->
  let '(y, b) := reportOutcome pl now Failure 0 x in
  b = false /\ consecutiveFails y = consecutiveFails x + 1 /\ bannedUntil y = bannedUntil x.
Proof.
  intros Hr Hlt. unfold reportOutcome.
  change (consecutiveFails (set_fails ?n _)) with n.
  change (consecutiveFails (recordHealthLocked _ (incr_failure x))) with (consecutiveFails x).
  rewrite wrap64_id by (unfold in_int64, int64_min, int64_max in *; lia).
  destruct (Z.leb_spec (banThreshold pl) (consecutiveFails x + 1)); [lia|].
  rewrite andb_false_r. done.
Qed.


Lemma failures_ban pl : banThreshold pl <= int64_max -> forall nows x,
  nows <> [] -> 0 <= consecutiveFails x ->
  consecutiveFails x + Z.of_nat (length nows) = banThreshold pl ->
  (forall now, now ∈ nows -> isBanned now x = false) ->
  let '(y, bs) := failures pl nows x in
  bs = replicate (length nows - 1) false ++ [true] /\ consecutiveFails y = 0.
Proof.
  intros Hmax nows. induction nows as [|now [|now' nows] IH]; intros x Hne H0 Hlen Hfree; [done| |].
  - cbn [failures length] in *. pose proof (reportOutcome_cools pl now Failure 0 x) as H.
    destruct (reportOutcome pl now Failure 0 x) as [y b]. unfold cools in H.
    rewrite wrap64_id in H by (unfold in_int64, int64_min, int64_max in *; lia).
    destruct (Z.ltb_spec 0 (banThreshold pl)); [|lia].
    destruct (Z.leb_spec (banThreshold pl) (consecutiveFails x + 1)); [|lia].
    destruct H as (Hb & _ & Hy). rewrite Hfree in Hb by (by left). subst b. by split.
  - change (failures pl (now :: now' :: nows) x) with
      (let '(y, b) := reportOutcome pl now Failure 0 x in
       let '(z, bs) := failures pl (now' :: nows) y in (z, b :: bs)).
    pose proof (failure_below pl now x) as H.
    destruct (reportOutcome pl now Failure 0 x) as [y b].
    cbn [length] in *.
    destruct H as (-> & Hy & Hb); [unfold int64_max in *; lia|lia|].
    specialize (IH y ltac:(done) ltac:(lia) ltac:(lia)).
    destruct (failures pl (now' :: nows) y) as [z bs].
    destruct IH as (-> & Hz).
    + intros t Ht. unfold isBanned. rewrite Hb. apply Hfree. by right.
    + split; [|done]. cbn [length]. by rewrite !Nat.sub_succ, !Nat.sub_0_r.
Qed.
