(* ===== verification/ProxyPoolSpec.v ===== *)
(** * Properties of the proxy pool

    The theorems about [ProxyPool] that the rest of the system relies on. *)

From S2P Require Import Prelude Float64 ProxyPool.

(** ** Properties *)

(** C27. In every state the pool can reach from [NewPool] through [Reload],
    [Next] and [ReportOutcome] (on any proxy, dropped ones included), the
    proxy list is non-empty, the round-robin cursor is in range, and the list,
    the URL map and the proxy objects agree. *)
Theorem pool_reachable_wf pl : reachable pl -> pool_wf pl.
Proof. apply reachable_wf_lemma. Qed.

Lemma pool_reachable_wf_witness :
  pool_wf (exec_op (OpReload ["b"; "c"]%string) (with_config RoundRobin 0 (NewPool ["a"; "b"]%string 3 30))).
Proof. apply pool_reachable_wf. apply reach_step; [apply reach_new|exact I]. Defined.

(** C9. Whatever the rotation strategy, [Next] never panics and never hands out
    a proxy that is cooling: the proxy returned belongs to the pool and was
    not banned at the instant it was checked, and [ErrAllBanned] is returned
    only when every proxy was found cooling. *)
Theorem next_never_cooling pl clk intn rnd : reachable pl -> intn_ok intn ->
  match (Next clk intn rnd pl).2 with
  | Got p => p ∈ proxies pl /\ exists i, isBanned (clk i) (deref pl p) = false
  | ErrAllBanned => forall p, p ∈ proxies pl -> exists i, isBanned (clk i) (deref pl p) = true
  | IndexPanic => False
  end.
Proof.
  intros Hr Hi. pose proof (Next_spec clk intn rnd pl (reachable_wf_lemma _ Hr) Hi) as H.
  destruct (Next clk intn rnd pl) as [pl' [p| |]]; simpl; [|by destruct H|done].
  by destruct H as (? & ? & _).
Qed.

Lemma next_never_cooling_witness :
  match (Next (fun _ => 5) (fun _ => 0%nat) f64_zero (with_config WeightedSuccessRate 0 (NewPool ["a"; "b"]%string 3 30))).2 with
  | Got p => p ∈ proxies (with_config WeightedSuccessRate 0 (NewPool ["a"; "b"]%string 3 30)) /\
      exists i : nat, isBanned 5 (deref (with_config WeightedSuccessRate 0 (NewPool ["a"; "b"]%string 3 30)) p) = false
  | ErrAllBanned => forall p, p ∈ proxies (with_config WeightedSuccessRate 0 (NewPool ["a"; "b"]%string 3 30)) ->
      exists i : nat, isBanned 5 (deref (with_config WeightedSuccessRate 0 (NewPool ["a"; "b"]%string 3 30)) p) = true
  | IndexPanic => False
  end.
Proof.
  apply (next_never_cooling (with_config WeightedSuccessRate 0 (NewPool ["a"; "b"]%string 3 30)) (fun _ => 5) (fun _ => 0%nat) f64_zero).
  - apply reach_new.
  - intros n Hn. exact Hn.
Defined.

(** [NextAvailableAt] is exact, which is what the worker's wait relies on:
    it is the zero time precisely when some proxy is available now; once every
    clock reading has reached it, [Next] succeeds under every strategy; and
    until then [Next] answers [ErrAllBanned]. *)
Theorem next_available_exact pl now intn rnd : reachable pl -> intn_ok intn -> 0 <= now ->
  let at_ := NextAvailableAt now pl in
  (at_ = zeroTime <-> exists p, p ∈ proxies pl /\ isBanned now (deref pl p) = false) /\
  (forall clk, (forall i, Z.max now at_ <= clk i) -> exists p, (Next clk intn rnd pl).2 = Got p) /\
  (forall clk, (forall i, now <= clk i < at_) -> (Next clk intn rnd pl).2 = ErrAllBanned).
Proof.
  intros Hr Hi Hnow at_. pose proof (reachable_wf_lemma _ Hr) as Hwf.
  pose proof (wf_nonempty _ Hwf) as Hne.
  unfold at_, NextAvailableAt, zeroTime.
  destruct (nextAvailable_loop_spec now pl (proxies pl) 0 Hnow ltac:(by left))
    as [[(p & Hp & Hb) Hz]|(Hall & _ & Hlt & Hor)].
  - rewrite Hz. split_and!.
    + split; [|done]. intros _. by exists p.
    + intros clk Hclk. apply Next_waits; [done..|]. exists p. split; [done|]. intros i.
      specialize (Hclk i). unfold isBanned, Before in *. lia.
    + intros clk Hclk. specialize (Hclk 0%nat). lia.
  - specialize (Hlt ltac:(by left)). split_and!.
    + split; [lia|]. intros (p & Hp & Hb). destruct (Hall p Hp). congruence.
    + intros clk Hclk. apply Next_waits; [done..|].
      destruct Hor as [|(p & Hp & Hpr)]; [lia|]. exists p. split; [done|]. intros i.
      specialize (Hclk i). unfold isBanned, Before. lia.
    + intros clk Hclk. apply Next_waits; [done..|]. intros p i Hp.
      destruct (Hall p Hp) as [_ Hle]. specialize (Hclk i). unfold isBanned, Before. lia.
Qed.

Lemma next_available_exact_witness :
  let pl := exec_op (OpReport 0 RateLimited 7 10) (with_config Random 0 (NewPool ["a"]%string 3 30)) in
  NextAvailableAt 12 pl = 17 /\ exists p, (Next (fun _ => 17) (fun _ => 0%nat) f64_zero pl).2 = Got p.
Proof.
  intros pl. split; [by vm_compute|].
  assert (Hr : reachable pl) by (apply reach_step; [apply reach_new|exact I]).
  assert (Hi : intn_ok (fun _ => 0%nat)) by (intros n Hn; exact Hn).
  destruct (next_available_exact pl 12 (fun _ => 0%nat) f64_zero Hr Hi ltac:(lia)) as (_ & H & _).
  apply H. intros i. by vm_compute.
Defined.

(** [ReportOutcome] returns true exactly when the call moves the proxy from
    available to cooling, for any positive cooldown configuration that does
    not overflow; so counting its true results counts cooldown events. *)
Theorem report_counts_transitions pl p x o ra now : config_ok pl -> heap pl !! p = Some x ->
  (ReportOutcome p o ra now pl).2 = true <->
  isBanned now x = false /\ isBanned now (deref (ReportOutcome p o ra now pl).1 p) = true.
Proof.
  intros Hc Hp. pose proof (report_heap p o ra now pl p x Hp) as Hh.
  unfold deref at 1. rewrite Hh, decide_True by done. simpl.
  unfold ReportOutcome, deref. rewrite Hp. simpl.
  rewrite <- (reportOutcome_transition pl now o ra x Hc).
  by destruct (reportOutcome pl now o ra x).
Qed.

Lemma report_counts_transitions_witness :
  let pl := NewPool ["a"]%string 3 30 in
  (ReportOutcome 0 Blocked 0 100 pl).2 = true <->
  isBanned 100 (freshProxy "a") = false /\ isBanned 100 (deref (ReportOutcome 0 Blocked 0 100 pl).1 0) = true.
Proof.
  intros pl. apply (report_counts_transitions pl 0 (freshProxy "a") Blocked 0 100).
  - unfold config_ok. simpl. lia.
  - reflexivity.
Defined.

(** C10. Cooldowns escalate as documented: a block, or a rate limit without a
    Retry-After, cools a proxy for [banCooldown * 2^streak] capped at the
    maximum (16 times the base when unset), and advances the streak; a rate
    limit with a Retry-After cools it for exactly that long and leaves the
    streak alone; neither ever shortens a running cooldown. *)
Theorem cooldown_escalation pl now ra x : config_ok pl -> 0 <= banStreak x < int64_max ->
  let d := Z.min (maxCooldownOf pl) (banCooldown pl * 2 ^ banStreak x) in
  (let y := (reportOutcome pl now Blocked ra x).1 in
   bannedUntil y = Z.max (bannedUntil x) (now + d) /\ banStreak y = banStreak x + 1) /\
  (let y := (reportOutcome pl now RateLimited ra x).1 in
   bannedUntil y = Z.max (bannedUntil x) (now + if 0 <? ra then ra else d) /\
   banStreak y = if 0 <? ra then banStreak x else banStreak x + 1).
Proof.
  intros Hc Hs d. destruct (escalated_spec pl x Hc) as (He1 & _ & He2).
  specialize (He2 ltac:(lia)). fold d in He2.
  assert (Hsame : forall y, banStreak y = banStreak x ->
    (escalatedCooldownLocked pl y).2 = d /\ banStreak (escalatedCooldownLocked pl y).1 = banStreak x + 1
    /\ bannedUntil (escalatedCooldownLocked pl y).1 = bannedUntil y).
  { intros y Hy. unfold escalatedCooldownLocked in *. simpl in *. rewrite Hy. split_and!; [done| |done].
    apply wrap64_id. unfold in_int64, int64_min, int64_max in *. lia. }
  assert (Hcool : forall y, bannedUntil y = bannedUntil x -> banStreak y = banStreak x ->
    let '(z, e) := escalatedCooldownLocked pl y in
    bannedUntil (coolLocked now e z).1 = Z.max (bannedUntil x) (now + d) /\
    banStreak (coolLocked now e z).1 = banStreak x + 1).
  { intros y Hb Hy. destruct (Hsame y Hy) as (H1 & H2 & H3).
    destruct (escalatedCooldownLocked pl y) as [z e]. cbn [fst snd] in *. rewrite H1.
    cool_facts. destruct_and!. simpl. split; congruence. }
  unfold reportOutcome. split.
  - by apply Hcool.
  - destruct (0 <? ra); [|by apply Hcool]. cool_facts. destruct_and!. simpl in *. split; congruence.
Qed.

Lemma cooldown_escalation_witness :
  let pl := with_config RoundRobin (10 * Minute) (NewPool ["a"]%string 3 (30 * Second)) in
  bannedUntil (reportOutcome pl 0 Blocked 0 (set_streak 3 (freshProxy "a"))).1 = 240 * Second.
Proof.
  intros pl.
  destruct (cooldown_escalation pl 0 0 (set_streak 3 (freshProxy "a"))) as [[H _] _].
  - unfold config_ok. repeat split; vm_compute; congruence.
  - split; vm_compute; congruence.
  - rewrite H. by vm_compute.
Defined.

(** [Reload] installs exactly the requested URLs in order (the direct
    identity for an empty list), reuses the very proxy object, with its
    counters and cooldown, for every URL that was already in the pool, gives
    new URLs a clean history, and mutates no existing proxy. *)
Theorem reload_keeps_health pl urls : reachable pl ->
  heap pl ⊆ heap (Reload urls pl) /\
  Forall2 (fun u p => match byURL pl !! u with
                      | Some q => p = q /\ URL (deref pl p) = u
                      | None => heap (Reload urls pl) !! p = Some (freshProxy u)
                      end) (orDirect urls) (proxies (Reload urls pl)).
Proof.
  intros Hr. pose proof (reachable_wf_lemma _ Hr) as Hwf.
  destruct (Reload_spec urls pl Hwf) as (_ & Hsub & HF). split; [done|].
  eapply Forall2_impl; [exact HF|]. simpl. intros u p (x & Hx & Hu & Hold & Hnew).
  destruct (byURL pl !! u) as [q|] eqn:Hq; [|by rewrite Hx, Hnew].
  rewrite (Hold q eq_refl). split; [done|].
  destruct (wf_map _ Hwf u q Hq) as (_ & y & Hy & <-). unfold deref. by rewrite Hy.
Qed.

Lemma reload_keeps_health_witness :
  let pl := exec_op (OpReport 1 Blocked 0 100) (with_config RoundRobin 0 (NewPool ["a"; "b"]%string 3 30)) in
  heap pl ⊆ heap (Reload ["b"; "c"]%string pl) /\
  proxies (Reload ["b"; "c"]%string pl) = [1; 2]%nat /\ bannedUntil (deref (Reload ["b"; "c"]%string pl) 1) = 130.
Proof.
  intros pl. split; [|by vm_compute].
  apply (reload_keeps_health pl ["b"; "c"]%string). apply reach_step; [apply reach_new|exact I].
Defined.

(** The health score is a genuine fraction in binary64 arithmetic: in every
    reachable state each proxy's success average is a finite float between 0
    and 1 (rounding included), and the selection weight derived from it never
    falls below the 0.1 floor nor exceeds 1. *)
Theorem health_bounded pl p x : reachable pl -> heap pl !! p = Some x ->
  nonneg (health x) /\ f64_leb (health x) f64_one = true /\
  f64_leb weightFloor (weightOf x) = true /\ f64_leb (weightOf x) f64_one = true.
Proof.
  intros Hr Hp. destruct (reachable_healthy _ Hr p x Hp) as [Hn Hl]. split_and!; [done..| |].
  - unfold weightOf. destruct (f64_ltb _ weightFloor) eqn:Hf; [by vm_compute|].
    apply f64_ltb_false_leb; [| |done]; [|by vm_compute].
    destruct (f64_ltb (healthLocked x) f64_zero); [by vm_compute|].
    unfold healthLocked. destruct (hasHealth x); [by apply nonneg_not_nan|by vm_compute].
  - unfold weightOf. destruct (f64_ltb _ weightFloor); [by vm_compute|].
    destruct (f64_ltb (healthLocked x) f64_zero) eqn:Hz; [by vm_compute|].
    unfold healthLocked in *. destruct (hasHealth x); [done|by vm_compute in Hz].
Qed.

Lemma health_bounded_witness :
  let pl := exec_op (OpReport 0 Failure 0 5) (exec_op (OpReport 0 Success 0 4)
              (with_config WeightedSuccessRate 0 (NewPool ["a"]%string 3 30))) in
  f64_leb (health (deref pl 0)) f64_one = true.
Proof.
  intros pl. destruct (heap pl !! 0%nat) as [x|] eqn:Hx; [|by vm_compute in Hx].
  unfold deref. rewrite Hx. simpl.
  apply (health_bounded pl 0 x); [|exact Hx].
  apply reach_step; [apply reach_step; [apply reach_new|exact I]|exact I].
Defined.

(** With no proxy cooling, round-robin is fair: the [k]-th of a series of
    [Next] calls returns the proxy [k] places after the cursor, cyclically. *)
Theorem round_robin_fair intn rnd clks pl : pool_wf pl -> strategy pl = RoundRobin ->
  (forall clk p i, clk ∈ clks -> p ∈ proxies pl -> isBanned (clk i) (deref pl p) = false) ->
  forall k, (k < length clks)%nat ->
  nexts intn rnd clks pl !! k = Got <$> proxies pl !! ((idx pl + k) mod length (proxies pl))%nat.
Proof.
  revert pl. induction clks as [|clk clks IH]; intros pl Hwf Hst Hall k Hk; [simpl in Hk; lia|].
  pose proof (wf_idx _ Hwf) as Hidx. simpl.
  unfold Next. rewrite Hst. unfold nextRoundRobinLocked.
  pose proof (rr_loop_spec clk _ (length (proxies pl)) 0 pl eq_refl Hidx) as Hrr.
  destruct (lookup_lt_is_Some_2 (proxies pl) (idx pl) Hidx) as [p0 Hp0].
  destruct (rr_loop _ _ _ _ _) as [pl' [p| |]]; [| |done].
  - destruct Hrr as (j & Hj & Hp & _ & Hprev & ->). destruct j as [|j].
    2: { specialize (Hprev O p0 ltac:(lia)). rewrite Nat.add_0_r, Nat.mod_small in Hprev by lia.
         rewrite Hall in Hprev; [by specialize (Hprev Hp0)|by left|by eapply list_elem_of_lookup_2]. }
    destruct k as [|k]; simpl; [by rewrite Hp|].
    rewrite IH; [|by apply update_wf; [|apply set_idx_wf; [apply Nat.mod_upper_bound; lia|]]|done| |simpl in Hk; lia].
    + simpl. rewrite Nat.Div0.add_mod_idemp_l. do 3 f_equal. lia.
    + intros clk' q i Hclk Hq. unfold isBanned. rewrite deref_markUsed. apply Hall; [by right|done].
  - destruct Hrr as [Hban _]. specialize (Hban O p0 ltac:(lia)).
    rewrite Nat.add_0_r, Nat.mod_small in Hban by lia.
    rewrite Hall in Hban; [by specialize (Hban Hp0)|by left|by eapply list_elem_of_lookup_2].
Qed.

Lemma round_robin_fair_witness :
  nexts (fun _ => 0%nat) f64_zero [fun _ => 1; fun _ => 2; fun _ => 3] (NewPool ["a"; "b"]%string 3 30) !! 2%nat
  = Got <$> proxies (NewPool ["a"; "b"]%string 3 30) !! 0%nat.
Proof.
  apply (round_robin_fair (fun _ => 0%nat) f64_zero [fun _ => 1; fun _ => 2; fun _ => 3] (NewPool ["a"; "b"]%string 3 30)).
  - apply NewPool_wf.
  - reflexivity.
  - assert (Hz : Forall (fun p => bannedUntil (deref (NewPool ["a"; "b"]%string 3 30) p) = 0)
                   (proxies (NewPool ["a"; "b"]%string 3 30))).
    { vm_compute. repeat constructor. }
    intros clk p i Hclk Hp. rewrite Forall_forall in Hz. specialize (Hz p Hp).
    unfold isBanned, Before. rewrite Hz. rewrite !elem_of_cons in Hclk.
    destruct Hclk as [->|[->|[->|Hn]]]; try reflexivity. by apply not_elem_of_nil in Hn.
  - simpl. lia.
Defined.

(** Failures below the threshold never ban, the failure that reaches
    [banThreshold] in a row does, and the count restarts from zero, so the
    proxy can be banned again. *)
Theorem ban_after_threshold pl nows x : config_ok pl -> banThreshold pl <= int64_max ->
  nows <> [] -> consecutiveFails x = 0 -> Z.of_nat (length nows) = banThreshold pl ->
  (forall now, now ∈ nows -> isBanned now x = false) ->
  let '(y, bs) := failures pl nows x in
  bs = replicate (length nows - 1) false ++ [true] /\ consecutiveFails y = 0.
Proof.
  intros Hc Hmax Hne Hf Hlen Hfree. apply failures_ban; [done..|lia|lia|done].
Qed.

Lemma ban_after_threshold_witness :
  let '(y, bs) := failures (NewPool ["a"]%string 3 30) [1; 2; 3] (freshProxy "a") in
  bs = [false; false; true] /\ consecutiveFails y = 0.
Proof.
  apply (ban_after_threshold (NewPool ["a"]%string 3 30) [1; 2; 3] (freshProxy "a")).
  - unfold config_ok. simpl. lia.
  - vm_compute. discriminate.
  - discriminate.
  - reflexivity.
  - reflexivity.
  - intros now Hin. rewrite !elem_of_cons in Hin.
    destruct Hin as [->|[->|[->|Hn]]]; try reflexivity. by apply not_elem_of_nil in Hn.
Defined.

(** With a zero base cooldown [ReportOutcome] reports a cooldown event although
    the proxy is still available (its documentation says it returns true
    exactly when the call put the proxy into a new cooldown). *)
Lemma zero_cooldown_reports_ban :
  let r := ReportOutcome 0 Blocked 0 100 (NewPool ["a"]%string 3 0) in
  r.2 = true /\ isBanned 100 (deref r.1 0) = false.
Proof. by vm_compute. Qed.
