(* ===== verification/RateLimit.v ===== *)
(** * The per-key rate limiter ([internal/ratelimit/limiter.go])

    A [Limiter] keeps one token bucket per key.  The buckets are objects of
    [golang.org/x/time/rate], which the repository only calls: they are the
    typeclass [TokenBucket], with the two documented facts the adaptive
    limiter depends on ([TokenBucketLaws]).  [Penalize] and [Reward] read the
    bucket's rate and write it back in two separate critical sections, so the
    concurrent behaviour is a step relation over calls in flight; the
    sequential operations are the two halves run back to back. *)

From S2P Require Import Prelude Float64.

(** ** The token bucket interface *)

Class TokenBucket := {
  bucket : Type;
  ctx : Type;
  NewLimiter : f64 -> Z -> bucket;
  Limit : bucket -> f64;
  SetLimit : f64 -> bucket -> bucket;
  (** [Wait(ctx)]: the bucket after the call and whether a token was granted. *)
  bucketWait : ctx -> bucket -> bucket * bool }.

Class TokenBucketLaws (T : TokenBucket) : Prop := {
  Limit_NewLimiter : forall r b, Limit (NewLimiter r b) = r;
  Limit_SetLimit : forall r l, Limit (SetLimit r l) = r;
  Limit_Wait : forall c l, Limit (bucketWait c l).1 = Limit l }.

Section Limiter.
Context {T : TokenBucket}.

(** ** State and operations *)

Record Limiter := mkLimiter {
  buckets : gmap string bucket;
  rps : f64;
  burst : Z;
  adaptive : bool;
  minRPS : f64;
  step : f64 }.

Definition set_buckets (m : gmap string bucket) (l : Limiter) : Limiter :=
  mkLimiter m (rps l) (burst l) (adaptive l) (minRPS l) (step l).

Definition New (r : f64) (b : Z) : Limiter := mkLimiter ∅ r b false f64_zero f64_zero.

Definition ten : f64 := f64_of_Z 10.
Definition stepFraction : f64 := f64_const 5 100.

Definition NewAdaptive (r : f64) (b : Z) (floor : f64) : Limiter :=
  let l := New r b in
  let floor := if f64_leb floor f64_zero || f64_ltb r floor then f64_div r ten else floor in
  mkLimiter (buckets l) (rps l) (burst l) true floor (f64_mul r stepFraction).

Definition bucketFor (key : string) (l : Limiter) : Limiter * bucket :=
  match buckets l !! key with
  | Some b => (l, b)
  | None => let b := NewLimiter (rps l) (burst l) in (set_buckets (<[key := b]> (buckets l)) l, b)
  end.

(** A call through the [*rate.Limiter] that [bucketFor] returned: the bucket is
    shared with the map, so the update is seen there. *)
Definition updateBucket (key : string) (f : bucket -> bucket) (l : Limiter) : Limiter :=
  set_buckets (alter f key (buckets l)) l.

Definition Wait (c : ctx) (key : string) (l : Limiter) : Limiter * bool :=
  let '(l, b) := bucketFor key l in
  (updateBucket key (fun _ => (bucketWait c b).1) l, (bucketWait c b).2).

(** The first half of [Penalize] and [Reward]: the bucket's current rate. *)
Definition readRate (key : string) (l : Limiter) : Limiter * f64 :=
  let '(l, b) := bucketFor key l in (l, Limit b).

(** The second half of [Penalize], with the rate [cur] read by the first. *)
Definition penalizeWith (cur : f64) (key : string) (l : Limiter) : Limiter * bool :=
  let next := f64_div cur (f64_of_Z 2) in
  let next := if f64_ltb next (minRPS l) then minRPS l else next in
  if f64_leb cur next then (l, false)
  else (updateBucket key (SetLimit next) l, true).

Definition Penalize (key : string) (l : Limiter) : Limiter * bool :=
  if negb (adaptive l) then (l, false)
  else let '(l, cur) := readRate key l in penalizeWith cur key l.

Definition rewardWith (cur : f64) (key : string) (l : Limiter) : Limiter :=
  if f64_leb (rps l) cur then l
  else
    let next := f64_add cur (step l) in
    let next := if f64_ltb (rps l) next then rps l else next in
    updateBucket key (SetLimit next) l.

Definition Reward (key : string) (l : Limiter) : Limiter :=
  if negb (adaptive l) then l
  else let '(l, cur) := readRate key l in rewardWith cur key l.

Definition Rate (key : string) (l : Limiter) : Limiter * f64 :=
  let '(l, b) := bucketFor key l in (l, Limit b).

(** The keys whose bucket runs below the configured rate. *)
Definition throttledKeys (l : Limiter) : gmap string bucket :=
  filter (fun kb => f64_ltb (Limit kb.2) (rps l) = true) (buckets l).

Definition Throttled (l : Limiter) : Z :=
  map_fold (fun _ b n => if f64_ltb (Limit b) (rps l) then wrap64 (n + 1) else n) 0 (buckets l).

(** ** Concurrent calls

    A worker between the two halves of a call holds the rate it read. *)

Inductive half := HalfPenalize | HalfReward.

Record State := mkState { lim : Limiter; inflight : list (half * string * f64) }.

Inductive lstep : State -> State -> Prop :=
  | step_wait c key s :
      lstep s (mkState (Wait c key (lim s)).1 (inflight s))
  | step_read h key s :
      adaptive (lim s) = true ->
      lstep s (mkState (readRate key (lim s)).1
                 (inflight s ++ [(h, key, (readRate key (lim s)).2)]))
  | step_penalize key cur i s :
      inflight s !! i = Some (HalfPenalize, key, cur) ->
      lstep s (mkState (penalizeWith cur key (lim s)).1 (delete i (inflight s)))
  | step_reward key cur i s :
      inflight s !! i = Some (HalfReward, key, cur) ->
      lstep s (mkState (rewardWith cur key (lim s)) (delete i (inflight s))).

(** The rate the next reader of [key] sees, without creating a bucket. *)
Definition rateOf (key : string) (l : Limiter) : f64 := default (rps l) (Limit <$> buckets l !! key).

End Limiter.

Arguments Limiter : clear implicits.
Arguments State : clear implicits.

(** A concrete bucket, for examples: its rate and burst. *)
#[export] Instance rateBucket : TokenBucket :=
  {| bucket := f64 * Z; ctx := unit; NewLimiter r b := (r, b); Limit := fst;
     SetLimit r b := (r, b.2); bucketWait _ b := (b, true) |}.

#[export] Instance rateBucket_laws : TokenBucketLaws rateBucket.
Proof. by split. Qed.

Section Props.
Context {T : TokenBucket} {TL : TokenBucketLaws T}.

(** ** The shape of one operation *)

(** The configuration is what no operation changes. *)
Definition same_config (l l' : Limiter T) : Prop :=
  rps l' = rps l /\ burst l' = burst l /\ adaptive l' = adaptive l /\ minRPS l' = minRPS l /\ step l' = step l.

Lemma same_config_refl l : same_config l l.
Proof. by repeat split. Qed.

Lemma same_config_trans l l1 l2 : same_config l l1 -> same_config l1 l2 -> same_config l l2.
Proof. unfold same_config. intuition congruence. Qed.

Lemma updateBucket_same key f l : same_config l (updateBucket key f l).
Proof. by repeat split. Qed.
#[local] Hint Resolve same_config_refl updateBucket_same : core.

Lemma bucketFor_spec key l :
  let '(l', b) := bucketFor key l in
  same_config l l' /\ Limit b = rateOf key l /\ buckets l' !! key = Some b /\
  forall k, rateOf k l' = rateOf k l.
Proof.
  unfold bucketFor, same_config, rateOf. destruct (buckets l !! key) as [b|] eqn:Hb; simpl.
  - by rewrite Hb.
  - rewrite Limit_NewLimiter, lookup_insert_eq. do 3 (split; [done|]). intros k.
    destruct (decide (k = key)) as [->|Hne].
    + rewrite lookup_insert_eq, Hb. simpl. by rewrite Limit_NewLimiter.
    + by rewrite lookup_insert_ne.
Qed.

Lemma updateBucket_rate key f b l k : buckets l !! key = Some b ->
  rateOf k (updateBucket key f l) = if decide (k = key) then Limit (f b) else rateOf k l.
Proof.
  intros Hb. unfold rateOf, updateBucket. simpl. destruct (decide (k = key)) as [->|Hne].
  - by rewrite lookup_alter_eq, Hb.
  - by rewrite lookup_alter_ne.
Qed.

Lemma readRate_spec key l :
  same_config l (readRate key l).1 /\ (readRate key l).2 = rateOf key l /\
  is_Some (buckets (readRate key l).1 !! key) /\ forall k, rateOf k (readRate key l).1 = rateOf k l.
Proof.
  unfold readRate. pose proof (bucketFor_spec key l) as H.
  destruct (bucketFor key l) as [l' b]. destruct H as (Hc & Hr & Hb & Hk).
  simpl in *. by rewrite Hb.
Qed.

(** ** Adaptive configuration and range *)

Record config_ok (l : Limiter T) : Prop := {
  ok_rps : nonneg (rps l);
  ok_min : nonneg (minRPS l);
  ok_step : nonneg (step l);
  ok_order : f64_leb (minRPS l) (rps l) = true }.

Definition in_range (l : Limiter T) (r : f64) : Prop :=
  nonneg r /\ f64_leb (minRPS l) r = true /\ f64_leb r (rps l) = true.

Lemma config_ok_same l l' : same_config l l' -> config_ok l -> config_ok l'.
Proof. intros (H1 & _ & _ & H4 & H5) []. split; congruence. Qed.

Lemma in_range_same l l' r : same_config l l' -> in_range l r -> in_range l' r.
Proof. unfold in_range. intros (H1 & _ & _ & H4 & _). by rewrite H1, H4. Qed.

Lemma rps_in_range l : config_ok l -> in_range l (rps l).
Proof. intros []. split_and!; [done..|]. by apply f64_leb_refl, nonneg_not_nan. Qed.

Lemma NewAdaptive_ok r b floor : nonneg r -> nonneg floor \/ f64_leb floor f64_zero = true ->
  config_ok (NewAdaptive r b floor).
Proof.
  intros Hr Hf.
  destruct (f64_div_le r (10 * 2 ^ 49) 49 Hr) as [Hd1 Hd2]; [done..|].
  change (S754_finite false (10 * 2 ^ 49) (-49)) with ten in *.
  destruct (f64_mul_le_l r stepFraction Hr) as [Hs1 Hs2]; [by vm_compute..|].
  split; simpl; [done| |done|]; destruct (f64_leb floor f64_zero) eqn:Hz; simpl; try done;
    (destruct Hf as [Hf|]; [|done]).
  - by destruct (f64_ltb r floor).
  - destruct (f64_ltb r floor) eqn:Hlt; [done|].
    apply f64_ltb_false_leb; [by apply nonneg_not_nan..|done].
Qed.

(** What the two halves write. *)
Definition halved (l : Limiter T) (cur : f64) : f64 :=
  let next := f64_div cur (f64_of_Z 2) in if f64_ltb next (minRPS l) then minRPS l else next.

Lemma penalizeWith_range cur key l : config_ok l -> in_range l cur ->
  penalizeWith cur key l = (l, false) \/
  penalizeWith cur key l = (updateBucket key (SetLimit (halved l cur)) l, true) /\
  in_range l (halved l cur) /\ f64_ltb (halved l cur) cur = true.
Proof.
  intros [] (Hn & Hlo & Hhi). unfold penalizeWith. fold (halved l cur).
  destruct (f64_div_le cur (2 ^ 52) 51 Hn) as [Hd1 Hd2]; [done..|].
  change (S754_finite false (2 ^ 52) (- 51)) with (f64_of_Z 2) in *.
  assert (Hx : nonneg (halved l cur) /\ f64_leb (minRPS l) (halved l cur) = true).
  { unfold halved. destruct (f64_ltb _ _) eqn:Hlt; [split; [done|]|split; [done|]].
    - by apply f64_leb_refl, nonneg_not_nan.
    - apply f64_ltb_false_leb; [by apply nonneg_not_nan..|done]. }
  destruct Hx as [Hx1 Hx2]. destruct (f64_leb cur (halved l cur)) eqn:Hle; [by left|right].
  assert (Hlt : f64_ltb (halved l cur) cur = true)
    by (rewrite f64_ltb_leb by (by apply nonneg_not_nan); by rewrite Hle).
  split; [done|]. split; [|done]. split; [done|]. split; [done|].
  eapply f64_leb_trans; [by apply f64_ltb_leb_incl|done].
Qed.

Lemma rewardWith_range cur key l : config_ok l -> in_range l cur ->
  rewardWith cur key l = l /\ f64_leb (rps l) cur = true \/
  exists next, in_range l next /\ f64_leb cur next = true /\
    rewardWith cur key l = updateBucket key (SetLimit next) l.
Proof.
  intros [] (Hn & Hlo & Hhi). unfold rewardWith.
  destruct (f64_leb (rps l) cur) eqn:Hfull; [by left|right].
  pose proof (f64_add_ge_l cur (step l) Hn ltac:(done)) as Hge.
  destruct (f64_leb_nan _ _ Hge) as [Hc Hs].
  exists (if f64_ltb (rps l) (f64_add cur (step l)) then rps l else f64_add cur (step l)).
  destruct (f64_ltb _ _) eqn:Hlt; split_and!; try done; split_and!; try done.
  - by apply f64_leb_refl, nonneg_not_nan.
  - apply (f64_add_nonneg _ _ (rps l)); try done.
    apply f64_ltb_false_leb; [by apply nonneg_not_nan|done|done].
  - by eapply f64_leb_trans.
  - apply f64_ltb_false_leb; [by apply nonneg_not_nan|done|done].
Qed.

(** ** The invariant of concurrent runs *)

Definition rates_ok (s : State T) : Prop :=
  config_ok (lim s) /\ (forall k, in_range (lim s) (rateOf k (lim s))) /\
  (forall h k cur, (h, k, cur) ∈ inflight s -> in_range (lim s) cur /\ is_Some (buckets (lim s) !! k)).

Lemma updateBucket_ok s key f b fl : rates_ok s -> buckets (lim s) !! key = Some b ->
  in_range (lim s) (Limit (f b)) -> fl ⊆ inflight s ->
  rates_ok (mkState (updateBucket key f (lim s)) fl).
Proof.
  intros (Hc & Hr & Hf) Hb Hin Hsub. split; [apply (config_ok_same (lim s)); [apply updateBucket_same|done]|]. split.
  - intros k. cbn [lim]. rewrite (updateBucket_rate _ _ b) by done. apply (in_range_same (lim s)); [apply updateBucket_same|].
    by destruct (decide (k = key)).
  - intros h k cur Hel. destruct (Hf h k cur) as [H1 H2]; [by apply Hsub|]. split; [done|].
    simpl. rewrite lookup_alter_is_Some. done.
Qed.

Lemma delete_sub {A} (l : list A) i : delete i l ⊆ l.
Proof. intros x Hx. by eapply list_elem_of_delete_inv. Qed.

Lemma readRate_ok s h key fl : rates_ok s ->
  fl = inflight s \/ fl = inflight s ++ [(h, key, (readRate key (lim s)).2)] ->
  rates_ok (mkState (readRate key (lim s)).1 fl).
Proof.
  intros (Hc & Hr & Hf) Hfl. destruct (readRate_spec key (lim s)) as (Hs & Hcur & Hb & Hk).
  split; [by eapply config_ok_same|]. split.
  - intros k. simpl. rewrite Hk. by apply (in_range_same (lim s)).
  - intros h' k cur Hel.
    assert (Hmono : is_Some (buckets (lim s) !! k) -> is_Some (buckets (readRate key (lim s)).1 !! k)).
    { unfold readRate, bucketFor. destruct (buckets (lim s) !! key); [done|]. simpl.
      intros H. destruct (decide (k = key)) as [->|]; [by rewrite lookup_insert_eq|by rewrite lookup_insert_ne]. }
    assert (Hold : (h', k, cur) ∈ inflight s -> in_range (readRate key (lim s)).1 cur /\
                     is_Some (buckets (readRate key (lim s)).1 !! k)).
    { intros Hin. destruct (Hf _ _ _ Hin) as [H1 H2].
      split; [by apply (in_range_same (lim s))|by apply Hmono]. }
    destruct Hfl as [-> | ->]; [by apply Hold|].
    apply elem_of_app in Hel as [Hel|Hel]; [by apply Hold|].
    apply list_elem_of_singleton in Hel. simplify_eq.
    split; [|done]. rewrite Hcur. by apply (in_range_same (lim s)).
Qed.

Lemma lstep_ok s s' : lstep s s' -> rates_ok s -> rates_ok s' /\ same_config (lim s) (lim s').
Proof.
  intros Hstep Hok. pose proof Hok as (Hc & Hr & Hf).
  inversion Hstep as [c key s1 Heq|h key s1 Ha Heq|key cur i s1 Hi Heq|key cur i s1 Hi Heq]; subst s1 s'.
  - unfold Wait. destruct (readRate_spec key (lim s)) as (Hs & Hcur & [b0 Hb] & _).
    pose proof (readRate_ok s HalfReward key _ Hok (or_introl eq_refl)) as Hok'.
    pose proof (bucketFor_spec key (lim s)) as Hspec.
    unfold readRate in *. destruct (bucketFor key (lim s)) as [l b]. destruct Hspec as (_ & Hb1 & Hb2 & _).
    simpl in *. split; [|done].
    apply (updateBucket_ok (mkState l (inflight s)) key _ b); [done|done| |done].
    simpl. rewrite Limit_Wait, Hb1. by apply (in_range_same (lim s)).
  - split; [|apply readRate_spec]. apply (readRate_ok s h); [done|by right].
  - pose proof (list_elem_of_lookup_2 _ _ _ Hi) as Hel. destruct (Hf _ _ _ Hel) as [Hin [b Hb]].
    destruct (penalizeWith_range cur key (lim s) Hc Hin) as [-> | (-> & Hn & _)].
    + split; [|done]. split; [done|]. split; [done|]. intros h k c' Hx. eapply Hf, delete_sub, Hx.
    + split; [|done]. eapply updateBucket_ok; [done|done| |apply delete_sub]. by rewrite Limit_SetLimit.
  - pose proof (list_elem_of_lookup_2 _ _ _ Hi) as Hel. destruct (Hf _ _ _ Hel) as [Hin [b Hb]].
    destruct (rewardWith_range cur key (lim s) Hc Hin) as [[-> _]|(next & Hn & _ & ->)].
    + split; [|done]. split; [done|]. split; [done|]. intros h k c' Hx. eapply Hf, delete_sub, Hx.
    + split; [|done]. eapply updateBucket_ok; [done|done| |apply delete_sub]. by rewrite Limit_SetLimit.
Qed.

Lemma run_ok s s' : rtc lstep s s' -> rates_ok s -> rates_ok s' /\ same_config (lim s) (lim s').
Proof.
  induction 1 as [s|s s1 s2 Hstep _ IH]; intros Hok; [done|].
  destruct (lstep_ok _ _ Hstep Hok) as [Hok1 Hs1]. destruct (IH Hok1) as [Hok2 Hs2].
  split; [done|]. by eapply same_config_trans.
Qed.

Lemma initial_ok l : config_ok l -> buckets l = ∅ -> rates_ok (mkState l []).
Proof.
  intros Hc Hb. split; [done|]. split.
  - intros k. unfold rateOf. simpl. rewrite Hb, lookup_empty. by apply rps_in_range.
  - intros h k cur Hin. by apply not_elem_of_nil in Hin.
Qed.

(** Without adaptation only [Wait] moves, and every rate stays the configured one. *)
Lemma fixed_step s s' : lstep s s' -> adaptive (lim s) = false -> inflight s = [] ->
  (forall k, rateOf k (lim s) = rps (lim s)) ->
  adaptive (lim s') = false /\ inflight s' = [] /\ (forall k, rateOf k (lim s') = rps (lim s')) /\
  rps (lim s') = rps (lim s).
Proof.
  intros Hstep Ha Hf Hr.
  inversion Hstep as [c key s1 Heq|h key s1 Ha' Heq|key cur i s1 Hi Heq|key cur i s1 Hi Heq]; subst s1 s';
    [|congruence|by rewrite Hf in Hi..].
  unfold Wait. pose proof (bucketFor_spec key (lim s)) as Hspec.
  destruct (bucketFor key (lim s)) as [l b]. destruct Hspec as ((H1 & _ & H3 & _) & Hb1 & Hb2 & Hk).
  simpl. split; [congruence|]. split; [done|]. split; [|done]. intros k.
  rewrite (updateBucket_rate _ _ b) by done. rewrite Limit_Wait, Hb1, Hk, !Hr. by case_decide.
Qed.

Lemma Throttled_wrap l : Throttled l = wrap64 (Z.of_nat (size (throttledKeys l))).
Proof.
  unfold Throttled, throttledKeys. generalize (buckets l). intros m.
  induction m as [|k b m Hk IH] using map_ind.
  - rewrite map_fold_empty, map_filter_empty, map_size_empty. by rewrite wrap64_id by (by vm_compute).
  - rewrite map_fold_insert_L; [|intros; by repeat case_match|done]. rewrite IH.
    destruct (f64_ltb (Limit b) (rps l)) eqn:Hb.
    + rewrite map_filter_insert_True by done.
      rewrite map_size_insert_None by (apply map_lookup_filter_None; by left).
      rewrite Nat2Z.inj_succ. apply wrap64_wrap_add.
    + rewrite map_filter_insert_not' by (intros; simpl in *; congruence). done.
Qed.

(** ** Properties *)

(** C11. However concurrent [Wait], [Penalize] and [Reward] calls interleave on
    an adaptive limiter, including between the read and the write of one call,
    every key's rate stays between the floor and the configured rate. *)
Theorem adaptive_rates_bounded r b floor s key :
  nonneg r -> nonneg floor \/ f64_leb floor f64_zero = true ->
  rtc lstep (mkState (NewAdaptive r b floor) []) s ->
  f64_leb (minRPS (NewAdaptive r b floor)) (rateOf key (lim s)) = true /\
  f64_leb (rateOf key (lim s)) r = true.
Proof.
  intros Hr Hf Hrun. pose proof (NewAdaptive_ok r b floor Hr Hf) as Hc.
  destruct (run_ok _ _ Hrun (initial_ok _ Hc eq_refl)) as [(_ & Hrate & _) Hs].
  destruct (Hrate key) as (_ & H1 & H2).
  destruct Hs as (Hrps & _ & _ & Hmin & _). simpl in Hrps, Hmin.
  rewrite Hmin in H1. by rewrite Hrps in H2.
Qed.

(** Called on its own, [Penalize] on an adaptive limiter sets the key's
    rate to half of it, or to the floor when that is higher, reports true
    exactly when that is a strict decrease (and changes nothing otherwise);
    [Reward] never lowers the rate and leaves a key at full rate alone; neither
    touches another key. *)
Theorem penalize_reward_exact l key :
  config_ok l -> adaptive l = true -> in_range l (rateOf key l) ->
  let r := rateOf key l in
  let half := f64_div r (f64_of_Z 2) in
  (let '(l', decreased) := Penalize key l in
   decreased = f64_ltb (rateOf key l') r /\
   rateOf key l' = (if decreased then if f64_ltb half (minRPS l) then minRPS l else half else r) /\
   forall k, k <> key -> rateOf k l' = rateOf k l) /\
  (let l' := Reward key l in
   f64_leb r (rateOf key l') = true /\
   (f64_leb (rps l) r = true -> rateOf key l' = r) /\
   forall k, k <> key -> rateOf k l' = rateOf k l).
Proof.
  intros Hc Ha Hin r half. unfold Penalize, Reward. rewrite Ha. cbn [negb].
  destruct (readRate_spec key l) as (Hs & Hcur & [b Hb] & Hk).
  destruct (readRate key l) as [l1 cur]. cbn [fst snd] in *. subst cur. fold r.
  pose proof (config_ok_same _ _ Hs Hc) as Hc1. pose proof (in_range_same _ _ _ Hs Hin) as Hin1.
  pose proof (f64_leb_refl r (nonneg_not_nan _ (proj1 Hin))) as Hrefl.
  split.
  - assert (Hself : f64_ltb r r = false).
    { rewrite f64_ltb_leb by apply nonneg_not_nan, Hin. by rewrite Hrefl. }
    replace (if f64_ltb half (minRPS l) then _ else _) with (halved l1 r)
      by (unfold halved; by destruct Hs as (_ & _ & _ & -> & _)).
    destruct (penalizeWith_range r key l1 Hc1 Hin1) as [-> | (-> & _ & Hlt)].
    + rewrite Hk. split; [done|]. split; [done|]. intros k _. apply Hk.
    + rewrite (updateBucket_rate _ _ b), decide_True, Limit_SetLimit by done.
      split; [done|]. split; [done|].
      intros k Hne. rewrite (updateBucket_rate _ _ b), decide_False by done. apply Hk.
  - destruct (rewardWith_range r key l1 Hc1 Hin1) as [[H1 H2]|(next & _ & Hle & H2)]; fold r.
    + rewrite H1, Hk. split; [done|]. split; [done|]. intros k _. apply Hk.
    + split; [|split].
      * rewrite H2, (updateBucket_rate _ _ b), decide_True, Limit_SetLimit by done. done.
      * intros Hfull. unfold rewardWith. replace (rps l1) with (rps l) by (by destruct Hs as (-> & _)).
        rewrite Hfull. apply Hk.
      * intros k Hne. rewrite H2, (updateBucket_rate _ _ b), decide_False by done. apply Hk.
Qed.

(** A limiter built by [New] never adapts: after any interleaving of calls
    [Penalize] answers false, and every key still runs at the configured rate. *)
Theorem fixed_limiter_constant r b s key :
  rtc lstep (mkState (New r b) []) s ->
  rateOf key (lim s) = r /\ Penalize key (lim s) = (lim s, false) /\ Reward key (lim s) = lim s.
Proof.
  intros Hrun.
  assert (H : adaptive (lim s) = false /\ inflight s = [] /\ (forall k, rateOf k (lim s) = rps (lim s)) /\
            rps (lim s) = r).
  { remember (mkState (New r b) []) as s0.
    assert (H0 : adaptive (lim s0) = false /\ inflight s0 = [] /\ (forall k, rateOf k (lim s0) = rps (lim s0)) /\
            rps (lim s0) = r) by (subst; repeat split; intros k; unfold rateOf; simpl; by rewrite lookup_empty).
    clear Heqs0. induction Hrun as [s|s s1 s2 Hstep _ IH]; [done|]. destruct H0 as (H1 & H2 & H3 & H4).
    destruct (fixed_step _ _ Hstep H1 H2 H3) as (H1' & H2' & H3' & H4').
    apply IH. do 3 (split; [done|]). congruence. }
  destruct H as (Ha & _ & Hr & <-). rewrite Hr. unfold Penalize, Reward. by rewrite Ha.
Qed.

End Props.

Lemma adaptive_rates_bounded_witness :
  let l := NewAdaptive (f64_of_Z 2) 1 (f64_of_Z 1) in
  f64_leb (f64_of_Z 1) (rateOf "p" (Penalize "p" (Penalize "p" l).1).1) = true /\
  f64_leb (rateOf "p" (Penalize "p" (Penalize "p" l).1).1) (f64_of_Z 2) = true.
Proof.
  intros l.
  apply (adaptive_rates_bounded (f64_of_Z 2) 1 (f64_of_Z 1)
           (mkState (Penalize "p" (Penalize "p" l).1).1 []) "p"%string).
  - by vm_compute.
  - left. by vm_compute.
  - eapply rtc_l; [apply (step_read HalfPenalize "p"); reflexivity|].
    eapply rtc_l; [apply (step_penalize "p" (f64_of_Z 2) 0%nat); reflexivity|].
    eapply rtc_l; [apply (step_read HalfPenalize "p"); reflexivity|].
    eapply rtc_l; [apply (step_penalize "p" (f64_of_Z 1) 0%nat); vm_compute; reflexivity|].
    apply rtc_refl.
Defined.

Lemma penalize_reward_exact_witness :
  let l := NewAdaptive (f64_of_Z 2) 1 f64_zero in
  (Penalize "p" l).2 = f64_ltb (rateOf "p" (Penalize "p" l).1) (rateOf "p" l).
Proof.
  intros l. assert (Hc : config_ok l) by (apply NewAdaptive_ok; [|left]; by vm_compute).
  destruct (penalize_reward_exact l "p"%string Hc eq_refl (rps_in_range l Hc)) as [H _].
  destruct (Penalize "p" l). apply H.
Defined.

Lemma fixed_limiter_constant_witness :
  rateOf "p" (Wait (tt : @ctx rateBucket) "p" (New (f64_of_Z 2) 1)).1 = f64_of_Z 2.
Proof.
  apply (fixed_limiter_constant (f64_of_Z 2) 1 (mkState (Wait (tt : @ctx rateBucket) "p" (New (f64_of_Z 2) 1)).1 []) "p"%string).
  eapply rtc_l; [apply (step_wait (tt : @ctx rateBucket) "p")|]. apply rtc_refl.
Defined.

(** Two concurrent [Penalize] calls that both read the rate before either
    writes it halve it once but both answer true. *)
Lemma penalize_race_counts_twice :
  let s0 := mkState (NewAdaptive (f64_of_Z 2) 1 (f64_const 1 10)) [] in
  exists s2, rtc lstep s0 s2 /\ inflight s2 = [(HalfPenalize, "p"%string, f64_of_Z 2); (HalfPenalize, "p"%string, f64_of_Z 2)] /\
  let '(l3, first) := penalizeWith (f64_of_Z 2) "p" (lim s2) in
  let '(l4, second) := penalizeWith (f64_of_Z 2) "p" l3 in
  first = true /\ second = true /\ rateOf "p" l4 = rateOf "p" l3.
Proof.
  intros s0. eexists. split; [|split].
  - eapply rtc_l; [apply (step_read HalfPenalize "p"); reflexivity|].
    eapply rtc_l; [apply (step_read HalfPenalize "p"); reflexivity|]. apply rtc_refl.
  - by vm_compute.
  - by vm_compute.
Qed.
