(* ===== verification/Metrics.v ===== *)
(** * Metrics ([internal/metrics])

    Run-wide counters, counters by label, browser counters, the latency ring
    buffer with its percentiles, and what a Prometheus scrape reports.  The Go
    counters are atomic [uint64]s, so each increment is one step.  The progress lines
    and the HTTP server are in [Reporter]. *)

From Stdlib Require Import Ascii.
From S2P Require Import Prelude Float64.

Open Scope string_scope.
Open Scope Z_scope.

(** ** Browser counters ([browser.go]) *)

Record BrowserCounters := mkBrowser {
  Launches : Z; Disconnects : Z; NavigationTimeouts : Z; ConsentHandled : Z;
  BlockedCaptcha : Z; BlockedConsent : Z; BlockedInterstitial : Z; BlockedChallenge : Z;
  LaunchFailures : Z; PageCrashes : Z;
  SessionsOpen : Z; SessionsInUse : Z }.

Definition zeroBrowser : BrowserCounters := mkBrowser 0 0 0 0 0 0 0 0 0 0 0 0.

Inductive browser_event :=
  | EvLaunch | EvDisconnect | EvNavTimeout | EvConsentHandled | EvBlocked (reason : string)
  | EvLaunchFailure | EvPageCrash | EvSessionsOpen (delta : Z) | EvSessionsInUse (delta : Z).

Definition inc (n : Z) : Z := wrapu64 (n + 1).

Definition incBlocked (reason : string) (b : BrowserCounters) : BrowserCounters :=
  let '(mkBrowser l d n c b1 b2 b3 b4 lf pc so su) := b in
  if decide (reason = "captcha") then mkBrowser l d n c (inc b1) b2 b3 b4 lf pc so su
  else if decide (reason = "consent") then mkBrowser l d n c b1 (inc b2) b3 b4 lf pc so su
  else if decide (reason = "challenge") then mkBrowser l d n c b1 b2 b3 (inc b4) lf pc so su
  else mkBrowser l d n c b1 b2 (inc b3) b4 lf pc so su.

(** The [Inc]/[Add] methods of [BrowserCounters]; a nil receiver ignores them. *)
Definition browserInc (ev : browser_event) (b : BrowserCounters) : BrowserCounters :=
  let '(mkBrowser l d n c b1 b2 b3 b4 lf pc so su) := b in
  match ev with
  | EvLaunch => mkBrowser (inc l) d n c b1 b2 b3 b4 lf pc so su
  | EvDisconnect => mkBrowser l (inc d) n c b1 b2 b3 b4 lf pc so su
  | EvNavTimeout => mkBrowser l d (inc n) c b1 b2 b3 b4 lf pc so su
  | EvConsentHandled => mkBrowser l d n (inc c) b1 b2 b3 b4 lf pc so su
  | EvBlocked reason => incBlocked reason b
  | EvLaunchFailure => mkBrowser l d n c b1 b2 b3 b4 (inc lf) pc so su
  | EvPageCrash => mkBrowser l d n c b1 b2 b3 b4 lf (inc pc) so su
  | EvSessionsOpen delta => mkBrowser l d n c b1 b2 b3 b4 lf pc (wrap64 (so + delta)) su
  | EvSessionsInUse delta => mkBrowser l d n c b1 b2 b3 b4 lf pc so (wrap64 (su + delta))
  end.

Definition browserSnapshot (b : option BrowserCounters) : BrowserCounters := default zeroBrowser b.

(** ** Counters ([metrics.go], [acquisition.go]) *)

Definition labeledCounter : Type := gmap string Z.

Definition incLabel (label : string) (l : labeledCounter) : labeledCounter :=
  <[label := inc (default 0 (l !! label))]> l.

Definition labelCount (label : string) (l : labeledCounter) : Z := default 0 (l !! label).

Record LabeledValue := mkLabeled { Label : string; Value : Z }.

Definition snapshotLabels (l : labeledCounter) : list LabeledValue :=
  sortBy (fun a b => String.ltb (Label a) (Label b)) (map (fun kv => mkLabeled kv.1 kv.2) (map_to_list l)).

Record ProxyGauges := mkGauges { Available : Z; Cooling : Z; Throttled : Z }.

Record Counters := mkCounters {
  Success : Z; Failure : Z; Dropped : Z; Retried : Z;
  AIOverviewPresent : Z; CalibrationFlagged : Z; ProxyBanned : Z;
  RateDecreases : Z; Failovers : Z; HTTPConsentHandled : Z; RobotsDisallowed : Z;
  outcomes : labeledCounter; cooldowns : labeledCounter;
  Browser : option BrowserCounters }.

Definition zeroCounters : Counters := mkCounters 0 0 0 0 0 0 0 0 0 0 0 ∅ ∅ None.

Inductive counter_event :=
  | IncSuccess | IncFailure | IncDropped | IncRetried | IncAIOverviewPresent | IncCalibrationFlagged
  | IncProxyBanned | IncRateDecrease | IncFailover | IncHTTPConsentHandled | IncRobotsDisallowed
  | IncOutcome (outcome : string) | IncProxyCooldown (reason : string)
  | BrowserEvent (ev : browser_event).

#[export] Instance browser_event_eq_dec : EqDecision browser_event.
Proof. solve_decision. Defined.

#[export] Instance counter_event_eq_dec : EqDecision counter_event.
Proof. solve_decision. Defined.

Definition count (ev : counter_event) (c : Counters) : Counters :=
  let '(mkCounters s f d r ai cf pb rd fo hc rb os cs br) := c in
  match ev with
  | IncSuccess => mkCounters (inc s) f d r ai cf pb rd fo hc rb os cs br
  | IncFailure => mkCounters s (inc f) d r ai cf pb rd fo hc rb os cs br
  | IncDropped => mkCounters s f (inc d) r ai cf pb rd fo hc rb os cs br
  | IncRetried => mkCounters s f d (inc r) ai cf pb rd fo hc rb os cs br
  | IncAIOverviewPresent => mkCounters s f d r (inc ai) cf pb rd fo hc rb os cs br
  | IncCalibrationFlagged => mkCounters s f d r ai (inc cf) pb rd fo hc rb os cs br
  | IncProxyBanned => mkCounters s f d r ai cf (inc pb) rd fo hc rb os cs br
  | IncRateDecrease => mkCounters s f d r ai cf pb (inc rd) fo hc rb os cs br
  | IncFailover => mkCounters s f d r ai cf pb rd (inc fo) hc rb os cs br
  | IncHTTPConsentHandled => mkCounters s f d r ai cf pb rd fo (inc hc) rb os cs br
  | IncRobotsDisallowed => mkCounters s f d r ai cf pb rd fo hc (inc rb) os cs br
  | IncOutcome o => mkCounters s f d r ai cf pb rd fo hc rb (incLabel o os) cs br
  | IncProxyCooldown o => mkCounters s f d r ai cf pb rd fo hc rb os (incLabel o cs) br
  | BrowserEvent e => mkCounters s f d r ai cf pb rd fo hc rb os cs (browserInc e <$> br)
  end.

Record Snapshot := mkSnapshot {
  snSuccess : Z; snFailure : Z; snDropped : Z; snRetried : Z;
  snAIOverviewPresent : Z; snCalibrationFlagged : Z; snProxyBanned : Z }.

Definition snapshot (c : Counters) : Snapshot :=
  mkSnapshot (Success c) (Failure c) (Dropped c) (Retried c) (AIOverviewPresent c)
    (CalibrationFlagged c) (ProxyBanned c).

(** ** Latencies ([latency.go]) *)

Record LatencyRecorder := mkRecorder {
  samples : list duration;
  idx : nat;
  capacity : nat;
  total : Z }.

Definition NewLatencyRecorder (cap : Z) : LatencyRecorder :=
  mkRecorder [] 0 (if cap <=? 0 then 1%nat else Z.to_nat cap) 0.

Definition Record_ (d : duration) (r : LatencyRecorder) : LatencyRecorder :=
  let t := inc (total r) in
  if (length (samples r) <? capacity r)%nat
  then mkRecorder (samples r ++ [d])%list (idx r) (capacity r) t
  else mkRecorder (<[idx r := d]> (samples r)) ((idx r + 1) mod capacity r)%nat (capacity r) t.

Record LatencyStats := mkLatency {
  Count : Z; TotalRecorded : Z; Min : duration; P50 : duration; P95 : duration; P99 : duration; Max : duration }.

(** [pick(p)]; [None] is an index out of range. *)
Definition pick (p : f64) (sorted : list duration) : option duration :=
  let n := Z.of_nat (length sorted) in
  let i := f64_trunc (f64_mul p (f64_of_Z n)) in
  let i := if n <=? i then n - 1 else i in
  if i <? 0 then None else sorted !! Z.to_nat i.

Definition Stats (r : LatencyRecorder) : option LatencyStats :=
  match samples r with
  | [] => Some (mkLatency 0 (total r) 0 0 0 0 0)
  | _ =>
      let sorted := sortBy Z.ltb (samples r) in
      mn ← sorted !! 0%nat;
      p50 ← pick (f64_const 50 100) sorted;
      p95 ← pick (f64_const 95 100) sorted;
      p99 ← pick (f64_const 99 100) sorted;
      mx ← sorted !! (length sorted - 1)%nat;
      Some (mkLatency (Z.of_nat (length sorted)) (total r) mn p50 p95 p99 mx)
  end.

(** ** The Prometheus collector ([prometheus.go])

    A description is what [prometheus.NewDesc] is given, and a metric what
    [MustNewConstMetric] is given. *)

Inductive valueType := CounterValue | GaugeValue.

Record Desc := mkDesc { fqName : string; help : string; variableLabels : list string }.

#[export] Instance Desc_eq_dec : EqDecision Desc.
Proof. solve_decision. Defined.

Record Metric := mkMetric { mDesc : Desc; mType : valueType; mValue : f64; mLabels : list string }.

Record PrometheusCollector := mkCollector {
  pcCounters : Counters;
  pcGauges : option ProxyGauges;      (* what counters.ProxyGauges answers, if it is set *)
  pcLatencies : option LatencyRecorder;
  d_success : Desc; d_failure : Desc; d_dropped : Desc; d_retried : Desc; d_aiOverviewPresent : Desc;
  d_calibrationFlagged : Desc; d_proxyBanned : Desc; d_latencyP50 : Desc; d_latencyP95 : Desc;
  d_latencyP99 : Desc; d_fetchOutcomes : Desc; d_proxyCooldowns : Desc; d_rateDecreases : Desc;
  d_failovers : Desc; d_httpConsent : Desc; d_robotsDisallowed : Desc; d_proxiesAvailable : Desc;
  d_proxiesCooling : Desc; d_proxiesThrottled : Desc; d_browserLaunchFails : Desc;
  d_browserPageCrashes : Desc; d_browserLaunches : Desc; d_browserDisconnects : Desc;
  d_browserNavTimeouts : Desc; d_browserConsentHandled : Desc; d_browserBlocked : Desc;
  d_browserSessionsOpen : Desc; d_browserSessionsInUse : Desc }.

Definition NewPrometheusCollector (c : Counters) (gauges : option ProxyGauges) (l : option LatencyRecorder) : PrometheusCollector :=
  mkCollector c gauges l
    (mkDesc "serp_harvester_success_total"
       "Total successful fetch+parse operations." [])
    (mkDesc "serp_harvester_failure_total"
       "Total failed fetch or parse attempts." [])
    (mkDesc "serp_harvester_dropped_total"
       "Total jobs dropped after exhausting retries." [])
    (mkDesc "serp_harvester_retried_total"
       "Total retry attempts." [])
    (mkDesc "serp_harvester_ai_overview_total"
       "Total successful results whose SerpResult included an AI Overview." [])
    (mkDesc "serp_harvester_parser_drift_total"
       "Total successful parses flagged for missing an expected block (selector drift signal)." [])
    (mkDesc "serp_harvester_proxy_banned_total"
       "Total times a proxy transitioned into cooldown after repeated failures." [])
    (mkDesc "serp_harvester_latency_p50_ms"
       "Approximate p50 fetch latency in milliseconds over the current sample window." [])
    (mkDesc "serp_harvester_latency_p95_ms"
       "Approximate p95 fetch latency in milliseconds over the current sample window." [])
    (mkDesc "serp_harvester_latency_p99_ms"
       "Approximate p99 fetch latency in milliseconds over the current sample window." [])
    (mkDesc "serp_harvester_fetch_outcomes_total"
       "Fetch attempts by outcome (success, rate_limited, captcha, consent, interstitial, timeout, transport, http_4xx, http_5xx, canceled, other)." ["outcome"])
    (mkDesc "serp_harvester_proxy_cooldowns_total"
       "Proxies entering cooldown, by reason (failures, blocked, rate_limited)." ["reason"])
    (mkDesc "serp_harvester_ratelimit_decreases_total"
       "Adaptive per-proxy rate decreases after a rate limit or block." [])
    (mkDesc "serp_harvester_fetch_failovers_total"
       "Fetches retried on the fallback fetcher (mode: hybrid)." [])
    (mkDesc "serp_harvester_http_consent_handled_total"
       "Consent pages dismissed by the HTTP fetcher's reject-all form submission." [])
    (mkDesc "serp_harvester_robots_disallowed_total"
       "Total URLs the web crawler skipped because robots.txt disallows them." [])
    (mkDesc "serp_harvester_proxies_available"
       "Proxies not currently in cooldown." [])
    (mkDesc "serp_harvester_proxies_cooling"
       "Proxies currently in cooldown." [])
    (mkDesc "serp_harvester_proxies_throttled"
       "Proxies whose adaptive request rate is below the configured rate." [])
    (mkDesc "serp_harvester_browser_launch_failures_total"
       "Failed Chromium launches (each starts a launch backoff)." [])
    (mkDesc "serp_harvester_browser_page_crashes_total"
       "Browser page (renderer) crashes." [])
    (mkDesc "serp_harvester_browser_launches_total"
       "Total Chromium launches, including relaunches after a crash or disconnect." [])
    (mkDesc "serp_harvester_browser_disconnects_total"
       "Total unexpected browser disconnects (crash, OOM kill); excludes shutdown." [])
    (mkDesc "serp_harvester_browser_navigation_timeouts_total"
       "Total browser navigations that exceeded request_timeout." [])
    (mkDesc "serp_harvester_browser_consent_handled_total"
       "Total cookie-consent interstitials dismissed via the page's own reject-all form." [])
    (mkDesc "serp_harvester_browser_blocked_total"
       "Total pages classified as a block the fetcher does not get past, by reason." ["reason"])
    (mkDesc "serp_harvester_browser_sessions_open"
       "Browser sessions (context + page) currently open." [])
    (mkDesc "serp_harvester_browser_sessions_in_use"
       "Browser sessions currently serving a fetch." []).

Definition describeLatency (p : PrometheusCollector) : list Desc := [d_latencyP50 p; d_latencyP95 p; d_latencyP99 p].

Definition describeProxies (p : PrometheusCollector) : list Desc := [d_proxiesAvailable p; d_proxiesCooling p; d_proxiesThrottled p].

Definition describeBrowser (p : PrometheusCollector) : list Desc :=
  [d_browserLaunchFails p; d_browserPageCrashes p; d_browserLaunches p; d_browserDisconnects p; d_browserNavTimeouts p;
   d_browserConsentHandled p; d_browserBlocked p; d_browserSessionsOpen p; d_browserSessionsInUse p].

Definition Describe (p : PrometheusCollector) : list Desc :=
  ([d_success p; d_failure p; d_dropped p; d_retried p; d_aiOverviewPresent p; d_calibrationFlagged p; d_proxyBanned p] ++
   match pcLatencies p with Some _ => describeLatency p | None => [] end ++
   [d_fetchOutcomes p; d_proxyCooldowns p; d_rateDecreases p; d_failovers p; d_httpConsent p; d_robotsDisallowed p] ++
   match pcGauges p with Some _ => describeProxies p | None => [] end ++
   match Browser (pcCounters p) with Some _ => describeBrowser p | None => [] end)%list.

Definition counterM (d : Desc) (v : Z) : Metric := mkMetric d CounterValue (f64_of_Z v) [].
Definition gaugeM (d : Desc) (v : Z) : Metric := mkMetric d GaugeValue (f64_of_Z v) [].
Definition labeledM (d : Desc) (v : LabeledValue) : Metric := mkMetric d CounterValue (f64_of_Z (Value v)) [Label v].

Definition Milliseconds (d : duration) : Z := Z.quot d Millisecond.

Definition collectLatency (p : PrometheusCollector) (l : LatencyRecorder) : option (list Metric) :=
  ls ← Stats l;
  Some [gaugeM (d_latencyP50 p) (Milliseconds (P50 ls)); gaugeM (d_latencyP95 p) (Milliseconds (P95 ls));
        gaugeM (d_latencyP99 p) (Milliseconds (P99 ls))].

Definition collectBrowser (p : PrometheusCollector) (b : BrowserCounters) : list Metric :=
  [counterM (d_browserLaunchFails p) (LaunchFailures b);
   counterM (d_browserPageCrashes p) (PageCrashes b);
   counterM (d_browserLaunches p) (Launches b);
   counterM (d_browserDisconnects p) (Disconnects b);
   counterM (d_browserNavTimeouts p) (NavigationTimeouts b);
   counterM (d_browserConsentHandled p) (ConsentHandled b);
   labeledM (d_browserBlocked p) (mkLabeled "captcha" (BlockedCaptcha b));
   labeledM (d_browserBlocked p) (mkLabeled "consent" (BlockedConsent b));
   labeledM (d_browserBlocked p) (mkLabeled "interstitial" (BlockedInterstitial b));
   labeledM (d_browserBlocked p) (mkLabeled "challenge" (BlockedChallenge b));
   gaugeM (d_browserSessionsOpen p) (SessionsOpen b);
   gaugeM (d_browserSessionsInUse p) (SessionsInUse b)].

(** [None]: an index out of range in [Stats]. *)
Definition Collect (p : PrometheusCollector) : option (list Metric) :=
  let c := pcCounters p in
  let s := snapshot c in
  lat ← match pcLatencies p with Some r => collectLatency p r | None => Some [] end;
  Some ([counterM (d_success p) (snSuccess s);
         counterM (d_failure p) (snFailure s);
         counterM (d_dropped p) (snDropped s);
         counterM (d_retried p) (snRetried s);
         counterM (d_aiOverviewPresent p) (snAIOverviewPresent s);
         counterM (d_calibrationFlagged p) (snCalibrationFlagged s);
         counterM (d_proxyBanned p) (snProxyBanned s)] ++
        lat ++
        map (labeledM (d_fetchOutcomes p)) (snapshotLabels (outcomes c)) ++
        map (labeledM (d_proxyCooldowns p)) (snapshotLabels (cooldowns c)) ++
        [counterM (d_rateDecreases p) (RateDecreases c);
         counterM (d_failovers p) (Failovers c);
         counterM (d_httpConsent p) (HTTPConsentHandled c);
         counterM (d_robotsDisallowed p) (RobotsDisallowed c)] ++
        match pcGauges p with
        | Some g => [gaugeM (d_proxiesAvailable p) (Available g);
                     gaugeM (d_proxiesCooling p) (Cooling g);
                     gaugeM (d_proxiesThrottled p) (Throttled g)]
        | None => []
        end ++
        match Browser c with Some b => collectBrowser p b | None => [] end)%list.
