(* ===== verification/MetricsSpec.v ===== *)
(** * Properties of the metrics

    Counters count their events, the latency ring buffer holds the last
    observations, percentiles are ordered, and a scrape is well-formed. *)

From Stdlib Require Import Ascii.
From S2P Require Import Prelude Float64 Metrics.

Open Scope string_scope.
Open Scope Z_scope.

(** ** Counters *)

Definition occurrences (ev : counter_event) (evs : list counter_event) : Z :=
  Z.of_nat (length (List.filter (fun e => bool_decide (e = ev)) evs)).

Definition counted (evs : list counter_event) : Counters := runs count evs zeroCounters.

Lemma occurrences_app ev evs e :
  occurrences ev (evs ++ [e])%list = occurrences ev evs + (if decide (e = ev) then 1 else 0).
Proof.
  unfold occurrences. rewrite List.filter_app, length_app. simpl.
  destruct (decide (e = ev)) as [Heq|Hne].
  - rewrite bool_decide_eq_true_2 by done. simpl. lia.
  - rewrite bool_decide_eq_false_2 by done. simpl. lia.
Qed.

Lemma inc_occ n ev evs e : n = wrapu64 (occurrences ev evs) ->
  (if decide (e = ev) then inc n else n) = wrapu64 (occurrences ev (evs ++ [e])%list).
Proof.
  intros ->. rewrite occurrences_app. destruct (decide (e = ev)); [|by rewrite Z.add_0_r].
  unfold inc, wrapu64. by rewrite Zplus_mod_idemp_l.
Qed.

Lemma incLabel_count l o x : labelCount x (incLabel o l) = if decide (o = x) then inc (labelCount x l) else labelCount x l.
Proof.
  unfold labelCount, incLabel, labeledCounter in *. destruct (decide (o = x)) as [->|]; [by rewrite lookup_insert_eq|by rewrite lookup_insert_ne].
Qed.

(** Every plain counter with the event that moves it. *)
Definition plainCounters : list (counter_event * (Counters -> Z)) :=
  [(IncSuccess, Success); (IncFailure, Failure); (IncDropped, Dropped); (IncRetried, Retried);
   (IncAIOverviewPresent, AIOverviewPresent); (IncCalibrationFlagged, CalibrationFlagged);
   (IncProxyBanned, ProxyBanned); (IncRateDecrease, RateDecreases); (IncFailover, Failovers);
   (IncHTTPConsentHandled, HTTPConsentHandled); (IncRobotsDisallowed, RobotsDisallowed)].

Lemma count_plain c e ev get : (ev, get) ∈ plainCounters ->
  get (count e c) = if decide (e = ev) then inc (get c) else get c.
Proof.
  intros Hin. unfold plainCounters in Hin. rewrite !elem_of_cons in Hin.
  repeat destruct Hin as [[= -> ->]|Hin]; try (destruct c, e; reflexivity).
  by apply not_elem_of_nil in Hin.
Qed.

Lemma count_outcomes c e x : labelCount x (outcomes (count e c)) =
  if decide (e = IncOutcome x) then inc (labelCount x (outcomes c)) else labelCount x (outcomes c).
Proof.
  destruct c, e; try (by rewrite decide_False by done); cbn.
  rewrite incLabel_count. destruct (decide (outcome = x)) as [->|]; [by rewrite decide_True|].
  rewrite decide_False by congruence. done.
Qed.

Lemma count_cooldowns c e x : labelCount x (cooldowns (count e c)) =
  if decide (e = IncProxyCooldown x) then inc (labelCount x (cooldowns c)) else labelCount x (cooldowns c).
Proof.
  destruct c, e; try (by rewrite decide_False by done); cbn.
  rewrite incLabel_count. destruct (decide (reason = x)) as [->|]; [by rewrite decide_True|].
  rewrite decide_False by congruence. done.
Qed.

(** Counters count exactly: after any interleaving of increments each
    counter, and each label of the two labelled counters, holds the number of
    times its own event happened, modulo 2^64. *)
Theorem counters_exact evs :
  (forall ev get, (ev, get) ∈ plainCounters -> get (counted evs) = wrapu64 (occurrences ev evs)) /\
  (forall x, labelCount x (outcomes (counted evs)) = wrapu64 (occurrences (IncOutcome x) evs)) /\
  (forall x, labelCount x (cooldowns (counted evs)) = wrapu64 (occurrences (IncProxyCooldown x) evs)).
Proof.
  induction evs as [|e evs (IH1 & IH2 & IH3)] using rev_ind.
  - split; [|split].
    + intros ev get Hin. unfold plainCounters in Hin. rewrite !elem_of_cons in Hin.
      repeat destruct Hin as [[= -> ->]|Hin]; try reflexivity. by apply not_elem_of_nil in Hin.
    + intros x. by vm_compute.
    + intros x. by vm_compute.
  - unfold counted, runs in *. rewrite fold_left_app. simpl. split; [|split].
    + intros ev get Hin. rewrite (count_plain _ e ev get) by done. apply inc_occ. by apply IH1.
    + intros x. rewrite count_outcomes. apply inc_occ, IH2.
    + intros x. rewrite count_cooldowns. apply inc_occ, IH3.
Qed.

(** ** The latency ring buffer *)

Definition recorded (cap : Z) (ds : list duration) : LatencyRecorder :=
  runs Record_ ds (NewLatencyRecorder cap).

(** The samples in the order they were recorded. *)
Definition chronological (r : LatencyRecorder) : list duration :=
  (drop (idx r) (samples r) ++ take (idx r) (samples r))%list.

Record ring_ok (cap : nat) (ds : list duration) (r : LatencyRecorder) : Prop := {
  ring_cap : capacity r = cap;
  ring_len : length (samples r) = (length ds `min` cap)%nat;
  ring_idx : (idx r < cap)%nat;
  ring_part : (length ds < cap)%nat -> idx r = 0%nat;
  ring_chron : chronological r = drop (length ds - cap) ds;
  ring_total : total r = wrapu64 (Z.of_nat (length ds)) }.

Lemma take_S_insert {A} (l : list A) i x : (i < length l)%nat ->
  take (S i) (<[i:=x]> l) = (take i l ++ [x])%list.
Proof.
  intros Hi. rewrite (take_S_r _ _ x) by (by apply list_lookup_insert_eq).
  by rewrite take_insert_ge by lia.
Qed.

Lemma ring_step cap ds r d : (0 < cap)%nat -> ring_ok cap ds r -> ring_ok cap (ds ++ [d])%list (Record_ d r).
Proof.
  intros Hcap [Hc Hlen Hidx Hpart Hch Htot]. unfold Record_.
  assert (Ht : inc (total r) = wrapu64 (Z.of_nat (length (ds ++ [d])%list))).
  { rewrite Htot, length_app. unfold inc, wrapu64. rewrite Zplus_mod_idemp_l. f_equal. simpl. lia. }
  rewrite Hc. destruct (Nat.ltb_spec (length (samples r)) cap) as [Hlt|Hge].
  - assert (Hi : idx r = 0%nat) by (apply Hpart; lia). unfold chronological in Hch. rewrite Hi in Hch.
    rewrite drop_0, take_0, app_nil_r in Hch.
    split; simpl; rewrite ?length_app; simpl; try (done || lia); [|].
    + unfold chronological. simpl. rewrite Hi, drop_0, take_0, app_nil_r, Hch.
      replace (length ds - cap)%nat with 0%nat by lia. replace (length ds + 1 - cap)%nat with 0%nat by lia. done.
    + by rewrite Ht, length_app.
  - assert (Hn : (cap <= length ds)%nat) by lia. replace (length ds `min` cap)%nat with cap in Hlen by lia.
    assert (Hnew : chronological (mkRecorder (<[idx r := d]> (samples r)) ((idx r + 1) mod cap) (capacity r) (inc (total r)))
              = (drop (S (idx r)) (samples r) ++ take (idx r) (samples r) ++ [d])%list).
    { unfold chronological. cbn [idx samples]. destruct (decide (idx r + 1 = cap)%nat) as [Heq|Hne].
      - rewrite Heq, Nat.Div0.mod_same, drop_0, take_0, app_nil_r.
        rewrite (drop_ge (samples r)) by lia. simpl.
        rewrite <- take_S_insert by lia. rewrite take_ge; [done|]. rewrite length_insert. lia.
      - rewrite Nat.mod_small by lia. rewrite Nat.add_1_r.
        rewrite drop_insert_lt by lia. by rewrite take_S_insert by lia. }
    split; cbn [capacity samples idx total]; rewrite ?length_insert, ?length_app; cbn [length].
    + done.
    + lia.
    + apply Nat.mod_upper_bound. lia.
    + lia.
    + rewrite Hc in Hnew. rewrite Hnew. unfold chronological in Hch.
      destruct (lookup_lt_is_Some_2 (samples r) (idx r) ltac:(lia)) as [x Hx].
      rewrite (drop_S _ x) in Hch by done. simpl in Hch.
      rewrite app_assoc. replace (length ds + 1 - cap)%nat with (S (length ds - cap)) by lia.
      rewrite drop_app_le by lia. f_equal.
      apply (f_equal (drop 1)) in Hch. simpl in Hch. rewrite drop_0 in Hch. rewrite Hch, drop_drop. f_equal. lia.
    + by rewrite Ht, length_app.
Qed.

Lemma recorded_ok cap ds : 0 < cap -> ring_ok (Z.to_nat cap) ds (recorded cap ds).
Proof.
  intros Hcap. induction ds as [|d ds IH] using rev_ind.
  - unfold recorded, runs, NewLatencyRecorder. simpl. destruct (Z.leb_spec cap 0); [lia|].
    split; simpl; try done; lia.
  - unfold recorded, runs in *. rewrite fold_left_app. simpl. apply ring_step; [lia|done].
Qed.

(** The recorder keeps a sliding window: after any number of observations
    it holds exactly the most recent [capacity] of them (all, while fewer),
    in recording order from its write index, and has counted every one. *)
Theorem latency_window cap ds : 0 < cap ->
  chronological (recorded cap ds) = drop (length ds - Z.to_nat cap) ds /\
  samples (recorded cap ds) ≡ₚ drop (length ds - Z.to_nat cap) ds /\
  total (recorded cap ds) = wrapu64 (Z.of_nat (length ds)).
Proof.
  intros Hcap. destruct (recorded_ok cap ds Hcap) as [_ _ _ _ Hch Ht].
  split; [done|]. split; [|done]. rewrite <- Hch. unfold chronological.
  rewrite Permutation_app_comm, take_drop. done.
Qed.

Lemma latency_window_witness :
  samples (recorded 2 [10; 20; 30]) ≡ₚ [20; 30] /\ total (recorded 2 [10; 20; 30]) = 3.
Proof. apply (latency_window 2 [10; 20; 30]). lia. Defined.

(** ** Percentiles *)

Definition duration_le_sorted (l : list Z) : Prop := StronglySorted (fun x y => (y <? x) = false) l.

Lemma sort_durations l : duration_le_sorted (sortBy Z.ltb l).
Proof. apply sortBy_sorted; intros; lia. Qed.

Lemma sorted_lookup_le l i j x y : duration_le_sorted l -> l !! i = Some x -> l !! j = Some y -> (i <= j)%nat -> x <= y.
Proof.
  intros Hs. revert i j. induction Hs as [|a l Hl IH HF]; intros i j Hi Hj Hle; [done|].
  destruct i as [|i], j as [|j]; simpl in *; simplify_eq; [lia| |lia|].
  - rewrite Forall_forall in HF. specialize (HF y (list_elem_of_lookup_2 _ _ _ Hj)). lia.
  - apply (IH i j); [done|done|lia].
Qed.

Lemma f64_mul_comm x y : f64_mul x y = f64_mul y x.
Proof.
  unfold f64_mul, SFmul. destruct x as [sx|sx| |sx mx ex], y as [sy|sy| |sy my ey]; try done;
    rewrite (xorb_comm sx sy); try done. by rewrite Pos.mul_comm, Z.add_comm.
Qed.

(** The index [pick] uses. *)
Definition pickIndex (p : f64) (n : Z) : Z :=
  let i := f64_trunc (f64_mul p (f64_of_Z n)) in if n <=? i then n - 1 else i.

Lemma pickIndex_range p n : nonneg p -> f64_leb p f64_one = true -> 0 < n <= 2 ^ 63 -> 0 <= pickIndex p n < n.
Proof.
  intros Hp Hle Hn. unfold pickIndex. pose proof (f64_of_Z_nonneg n ltac:(lia)) as Hnn.
  destruct (f64_mul_le_l (f64_of_Z n) p Hnn Hp Hle) as [Hm _]. rewrite f64_mul_comm in Hm.
  pose proof (f64_trunc_mono _ _ Hm Hm (f64_leb_refl _ (nonneg_not_nan _ Hm))).
  destruct (Z.leb_spec n (f64_trunc (f64_mul p (f64_of_Z n)))); lia.
Qed.

Lemma pickIndex_mono p q n : nonneg p -> nonneg q -> f64_leb p q = true -> f64_leb q f64_one = true ->
  0 < n <= 2 ^ 63 -> pickIndex p n <= pickIndex q n.
Proof.
  intros Hp Hq Hpq Hq1 Hn. unfold pickIndex. pose proof (f64_of_Z_nonneg n ltac:(lia)) as Hnn.
  assert (Hp1 : f64_leb p f64_one = true) by (by eapply f64_leb_trans).
  destruct (f64_mul_le_l (f64_of_Z n) p Hnn Hp Hp1) as [Hm1 _].
  destruct (f64_mul_le_l (f64_of_Z n) q Hnn Hq Hq1) as [Hm2 _].
  pose proof (f64_mul_mono_r (f64_of_Z n) p q Hnn Hp Hq Hpq) as Hm.
  pose proof (f64_trunc_mono _ _ Hm1 Hm2 Hm) as Ht.
  rewrite (f64_mul_comm p), (f64_mul_comm q).
  destruct (Z.leb_spec n (f64_trunc (f64_mul (f64_of_Z n) p)));
    destruct (Z.leb_spec n (f64_trunc (f64_mul (f64_of_Z n) q))); lia.
Qed.

Lemma pick_spec p sorted : nonneg p -> f64_leb p f64_one = true -> sorted <> [] ->
  Z.of_nat (length sorted) <= 2 ^ 63 ->
  exists x, pick p sorted = Some x /\ sorted !! Z.to_nat (pickIndex p (Z.of_nat (length sorted))) = Some x.
Proof.
  intros Hp Hle Hne Hlen. assert (0 < Z.of_nat (length sorted)) by (destruct sorted; [done|simpl; lia]).
  pose proof (pickIndex_range p (Z.of_nat (length sorted)) Hp Hle ltac:(lia)) as Hr.
  destruct (lookup_lt_is_Some_2 sorted (Z.to_nat (pickIndex p (Z.of_nat (length sorted))))) as [x Hx]; [lia|].
  exists x. split; [|done]. unfold pick. fold (pickIndex p (Z.of_nat (length sorted))).
  destruct (Z.ltb_spec (pickIndex p (Z.of_nat (length sorted))) 0); [lia|done].
Qed.

Lemma f64_percentiles_ok :
  let p50 := f64_const 50 100 in let p95 := f64_const 95 100 in let p99 := f64_const 99 100 in
  nonneg p50 /\ nonneg p95 /\ nonneg p99 /\ f64_leb p50 p95 = true /\ f64_leb p95 p99 = true /\
  f64_leb p50 f64_one = true /\ f64_leb p95 f64_one = true /\ f64_leb p99 f64_one = true.
Proof. by vm_compute. Qed.

Lemma Stats_spec r : Z.of_nat (length (samples r)) <= 2 ^ 63 ->
  exists st, Stats r = Some st /\ Count st = Z.of_nat (length (samples r)) /\ TotalRecorded st = total r /\
  (samples r <> [] ->
     Min st <= P50 st <= P95 st /\ P95 st <= P99 st <= Max st /\
     Forall (fun d => d ∈ samples r) [Min st; P50 st; P95 st; P99 st; Max st] /\
     forall d, d ∈ samples r -> Min st <= d <= Max st).
Proof.
  intros Hlen. destruct (decide (samples r = [])) as [Hz|Hz].
  { unfold Stats. rewrite Hz. eexists. split; [done|]. split; [done|]. split; [done|]. done. }
  pose proof (sort_durations (samples r)) as Hs. pose proof (sortBy_perm Z.ltb (samples r)) as Hp.
  assert (Hst : Stats r = let sorted := sortBy Z.ltb (samples r) in
      mn ← sorted !! 0%nat; p50 ← pick (f64_const 50 100) sorted;
      p95 ← pick (f64_const 95 100) sorted; p99 ← pick (f64_const 99 100) sorted;
      mx ← sorted !! (length sorted - 1)%nat;
      Some (mkLatency (Z.of_nat (length sorted)) (total r) mn p50 p95 p99 mx))
    by (unfold Stats; by destruct (samples r)).
  rewrite Hst. clear Hst. cbv zeta. set (sorted := sortBy Z.ltb (samples r)) in *.
  assert (Hl : length sorted = length (samples r)) by (by rewrite Hp).
  assert (Hne : sorted <> []) by (intros H; rewrite H in Hl; destruct (samples r); done).
  destruct f64_percentiles_ok as (N1 & N2 & N3 & L1 & L2 & O1 & O2 & O3).
  set (n := Z.of_nat (length sorted)) in *.
  assert (Hn : 0 < n <= 2 ^ 63) by (unfold n; destruct sorted as [|? ?] eqn:Hsd; [done|cbn [length] in *; lia]).
  assert (Hpos : (0 < length sorted)%nat) by (unfold n in Hn; lia).
  destruct (lookup_lt_total sorted 0) as [mn Hmn]; [done|].
  destruct (lookup_lt_total sorted (length sorted - 1)) as [mx Hmx]; [lia|].
  destruct (pick_spec _ sorted N1 O1 Hne ltac:(lia)) as (p50 & H50 & I50).
  destruct (pick_spec _ sorted N2 O2 Hne ltac:(lia)) as (p95 & H95 & I95).
  destruct (pick_spec _ sorted N3 O3 Hne ltac:(lia)) as (p99 & H99 & I99).
  rewrite Hmn, H50, H95, H99, Hmx. cbn [mbind option_bind].
  eexists. split; [done|]. cbn [Count TotalRecorded Min P50 P95 P99 Max].
  split; [unfold n; lia|]. split; [done|]. intros _.
  pose proof (pickIndex_range _ n N1 O1 Hn). pose proof (pickIndex_range _ n N3 O3 Hn).
  pose proof (pickIndex_mono _ _ n N1 N2 L1 O2 Hn). pose proof (pickIndex_mono _ _ n N2 N3 L2 O3 Hn).
  pose proof (fun i j x y => sorted_lookup_le sorted i j x y Hs) as Hord.
  assert (Hin : forall i x, sorted !! i = Some x -> x ∈ samples r).
  { intros i x Hx. rewrite <- Hp. by eapply list_elem_of_lookup_2. }
  unfold n in *.
  split; [split|split; [split|split]].
  - apply (Hord _ _ _ _ Hmn I50). lia.
  - apply (Hord _ _ _ _ I50 I95). lia.
  - apply (Hord _ _ _ _ I95 I99). lia.
  - apply (Hord _ _ _ _ I99 Hmx). lia.
  - repeat (apply Forall_cons; split; [by eapply Hin|]). by apply Forall_nil.
  - intros d Hd. rewrite <- Hp in Hd. apply list_elem_of_lookup_1 in Hd as [i Hi].
    pose proof (lookup_lt_Some _ _ _ Hi).
    split; [apply (Hord _ _ _ _ Hmn Hi); lia|apply (Hord _ _ _ _ Hi Hmx); lia].
Qed.

(** [Stats] never indexes out of range and its percentiles are ordered: for
    a non-empty reservoir, Min <= P50 <= P95 <= P99 <= Max, each of them is an
    observation held, and Min and Max bound every one of them. *)
Theorem latency_percentiles r : Z.of_nat (length (samples r)) <= 2 ^ 63 ->
  exists st, Stats r = Some st /\ Count st = Z.of_nat (length (samples r)) /\ TotalRecorded st = total r /\
  (samples r <> [] ->
     Min st <= P50 st <= P95 st /\ P95 st <= P99 st <= Max st /\
     Forall (fun d => d ∈ samples r) [Min st; P50 st; P95 st; P99 st; Max st] /\
     forall d, d ∈ samples r -> Min st <= d <= Max st).
Proof. apply Stats_spec. Qed.

Lemma latency_percentiles_witness :
  exists st, Stats (recorded 3 [30; 10; 20; 40]) = Some st /\ Count st = 3.
Proof.
  destruct (latency_percentiles (recorded 3 [30; 10; 20; 40])) as (st & H1 & H2 & _); [by vm_compute|].
  exists st. split; [exact H1|]. rewrite H2. reflexivity.
Defined.

(** ** Scrapes *)

(** A series is a metric name with its label values. *)
Definition seriesKey (m : Metric) : string * list string := (fqName (mDesc m), mLabels m).

(** Series without labels, and those of a labelled family. *)
Definition plainKeys (ds : list Desc) : list (string * list string) := map (fun d => (fqName d, [])) ds.
Definition familyKeys (d : Desc) (ls : list string) : list (string * list string) := map (fun l => (fqName d, [l])) ls.

Lemma snapshotLabels_perm l : snapshotLabels l ≡ₚ map (fun kv => mkLabeled kv.1 kv.2) (map_to_list l).
Proof. apply sortBy_perm. Qed.

Lemma snapshotLabels_NoDup l : NoDup (map Label (snapshotLabels l)).
Proof.
  rewrite snapshotLabels_perm, map_map.
  change (map (fun kv : string * Z => Label (mkLabeled kv.1 kv.2))) with (map (@fst string Z)).
  apply NoDup_fst_map_to_list.
Qed.

Lemma labeled_keys d vs : map seriesKey (map (labeledM d) vs) = familyKeys d (map Label vs).
Proof. unfold familyKeys. by rewrite !map_map. Qed.

Lemma family_NoDup d ls : NoDup ls -> NoDup (familyKeys d ls).
Proof. intros Hl. apply NoDup_fmap_2; [|done]. by intros ?? [= ->]. Qed.

Lemma family_name d ls x : x ∈ familyKeys d ls -> x.1 = fqName d.
Proof. intros Hx. apply list_elem_of_fmap in Hx as (y & -> & _). done. Qed.

(** Two labelled families between blocks of other series. *)
Lemma NoDup_families (A C : list (string * list string)) d1 d2 L1 L2 :
  NoDup (A ++ C)%list -> fqName d1 <> fqName d2 -> (forall n, n = fqName d1 \/ n = fqName d2 -> n ∉ map fst (A ++ C)%list) ->
  NoDup L1 -> NoDup L2 -> NoDup (A ++ familyKeys d1 L1 ++ familyKeys d2 L2 ++ C)%list.
Proof.
  intros HAC Hne Hfresh H1 H2.
  assert (Hp : (A ++ familyKeys d1 L1 ++ familyKeys d2 L2 ++ C)%list ≡ₚ ((A ++ C) ++ familyKeys d1 L1 ++ familyKeys d2 L2)%list).
  { rewrite <- (app_assoc A C). f_equiv. rewrite (app_assoc (familyKeys d1 L1) (familyKeys d2 L2) C). apply Permutation_app_comm. }
  rewrite Hp. apply NoDup_app. split_and!; [done| |apply NoDup_app; split_and!; [by apply family_NoDup| |by apply family_NoDup]].
  - intros x Hx Hin. apply elem_of_app in Hin.
    assert (Hn : x.1 = fqName d1 \/ x.1 = fqName d2) by (destruct Hin as [Hin|Hin]; apply family_name in Hin; auto).
    apply (Hfresh _ Hn). apply list_elem_of_fmap. eauto.
  - intros x Hx Hin. apply family_name in Hx, Hin. congruence.
Qed.

Section Scrape.
Context (c : Counters) (g : option ProxyGauges) (l : option LatencyRecorder).
Context (Hl : match l with Some r => Z.of_nat (length (samples r)) <= 2 ^ 63 | None => True end).

Definition scraped : PrometheusCollector := NewPrometheusCollector c g l.

Definition plainDescs : list Desc :=
  [d_success scraped; d_failure scraped; d_dropped scraped; d_retried scraped; d_aiOverviewPresent scraped;
   d_calibrationFlagged scraped; d_proxyBanned scraped].

Definition laterDescs : list Desc :=
  [d_rateDecreases scraped; d_failovers scraped; d_httpConsent scraped; d_robotsDisallowed scraped].

(** What a metric is about, values aside. *)
Definition shape (m : Metric) : Desc * list string := (mDesc m, mLabels m).

(** The metrics before and after the labelled families. *)
Definition before_families : list (Desc * list string) :=
  map (fun d => (d, [])) (plainDescs ++ match l with Some _ => describeLatency scraped | None => [] end).
Definition after_families : list (Desc * list string) :=
  (map (fun d => (d, [])) (laterDescs ++ match g with Some _ => describeProxies scraped | None => [] end) ++
   match Browser c with Some b => map shape (collectBrowser scraped b) | None => [] end)%list.
Definition family (d : Desc) (l : labeledCounter) : list (Desc * list string) :=
  map (fun x => (d, [x])) (map Label (snapshotLabels l)).

Lemma Collect_shape : exists ms, Collect scraped = Some ms /\ map shape ms =
    (before_families ++ family (d_fetchOutcomes scraped) (outcomes c) ++ family (d_proxyCooldowns scraped) (cooldowns c) ++
     after_families)%list.
Proof.
  unfold Collect. change (pcLatencies scraped) with l. change (pcCounters scraped) with c. change (pcGauges scraped) with g.
  assert (Hlat : exists lat, match l with Some r => collectLatency scraped r | None => Some [] end = Some lat /\
            map shape lat = map (fun d => (d, [])) (match l with Some _ => describeLatency scraped | None => [] end)).
  { destruct l as [r|]; [|by exists []]. destruct (Stats_spec r Hl) as (st & Hst & _).
    unfold collectLatency. rewrite Hst. eexists. by split. }
  destruct Hlat as (lat & -> & Hlat). cbn [mbind option_bind]. eexists. split; [done|].
  unfold before_families, after_families, family. rewrite !map_app, Hlat, <- !app_assoc, !map_map. do 5 f_equal.
  by destruct g, (Browser c).
Qed.

Definition keyOf (x : Desc * list string) : string * list string := (fqName x.1, x.2).

(** A shape that was announced, with a value for each label. *)
Definition announced (x : Desc * list string) : Prop :=
  x.1 ∈ Describe scraped /\ length x.2 = length (variableLabels x.1).

#[local] Instance announced_dec x : Decision (announced x).
Proof. unfold announced. apply _. Defined.

Lemma shapes_announced : Forall announced (before_families ++ after_families).
Proof.
  unfold before_families, after_families, announced, Describe, scraped.
  destruct l, g, c as [? ? ? ? ? ? ? ? ? ? ? ? ? [b|]]; apply (bool_decide_unpack _); by vm_compute.
Qed.

Lemma families_announced : forall x, x ∈ (family (d_fetchOutcomes scraped) (outcomes c) ++ family (d_proxyCooldowns scraped) (cooldowns c))%list ->
  announced x.
Proof.
  intros x Hx. assert (Hd : x.1 ∈ [d_fetchOutcomes scraped; d_proxyCooldowns scraped] /\ length x.2 = 1%nat).
  { apply elem_of_app in Hx as [Hx|Hx]; apply list_elem_of_fmap in Hx as (y & -> & _); cbn [fst snd length];
      rewrite !elem_of_cons; auto. }
  destruct Hd as [Hd Hlen]. split.
  - unfold Describe. rewrite !elem_of_app. right. right. left.
    rewrite !elem_of_cons in Hd |- *. destruct Hd as [|[|?%not_elem_of_nil]]; [auto..|done].
  - rewrite Hlen. rewrite !elem_of_cons in Hd. destruct Hd as [-> |[-> |?%not_elem_of_nil]]; done.
Qed.

Lemma families_keys d lc : map keyOf (family d lc) = familyKeys d (map Label (snapshotLabels lc)).
Proof. unfold family, familyKeys. by rewrite !map_map. Qed.

(** C37. A scrape is never rejected by Prometheus: [Collect] always produces a
    report; no series (metric name and label values) appears twice; every
    metric was announced by [Describe] and has one value per label of its
    description; no two descriptions share a name; and every description
    without labels is reported. *)
Theorem scrape_wellformed : exists ms, Collect scraped = Some ms /\ NoDup (map seriesKey ms) /\
  (forall m, m ∈ ms -> mDesc m ∈ Describe scraped /\ length (mLabels m) = length (variableLabels (mDesc m))) /\
  NoDup (map fqName (Describe scraped)) /\
  (forall d, d ∈ Describe scraped -> variableLabels d = [] -> exists m, m ∈ ms /\ mDesc m = d).
Proof.
  destruct Collect_shape as (ms & Hms & Hsh). exists ms. split; [done|].
  assert (Hkeys : map seriesKey ms = map keyOf (map shape ms)) by (by rewrite map_map).
  split; [|split_and!].
  - rewrite Hkeys, Hsh, !map_app, !families_keys. apply NoDup_families; try apply snapshotLabels_NoDup; [|done|].
    + unfold before_families, after_families, scraped. rewrite <- map_app.
      destruct l, g, c as [? ? ? ? ? ? ? ? ? ? ? ? ? [b|]]; apply (bool_decide_unpack _); by vm_compute.
    + intros n Hn. rewrite <- map_app. unfold before_families, after_families, scraped.
      destruct Hn as [-> | ->], l, g, c as [? ? ? ? ? ? ? ? ? ? ? ? ? [b|]]; apply (bool_decide_unpack _); by vm_compute.
  - intros m Hm. assert (Hx : shape m ∈ map shape ms) by (apply list_elem_of_fmap; by exists m).
    rewrite Hsh in Hx. change (announced (shape m)). pose proof shapes_announced as Ha. rewrite Forall_forall in Ha.
    apply elem_of_app in Hx as [Hx|Hx]; [apply Ha, elem_of_app; by left|].
    rewrite app_assoc in Hx. apply elem_of_app in Hx as [Hx|Hx]; [by apply families_announced|apply Ha, elem_of_app; by right].
  - unfold Describe, scraped. destruct l, g, c as [? ? ? ? ? ? ? ? ? ? ? ? ? [b|]]; apply (bool_decide_unpack _); by vm_compute.
  - assert (Hall : Forall (fun d => variableLabels d = [] -> d ∈ map fst (before_families ++ after_families)) (Describe scraped)).
    { unfold Describe, before_families, after_families, scraped.
      destruct l, g, c as [? ? ? ? ? ? ? ? ? ? ? ? ? [b|]]; apply (bool_decide_unpack _); by vm_compute. }
    rewrite Forall_forall in Hall. intros d Hd Hv. specialize (Hall d Hd Hv). rename Hall into Hin.
    apply list_elem_of_fmap in Hin as (x & -> & Hx).
    assert (Hs : x ∈ map shape ms) by (rewrite Hsh, !elem_of_app; apply elem_of_app in Hx; tauto).
    apply list_elem_of_fmap in Hs as (m & -> & Hm). by exists m.
Qed.

End Scrape.

Lemma scrape_wellformed_witness :
  exists ms, Collect (NewPrometheusCollector (counted [IncSuccess; IncOutcome "success"; IncOutcome "captcha"]) None
    (Some (recorded 3 [10; 20]))) = Some ms /\ NoDup (map seriesKey ms).
Proof.
  destruct (scrape_wellformed (counted [IncSuccess; IncOutcome "success"; IncOutcome "captcha"]) None
    (Some (recorded 3 [10; 20]))) as (ms & H1 & H2 & _); [by vm_compute|].
  exists ms. split; [exact H1|exact H2].
Defined.
