(* ===== verification/Reporter.v ===== *)
(** * The metrics reporter and server ([metrics.go], [prometheus.go])

    The progress lines on stderr, the loop that prints them, and the HTTP server
    around the collector.  Formatting and the HTTP server itself are library
    code: a line is the values it prints. *)

From Stdlib Require Import Ascii.
From S2P Require Import Prelude Float64 GoString Errors Metrics.

Open Scope string_scope.
Open Scope Z_scope.

(** ** Durations *)

(** [d.Seconds()] *)
Definition Seconds (d : duration) : f64 :=
  f64_add (f64_of_Z (Z.quot d Second)) (f64_div (f64_of_Z (Z.rem d Second)) (f64_of_Z 1000000000)).

(** [d.Round(m)]: to the nearest multiple of [m], halves away from zero,
    saturating. *)
Definition Round (d m : duration) : duration :=
  if m <=? 0 then d
  else
    let r := Z.rem d m in
    if d <? 0 then
      if 2 * - r <? m then d - r
      else if int64_min <=? d - m - r then d - m - r else int64_min
    else
      if 2 * r <? m then d - r
      else if d + m - r <=? int64_max then d + m - r else int64_max.

(** A rate per second and what it makes of a day. *)
Definition perSecond (n : Z) (elapsed : duration) : f64 := f64_div (f64_of_Z n) (Seconds elapsed).
Definition perDay (rps : f64) : f64 := f64_mul rps (f64_of_Z 86400).

(** ** [report] *)

Record Report := mkReport {
  rpElapsed : duration; rpSnapshot : Snapshot; rpCompleted : Z; rpRPS : f64; rpDaily : f64;
  rpProxies : option (ProxyGauges * Z);       (* the second line: the gauges and the failovers *)
  rpBrowser : option BrowserCounters }.       (* the third line *)

Definition report (elapsed : duration) (c : Counters) (gauges : option ProxyGauges) : Report :=
  let s := snapshot c in
  let rps := if f64_ltb f64_zero (Seconds elapsed) then perSecond (snSuccess s) elapsed else f64_zero in
  mkReport (Round elapsed Second) s (wrapu64 (snSuccess s + snDropped s)) rps (perDay rps)
    (option_map (fun g => (g, Failovers c)) gauges) (Browser c).

(** ** [StartReporter] *)

(** What wakes the loop, with the time since its start, the counters and the
    gauges it then reads. *)
Inductive wake := Tick | CtxDone.

Record Woken := mkWoken { wkWhy : wake; wkElapsed : duration; wkCounters : Counters; wkGauges : option ProxyGauges }.

(** The lines printed; [done] is closed once the context ended. *)
Fixpoint reporter (ws : list Woken) : list Report * bool :=
  match ws with
  | [] => ([], false)
  | w :: rest =>
      let line := report (wkElapsed w) (wkCounters w) (wkGauges w) in
      match wkWhy w with
      | CtxDone => ([line], true)
      | Tick => let '(lines, done) := reporter rest in (line :: lines, done)
      end
  end.

(** ** [ServeHTTP] and [StartServer] *)

Inductive Endpoint := Scrape (p : PrometheusCollector) | HealthOK.

(** The routes on a fresh registry. *)
Definition ServeHTTP (c : Counters) (gauges : option ProxyGauges) (l : option LatencyRecorder) : list (string * Endpoint) :=
  [("/metrics", Scrape (NewPrometheusCollector c gauges l)); ("/healthz", HealthOK)].

(** What [ListenAndServe] answers. *)
Inductive ServeResult := ServerClosed | ServeErr (e : goerr) | ServeNil.

(** What [StartServer]'s [select] sees first: the server stopping, or the end of
    the context and then the answer of [Shutdown]. *)
Inductive ServerEnd := Stopped (r : ServeResult) | ShutDown (err : option goerr).

Definition StartServer (addr : string) (fin : ServerEnd) : option goerr :=
  match fin with
  | Stopped (ServeErr e) => Some (EWrapf ("metrics: serve " ++ addr) e)
  | Stopped ServerClosed | Stopped ServeNil => None
  | ShutDown err => err
  end.

(** * Properties *)

Lemma Round_multiple d m : 0 < m -> in_int64 d -> int64_min <= d - m -> d + m <= int64_max ->
  exists k, Round d m = k * m /\ 2 * Z.abs (Round d m - d) <= m.
Proof.
  intros Hm Hd Hlo Hhi. unfold Round. rewrite (proj2 (Z.leb_gt m 0)) by lia.
  pose proof (Z.quot_rem' d m) as Hq. destruct (Z.ltb_spec d 0) as [Hneg|Hpos].
  - assert (Hr : - m < Z.rem d m <= 0) by (apply Z.rem_bound_pos_neg; lia).
    destruct (Z.ltb_spec (2 * - Z.rem d m) m).
    + exists (Z.quot d m). lia.
    + rewrite (proj2 (Z.leb_le _ _)) by lia. exists (Z.quot d m - 1). lia.
  - assert (Hr : 0 <= Z.rem d m < m) by (apply Z.rem_bound_pos; lia).
    destruct (Z.ltb_spec (2 * Z.rem d m) m).
    + exists (Z.quot d m). lia.
    + rewrite (proj2 (Z.leb_le _ _)) by lia. exists (Z.quot d m + 1). lia.
Qed.

(** The reporter prints one line per tick and a last one when the context ends,
    of what the counters hold then; it stops there. *)
Lemma reporter_flushes ticks w rest : Forall (fun x => wkWhy x = Tick) ticks -> wkWhy w = CtxDone ->
  reporter (ticks ++ w :: rest)%list =
    (map (fun x => report (wkElapsed x) (wkCounters x) (wkGauges x)) (ticks ++ [w])%list, true).
Proof.
  intros Ht Hw. induction Ht as [|x ticks Hx _ IH]; cbn [app reporter map]; [by rewrite Hw|]. by rewrite Hx, IH.
Qed.
