(* ===== verification/Model.v ===== *)
(** * Jobs and results ([internal/model], [internal/queue/queue.go])

    The data that flows through the pipeline.  A nil slice is the empty list
    and a nil pointer [None]; [RawBody] is the empty string when unset. *)

From S2P Require Import Prelude.

(** ** [model.go] *)

Record OrganicResult := mkOrganic { oPosition : Z; oTitle : string; oURL : string; oSnippet : string }.

Record FeaturedSnippet := mkFeatured { fTitle : string; fURL : string; fText : string }.

Record AIOverview := mkAIOverview { aiText : string; aiSources : list string }.

Record CalibrationNote := mkCalibration { MissingBlocks : list string; RawHTMLPath : string }.

Record SerpResult := mkSerp {
  sQuery : string;
  sRunID : string;
  sLocale : string;
  sDevice : string;
  sFetchedAt : time;
  sLatencyMS : Z;
  sProxyUsed : string;
  sAIOverview : option AIOverview;
  sFeaturedSnippet : option FeaturedSnippet;
  sPeopleAlsoAsk : list string;
  sOrganic : list OrganicResult;
  sCalibration : option CalibrationNote;
  sRawBody : string }.

(** ** [page.go] *)

Record Heading := mkHeading { hLevel : Z; hText : string }.

Record ExtractionNote := mkExtraction { Missing : list string }.

(** The values an extraction rule yields: one string or a list of strings. *)
Inductive any := AString (s : string) | AStrings (l : list string).

Record Page := mkPage {
  pTarget : string; pRunID : string; pURL : string; pFinalURL : string; pDepth : Z;
  pStatusCode : Z; pContentType : string; pFetchedAt : time; pLatencyMS : Z; pProxyUsed : string;
  pTitle : string; pDescription : string; pCanonical : string; pLanguage : string;
  pHeadings : list Heading;
  pOpenGraph : gmap string string;
  pJSONLD : list string;
  pText : string;
  pLinks : list string;
  pFields : gmap string any;
  pItems : list (gmap string any);
  pExtraction : option ExtractionNote;
  pRawBody : string }.

(** [&model.Page{}] *)
Definition emptyPage : Page :=
  mkPage "" "" "" "" 0 0 "" zeroTime 0 "" "" "" "" "" [] ∅ [] "" [] ∅ [] None "".

(** ** [queue.Job] *)

Record Job := mkJob { jQuery : string; jRunID : string; jLocale : string; jDevice : string }.

#[export] Instance Job_eq_dec : EqDecision Job.
Proof. solve_decision. Defined.
