(* ===== verification/Worker.v ===== *)
(** * The worker pool ([internal/worker/pool.go])

    [Acquire] is the loop every job shares: pick a proxy, wait for the rate
    limiter, fetch, classify, feed the result back, retry.  It is modelled as
    one goroutine running against a [World]: the proxy pool, the limiter, the
    network, the clock and the counter increments this goroutine makes.  What
    other goroutines do to the shared pool and limiter happens at the blocking
    points, through [others]; a theorem that needs none of it says so with
    [quiet]. *)

From Stdlib Require Import Ascii.
From S2P Require Import Prelude Float64 GoString Errors Classify Metrics Model.
From S2P Require ProxyPool RateLimit.

Open Scope string_scope.
Open Scope Z_scope.

(** ** Pure decisions *)

Definition proxyOutcome (o : Outcome) : ProxyPool.Outcome :=
  match o with
  | OutcomeSuccess => ProxyPool.Success
  | OutcomeRateLimited => ProxyPool.RateLimited
  | OutcomeCaptcha | OutcomeInterstitial | OutcomeChallenge => ProxyPool.Blocked
  | OutcomeConsent | OutcomeClientError | OutcomeCanceled => ProxyPool.Neutral
  | _ => ProxyPool.Failure
  end.

Definition cooldownReason (o : Outcome) : string :=
  if decide (o = OutcomeRateLimited) then "rate_limited"
  else if Blocked o then "blocked"
  else "failures".

Definition localeCountry (locale : string) : string :=
  let '(country, _, ok) := CutByte "-" locale in if ok : bool then country else "".

Definition localeLanguage (locale : string) : string :=
  let '(_, lang, ok) := CutByte "-" locale in if ok : bool then lang else "".

(** [backoffDuration]: [None] is the panic of [rand.Int63n] on a bound that is
    not positive. *)
Definition backoffDuration (int63n : Z -> Z) (attempt : Z) : option duration :=
  let base := wrap64 (shl64 1 attempt * (50 * Millisecond)) in
  let base := if 2 * Second <? base then 2 * Second else base in
  let bound := Z.quot base 2 in
  if bound <=? 0 then None else Some (wrap64 (base + int63n bound)).

Definition userAgents : list string :=
  ["Mozilla/5.0 (Windows NT 10.0; Win64; x64) web-harvester/0.1";
   "Mozilla/5.0 (Macintosh; Intel Mac OS X 10_15_7) web-harvester/0.1";
   "Mozilla/5.0 (X11; Linux x86_64) web-harvester/0.1"].

(** [userAgent()], [pick] being the index drawn by [rand.Intn]. *)
Definition userAgent (configured : string) (pick : nat) : string :=
  if decide (configured = "") then nth pick userAgents "" else configured.

(** What [Acquire] answers; the last two are a panic and an exhausted fuel of
    the proxy wait. *)
Inductive AcquireResult (A : Type) :=
  | Acquired (a : A)
  | DroppedErr (attempts : Z) (canceled : bool) (err : option goerr)
  | AcquirePanic
  | AcquireFuel.
Arguments Acquired {A} a.
Arguments DroppedErr {A} attempts canceled err.
Arguments AcquirePanic {A}.
Arguments AcquireFuel {A}.

(** ** The world a job runs in *)

Section Worker.
Context {T : RateLimit.TokenBucket}.
Context {NS : Type}.

Record World := mkWorld {
  pool : ProxyPool.Pool;
  limiter : RateLimit.Limiter T;
  net : NS;
  now : time;
  latencies : option LatencyRecorder;
  evs : list counter_event }.

(** What the outside decides.  [skew i] is how far the [i]-th clock reading of
    one locked pool operation is past its start; [lag] how long a stretch of
    code that does not block takes; [oversleep] how late a timer fires; [timerFirst] which of a timer and a context that are both ready a
    [select] takes; [cancelAt] when the context ends, and [ctxError] how. *)
Record Env := mkEnv {
  Fetch : Fetcher NS;
  fetchTime : World -> duration;
  waitTime : World -> duration;
  limiterCtx : World -> RateLimit.ctx;
  limiterErr : World -> goerr;
  otherPool : World -> ProxyPool.Pool;
  otherLimiter : World -> RateLimit.Limiter T;
  otherLatencies : World -> option LatencyRecorder;
  uaPick : World -> nat;
  skew : World -> nat -> duration;
  lag : World -> duration;
  intn : World -> nat -> nat;
  rnd : World -> f64;
  int63n : World -> Z -> Z;
  oversleep : World -> duration;
  timerFirst : World -> bool;
  cancelAt : option time;
  ctxError : goerr }.

Context (E : Env).

Definition emit (es : list counter_event) (w : World) : World :=
  mkWorld (pool w) (limiter w) (net w) (now w) (latencies w) (evs w ++ es)%list.
Definition set_pool (pl : ProxyPool.Pool) (w : World) : World :=
  mkWorld pl (limiter w) (net w) (now w) (latencies w) (evs w).
Definition set_limiter (l : RateLimit.Limiter T) (w : World) : World :=
  mkWorld (pool w) l (net w) (now w) (latencies w) (evs w).
Definition set_net (n : NS) (w : World) : World :=
  mkWorld (pool w) (limiter w) n (now w) (latencies w) (evs w).
Definition recordLatency (d : duration) (w : World) : World :=
  mkWorld (pool w) (limiter w) (net w) (now w) (Record_ d <$> latencies w) (evs w).

(** A blocking point: time passes and the other goroutines run. *)
Definition others (d : duration) (w : World) : World :=
  let w1 := mkWorld (pool w) (limiter w) (net w) (now w + Z.max 0 d) (latencies w) (evs w) in
  mkWorld (otherPool E w1) (otherLimiter E w1) (net w1) (now w1) (otherLatencies E w1) (evs w1).

(** [ctx.Err()] *)
Definition ctxErr (w : World) : option goerr :=
  match cancelAt E with
  | Some t => if t <=? now w then Some (ctxError E) else None
  | None => None
  end.

Definition ctxDone (w : World) : bool := bool_decide (is_Some (ctxErr w)).

(** [sleepCtx]: true when the timer fired first. *)
Definition sleepCtx (d : duration) (w : World) : World * bool :=
  if d <=? 0 then (w, negb (ctxDone w))
  else
    let wake := now w + d + Z.max 0 (oversleep E w) in
    match cancelAt E with
    | None => (others (wake - now w) w, true)
    | Some t =>
        if t <? now w + d then (others (Z.max 0 (t - now w)) w, false)
        else if t <=? wake then (others (wake - now w) w, timerFirst E w)
        else (others (wake - now w) w, true)
    end.

(** *** Choosing a proxy *)

Inductive ProxyResult := GotProxy (p : nat) | ProxyErr (e : goerr) | ProxyPanic | ProxyFuel.

Definition ErrAllBanned : goerr := EText "proxy: all proxies are in cooldown".

(** The loop of [nextProxy]; [deadline] was computed before it. *)
Fixpoint nextProxy_loop (fuel : nat) (deadline : time) (w : World) : World * ProxyResult :=
  match fuel with
  | O => (w, ProxyFuel)
  | S fuel' =>
      let '(pl, r) := ProxyPool.Next (fun i => now w + skew E w i) (intn E w) (rnd E w) (pool w) in
      let w1 := set_pool pl w in
      match r with
      | ProxyPool.Got p => (w1, GotProxy p)
      | ProxyPool.IndexPanic => (w1, ProxyPanic)
      | ProxyPool.ErrAllBanned =>
          let w1 := others (lag E w) w1 in
          let at_ := ProxyPool.NextAvailableAt (now w1) (pool w1) in
          if IsZero at_ then nextProxy_loop fuel' deadline (others (lag E w1) w1)
          else if After at_ deadline then (w1, ProxyErr ErrAllBanned)
          else
            let '(w2, fired) := sleepCtx (at_ - now w1) w1 in
            if fired then nextProxy_loop fuel' deadline w2
            else (w2, match ctxErr w2 with Some e => ProxyErr e | None => ProxyErr (ctxError E) end)
      end
  end.

Definition nextProxy (fuel : nat) (maxProxyWait : duration) (w : World) : World * ProxyResult :=
  let maxWait := if maxProxyWait <=? 0 then 2 * Minute else maxProxyWait in
  nextProxy_loop fuel (now w + maxWait) w.

(** *** Feedback *)

Definition retryAfterOf (err : option goerr) : duration :=
  match err with
  | Some e => match As asRateLimit e with Some rl => rlRetryAfter rl | None => 0 end
  | None => 0
  end.

Definition recordOutcome (px : nat) (rateKey : string) (outcome : Outcome) (err : option goerr)
    (w : World) : World :=
  let '(pl, cooled) := ProxyPool.ReportOutcome px (proxyOutcome outcome) (retryAfterOf err) (now w) (pool w) in
  let w := set_pool pl w in
  let w := if cooled : bool then emit [IncProxyBanned; IncProxyCooldown (cooldownReason outcome)] w else w in
  if decide (outcome = OutcomeSuccess) then set_limiter (RateLimit.Reward rateKey (limiter w)) w
  else if bool_decide (outcome = OutcomeRateLimited) || Blocked outcome then
    let '(l, decreased) := RateLimit.Penalize rateKey (limiter w) in
    let w := set_limiter l w in
    if decreased : bool then emit [IncRateDecrease] w else w
  else w.

(** *** Acquire *)

Section Acquire.
Context {A : Type}.
Context (fuel : nat) (maxProxyWait : duration).
Context (build : ProxyPool.Proxy -> World -> Request).
Context (rateKey : option (ProxyPool.Proxy -> Request -> string)).
Context (use : Response -> ProxyPool.Proxy -> World -> goerr + A).

(** One iteration that reached a proxy: fetch through it and feed the result
    back. *)
Inductive AttemptResult :=
  | AttemptDone (a : A)
  | AttemptCanceled (fetched : bool) (e : goerr)
  | AttemptFailed (e : goerr) (final failover : bool).

Definition attempt_ (p : nat) (w : World) : World * AttemptResult :=
  let px := ProxyPool.deref (pool w) p in
  let req := build px w in
  let key := match rateKey with Some f => f px req | None => ProxyPool.Key px end in
  let '(l, granted) := RateLimit.Wait (limiterCtx E w) key (limiter w) in
  let w1 := others (waitTime E w) (set_limiter l w) in
  if negb granted then (w1, AttemptCanceled false (limiterErr E w))
  else
    let '(n, resp) := Fetch E req (net w1) in
    let w2 := others (fetchTime E w1) (set_net n w1) in
    let outcome := match resp with
                   | inl e => if ctxDone w2 then OutcomeCanceled else Classify e
                   | inr _ => OutcomeSuccess
                   end in
    let w3 := recordOutcome p key outcome (match resp with inl e => Some e | inr _ => None end)
                (emit [IncOutcome (outcomeString outcome)] w2) in
    match resp with
    | inl e =>
        if decide (outcome = OutcomeCanceled) then (w3, AttemptCanceled true e)
        else (emit [IncFailure] w3,
              AttemptFailed e (negb (Retryable outcome))
                (bool_decide (outcome = OutcomeRateLimited) || Blocked outcome))
    | inr resp =>
        let w4 := recordLatency (Latency resp) w3 in
        match use resp (ProxyPool.deref (pool w4) p) w4 with
        | inl e => (emit [IncFailure] w4, AttemptFailed e false false)
        | inr a => (w4, AttemptDone a)
        end
    end.

(** The [for] loop with [n] iterations left. *)
Fixpoint acquire_loop (n : nat) (attempt : Z) (attempts : Z) (failover : bool)
    (lastErr : option goerr) (w : World) : World * AcquireResult A :=
  match n with
  | O => (w, DroppedErr attempts false lastErr)
  | S n' =>
      let w1 := if 0 <? attempt then emit [IncRetried] w else w in
      let slept :=
        if (0 <? attempt) && negb failover then
          match backoffDuration (int63n E w1) attempt with
          | None => None
          | Some d => Some (sleepCtx d w1)
          end
        else Some (w1, true) in
      match slept with
      | None => (w1, AcquirePanic)
      | Some (w2, false) => (w2, DroppedErr attempts true (ctxErr w2))
      | Some (w2, true) =>
          let '(w3, pr) := nextProxy fuel maxProxyWait w2 in
          match pr with
          | ProxyFuel => (w3, AcquireFuel)
          | ProxyPanic => (w3, AcquirePanic)
          | ProxyErr e =>
              match ctxErr w3 with
              | Some ce => (w3, DroppedErr attempts true (Some ce))
              | None => acquire_loop n' (attempt + 1) attempts false (Some e) w3
              end
          | GotProxy p =>
              let '(w4, ar) := attempt_ p w3 in
              match ar with
              | AttemptDone a => (w4, Acquired a)
              | AttemptCanceled fetched e =>
                  (w4, DroppedErr (if fetched then attempts + 1 else attempts) true (Some e))
              | AttemptFailed e true _ => (w4, DroppedErr (attempts + 1) false (Some e))
              | AttemptFailed e false fo => acquire_loop n' (attempt + 1) (attempts + 1) fo (Some e) w4
              end
          end
      end
  end.

Definition Acquire (maxRetries : Z) (w : World) : World * AcquireResult A :=
  acquire_loop (Z.to_nat (maxRetries + 1)) 0 0 false None w.

End Acquire.

(** ** Processing a job *)

Context (Parse : string -> string -> goerr + SerpResult).

Definition buildRequest (configuredUA : string) (job : Job) (px : ProxyPool.Proxy) (w : World) : Request :=
  mkRequest (jQuery job) "" (userAgent configuredUA (uaPick E w)) (ProxyPool.URL px)
    (localeCountry (jLocale job)) (localeLanguage (jLocale job)) (jDevice job) "".

(** The [use] callback: parse and stamp the result. *)
Definition useResponse (job : Job) (resp : Response) (px : ProxyPool.Proxy) (w : World) : goerr + SerpResult :=
  match Parse (jQuery job) (Body resp) with
  | inl e => inl e
  | inr r =>
      inr (mkSerp (sQuery r) (jRunID job) (jLocale job) (jDevice job) (now w) (Milliseconds (Latency resp))
             (ProxyPool.Key px) (sAIOverview r) (sFeaturedSnippet r) (sPeopleAlsoAsk r) (sOrganic r)
             (sCalibration r)
             (match sCalibration r with Some _ => Body resp | None => sRawBody r end))
  end.

Record PoolConfig := mkPoolConfig {
  MaxRetries : Z;
  MaxProxyWait : duration;
  cfgUserAgent : string }.

(** [process], with the result handed to the sink, if any ([None] in the second
    component is a panic or an exhausted fuel). *)
Definition process (fuel : nat) (cfg : PoolConfig) (job : Job) (w : World)
    : World * option (option SerpResult) :=
  let '(w1, r) := Acquire fuel (MaxProxyWait cfg) (buildRequest (cfgUserAgent cfg) job) None
                    (useResponse job) (MaxRetries cfg) w in
  match r with
  | Acquired result =>
      (emit ([IncSuccess] ++
             (match sAIOverview result with Some _ => [IncAIOverviewPresent] | None => [] end) ++
             (match sCalibration result with Some _ => [IncCalibrationFlagged] | None => [] end))%list w1,
       Some (Some result))
  | DroppedErr _ _ _ => (emit [IncDropped] w1, Some None)
  | _ => (w1, None)
  end.

(** [runWorker] on the jobs the channel delivers to this worker: it takes jobs
    until the channel closes or the context ends ([takeJob] is the [select]
    when both a job and the end of the context are ready). *)
Fixpoint runWorker (fuel : nat) (cfg : PoolConfig) (takeJob : World -> bool) (jobs : list Job) (w : World)
    : World * option (list (Job * option SerpResult)) :=
  match jobs with
  | [] => (w, Some [])
  | job :: rest =>
      if ctxDone w && negb (takeJob w) then (w, Some [])
      else
        let '(w1, r) := process fuel cfg job w in
        match r with
        | None => (w1, None)
        | Some out =>
            let '(w2, rs) := runWorker fuel cfg takeJob rest w1 in
            (w2, match rs with Some l => Some ((job, out) :: l) | None => None end)
        end
  end.

End Worker.
