(* ===== verification/WorkerSpec.v ===== *)
(** * Properties of the worker pool

    The accounting theorems hold in any environment, whatever the other
    goroutines, the network and the clock do; the theorems about choosing a
    proxy assume that nobody else changes the pool meanwhile ([quiet]). *)

From Stdlib Require Import Ascii.
From S2P Require Import Prelude Float64 GoString Errors Classify Metrics Model Worker.
From S2P Require ProxyPool RateLimit.

Open Scope string_scope.
Open Scope Z_scope.

(** ** Counting events *)

Definition countEv (f : counter_event -> bool) (es : list counter_event) : Z :=
  Z.of_nat (length (List.filter f es)).

Lemma countEv_app f a b : countEv f (a ++ b)%list = countEv f a + countEv f b.
Proof. unfold countEv. rewrite List.filter_app, length_app. lia. Qed.

Lemma countEv_nonneg f es : 0 <= countEv f es.
Proof. unfold countEv. lia. Qed.

Definition isOutcome (e : counter_event) : bool := match e with IncOutcome _ => true | _ => false end.
Definition isFailure (e : counter_event) : bool := match e with IncFailure => true | _ => false end.
Definition isRetried (e : counter_event) : bool := match e with IncRetried => true | _ => false end.
Definition isFinal (e : counter_event) : bool :=
  match e with IncSuccess | IncDropped | IncRobotsDisallowed => true | _ => false end.

(** Fetches made, failures counted, retries counted, jobs finished. *)
Definition tally (es : list counter_event) : Z * Z * Z * Z :=
  (countEv isOutcome es, countEv isFailure es, countEv isRetried es, countEv isFinal es).

Lemma tally_app a b : tally (a ++ b)%list =
  let '(x1, x2, x3, x4) := tally a in let '(y1, y2, y3, y4) := tally b in (x1 + y1, x2 + y2, x3 + y3, x4 + y4).
Proof. unfold tally. by rewrite !countEv_app. Qed.

Section Spec.
Context {T : RateLimit.TokenBucket} {NS : Type}.
Context (E : Env (T := T) (NS := NS)).

(** [w'] continues [w] with events of the given tally. *)
Definition emits (w w' : World (T := T) (NS := NS)) (t : Z * Z * Z * Z) : Prop :=
  exists es, evs w' = (evs w ++ es)%list /\ tally es = t.

Lemma emits_refl w : emits w w (0, 0, 0, 0).
Proof. exists []. by rewrite app_nil_r. Qed.

Lemma emits_trans w1 w2 w3 a b c d a' b' c' d' :
  emits w1 w2 (a, b, c, d) -> emits w2 w3 (a', b', c', d') -> emits w1 w3 (a + a', b + b', c + c', d + d').
Proof.
  intros (es1 & H1 & T1) (es2 & H2 & T2). exists (es1 ++ es2)%list. rewrite H2, H1, app_assoc.
  split; [done|]. by rewrite tally_app, T1, T2.
Qed.

(** The same with the sums computed. *)
Lemma emits_sum w1 w2 w3 a b c d a' b' c' d' x y z u :
  emits w1 w2 (a, b, c, d) -> emits w2 w3 (a', b', c', d') ->
  x = a + a' -> y = b + b' -> z = c + c' -> u = d + d' -> emits w1 w3 (x, y, z, u).
Proof. intros H1 H2 -> -> -> ->. by eapply emits_trans. Qed.

Lemma emits_eq w w1 w2 t : emits w w1 t -> evs w2 = evs w1 -> emits w w2 t.
Proof. intros (es & H & Ht) He. exists es. by rewrite He. Qed.

Lemma emit_emits es w : emits w (emit es w) (tally es).
Proof. by exists es. Qed.

Lemma others_evs d w : evs (others E d w) = evs w.
Proof. done. Qed.

Lemma sleepCtx_evs d w : evs (sleepCtx E d w).1 = evs w.
Proof. unfold sleepCtx. repeat case_match; done. Qed.

Lemma nextProxy_loop_evs fuel dl w : evs (nextProxy_loop E fuel dl w).1 = evs w.
Proof.
  revert w. induction fuel as [|fuel IH]; intros w; [done|]. cbn [nextProxy_loop].
  destruct (ProxyPool.Next _ _ _ _) as [pl [p| |]]; [done| |done].
  cbv zeta. destruct (IsZero _); [by rewrite IH|]. destruct (After _ _); [done|].
  set (w1 := others E (lag E w) (set_pool pl w)).
  pose proof (sleepCtx_evs (ProxyPool.NextAvailableAt (now w1) (pool w1) - now w1) w1) as Hs.
  destruct (sleepCtx _ _ _) as [w2 [|]]; cbn [fst] in *; [by rewrite IH|done].
Qed.

Lemma recordOutcome_emits p key o err w : emits w (recordOutcome p key o err w) (0, 0, 0, 0).
Proof.
  unfold recordOutcome. destruct (ProxyPool.ReportOutcome _ _ _ _ _) as [pl cooled].
  set (w1 := if cooled then _ else _).
  assert (H1 : emits w w1 (0, 0, 0, 0)).
  { unfold w1. destruct cooled; [|exact (emits_refl _)].
    by exists [IncProxyBanned; IncProxyCooldown (cooldownReason o)]. }
  destruct (decide _); [done|]. destruct (_ || _); [|done].
  destruct (RateLimit.Penalize _ _) as [l [|]]; [|done].
  apply (emits_trans w w1 _ 0 0 0 0 0 0 0 0 H1). by exists [IncRateDecrease].
Qed.

Context {A : Type}.
Context (fuel : nat) (maxWait : duration).
Context (build : ProxyPool.Proxy -> World (T := T) (NS := NS) -> Request) (rateKey : option (ProxyPool.Proxy -> Request -> string)).
Context (use : Response -> ProxyPool.Proxy -> World (T := T) (NS := NS) -> goerr + A).

Lemma attempt_emits p w : let '(w', r) := attempt_ E build rateKey use p w in
  emits w w' (match r with
              | AttemptDone _ => (1, 0, 0, 0)
              | AttemptCanceled fetched _ => (if fetched then 1 else 0, 0, 0, 0)
              | AttemptFailed _ _ _ => (1, 1, 0, 0)
              end).
Proof.
  unfold attempt_. destruct (RateLimit.Wait _ _ _) as [l granted].
  destruct (negb granted); [by apply (emits_eq w w); [apply emits_refl|]|].
  destruct (Fetch E _ _) as [n resp]. set (w2 := others E (fetchTime E _) _).
  match goal with |- context [IncOutcome (outcomeString ?oo)] => set (o := oo) end.
  set (w3 := recordOutcome p _ o _ (emit _ w2)).
  assert (H3 : emits w w3 (1, 0, 0, 0)).
  { apply (emits_trans w (emit [IncOutcome (outcomeString o)] w2) w3 1 0 0 0 0 0 0 0).
    - by exists [IncOutcome (outcomeString o)].
    - apply recordOutcome_emits. }
  assert (Hf : forall w4, evs w4 = evs w3 -> emits w (emit [IncFailure] w4) (1, 1, 0, 0)).
  { intros w4 H4. apply (emits_trans w w3 _ 1 0 0 0 0 1 0 0 H3). exists [IncFailure]. split; [|done].
    simpl. by rewrite H4. }
  destruct resp as [e|resp].
  - destruct (decide _); [done|]. by apply Hf.
  - destruct (use _ _ _) as [e|a]; [by apply Hf|]. done.
Qed.

(** The loop: [n] iterations left, [attempt] done so far. *)
Lemma acquire_loop_emits n : forall attempt attempts fo lastErr w, 0 <= attempt ->
  let '(w', r) := acquire_loop E fuel maxWait build rateKey use n attempt attempts fo lastErr w in
  exists f g k, emits w w' (f, g, k, 0) /\ 0 <= f <= Z.of_nat n /\ 0 <= k /\ k <= f + Z.of_nat n /\
  k <= Z.max 0 (Z.of_nat n - (if decide (attempt = 0) then 1 else 0)) /\
  match r with
  | Acquired _ => f = g + 1
  | DroppedErr m canceled _ => m = attempts + f /\ if canceled : bool then f - 1 <= g <= f else g = f
  | AcquirePanic | AcquireFuel => True
  end.
Proof.
  induction n as [|n IH]; intros attempt attempts fo lastErr w Hat; cbn [acquire_loop].
  { exists 0, 0, 0. split; [apply emits_refl|]. destruct (decide _); repeat split; lia. }
  set (w1 := if 0 <? attempt then emit [IncRetried] w else w).
  set (k1 := if 0 <? attempt then 1 else 0).
  assert (H1 : emits w w1 (0, 0, k1, 0)).
  { unfold w1, k1. destruct (0 <? attempt); [by exists [IncRetried]|apply emits_refl]. }
  assert (Hk1 : 0 <= k1 <= 1 /\ k1 + (if decide (attempt = 0) then 1 else 0) = 1).
  { unfold k1. destruct (Z.ltb_spec 0 attempt), (decide (attempt = 0)); lia. }
  clearbody k1.
  set (z0 := if decide (attempt = 0) then 1 else 0) in *. clearbody z0.
  set (slept := if (0 <? attempt) && negb fo then _ else _).
  assert (Hslept : match slept with None => True | Some (w2, _) => emits w w2 (0, 0, k1, 0) end).
  { unfold slept. destruct (_ && _); [|done]. destruct (backoffDuration _ _) as [d|]; [|done].
    pose proof (sleepCtx_evs d w1) as Hs. destruct (sleepCtx _ _ _) as [w2 b]. by apply (emits_eq w w1). }
  destruct slept as [[w2 [|]]|].
  3: { exists 0, 0, k1. split; [done|]. repeat split; lia. }
  2: { exists 0, 0, k1. split; [done|]. repeat split; lia. }
  pose proof (nextProxy_loop_evs fuel (now w2 + (if maxWait <=? 0 then 2 * Minute else maxWait)) w2) as Hnp.
  unfold nextProxy. destruct (nextProxy_loop _ _ _ _) as [w3 pr]. cbn [fst] in Hnp.
  assert (H3 : emits w w3 (0, 0, k1, 0)) by (by apply (emits_eq w w2)).
  destruct pr as [p|e| |].
  - pose proof (attempt_emits p w3) as Ha. destruct (attempt_ _ _ _ _ _ _) as [w4 ar].
    destruct ar as [a|fetched e|e [|] fo'].
    + exists 1, 0, k1. split; [eapply (emits_sum w w3 w4); [exact H3|exact Ha|lia..]|]. repeat split; lia.
    + exists (if fetched then 1 else 0), 0, k1.
      split; [eapply (emits_sum w w3 w4); [exact H3|exact Ha|lia..]|]. destruct fetched; repeat split; lia.
    + exists 1, 1, k1. split; [eapply (emits_sum w w3 w4); [exact H3|exact Ha|lia..]|]. repeat split; lia.
    + specialize (IH (attempt + 1) (attempts + 1) fo' (Some e) w4 ltac:(lia)).
      destruct (acquire_loop _ _ _ _ _ _ n _ _ _ _ _) as [w5 r].
      destruct IH as (f & g & k & He & Hf & Hk & Hk2 & Hk3 & Hr).
      rewrite decide_False in Hk3 by lia.
      exists (1 + f), (1 + g), (k1 + k). split; [|split; [lia|split; [lia|split; [lia|split]]]].
      * assert (H4 : emits w w4 (1, 1, k1, 0)) by (eapply (emits_sum w w3 w4); [exact H3|exact Ha|lia..]).
        eapply (emits_sum w w4 w5); [exact H4|exact He|lia..].
      * lia.
      * destruct r as [a|m c err| |]; try done; [lia|]. destruct c; lia.
  - destruct (ctxErr E w3) as [ce|]; [exists 0, 0, k1; split; [done|]; repeat split; lia|].
    specialize (IH (attempt + 1) attempts false (Some e) w3 ltac:(lia)).
    destruct (acquire_loop _ _ _ _ _ _ n _ _ _ _ _) as [w5 r].
    destruct IH as (f & g & k & He & Hf & Hk & Hk2 & Hk3 & Hr).
    rewrite decide_False in Hk3 by lia.
    exists f, g, (k1 + k). split; [|split; [lia|split; [lia|split; [lia|split; [lia|done]]]]].
    eapply (emits_sum w w3 w5); [exact H3|exact He|lia..].
  - exists 0, 0, k1. split; [done|]. repeat split; lia.
  - exists 0, 0, k1. split; [done|]. repeat split; lia.
Qed.

(** C8. The accounting of [Acquire], in any environment: it makes at most
    [MaxRetries + 1] fetches and counts at most [MaxRetries] retries; a
    [DroppedError] reports exactly the fetches made; a success follows as many
    counted failures as fetches before it, a drop counts every fetch as a
    failure, and only a canceled job may leave its last fetch uncounted. *)
Theorem acquire_accounting maxRetries w :
  let '(w', r) := Acquire E fuel maxWait build rateKey use maxRetries w in
  exists es, evs w' = (evs w ++ es)%list /\
  let '(fetches, failures, retries, finals) := tally es in
  fetches <= Z.max 0 (maxRetries + 1) /\ retries <= Z.max 0 maxRetries /\ finals = 0 /\
  match r with
  | Acquired _ => fetches = failures + 1
  | DroppedErr attempts canceled _ =>
      attempts = fetches /\ if canceled : bool then fetches - 1 <= failures <= fetches else failures = fetches
  | AcquirePanic | AcquireFuel => True
  end.
Proof.
  unfold Acquire. pose proof (acquire_loop_emits (Z.to_nat (maxRetries + 1)) 0 0 false None w ltac:(lia)) as H.
  destruct (acquire_loop _ _ _ _ _ _ _ _ _ _ _ _) as [w' r].
  destruct H as (f & g & k & (es & He & Ht) & Hf & Hk & _ & Hk3 & Hr). exists es. split; [done|]. rewrite Ht.
  rewrite decide_True in Hk3 by done.
  split; [lia|]. split; [lia|]. split; [done|]. by destruct r.
Qed.

(** What [Acquire] delivers was made by [use] from a response. *)
Lemma acquire_loop_use n : forall attempt attempts fo lastErr w w' a,
  acquire_loop E fuel maxWait build rateKey use n attempt attempts fo lastErr w = (w', Acquired a) ->
  exists resp px w0, use resp px w0 = inr a.
Proof.
  induction n as [|n IH]; intros attempt attempts fo lastErr w w' a Hl; cbn [acquire_loop] in Hl; [done|].
  destruct (if (0 <? attempt) && negb fo then _ else _) as [[w2 [|]]|]; [|done|done].
  destruct (nextProxy _ _ _ _) as [w3 [p|e| |]]; [| |done|done].
  - destruct (attempt_ _ _ _ _ _ _) as [w4 ar] eqn:Ha. destruct ar as [a'|? ?|e [|] fo']; [|done|done|by eapply IH].
    injection Hl as _ <-. unfold attempt_ in Ha. destruct (RateLimit.Wait _ _ _) as [l granted].
    destruct (negb granted); [done|]. destruct (Fetch E _ _) as [nn [e|resp]].
    + destruct (decide _) in Ha; done.
    + destruct (use _ _ _) as [e|a0] eqn:Hu; [done|]. injection Ha as _ <-. by eexists _, _, _.
  - destruct (ctxErr E w3); [done|]. by eapply IH.
Qed.

End Spec.

(** ** Jobs *)

Definition isSuccess (e : counter_event) : bool := match e with IncSuccess => true | _ => false end.
Definition isDropped (e : counter_event) : bool := match e with IncDropped => true | _ => false end.

Definition isDisallowed (e : counter_event) : bool := match e with IncRobotsDisallowed => true | _ => false end.

Lemma countEv_final es : countEv isFinal es = countEv isSuccess es + countEv isDropped es + countEv isDisallowed es.
Proof.
  unfold countEv. induction es as [|e es IH]; [done|]. destruct e; cbn [List.filter isFinal isSuccess isDropped isDisallowed length]; lia.
Qed.

(** [Acquire] itself never finishes a job. *)
Lemma acquire_events {T : RateLimit.TokenBucket} {NS : Type} (E : Env (T := T) (NS := NS)) {A} fuel maxWait build rateKey
    (use : Response -> ProxyPool.Proxy -> World (T := T) (NS := NS) -> goerr + A) maxRetries w :
  exists es, evs (Acquire E fuel maxWait build rateKey use maxRetries w).1 = (evs w ++ es)%list /\
    countEv isSuccess es = 0 /\ countEv isDropped es = 0 /\ countEv isDisallowed es = 0.
Proof.
  unfold Acquire. pose proof (acquire_loop_emits E fuel maxWait build rateKey use (Z.to_nat (maxRetries + 1)) 0 0 false None w ltac:(lia)) as H.
  destruct (acquire_loop _ _ _ _ _ _ _ _ _ _ _ _) as [w1 r].
  destruct H as (f & g & k & (es & He & Ht) & _). exists es. split; [exact He|].
  unfold tally in Ht. injection Ht as _ _ _ Hf. rewrite countEv_final in Hf.
  pose proof (countEv_nonneg isSuccess es). pose proof (countEv_nonneg isDropped es).
  pose proof (countEv_nonneg isDisallowed es). lia.
Qed.

(** The results among the answers of a worker. *)
Definition delivered (outs : list (Job * option SerpResult)) : list SerpResult := omap snd outs.

Section JobSpec.
Context {T : RateLimit.TokenBucket} {NS : Type}.
Context (E : Env (T := T) (NS := NS)).
Context (Parse : string -> string -> goerr + SerpResult).

(** [process] counts the job exactly once, as what it answered. *)
Lemma process_emits fuel cfg job w : let '(w', r) := process E Parse fuel cfg job w in
  exists es, evs w' = (evs w ++ es)%list /\
  forall out, r = Some out ->
    countEv isSuccess es = Z.of_nat (length (delivered [(job, out)])) /\
    countEv isSuccess es + countEv isDropped es = 1.
Proof.
  unfold process, Acquire.
  pose proof (acquire_loop_emits E fuel (MaxProxyWait cfg) (buildRequest E (cfgUserAgent cfg) job) None
                (useResponse Parse job) (Z.to_nat (MaxRetries cfg + 1)) 0 0 false None w ltac:(lia)) as H.
  destruct (acquire_loop _ _ _ _ _ _ _ _ _ _ _ _) as [w1 r].
  destruct H as (f & g & k & (es & He & Ht) & _).
  assert (Hz : countEv isSuccess es = 0 /\ countEv isDropped es = 0).
  { unfold tally in Ht. injection Ht as _ _ _ Hf. rewrite countEv_final in Hf.
    pose proof (countEv_nonneg isSuccess es). pose proof (countEv_nonneg isDropped es).
    pose proof (countEv_nonneg isDisallowed es). lia. }
  assert (Hadd : forall es2, evs (emit es2 w1) = (evs w ++ (es ++ es2))%list /\
            forall f, countEv f (es ++ es2) = countEv f es + countEv f es2).
  { intros es2. cbn [emit evs]. rewrite He. split; [by rewrite app_assoc|]. intros. by apply countEv_app. }
  destruct r as [a|m c err| |]; [| |by exists es..].
  - match goal with |- context [emit ?l w1] => destruct (Hadd l) as [H1 H2]; exists (es ++ l)%list end.
    split; [exact H1|]. intros out [= <-]. rewrite !H2. destruct Hz as [-> ->].
    destruct (sAIOverview a), (sCalibration a); by vm_compute.
  - destruct (Hadd [IncDropped]) as [H1 H2]. exists (es ++ [IncDropped])%list.
    split; [exact H1|]. intros out [= <-]. rewrite !H2. destruct Hz as [-> ->]. by vm_compute.
Qed.

(** The accounting of a worker, in any environment: every job it takes is
    counted exactly once, as a success when a result was handed to the sink and
    as dropped otherwise, so that success plus dropped is the number of jobs
    taken; the jobs taken are a prefix of those offered, and all of them when
    the run is never canceled. *)
Theorem worker_accounting fuel cfg takeJob jobs w :
  let '(w', r) := runWorker E Parse fuel cfg takeJob jobs w in
  match r with
  | None => True
  | Some outs => exists es, evs w' = (evs w ++ es)%list /\
      countEv isSuccess es = Z.of_nat (length (delivered outs)) /\
      countEv isSuccess es + countEv isDropped es = Z.of_nat (length outs) /\
      map fst outs `prefix_of` jobs /\ (cancelAt E = None -> map fst outs = jobs)
  end.
Proof.
  revert w. induction jobs as [|job jobs IH]; intros w; cbn [runWorker].
  { exists []. by rewrite app_nil_r. }
  destruct (ctxDone E w && _) eqn:Hdone.
  { exists []. rewrite app_nil_r. split_and!; try done; [apply prefix_nil|].
    intros Hc. unfold ctxDone, ctxErr in Hdone. rewrite Hc in Hdone. by case_bool_decide as Hs; [destruct Hs|]. }
  pose proof (process_emits fuel cfg job w) as Hp. destruct (process _ _ _ _ _ _) as [w1 [out|]]; [|done].
  destruct Hp as (es1 & He1 & Hc1). destruct (Hc1 out eq_refl) as [Hs1 Hd1].
  specialize (IH w1). destruct (runWorker _ _ _ _ _ jobs w1) as [w2 [outs|]]; [|done].
  destruct IH as (es2 & He2 & Hs2 & Hd2 & Hpre & Hall).
  exists (es1 ++ es2)%list. rewrite He2, He1, !countEv_app, app_assoc. split; [done|].
  assert (Hdel : length (delivered ((job, out) :: outs)) =
            (length (delivered [(job, out)]) + length (delivered outs))%nat) by (by destruct out).
  rewrite Hdel. cbn [length map fst]. split_and!; [lia|lia|by apply prefix_cons|].
  intros Hn. by rewrite Hall.
Qed.

End JobSpec.

(** ** Choosing a proxy

    While nobody else changes the pool, and every clock reading of a locked
    pool operation falls before the code that follows it. *)

Record quiet {T : RateLimit.TokenBucket} {NS : Type} (E : Env (T := T) (NS := NS)) : Prop := mkQuiet {
  quiet_pool : forall w, otherPool E w = pool w;
  quiet_lag : forall w i, 0 <= skew E w i <= lag E w;
  quiet_intn : forall w, ProxyPool.intn_ok (intn E w) }.

Section NextSpec.
Context {T : RateLimit.TokenBucket} {NS : Type}.
Context (E : Env (T := T) (NS := NS)) (Hquiet : quiet E).

Lemma others_quiet d w : pool (others E d w) = pool w /\ now (others E d w) = now w + Z.max 0 d.
Proof. unfold others. cbn [pool now]. by rewrite (quiet_pool _ Hquiet). Qed.

Lemma sleepCtx_quiet d w : let '(w', fired) := sleepCtx E d w in
  pool w' = pool w /\ now w <= now w' /\
  if fired : bool then now w + d <= now w' else is_Some (ctxErr E w').
Proof.
  assert (Ho : forall d', pool (others E d' w) = pool w /\ now (others E d' w) = now w + Z.max 0 d')
    by (intros; apply others_quiet).
  unfold sleepCtx, ctxDone, ctxErr. destruct (Z.leb_spec d 0).
  { case_bool_decide; simpl; split_and!; done || lia. }
  destruct (cancelAt E) as [t|].
  2: { destruct (Ho (now w + d + Z.max 0 (oversleep E w) - now w)) as [-> ->]. split_and!; done || lia. }
  destruct (Z.ltb_spec t (now w + d)).
  { destruct (Ho (Z.max 0 (t - now w))) as [-> ->]. split_and!; [done|lia|].
    rewrite (proj2 (Z.leb_le _ _)) by lia. done. }
  destruct (Z.leb_spec t (now w + d + Z.max 0 (oversleep E w)));
    destruct (Ho (now w + d + Z.max 0 (oversleep E w) - now w)) as [-> ->].
  - destruct (timerFirst E w); split_and!; try done; try lia.
    rewrite (proj2 (Z.leb_le _ _)) by lia. done.
  - split_and!; done || lia.
Qed.

(** Moving the round-robin cursor changes nothing a reader of the pool sees. *)
Lemma NextAvailableAt_set_idx i t pl : ProxyPool.NextAvailableAt t (ProxyPool.set_idx i pl) = ProxyPool.NextAvailableAt t pl.
Proof.
  unfold ProxyPool.NextAvailableAt. cbn [ProxyPool.proxies ProxyPool.set_idx]. generalize zeroTime (ProxyPool.proxies pl).
  intros e ps. revert e. induction ps as [|p ps IH]; intros e; [done|]. cbn [ProxyPool.nextAvailable_loop].
  change (ProxyPool.deref (ProxyPool.set_idx i pl) p) with (ProxyPool.deref pl p). by rewrite IH.
Qed.

(** The last thing that happened before [w'] is a scan that found the proxy [p],
    whose state is [x]: [x] was not cooling at one of the clock readings of that
    scan. *)
Definition seenAvailable (w' : World (T := T) (NS := NS)) (p : nat) (x : ProxyPool.Proxy) : Prop :=
  exists w2 i,
    ProxyPool.Next (fun i => now w2 + skew E w2 i) (intn E w2) (rnd E w2) (pool w2) = (pool w', ProxyPool.Got p) /\
    w' = set_pool (pool w') w2 /\ ProxyPool.deref (pool w2) p = x /\ ProxyPool.isBanned (now w' + skew E w2 i) x = false.

(** An available proxy is found at the first try. *)
Lemma nextProxy_found fuel dl w p : ProxyPool.pool_wf (pool w) ->
  p ∈ ProxyPool.proxies (pool w) -> ProxyPool.isBanned (now w) (ProxyPool.deref (pool w) p) = false ->
  exists q w', nextProxy_loop E (S fuel) dl w = (w', GotProxy q) /\
    q ∈ ProxyPool.proxies (pool w) /\ now w' = now w /\ seenAvailable w' q (ProxyPool.deref (pool w) q).
Proof.
  intros Hwf Hp Hb. cbn [nextProxy_loop].
  pose proof (ProxyPool.Next_spec (fun i => now w + skew E w i) (intn E w) (rnd E w) (pool w) Hwf (quiet_intn _ Hquiet w)) as Hn.
  destruct (ProxyPool.Next _ _ _ _) as [pl [q| |]] eqn:HN; [| |done].
  - destruct Hn as (Hq & (i & Hi) & _). exists q, (set_pool pl w). split; [done|]. split; [done|]. split; [done|]. by exists w, i.
  - destruct Hn as [Hall _]. destruct (Hall p Hp) as (i & Hi). pose proof (quiet_lag _ Hquiet w i).
    unfold ProxyPool.isBanned, Before in *. lia.
Qed.

(** A round that starts later, with only the cursor of the pool moved, finds a
    proxy if one is not cooling then. *)
Lemma nextProxy_retry fuel dl (w w2 : World (T := T) (NS := NS)) p : ProxyPool.pool_wf (pool w) ->
  (exists i, (i < length (ProxyPool.proxies (pool w)))%nat /\ pool w2 = ProxyPool.set_idx i (pool w)) ->
  now w <= now w2 -> p ∈ ProxyPool.proxies (pool w) -> ProxyPool.isBanned (now w2) (ProxyPool.deref (pool w) p) = false ->
  let '(w', r) := nextProxy_loop E (S fuel) dl w2 in
  exists q, r = GotProxy q /\ q ∈ ProxyPool.proxies (pool w) /\ now w <= now w' /\ seenAvailable w' q (ProxyPool.deref (pool w) q).
Proof.
  intros Hwf (i & Hi & Hpl) Hle Hp Hb.
  destruct (nextProxy_found fuel dl w2 p) as (q & w3 & -> & Hq & Ht & Hs);
    rewrite ?Hpl; [by apply ProxyPool.set_idx_wf|done|done|].
  rewrite Hpl in Hq, Hs. exists q. split_and!; [done|done|lia|done].
Qed.

(** C29. Choosing a proxy terminates: as long as nobody else changes the pool, two
    rounds of the loop are enough; the proxy found was not cooling at a clock
    reading of the scan that found it, which is the last thing the loop did, and the
    wait fails only when the run ended or when every proxy keeps cooling past
    [MaxProxyWait] (two minutes when unset). *)
Theorem nextProxy_terminates fuel maxWait w : ProxyPool.reachable (pool w) -> 0 <= now w -> (2 <= fuel)%nat ->
  let '(w', r) := nextProxy E fuel maxWait w in
  match r with
  | GotProxy p => p ∈ ProxyPool.proxies (pool w) /\ now w <= now w' /\ seenAvailable w' p (ProxyPool.deref (pool w) p)
  | ProxyErr e => is_Some (ctxErr E w') \/
      forall p, p ∈ ProxyPool.proxies (pool w) ->
        now w + (if maxWait <=? 0 then 2 * Minute else maxWait) < ProxyPool.bannedUntil (ProxyPool.deref (pool w) p)
  | ProxyPanic | ProxyFuel => False
  end.
Proof.
  intros Hr Hnow Hfuel. pose proof (ProxyPool.reachable_wf_lemma _ Hr) as Hwf.
  destruct fuel as [|[|fuel]]; [lia..|]. unfold nextProxy.
  set (dl := now w + _). clearbody dl.
  pose proof (fun w2 p => nextProxy_retry fuel dl w w2 p Hwf) as Hretry.
  remember (S fuel) as fuel1 eqn:Hf1. cbn [nextProxy_loop].
  pose proof (ProxyPool.Next_spec (fun i => now w + skew E w i) (intn E w) (rnd E w) (pool w) Hwf (quiet_intn _ Hquiet w)) as Hn.
  destruct (ProxyPool.Next _ _ _ _) as [pl [q| |]] eqn:HN; [| |done].
  { destruct Hn as (Hq & (i & Hi) & _). split; [done|]. split; [apply Z.le_refl|]. by exists w, i. }
  destruct Hn as [_ (i & Hi & ->)].
  destruct (others_quiet (lag E w) (set_pool (ProxyPool.set_idx i (pool w)) w)) as [Hp1 Hn1].
  cbv zeta. set (w1 := others E (lag E w) _) in *. cbn [set_pool pool now] in Hp1, Hn1.
  assert (Hlag : now w <= now w1) by lia.
  rewrite Hp1, NextAvailableAt_set_idx. unfold ProxyPool.NextAvailableAt.
  destruct (ProxyPool.nextAvailable_loop_spec (now w1) (pool w) (ProxyPool.proxies (pool w)) zeroTime ltac:(lia) ltac:(by left))
    as [[(p & Hp & Hb) ->]|(Hall & _ & Hlt & Hor)].
  { cbn [IsZero zeroTime Z.eqb]. destruct (others_quiet (lag E w1) w1) as [Hp2 Hn2].
    specialize (Hretry (others E (lag E w1) w1) p). destruct (nextProxy_loop _ _ _ _) as [w3 r].
    destruct Hretry as (q & -> & H); [exists i; by rewrite Hp2, Hp1|lia|done| |done].
    unfold ProxyPool.isBanned, Before in *. lia. }
  specialize (Hlt ltac:(left; by apply (ProxyPool.wf_nonempty _ Hwf))).
  set (a := ProxyPool.nextAvailable_loop _ _ _ _) in *. clearbody a.
  destruct (Z.eqb_spec a 0) as [|Hne]; [lia|]. unfold IsZero. rewrite (proj2 (Z.eqb_neq a 0)) by done.
  destruct (After a dl) eqn:Haf.
  { right. intros p Hp. destruct (Hall p Hp) as [_ Hle]. unfold After in Haf. lia. }
  pose proof (sleepCtx_quiet (a - now w1) w1) as Hs. destruct (sleepCtx _ _ _) as [w2 [|]].
  - destruct Hs as (Hp2 & Hle2 & Hwake). destruct Hor as [->|(p & Hp & Hpa)]; [done|].
    specialize (Hretry w2 p). destruct (nextProxy_loop _ _ _ _) as [w3 r].
    destruct Hretry as (q & -> & H); [exists i; by rewrite Hp2, Hp1|lia|done| |done].
    unfold ProxyPool.isBanned, Before. lia.
  - destruct Hs as (_ & _ & [e He]). destruct (ctxErr E w2) eqn:Hc; [by left|done].
Qed.

End NextSpec.

(** ** Feedback *)

Definition isBan (e : counter_event) : bool := match e with IncProxyBanned => true | _ => false end.

Section FeedbackSpec.
Context {T : RateLimit.TokenBucket} {NS : Type}.

(** What [recordOutcome] changes: the pool by one report, the limiter, and the
    counters. *)
Lemma recordOutcome_shape p key o err (w : World (T := T) (NS := NS)) :
  let '(pl, cooled) := ProxyPool.ReportOutcome p (proxyOutcome o) (retryAfterOf err) (now w) (pool w) in
  let w' := recordOutcome p key o err w in
  pool w' = pl /\ now w' = now w /\
  exists es, evs w' = (evs w ++ es)%list /\ countEv isBan es = if cooled : bool then 1 else 0.
Proof.
  unfold recordOutcome. destruct (ProxyPool.ReportOutcome _ _ _ _ _) as [pl cooled].
  set (w1 := if cooled then _ else _).
  assert (H1 : pool w1 = pl /\ now w1 = now w /\
    exists es, evs w1 = (evs w ++ es)%list /\ countEv isBan es = if cooled then 1 else 0).
  { unfold w1. destruct cooled; (split_and!; [done|done|]).
    - by exists [IncProxyBanned; IncProxyCooldown (cooldownReason o)].
    - exists []. by rewrite app_nil_r. }
  clearbody w1. cbv zeta. destruct (decide _); [exact H1|]. destruct (_ || _); [|exact H1].
  destruct (RateLimit.Penalize _ _) as [l [|]]; [|exact H1].
  destruct H1 as (H1 & H2 & es & H3 & H4). split_and!; [exact H1|exact H2|].
  exists (es ++ [IncRateDecrease])%list. cbn [emit set_limiter evs]. rewrite H3, app_assoc, countEv_app, H4.
  split; [done|]. by destruct cooled.
Qed.

Lemma proxyOutcome_cools pl o ra x : o = OutcomeRateLimited \/ Blocked o = true ->
  is_Some (ProxyPool.cools pl (proxyOutcome o) ra x).
Proof. intros [->|H]; [by eexists|]. destruct o; try done; by eexists. Qed.

(** A cooldown of zero stays zero whatever the streak and the cap. *)
Lemma zero_escalates pl x : ProxyPool.banCooldown pl = 0 -> (ProxyPool.escalatedCooldownLocked pl x).2 = 0.
Proof.
  intros Hz. unfold ProxyPool.escalatedCooldownLocked, ProxyPool.maxCooldownOf. rewrite Hz. cbn [snd].
  assert (Hd : forall n m, ProxyPool.doubling n m 0 = 0).
  { induction n as [|n IH]; intros m; cbn [ProxyPool.doubling]; [done|]. rewrite IH. by destruct (0 <? m). }
  rewrite Hd. destruct (Z.leb_spec (ProxyPool.MaxCooldown pl) 0); [done|]. destruct (Z.ltb_spec (ProxyPool.MaxCooldown pl) 0); [lia|done].
Qed.

(** A block, or a rate limit that names no time to wait. *)
Definition unpaced (o : Outcome) (err : option goerr) : Prop :=
  Blocked o = true \/ (o = OutcomeRateLimited /\ retryAfterOf err <= 0).

Lemma unpaced_cools pl o err x : ProxyPool.banCooldown pl = 0 -> unpaced o err ->
  ProxyPool.cools pl (proxyOutcome o) (retryAfterOf err) x = Some 0.
Proof.
  intros Hz Ho. pose proof (zero_escalates pl x Hz) as He. unfold ProxyPool.cools. rewrite He.
  destruct Ho as [Ho|[-> Hr]]; [by destruct o|]. cbn [proxyOutcome]. by destruct (Z.ltb_spec 0 (retryAfterOf err)); [lia|].
Qed.

(** C28. What one fetch tells the proxy pool.  With a positive ban cooldown (of
    less than nine years, and a cap of less than a century, as the escalation is to
    fit 64 bits), a rate limit or a
    block (captcha, interstitial, challenge) leaves the proxy cooling, so the
    immediate failover cannot pick it again before the cooldown ends, and the ban
    counter moves exactly when the proxy goes from available to cooling.  With a
    ban cooldown of zero, which the configuration accepts, a block or a rate limit
    without a Retry-After leaves the proxy as available as it was, and the counter
    moves all the same when it was available.  In any configuration the outcomes
    that are about the request (consent wall, client error, cancellation) leave the
    pool as it was, and no other proxy is ever touched. *)
Theorem feedback_cools p x key o err (w : World (T := T) (NS := NS)) : ProxyPool.heap (pool w) !! p = Some x ->
  let w' := recordOutcome p key o err w in
  let y := ProxyPool.deref (pool w') p in
  (o = OutcomeConsent \/ o = OutcomeClientError \/ o = OutcomeCanceled -> pool w' = pool w) /\
  (forall q, q <> p -> ProxyPool.deref (pool w') q = ProxyPool.deref (pool w) q) /\
  exists es, evs w' = (evs w ++ es)%list /\ 0 <= countEv isBan es <= 1 /\
    (ProxyPool.config_ok (pool w) ->
       (o = OutcomeRateLimited \/ Blocked o = true -> ProxyPool.isBanned (now w') y = true) /\
       (countEv isBan es = 1 <-> ProxyPool.isBanned (now w) x = false /\ ProxyPool.isBanned (now w) y = true)) /\
    (ProxyPool.banCooldown (pool w) = 0 -> unpaced o err ->
       ProxyPool.isBanned (now w') y = ProxyPool.isBanned (now w) x /\
       (countEv isBan es = 1 <-> ProxyPool.isBanned (now w) x = false)).
Proof.
  intros Hp w'.
  pose proof (recordOutcome_shape p key o err w) as Hs.
  pose proof (ProxyPool.reportOutcome_transition (pool w) (now w) (proxyOutcome o) (retryAfterOf err) x) as Ht.
  pose proof (ProxyPool.reportOutcome_cools (pool w) (now w) (proxyOutcome o) (retryAfterOf err) x) as Hcool.
  unfold ProxyPool.ReportOutcome, ProxyPool.deref at 1 in Hs. rewrite Hp in Hs. cbn [default id from_option] in Hs.
  destruct (ProxyPool.reportOutcome _ _ _ _ x) as [y cooled] eqn:Hy. cbn zeta in Hs. change (recordOutcome p key o err w) with w' in Hs.
  destruct Hs as (Hpool & Hnow & es & He & Hes). cbn [fst snd] in Ht.
  assert (Hd : ProxyPool.deref (pool w') p = y).
  { rewrite Hpool. unfold ProxyPool.deref. cbn [ProxyPool.update ProxyPool.set_heap ProxyPool.heap].
    by rewrite lookup_alter_eq, Hp. }
  cbv zeta. rewrite Hd, Hnow. split_and!.
  - intros Ho. assert (Hn : proxyOutcome o = ProxyPool.Neutral) by (by destruct Ho as [->|[->| ->]]).
    rewrite Hn in Hy. injection Hy as <- <-. rewrite Hpool. destruct (pool w) as [h ?]. cbn in Hp |- *.
    unfold ProxyPool.update, ProxyPool.set_heap. cbn. f_equal.
    apply map_eq. intros q. rewrite lookup_alter. case_decide; subst; [by rewrite Hp|done].
  - intros q Hq. rewrite Hpool. unfold ProxyPool.deref. cbn [ProxyPool.update ProxyPool.set_heap ProxyPool.heap].
    by rewrite lookup_alter_ne.
  - exists es. split; [done|]. rewrite Hes. split; [by destruct cooled|]. split.
    + intros Hc. split; [|rewrite <- (Ht Hc); destruct cooled; lia]. intros Ho.
      destruct (proxyOutcome_cools (pool w) o (retryAfterOf err) x Ho) as [d Hcd]. rewrite Hcd in Hcool.
      destruct Hcool as (_ & Hb & _). by apply (ProxyPool.isBanned_after _ x y d Hb), (ProxyPool.cools_pos _ _ _ _ _ Hc Hcd).
    + intros Hz Hu. rewrite (unpaced_cools _ _ _ _ Hz Hu) in Hcool. destruct Hcool as (-> & Hb & _). split.
      * unfold ProxyPool.isBanned, Before. rewrite Hb. lia.
      * destruct (ProxyPool.isBanned (now w) x); cbn; lia.
Qed.

End FeedbackSpec.

(** ** Backoff *)

(** The contract of [rand.Int63n]: a result below its argument. *)
Definition int63n_ok (f : Z -> Z) : Prop := forall n, 0 < n -> 0 <= f n < n.

(** The delay before jitter. *)
Definition backoffBase (attempt : Z) : duration := Z.min (2 * Second) (50 * Millisecond * 2 ^ attempt).

Lemma backoff_base_table :
  forallb (fun a => (if 2 * Second <? wrap64 (shl64 1 a * (50 * Millisecond)) then 2 * Second
                     else wrap64 (shl64 1 a * (50 * Millisecond))) =? backoffBase a)
    (map Z.of_nat (seq 1 37)) = true.
Proof. by vm_compute. Qed.

Lemma backoffBase_range a : 1 <= a -> 100 * Millisecond <= backoffBase a <= 2 * Second.
Proof.
  intros Ha. unfold backoffBase, Second, Millisecond, Microsecond, Nanosecond.
  pose proof (Z.pow_le_mono_r 2 1 a ltac:(lia) Ha). lia.
Qed.

(** C38. The delay before retry [attempt] doubles from 100ms and is capped at 2s
    before a jitter of up to half of it is added, so that it stays below 3s
    (and may exceed the 2s its documentation names), for attempts 1 to 37.  At
    attempt 38 the product wraps to a negative number and [rand.Int63n]
    panics. *)
Theorem backoff_bounds int63n : int63n_ok int63n ->
  (forall attempt, 1 <= attempt <= 37 ->
     exists d, backoffDuration int63n attempt = Some d /\
       backoffBase attempt <= d < backoffBase attempt + backoffBase attempt / 2 /\ d < 3 * Second) /\
  backoffDuration int63n 38 = None.
Proof.
  intros Hr. split; [|by vm_compute]. intros a Ha.
  pose proof backoff_base_table as Ht. rewrite forallb_forall in Ht.
  specialize (Ht a). rewrite Z.eqb_eq in Ht. unfold backoffDuration. cbv zeta. rewrite Ht.
  2: { apply in_map_iff. exists (Z.to_nat a). rewrite Z2Nat.id by lia. split; [done|]. apply in_seq. lia. }
  pose proof (backoffBase_range a ltac:(lia)) as Hb. unfold Second, Millisecond, Microsecond, Nanosecond in *.
  set (b := backoffBase a) in *. clearbody b. rewrite Z.quot_div_nonneg by lia.
  assert (Hb2 : 50000000 <= b / 2) by (apply Z.div_le_lower_bound; lia).
  assert (Hb3 : b / 2 <= 1000000000) by (apply Z.div_le_upper_bound; lia).
  destruct (Z.leb_spec (b / 2) 0) as [Hz|Hz]; [exfalso; lia|]. specialize (Hr (b / 2) Hz).
  exists (b + int63n (b / 2)). rewrite wrap64_id by (unfold in_int64, int64_min, int64_max; lia).
  split; [done|lia].
Qed.

Lemma backoff_bounds_witness :
  exists d, backoffDuration (fun n => n - 1) 7 = Some d /\ backoffBase 7 <= d < 3 * Second.
Proof.
  destruct (backoff_bounds (fun n => n - 1)) as [H _]; [intros n Hn; lia|].
  destruct (H 7 ltac:(lia)) as (d & Hd & Hb & Hlt). exists d. split; [exact Hd|]. lia.
Defined.

(** ** A world for the witnesses *)

Definition idleWorld (pl : ProxyPool.Pool) : World (T := RateLimit.rateBucket) (NS := unit) :=
  mkWorld pl (RateLimit.New f64_one 1) tt 100 None [].

Definition quietEnv : Env (T := RateLimit.rateBucket) (NS := unit) :=
  mkEnv (fun _ s => (s, inl (EText "offline"))) (fun _ => 1) (fun _ => 0) (fun _ => tt : RateLimit.ctx (TokenBucket := RateLimit.rateBucket)) (fun _ => EText "ctx")
    pool limiter latencies (fun _ => 0%nat) (fun _ _ => 0) (fun _ => 0) (fun _ _ => 0%nat) (fun _ => f64_zero)
    (fun _ _ => 0) (fun _ => 0) (fun _ => true) None (EText "canceled").

Definition coolingPool : ProxyPool.Pool :=
  ProxyPool.exec_op (ProxyPool.OpReport 0 ProxyPool.Blocked 0 90)
    (ProxyPool.with_config ProxyPool.RoundRobin 0 (ProxyPool.NewPool ["a"] 3 30)).

(** The clock of [quietEnv] stands still during a scan, so the proxy found is one
    that is not cooling at the end: the only proxy, once its ban has run out. *)
Lemma nextProxy_terminates_witness :
  exists w', nextProxy quietEnv 2 0 (idleWorld coolingPool) = (w', GotProxy 0) /\ now w' = 120 /\
    ProxyPool.isBanned (now w') (ProxyPool.deref coolingPool 0) = false.
Proof.
  eexists. split; [by vm_compute|]. split; [by vm_compute|].
  assert (Hq : quiet quietEnv) by (split; [done|done|intros w n Hn; exact Hn]).
  assert (Hr : ProxyPool.reachable coolingPool) by (apply ProxyPool.reach_step; [apply ProxyPool.reach_new|exact I]).
  pose proof (nextProxy_terminates quietEnv Hq 2 0 (idleWorld coolingPool) Hr ltac:(by vm_compute) ltac:(lia)) as H.
  destruct (nextProxy quietEnv 2 0 (idleWorld coolingPool)) as [w' r] eqn:Hn. vm_compute in Hn.
  injection Hn as Hw <-. destruct H as (_ & _ & w2 & i & _ & _ & _ & Hb). cbn [skew quietEnv] in Hb. rewrite Z.add_0_r in Hb.
  subst w'. exact Hb.
Defined.

Lemma feedback_cools_witness :
  let pl := ProxyPool.NewPool ["a"; "b"] 3 30 in
  let w' := recordOutcome 0 "a" OutcomeCaptcha None (idleWorld pl) in
  ProxyPool.isBanned (now w') (ProxyPool.deref (pool w') 0) = true.
Proof.
  intros pl w'. destruct (feedback_cools 0 (ProxyPool.freshProxy "a") "a" OutcomeCaptcha None (idleWorld pl) eq_refl)
    as (_ & _ & es & _ & _ & Hok & _). refine (proj1 (Hok _) _).
  - unfold ProxyPool.config_ok. vm_compute. repeat split; discriminate.
  - right. reflexivity.
Defined.
