(* ===== verification/PoolRun.v ===== *)
(** * The worker pool at work ([Pool.Run] in [internal/worker/pool.go])

    [Run] and the source that feeds it as a transition system.  The source sends
    jobs into a channel and closes it ([MemorySource.Jobs], or the Redis loop,
    which closes only when the context ends); [Concurrency] goroutines take jobs
    and run [process]; [Run] waits for each of them.  What a goroutine does to the
    shared counters and the sink while it processes a job is one step per
    increment or write, so that those of different workers interleave.  [step] is
    executable: it answers [None] when the event is not possible. *)

From Stdlib Require Import Ascii.
From S2P Require Import Prelude GoString Errors Metrics Model Worker.

Open Scope string_scope.

(** What processing a job does outside its worker. *)
Inductive action := Increment (e : counter_event) | WriteSink (r : SerpResult).

Definition countOf (a : action) : option counter_event := match a with Increment e => Some e | WriteSink _ => None end.
Definition writeOf (a : action) : option SerpResult := match a with WriteSink r => Some r | Increment _ => None end.

(** A goroutine of [Run]: in the [select] of [runWorker], in [process] with what
    it has done so far, sending on [done], or received from. *)
Inductive phase := Selecting | Processing (j : Job) (acts : list action) | Leaving | Joined.

(** A job processed, with what processing it did and the result, if any. *)
Record Processed := mkProcessed { pJob : Job; pActs : list action; pOut : option SerpResult }.

Record RState := mkR {
  toSend : list Job;             (* what the source still has to send *)
  buffer : list Job;             (* in the channel *)
  closed : bool;                 (* the channel is closed *)
  ctxEnded : bool;
  workers : list phase;
  joined : nat;                  (* receives from done *)
  log : list action;             (* increments and writes, in order *)
  taken : list Job;              (* history: the jobs taken, in order *)
  processed : list Processed }.  (* history: the jobs processed *)

Definition set_worker (i : nat) (p : phase) (s : RState) : RState :=
  mkR (toSend s) (buffer s) (closed s) (ctxEnded s) (<[i := p]> (workers s)) (joined s) (log s) (taken s) (processed s).

(** Worker [i] received job [j]; the channel is left with [buf] and the source with [rest]. *)
Definition receive (i : nat) (j : Job) (rest buf : list Job) (s : RState) : RState :=
  mkR rest buf (closed s) (ctxEnded s) (<[i := Processing j []]> (workers s)) (joined s) (log s) (taken s ++ [j])%list
    (processed s).

Definition initial (concurrency : nat) (jobs : list Job) : RState :=
  mkR jobs [] false false (replicate concurrency Selecting) 0 [] [] [].

Inductive event :=
  | Produce                              (* the source sends a job into the buffer *)
  | Handoff (i : nat)                    (* the source sends a job to a waiting worker *)
  | Close
  | CtxEnd
  | Take (i : nat)
  | Act (i : nat) (a : action)
  | Finish (i : nat) (out : option SerpResult)
  | Quit (i : nat)                       (* [runWorker] returns *)
  | Join (i : nat).                      (* [Run] receives from [done] *)

Section Step.
(** The capacity of the channel, and whether the source closes it when it has
    sent everything. *)
Context (capacity : nat) (closes : bool).

Definition step (e : event) (s : RState) : option RState :=
  match e with
  | Produce =>
      match toSend s with
      | j :: rest =>
          if negb (closed s) && (length (buffer s) <? capacity)%nat then
            Some (mkR rest (buffer s ++ [j])%list (closed s) (ctxEnded s) (workers s) (joined s) (log s) (taken s) (processed s))
          else None
      | [] => None
      end
  | Handoff i =>
      match toSend s, buffer s, workers s !! i with
      | j :: rest, [], Some Selecting => if closed s then None else Some (receive i j rest [] s)
      | _, _, _ => None
      end
  | Close =>
      if negb (closed s) && ((closes && bool_decide (toSend s = [])) || ctxEnded s) then
        Some (mkR (toSend s) (buffer s) true (ctxEnded s) (workers s) (joined s) (log s) (taken s) (processed s))
      else None
  | CtxEnd =>
      if ctxEnded s then None
      else Some (mkR (toSend s) (buffer s) (closed s) true (workers s) (joined s) (log s) (taken s) (processed s))
  | Take i =>
      match buffer s, workers s !! i with
      | j :: rest, Some Selecting => Some (receive i j (toSend s) rest s)
      | _, _ => None
      end
  | Act i a =>
      match workers s !! i with
      | Some (Processing j acts) =>
          Some (mkR (toSend s) (buffer s) (closed s) (ctxEnded s) (<[i := Processing j (acts ++ [a])%list]> (workers s)) (joined s)
                  (log s ++ [a])%list (taken s) (processed s))
      | _ => None
      end
  | Finish i out =>
      match workers s !! i with
      | Some (Processing j acts) =>
          Some (mkR (toSend s) (buffer s) (closed s) (ctxEnded s) (<[i := Selecting]> (workers s)) (joined s) (log s) (taken s)
                  (processed s ++ [mkProcessed j acts out])%list)
      | _ => None
      end
  | Quit i =>
      match workers s !! i with
      | Some Selecting =>
          if (closed s && bool_decide (buffer s = [])) || ctxEnded s then Some (set_worker i Leaving s) else None
      | _ => None
      end
  | Join i =>
      match workers s !! i with
      | Some Leaving =>
          if (joined s <? length (workers s))%nat then
            Some (mkR (toSend s) (buffer s) (closed s) (ctxEnded s) (<[i := Joined]> (workers s)) (S (joined s)) (log s) (taken s)
                    (processed s))
          else None
      | _ => None
      end
  end.

(** [Run] returns when it has received from [done] once per worker. *)
Definition returned (s : RState) : bool := (joined s =? length (workers s))%nat.

(** ** What processing a job may do *)

(** [processes j acts out]: [process] may answer [out] for [j] after [acts]. *)
Context (processes : Job -> list action -> option SerpResult -> Prop).

(** A worker acts as [process] does, and finishes where it does. *)
Definition allowed (e : event) (s : RState) : Prop :=
  match e with
  | Act i a => forall j acts, workers s !! i = Some (Processing j acts) ->
                 exists rest out, processes j (acts ++ a :: rest)%list out
  | Finish i out => forall j acts, workers s !! i = Some (Processing j acts) -> processes j acts out
  | _ => True
  end.

(** One step of the program or of its context. *)
Definition tstep (s s' : RState) : Prop := exists e, allowed e s /\ step e s = Some s'.

End Step.

(** The shared counters and the sink after a log. *)
Definition countersAfter (acts : list action) : Counters := runs count (omap countOf acts) zeroCounters.
Definition sinkAfter (acts : list action) : list SerpResult := omap writeOf acts.

(** ** The actions of [process] *)

Definition successful (e : counter_event) : bool := match e with IncSuccess => true | _ => false end.

(** [p.Sink.Write(result)] comes right before [IncSuccess]. *)
Fixpoint withWrite (out : option SerpResult) (es : list counter_event) : list action :=
  match es with
  | [] => []
  | e :: rest =>
      match out with
      | Some r => if successful e then WriteSink r :: map Increment es else Increment e :: withWrite out rest
      | None => Increment e :: withWrite out rest
      end
  end.

Section Actions.
Context {T : RateLimit.TokenBucket} {NS : Type}.
Context (E : Env (T := T) (NS := NS)) (Parse : string -> string -> goerr + SerpResult).

(** In some world, [process] answers [out] with the events of [acts]. *)
Definition jobActions (fuel : nat) (cfg : PoolConfig) (j : Job) (acts : list action) (out : option SerpResult) : Prop :=
  exists w w' es, process E Parse fuel cfg j w = (w', Some out) /\ evs w' = (evs w ++ es)%list /\ acts = withWrite out es.

End Actions.
