(* ===== verification/PoolRunSpec.v ===== *)
(** * Properties of the worker pool at work

    What [Run] promises is proved against an interface, [JobContract]: what one
    job does to the counters and the sink.  [process] implements it
    ([process_contract]). *)

From Stdlib Require Import Ascii.
From S2P Require Import Prelude Float64 GoString Errors Classify Metrics Model Worker WorkerSpec PoolRun.
From S2P Require ProxyPool RateLimit MetricsSpec.

Open Scope string_scope.
Open Scope nat_scope.

(** ** The contract of a job *)

Definition tallied (f : counter_event -> bool) (acts : list action) : Z := countEv f (omap countOf acts).

Lemma tallied_app f a b : tallied f (a ++ b)%list = (tallied f a + tallied f b)%Z.
Proof. unfold tallied. by rewrite omap_app, countEv_app. Qed.

(** A job writes its result, if it has one, under its run ID, counts itself once,
    and does at most [bound] things. *)
Class JobContract (processes : Job -> list action -> option SerpResult -> Prop) (bound : nat) : Prop := {
  job_writes j acts out : processes j acts out -> omap writeOf acts = option_list out;
  job_success j acts out : processes j acts out -> tallied isSuccess acts = Z.of_nat (length (option_list out));
  job_final j acts out : processes j acts out -> (tallied isSuccess acts + tallied isDropped acts = 1)%Z;
  job_run j acts r : processes j acts (Some r) -> sRunID r = jRunID j;
  job_bound j acts out : processes j acts out -> length acts <= bound }.

(** ** The invariant *)

Section Inv.
Context (capacity : nat) (closes : bool).
Context (processes : Job -> list action -> option SerpResult -> Prop) (bound : nat) `{!JobContract processes bound}.
Context (n : nat) (jobs : list Job).

Abbreviation step := (step capacity closes).
Abbreviation tstep := (tstep capacity closes processes).

Definition current (p : phase) : option Job := match p with Processing j _ => Some j | _ => None end.
Definition acting (p : phase) : list action := match p with Processing _ acts => acts | _ => [] end.
Definition isLeft (p : phase) : bool := match p with Leaving | Joined => true | _ => false end.
Definition isJoined (p : phase) : bool := match p with Joined => true | _ => false end.

Record run_inv (s : RState) : Prop := mkRunInv {
  ri_jobs : jobs = (taken s ++ buffer s ++ toSend s)%list;
  ri_taken : taken s ≡ₚ (map pJob (processed s) ++ omap current (workers s))%list;
  ri_log : log s ≡ₚ (concat (map pActs (processed s)) ++ concat (map acting (workers s)))%list;
  ri_processed : forall x, x ∈ processed s -> processes (pJob x) (pActs x) (pOut x);
  ri_acting : forall j acts, Processing j acts ∈ workers s -> acts <> [] -> exists rest out, processes j (acts ++ rest)%list out;
  ri_closed : closed s = true -> toSend s = [] \/ ctxEnded s = true;
  ri_left : forall p, p ∈ workers s -> isLeft p = true -> (closed s = true /\ buffer s = []) \/ ctxEnded s = true;
  ri_joined : joined s = countb isJoined (workers s);
  ri_len : length (workers s) = n }.

Lemma run_inv_initial : run_inv (initial n jobs).
Proof.
  unfold initial. split; cbn [toSend buffer closed ctxEnded workers joined log taken processed]; try done.
  - clear. by induction n as [|m IH].
  - clear. cbn. by induction n as [|m IH].
  - by intros x ?%not_elem_of_nil.
  - intros j acts Hp%elem_of_replicate. by destruct Hp.
  - intros p Hp%elem_of_replicate. by destruct Hp as [-> _].
  - clear. by induction n as [|m IH].
  - apply length_replicate.
Qed.

(** Replacing one worker. *)
Lemma omap_current_middle (a b : list phase) p : omap current (a ++ p :: b)%list ≡ₚ (option_list (current p) ++ omap current (a ++ b))%list.
Proof. rewrite !omap_app. simpl. destruct (current p); simpl; [|done]. by rewrite Permutation_middle. Qed.

Lemma acting_middle (a b : list phase) p : concat (map acting (a ++ p :: b)) ≡ₚ (acting p ++ concat (map acting (a ++ b)))%list.
Proof. rewrite !map_app, !concat_app. simpl. rewrite !app_assoc. f_equiv. apply Permutation_app_comm. Qed.

Lemma elem_middle {A} (x y : A) (a b : list A) : x ∈ (a ++ y :: b)%list <-> x = y \/ x ∈ (a ++ b)%list.
Proof. rewrite !elem_of_app, elem_of_cons. tauto. Qed.

(** The part of the invariant about the workers: what the jobs taken and the
    log add up to, given the processed jobs. *)
Record workers_ok (ws : list phase) (tk : list Job) (lg : list action) (pr : list Processed) (cl ended : bool) (buf : list Job) (jn : nat) : Prop := mkWorkersOk {
  wo_taken : tk ≡ₚ (map pJob pr ++ omap current ws)%list;
  wo_log : lg ≡ₚ (concat (map pActs pr) ++ concat (map acting ws))%list;
  wo_acting : forall j acts, Processing j acts ∈ ws -> acts <> [] -> exists rest out, processes j (acts ++ rest)%list out;
  wo_left : forall p, p ∈ ws -> isLeft p = true -> (cl = true /\ buf = []) \/ ended = true;
  wo_joined : jn = countb isJoined ws;
  wo_len : length ws = n }.

(** Worker [i] moves from [p] to [q]. *)
Lemma workers_move ws i p q tk lg pr cl ended buf jn tk' lg' pr' jn' : ws !! i = Some p ->
  workers_ok ws tk lg pr cl ended buf jn ->
  (forall rest, tk ≡ₚ (map pJob pr ++ option_list (current p) ++ rest)%list -> tk' ≡ₚ (map pJob pr' ++ option_list (current q) ++ rest)%list) ->
  (forall rest, lg ≡ₚ (concat (map pActs pr) ++ acting p ++ rest)%list -> lg' ≡ₚ (concat (map pActs pr') ++ acting q ++ rest)%list) ->
  (forall j acts, q = Processing j acts -> acts <> [] -> exists rest out, processes j (acts ++ rest)%list out) ->
  (isLeft q = true -> isLeft p = true \/ (cl = true /\ buf = []) \/ ended = true) ->
  (jn' + (if isJoined p then 1 else 0) = jn + (if isJoined q then 1 else 0)) ->
  workers_ok (<[i := q]> ws) tk' lg' pr' cl ended buf jn'.
Proof.
  intros Hi [W1 W2 W3 W4 W5 W6] Htk Hlg Hq Hleft Hjn.
  destruct (list_split_at _ _ _ Hi) as (a & b & Hw & Hins).
  assert (Hlen : length (<[i:=q]> ws) = n) by (by rewrite length_insert).
  rewrite Hins in *. subst ws.
  rewrite omap_current_middle in W1. rewrite acting_middle in W2. rewrite countb_middle in W5.
  split.
  - rewrite omap_current_middle. by apply Htk.
  - rewrite acting_middle. by apply Hlg.
  - intros j acts [Hj|Hj]%elem_middle; [by apply Hq|]. apply W3, elem_middle. by right.
  - intros x [->|Hx]%elem_middle Hl.
    + destruct (Hleft Hl) as [Hp|?]; [|done]. apply (W4 p); [apply elem_middle; by left|done].
    + apply (W4 x); [apply elem_middle; by right|done].
  - rewrite countb_middle. lia.
  - done.
Qed.

Lemma run_inv_workers s : run_inv s <->
  jobs = (taken s ++ buffer s ++ toSend s)%list /\
  (forall x, x ∈ processed s -> processes (pJob x) (pActs x) (pOut x)) /\
  (closed s = true -> toSend s = [] \/ ctxEnded s = true) /\
  workers_ok (workers s) (taken s) (log s) (processed s) (closed s) (ctxEnded s) (buffer s) (joined s).
Proof.
  split.
  - intros [I1 I2 I3 I4 I5 I6 I7 I8 I9]. by split_and!.
  - intros (I1 & I4 & I6 & [I2 I3 I5 I7 I8 I9]). by split.
Qed.

Lemma receive_inv i j rest buf s : workers s !! i = Some Selecting -> run_inv s ->
  (buffer s ++ toSend s = j :: buf ++ rest)%list -> (toSend s = [] -> rest = []) -> (buffer s = [] -> buf = []) ->
  run_inv (receive i j rest buf s).
Proof.
  rewrite !run_inv_workers. intros Hi (I1 & I4 & I6 & W) Hq Hrest Hbuf.
  unfold receive. cbn [toSend buffer closed ctxEnded workers joined log taken processed].
  split_and!; [rewrite I1, Hq; by rewrite <- app_assoc|done|intros Hc; destruct (I6 Hc); [left|right]; auto|].
  assert (W' : workers_ok (workers s) (taken s) (log s) (processed s) (closed s) (ctxEnded s) buf (joined s)).
  { destruct W as [W1 W2 W3 W4 W5 W6]. split; try done. intros p Hp Hl. destruct (W4 p Hp Hl) as [[? ?]|?]; [left|right]; auto. }
  eapply workers_move; [exact Hi|exact W'|..]; cbn [current acting isLeft isJoined option_list]; try done.
  - intros r Hr. rewrite Hr, <- app_assoc. apply Permutation_app_head, (Permutation_app_comm r [j]).
  - by intros j' acts [= <- <-].
Qed.

(** The invariant holds in every state [Run] can reach. *)
Lemma run_inv_step e s s' : allowed processes e s -> step e s = Some s' -> run_inv s -> run_inv s'.
Proof.
  intros Ha Hs Hinv. pose proof Hinv as Hinv'. apply run_inv_workers in Hinv' as (I1 & I4 & I6 & W).
  destruct e as [|i| | |i|i a0|i out|i|i]; cbn [PoolRun.step allowed] in Hs, Ha.
  - destruct (toSend s) as [|j rest] eqn:Ht; [done|]. destruct (closed s) eqn:Hc; [done|].
    destruct (_ <? _); [|done]. injection Hs as <-. apply run_inv_workers.
    cbn [toSend buffer closed ctxEnded workers joined log taken processed negb] in *.
    split_and!; [by rewrite <- app_assoc|done|done|].
    destruct W as [W1 W2 W3 W4 W5 W6]. split; try done. intros p Hp Hl. destruct (W4 p Hp Hl) as [[? _]|?]; [done|by right].
  - destruct (toSend s) as [|j rest] eqn:Ht; [done|]. destruct (buffer s) as [|? ?] eqn:Hb; [|done].
    destruct (workers s !! i) as [[| | |]|] eqn:Hi; try done. destruct (closed s); [done|]. injection Hs as <-.
    apply receive_inv; try done; rewrite ?Hb, ?Ht; done.
  - destruct (closed s) eqn:Hc; [done|]. destruct (_ || _) eqn:Hor; [|done]. injection Hs as <-. apply run_inv_workers.
    cbn [toSend buffer closed ctxEnded workers joined log taken processed] in *. split_and!; [done|done| |].
    + intros _. apply orb_true_iff in Hor as [[_ Ht%bool_decide_eq_true]%andb_true_iff|]; auto.
    + destruct W as [W1 W2 W3 W4 W5 W6]. split; try done. intros p Hp Hl. destruct (W4 p Hp Hl) as [[? _]|?]; [done|by right].
  - destruct (ctxEnded s) eqn:Hc; [done|]. injection Hs as <-. apply run_inv_workers.
    cbn [toSend buffer closed ctxEnded workers joined log taken processed] in *. split_and!; [done|done|by right|].
    destruct W as [W1 W2 W3 W4 W5 W6]. split; try done. by right.
  - destruct (buffer s) as [|j rest] eqn:Hb; [done|]. destruct (workers s !! i) as [[| | |]|] eqn:Hi; try done.
    injection Hs as <-. apply receive_inv; try done; rewrite Hb; done.
  - destruct (workers s !! i) as [[|j acts| |]|] eqn:Hi; try done. injection Hs as <-. apply run_inv_workers.
    cbn [toSend buffer closed ctxEnded workers joined log taken processed] in *. split_and!; [done..|].
    eapply workers_move; [exact Hi|exact W|..]; cbn [current acting isLeft isJoined option_list]; try done.
    + intros r Hr. rewrite Hr, <- !app_assoc. do 2 apply Permutation_app_head. apply Permutation_app_comm.
    + intros j' acts' [= <- <-] _. destruct (Ha j acts eq_refl) as (rest & out & Hp). exists rest, out. by rewrite <- app_assoc.
  - destruct (workers s !! i) as [[|j acts| |]|] eqn:Hi; try done. injection Hs as <-. apply run_inv_workers.
    cbn [toSend buffer closed ctxEnded workers joined log taken processed] in *. split_and!; [done| |done|].
    + intros x [Hx|Hx%list_elem_of_singleton]%elem_of_app; [by apply I4|]. subst x. by apply Ha.
    + eapply workers_move; [exact Hi|exact W|..]; cbn [current acting isLeft isJoined option_list]; try done.
      * intros r Hr. rewrite Hr, map_app, <- app_assoc. done.
      * intros r Hr. rewrite Hr, map_app, concat_app, <- app_assoc. cbn [map concat pActs]. by rewrite app_nil_r.
  - destruct (workers s !! i) as [[| | |]|] eqn:Hi; try done. destruct (_ || _) eqn:Hor; [|done]. injection Hs as <-.
    apply run_inv_workers. cbn [set_worker toSend buffer closed ctxEnded workers joined log taken processed] in *.
    split_and!; [done..|]. eapply workers_move; [exact Hi|exact W|..]; cbn [current acting isLeft isJoined option_list]; try done.
    intros _. right. apply orb_true_iff in Hor as [[? Hb%bool_decide_eq_true]%andb_true_iff|]; auto.
  - destruct (workers s !! i) as [[| | |]|] eqn:Hi; try done. destruct (_ <? _); [|done]. injection Hs as <-.
    apply run_inv_workers. cbn [toSend buffer closed ctxEnded workers joined log taken processed] in *.
    split_and!; [done..|]. eapply workers_move; [exact Hi|exact W|..]; cbn [current acting isLeft isJoined option_list]; try done; [by left|lia].
Qed.

Lemma run_inv_reach s : rtc tstep (initial n jobs) s -> run_inv s.
Proof.
  intros Hr. pose proof run_inv_initial as Hi. induction Hr as [|s1 s2 s3 (e & Ha & Hs) _ IH]; [done|].
  apply IH. by eapply run_inv_step.
Qed.


(** *** What a log adds up to *)

Lemma tallied_perm f a b : a ≡ₚ b -> tallied f a = tallied f b.
Proof. intros Hp. unfold tallied, countEv. f_equal. apply Permutation_length. by rewrite Hp. Qed.

Lemma processed_log pr : (forall x, x ∈ pr -> processes (pJob x) (pActs x) (pOut x)) ->
  omap writeOf (concat (map pActs pr)) = omap pOut pr /\
  tallied isSuccess (concat (map pActs pr)) = Z.of_nat (length (omap pOut pr)) /\
  (tallied isSuccess (concat (map pActs pr)) + tallied isDropped (concat (map pActs pr)) = Z.of_nat (length pr))%Z.
Proof.
  induction pr as [|[j acts out] pr IH]; intros Hall; [done|].
  destruct IH as (H1 & H2 & H3); [intros x Hx; apply Hall; by right|].
  specialize (Hall (mkProcessed j acts out) ltac:(by left)). cbn [pJob pActs pOut] in Hall.
  cbn [map concat pActs]. rewrite omap_app, !tallied_app, H1.
  rewrite (job_writes _ _ _ Hall). pose proof (job_success _ _ _ Hall) as Hs. pose proof (job_final _ _ _ Hall) as Hf.
  assert (Ho : omap pOut (mkProcessed j acts out :: pr) = (option_list out ++ omap pOut pr)%list) by (by destruct out).
  rewrite Ho, length_app. cbn [length]. split_and!; [done|lia|lia].
Qed.

(** A worker that has left holds no job. *)
Lemma left_idle ws : Forall (fun p => isJoined p = true) ws -> omap current ws = [] /\ concat (map acting ws) = [].
Proof. induction 1 as [|p ws Hp _ [IH1 IH2]]; [done|]. destruct p; done. Qed.

Lemma plain_counter ev get acts f : (ev, get) ∈ MetricsSpec.plainCounters ->
  (forall e, f e = bool_decide (e = ev)) -> get (countersAfter acts) = wrapu64 (tallied f acts).
Proof.
  intros Hin Hf. destruct (MetricsSpec.counters_exact (omap countOf acts)) as [Hc _]. unfold countersAfter.
  change (runs count (omap countOf acts) zeroCounters) with (MetricsSpec.counted (omap countOf acts)).
  rewrite (Hc ev get Hin). unfold tallied, countEv, MetricsSpec.occurrences. do 3 f_equal.
  apply List.filter_ext. intros e. by rewrite Hf.
Qed.

Lemma run_exact s : (Z.of_nat (length jobs) < 2 ^ 64)%Z -> rtc tstep (initial n jobs) s -> returned s = true ->
  jobs = (taken s ++ buffer s ++ toSend s)%list /\
  map pJob (processed s) ≡ₚ taken s /\
  (forall x, x ∈ processed s -> processes (pJob x) (pActs x) (pOut x)) /\
  sinkAfter (log s) ≡ₚ omap pOut (processed s) /\
  Success (countersAfter (log s)) = Z.of_nat (length (sinkAfter (log s))) /\
  (Success (countersAfter (log s)) + Dropped (countersAfter (log s)) = Z.of_nat (length (taken s)))%Z /\
  (ctxEnded s = false -> 0 < n -> taken s = jobs).
Proof.
  intros Hlen Hr Hret. destruct (run_inv_reach s Hr) as [I1 I2 I3 I4 I5 I6 I7 I8 I9].
  apply Nat.eqb_eq in Hret. rewrite I8 in Hret. apply countb_all in Hret.
  destruct (left_idle _ Hret) as [Hcur Hact]. rewrite Hcur, app_nil_r in I2. rewrite Hact, app_nil_r in I3.
  destruct (processed_log _ I4) as (P1 & P2 & P3).
  assert (Hsink : sinkAfter (log s) ≡ₚ omap pOut (processed s)) by (unfold sinkAfter; rewrite I3; by rewrite P1).
  assert (Htk : length (taken s) = length (processed s)) by (rewrite I2; apply length_map).
  assert (Hle : length (taken s) <= length jobs) by (rewrite I1, length_app; lia).
  pose proof (countEv_nonneg isSuccess (omap countOf (log s))) as N1. pose proof (countEv_nonneg isDropped (omap countOf (log s))) as N2.
  rewrite <- (tallied_perm isSuccess _ _ I3) in P2, P3. rewrite <- (tallied_perm isDropped _ _ I3) in P3.
  assert (Hs : Success (countersAfter (log s)) = tallied isSuccess (log s)).
  { rewrite (plain_counter IncSuccess Success (log s) isSuccess); [|by left|by intros []].
    apply wrapu64_id. unfold tallied in *. lia. }
  assert (Hd : Dropped (countersAfter (log s)) = tallied isDropped (log s)).
  { rewrite (plain_counter IncDropped Dropped (log s) isDropped); [|by do 2 right; left|by intros []].
    apply wrapu64_id. unfold tallied in *. lia. }
  split_and!; [done|by rewrite I2|done|done|rewrite Hs, Hsink; lia|rewrite Hs, Hd; lia|].
  intros Hc Hn. destruct (workers s) as [|p ws] eqn:Hws; [simpl in I9; lia|].
  rewrite Forall_cons in Hret. destruct Hret as [Hp _].
  destruct (I7 p) as [[Hcl Hb]|]; [by left|by destruct p|rewrite Hb in I1|congruence].
  destruct (I6 Hcl) as [Ht|]; [rewrite Ht in I1|congruence]. by rewrite I1, !app_nil_r.
Qed.

(** *** Runs

    What is written under one run ID. *)

Definition ofRun (R : string) (j : Job) : bool := bool_decide (jRunID j = R).
Definition runCount (R : string) (l : list SerpResult) : nat := countb (fun r => bool_decide (sRunID r = R)) l.

Lemma runCount_app R a b : runCount R (a ++ b) = runCount R a + runCount R b.
Proof. apply countb_app. Qed.

(** A job under way has written at most its own result. *)
Lemma job_written R j acts rest out : processes j (acts ++ rest)%list out ->
  runCount R (omap writeOf acts) <= if ofRun R j then 1 else 0.
Proof.
  intros Hp. pose proof (job_writes _ _ _ Hp) as Hw. rewrite omap_app in Hw.
  assert (Hle : runCount R (omap writeOf acts) <= runCount R (option_list out)) by (rewrite <- Hw, runCount_app; lia).
  etrans; [exact Hle|]. destruct out as [r|]; [|apply Nat.le_0_l]. unfold ofRun. rewrite <- (job_run _ _ _ Hp).
  unfold runCount, countb. simpl. case_bool_decide; simpl; lia.
Qed.

Lemma run_sink_bounded s R : run_inv s -> runCount R (sinkAfter (log s)) <= countb (ofRun R) (taken s).
Proof.
  intros [_ I2 I3 I4 I5 _ _ _ _].
  assert (Hs : runCount R (sinkAfter (log s)) =
    runCount R (omap writeOf (concat (map pActs (processed s)) ++ concat (map acting (workers s)))%list)).
  { unfold runCount, sinkAfter. apply countb_perm. by rewrite I3. }
  rewrite Hs, (countb_perm _ _ _ I2), omap_app, runCount_app, countb_app. apply Nat.add_le_mono.
  - clear -I4 JobContract0. induction (processed s) as [|x pr IH]; [done|]. cbn [map concat]. rewrite omap_app, runCount_app.
    specialize (IH ltac:(intros y Hy; apply I4; by right)). pose proof (I4 x ltac:(by left)) as Hx.
    rewrite <- (app_nil_r (pActs x)) in Hx. pose proof (job_written R _ _ _ _ Hx) as Hj.
    unfold countb in *. cbn [List.filter]. destruct (ofRun R (pJob x)); cbn [length]; lia.
  - clear -I5 JobContract0. induction (workers s) as [|p ws IH]; [done|]. cbn [map concat]. rewrite omap_app, runCount_app.
    specialize (IH ltac:(intros j acts Hj; apply I5; by right)).
    destruct p as [|j acts| |]; cbn [acting current omap list_omap]; try exact IH.
    assert (Hj : runCount R (omap writeOf acts) <= if ofRun R j then 1 else 0).
    { destruct acts as [|a acts]; [apply Nat.le_0_l|]. destruct (I5 j (a :: acts)) as (rest & out & Hp); [by left|done|].
      by eapply job_written. }
    unfold countb in *. cbn [List.filter]. destruct (ofRun R j); cbn [length]; lia.
Qed.

(** The jobs of a run that were dropped. *)
Definition droppedOf (R : string) (pr : list Processed) : nat :=
  countb (fun x => ofRun R (pJob x) && negb (bool_decide (is_Some (pOut x)))) pr.

Lemma processed_runs R pr : (forall x, x ∈ pr -> processes (pJob x) (pActs x) (pOut x)) ->
  runCount R (omap pOut pr) + droppedOf R pr = countb (ofRun R) (map pJob pr).
Proof.
  unfold runCount, droppedOf, countb. induction pr as [|[j acts out] pr IH]; intros Hall; [done|].
  specialize (IH ltac:(intros y Hy; apply Hall; by right)).
  specialize (Hall (mkProcessed j acts out) ltac:(by left)). cbn [pJob pActs pOut] in Hall.
  cbn [map List.filter pJob pOut omap list_omap]. destruct out as [r|].
  - rewrite bool_decide_eq_true_2, andb_false_r by (by eexists). unfold ofRun in *. rewrite <- (job_run _ _ _ Hall).
    cbn [List.filter]. case_bool_decide; cbn [length]; lia.
  - rewrite bool_decide_eq_false_2, andb_true_r by (by intros []). destruct (ofRun R j); cbn [length]; lia.
Qed.

(** ** Termination *)

Definition weight (p : phase) : nat :=
  match p with Selecting => 2 | Processing _ acts => 3 + (bound - length acts) | Leaving => 1 | Joined => 0 end.

Definition flag (b : bool) : nat := if b then 0 else 1.

(** What a run can still do. *)
Definition measure (s : RState) : nat :=
  (bound + 3) * length (toSend s) + (bound + 2) * length (buffer s) + sum_list_with weight (workers s) +
  flag (closed s) + flag (ctxEnded s).

Lemma weight_move ws i p q : ws !! i = Some p -> sum_list_with weight (<[i := q]> ws) + weight p = sum_list_with weight ws + weight q.
Proof. intros Hi. destruct (list_split_at _ _ _ Hi) as (a & b & -> & ->). rewrite !sum_list_with_app. simpl. lia. Qed.

Lemma run_step_measure e s s' : allowed processes e s -> step e s = Some s' -> measure s' < measure s.
Proof.
  intros Ha Hs. unfold measure. destruct e as [|i| | |i|i a|i out|i|i]; cbn [PoolRun.step allowed] in Hs, Ha.
  - destruct (toSend s) as [|j rest]; [done|]. destruct (negb (closed s) && _); [|done]. injection Hs as <-.
    cbn [toSend buffer closed ctxEnded workers]. rewrite length_app. cbn [length]. lia.
  - destruct (toSend s) as [|j rest]; [done|]. destruct (buffer s); [|done].
    destruct (workers s !! i) as [[| | |]|] eqn:Hi; try done. destruct (closed s) eqn:Hc; [done|]. injection Hs as <-.
    pose proof (weight_move _ i _ (Processing j []) Hi) as Hm. unfold receive.
    cbn [toSend buffer closed ctxEnded workers weight length] in *. rewrite Hc. lia.
  - destruct (closed s); [done|]. destruct (_ || _); [|done]. injection Hs as <-.
    cbn [toSend buffer closed ctxEnded workers flag]. lia.
  - destruct (ctxEnded s); [done|]. injection Hs as <-. cbn [toSend buffer closed ctxEnded workers flag]. lia.
  - destruct (buffer s) as [|j rest]; [done|]. destruct (workers s !! i) as [[| | |]|] eqn:Hi; try done. injection Hs as <-.
    pose proof (weight_move _ i _ (Processing j []) Hi) as Hm. unfold receive.
    cbn [toSend buffer closed ctxEnded workers weight length] in *. lia.
  - destruct (workers s !! i) as [[|j acts| |]|] eqn:Hi; try done. injection Hs as <-.
    destruct (Ha j acts eq_refl) as (rest & out & Hp). apply job_bound in Hp. rewrite length_app in Hp. cbn [length] in Hp.
    pose proof (weight_move _ i _ (Processing j (acts ++ [a])) Hi) as Hm.
    cbn [toSend buffer closed ctxEnded workers weight] in *. rewrite length_app in Hm. cbn [length] in Hm. lia.
  - destruct (workers s !! i) as [[|j acts| |]|] eqn:Hi; try done. injection Hs as <-.
    pose proof (weight_move _ i _ Selecting Hi) as Hm. cbn [toSend buffer closed ctxEnded workers weight] in *. lia.
  - destruct (workers s !! i) as [[| | |]|] eqn:Hi; try done. destruct (_ || _); [|done]. injection Hs as <-.
    pose proof (weight_move _ i _ Leaving Hi) as Hm. cbn [set_worker toSend buffer closed ctxEnded workers weight] in *. lia.
  - destruct (workers s !! i) as [[| | |]|] eqn:Hi; try done. destruct (_ <? _); [|done]. injection Hs as <-.
    pose proof (weight_move _ i _ Joined Hi) as Hm. cbn [toSend buffer closed ctxEnded workers weight] in *. lia.
Qed.

Lemma run_bound k s s' : nsteps tstep k s s' -> k + measure s' <= measure s.
Proof.
  induction 1 as [s|k s1 s2 s3 (e & Ha & Hs) _ IH]; [done|]. pose proof (run_step_measure _ _ _ Ha Hs). lia.
Qed.

Lemma measure_initial : measure (initial n jobs) = (bound + 3) * length jobs + 2 * n + 2.
Proof.
  unfold measure, initial. cbn [toSend buffer closed ctxEnded workers flag length].
  assert (Hn : sum_list_with weight (replicate n Selecting) = 2 * n) by (clear; induction n as [|m IH]; [done|cbn [replicate sum_list_with weight]; lia]). lia.
Qed.

(** ** Progress *)

Lemma phases_cases (ws : list phase) :
  (exists i j acts, ws !! i = Some (Processing j acts)) \/ (exists i, ws !! i = Some Leaving) \/
  (exists i, ws !! i = Some Selecting) \/ countb isJoined ws = length ws.
Proof.
  induction ws as [|p ws IH]; [by do 3 right|].
  destruct p as [|j acts| |]; [do 2 right; left; by exists 0|left; by exists 0, j, acts|right; left; by exists 0|].
  destruct IH as [(i & j & acts & Hi)|[(i & Hi)|[(i & Hi)|Hall]]].
  - left. by exists (S i), j, acts.
  - right. left. by exists (S i).
  - do 2 right. left. by exists (S i).
  - do 3 right. unfold countb in *. simpl. by rewrite Hall.
Qed.

Context (total : forall j, exists acts out, processes j acts out).

Lemma run_progress s : run_inv s -> returned s = false -> closes = true \/ ctxEnded s = true ->
  exists e s', e <> CtxEnd /\ allowed processes e s /\ step e s = Some s'.
Proof.
  intros [_ _ _ _ Hact Hcl _ Hj _] Hret Hend. apply Nat.eqb_neq in Hret.
  destruct (phases_cases (workers s)) as [(i & j & acts & Hi)|[(i & Hi)|[(i & Hi)|Hall]]]; [| | |congruence].
  - assert (Hrest : exists rest out, processes j (acts ++ rest)%list out).
    { destruct acts as [|a acts]; [exact (total j)|]. apply Hact; [by apply list_elem_of_lookup_2 in Hi|done]. }
    destruct Hrest as ([|a rest] & out & Hp).
    + rewrite app_nil_r in Hp. eexists (Finish i out), _. split_and!; [done| |cbn; by rewrite Hi].
      cbn. rewrite Hi. by intros j' acts' [= <- <-].
    + eexists (Act i a), _. split_and!; [done| |cbn; by rewrite Hi].
      cbn. rewrite Hi. intros j' acts' [= <- <-]. by exists rest, out.
  - eexists (Join i), _. split_and!; [done..|]. cbn [PoolRun.step]. rewrite Hi.
    pose proof (countb_le isJoined (workers s)). rewrite (proj2 (Nat.ltb_lt _ _)) by lia. done.
  - destruct (buffer s) as [|j buf] eqn:Hb; [|eexists (Take i), _; split_and!; [done..|cbn; by rewrite Hb, Hi]].
    destruct (closed s) eqn:Hc.
    { eexists (Quit i), _. split_and!; [done..|]. cbn. by rewrite Hi, Hc, Hb. }
    destruct (toSend s) as [|j rest] eqn:Ht.
    + assert (He : (closes && true) || ctxEnded s = true) by (destruct Hend as [He|He]; rewrite He; [done|apply orb_true_r]).
      eexists Close, _. split_and!; [done..|]. cbn [PoolRun.step]. rewrite Hc, Ht, bool_decide_eq_true_2 by done. by rewrite He.
    + eexists (Handoff i), _. split_and!; [done..|]. cbn. by rewrite Ht, Hb, Hi, Hc.
Qed.

End Inv.

(** ** [process] honours the contract *)

Section Process.
Context {T : RateLimit.TokenBucket} {NS : Type}.
Context (E : Env (T := T) (NS := NS)) (Parse : string -> string -> goerr + SerpResult).
Context (fuel : nat) (cfg : PoolConfig).

Abbreviation World := (World (T := T) (NS := NS)).

(** [w'] has at most [k] events more than [w]. *)
Definition within (k : nat) (w w' : World) : Prop := length (evs w') <= length (evs w) + k.

Lemma recordOutcome_within p key o err (w : World) : within 3 w (recordOutcome p key o err w).
Proof.
  unfold within, recordOutcome. destruct (ProxyPool.ReportOutcome _ _ _ _ _) as [pl cooled].
  set (w1 := if cooled then _ else _).
  assert (H1 : length (evs w1) <= length (evs w) + 2).
  { unfold w1. destruct cooled; cbn [emit set_pool evs]; rewrite ?length_app; cbn [length]; lia. }
  clearbody w1. destruct (decide _); [cbn [set_limiter evs]; lia|]. destruct (_ || _); [|lia].
  destruct (RateLimit.Penalize _ _) as [l [|]]; cbn [emit set_limiter evs]; rewrite ?length_app; cbn [length]; lia.
Qed.

Lemma attempt_within {A} build rateKey (use : Response -> ProxyPool.Proxy -> World -> goerr + A) p w :
  within 5 w (attempt_ E build rateKey use p w).1.
Proof.
  unfold within, attempt_. destruct (RateLimit.Wait _ _ _) as [l granted].
  destruct (negb granted); [cbn [fst others set_limiter evs]; lia|].
  destruct (Fetch E _ _) as [nn resp]. set (w2 := others E (fetchTime E _) _).
  match goal with |- context [IncOutcome (outcomeString ?oo)] => set (o := oo) end.
  set (w3 := recordOutcome p _ o _ (emit _ w2)).
  assert (H3 : length (evs w3) <= length (evs w) + 4).
  { pose proof (recordOutcome_within p (match rateKey with Some f => f (ProxyPool.deref (pool w) p) (build (ProxyPool.deref (pool w) p) w)
        | None => ProxyPool.Key (ProxyPool.deref (pool w) p) end) o (match resp with inl e => Some e | inr _ => None end)
        (emit [IncOutcome (outcomeString o)] w2)) as H. fold w3 in H.
    unfold within in H. cbn [emit evs] in H. rewrite length_app in H. cbn [length w2 others set_net set_limiter evs] in H. lia. }
  clearbody w3. destruct resp as [e|resp]; [destruct (decide _)|destruct (use _ _ _)];
    cbn [fst emit recordLatency evs]; rewrite ?length_app; cbn [length]; lia.
Qed.

Lemma acquire_within {A} maxWait build rateKey (use : Response -> ProxyPool.Proxy -> World -> goerr + A) k :
  forall attempt attempts fo lastErr w,
  within (6 * k) w (acquire_loop E fuel maxWait build rateKey use k attempt attempts fo lastErr w).1.
Proof.
  unfold within. induction k as [|k IH]; intros attempt attempts fo lastErr w; cbn [acquire_loop]; [cbn [fst]; lia|].
  set (w1 := if (0 <? attempt)%Z then emit [IncRetried] w else w).
  assert (H1 : length (evs w1) <= length (evs w) + 1).
  { unfold w1. destruct (0 <? attempt)%Z; cbn [emit evs]; rewrite ?length_app; cbn [length]; lia. }
  clearbody w1. set (slept := if (0 <? attempt)%Z && negb fo then _ else _).
  assert (Hslept : match slept with None => True | Some (w2, _) => evs w2 = evs w1 end).
  { unfold slept. destruct (_ && _); [|done]. destruct (backoffDuration _ _) as [d|]; [|done].
    pose proof (sleepCtx_evs E d w1) as Hs. by destruct (sleepCtx E d w1). }
  destruct slept as [[w2 [|]]|]; cbn [fst]; [|rewrite ?Hslept; lia..].
  pose proof (nextProxy_loop_evs E fuel (now w2 + (if maxWait <=? 0 then 2 * Minute else maxWait))%Z w2) as Hnp.
  unfold nextProxy. destruct (nextProxy_loop _ _ _ _) as [w3 pr]. cbn [fst] in Hnp.
  assert (H3 : length (evs w3) <= length (evs w) + 1) by (by rewrite Hnp, Hslept).
  destruct pr as [p|e| |]; cbn [fst]; try lia.
  - pose proof (attempt_within build rateKey use p w3) as Ha. unfold within in Ha.
    destruct (attempt_ _ _ _ _ _ _) as [w4 ar]. cbn [fst] in Ha.
    destruct ar as [a|fetched e|e [|] fo']; cbn [fst]; try lia.
    specialize (IH (attempt + 1) (attempts + 1) fo' (Some e) w4)%Z. lia.
  - destruct (ctxErr E w3); cbn [fst]; [lia|].
    specialize (IH (attempt + 1) attempts false (Some e) w3)%Z. lia.
Qed.

(** The most a job can do: six events per attempt, then the write and three counters. *)
Definition jobBound : nat := 6 * Z.to_nat (MaxRetries cfg + 1) + 4.

Lemma process_within job w : within (jobBound - 1) w (process E Parse fuel cfg job w).1.
Proof.
  unfold within, process, jobBound, Acquire.
  pose proof (acquire_within (MaxProxyWait cfg) (buildRequest E (cfgUserAgent cfg) job) None (useResponse Parse job)
    (Z.to_nat (MaxRetries cfg + 1)) 0 0 false None w) as Ha. unfold within in Ha.
  destruct (acquire_loop _ _ _ _ _ _ _ _ _ _ _ _) as [w1 r]. cbn [fst] in Ha.
  destruct r as [a| | |]; cbn [fst emit evs]; rewrite ?length_app; cbn [length]; try lia.
  destruct (sAIOverview a), (sCalibration a); cbn [app length]; lia.
Qed.

(** A result carries the run ID of its job. *)
Lemma process_run job w w' r : process E Parse fuel cfg job w = (w', Some (Some r)) -> sRunID r = jRunID job.
Proof.
  unfold process, Acquire.
  pose proof (acquire_loop_use E fuel (MaxProxyWait cfg) (buildRequest E (cfgUserAgent cfg) job) None (useResponse Parse job)
    (Z.to_nat (MaxRetries cfg + 1)) 0 0 false None w) as Hu.
  destruct (acquire_loop _ _ _ _ _ _ _ _ _ _ _ _) as [w1 [a| | |]]; [|done..]. intros [= _ <-].
  destruct (Hu w1 a eq_refl) as (resp & px & w0 & Huse). unfold useResponse in Huse.
  destruct (Parse _ _); [done|]. by injection Huse as <-.
Qed.

Lemma withWrite_events out es : omap countOf (withWrite out es) = es.
Proof.
  assert (Hm : forall l, omap countOf (map Increment l) = l) by (induction l as [|e l IH]; [done|]; cbn; by f_equal).
  induction es as [|e es IH]; [done|]. cbn [withWrite].
  destruct out as [r|]; [destruct (successful e)|]; cbn; f_equal; [apply Hm|exact IH|exact IH].
Qed.

Lemma withWrite_writes out es : countEv isSuccess es = Z.of_nat (length (option_list out)) ->
  omap writeOf (withWrite out es) = option_list out.
Proof.
  assert (Hm : forall l, omap writeOf (map Increment l) = []) by (by induction l).
  induction es as [|e es IH]; intros Hc; [by destruct out|]. cbn [withWrite]. unfold countEv in *.
  destruct out as [r|].
  - destruct e; cbn in Hc |- *; [f_equal; apply Hm|by apply IH..].
  - destruct e; cbn in Hc |- *; [lia|by apply IH..].
Qed.

Lemma withWrite_length out es : length (withWrite out es) <= S (length es).
Proof.
  induction es as [|e es IH]; [simpl; lia|]. cbn [withWrite].
  destruct out as [r|]; [destruct (successful e)|]; cbn [length]; rewrite ?length_map; cbn [length] in *; lia.
Qed.

#[export] Instance process_contract : JobContract (jobActions E Parse fuel cfg) jobBound.
Proof.
  assert (Hes : forall j acts out, jobActions E Parse fuel cfg j acts out -> exists es, acts = withWrite out es /\
    countEv isSuccess es = Z.of_nat (length (option_list out)) /\ (countEv isSuccess es + countEv isDropped es = 1)%Z /\
    length es <= jobBound - 1 /\ forall r, out = Some r -> sRunID r = jRunID j).
  { intros j acts out (w & w' & es & Hp & He & ->). exists es. split; [done|].
    pose proof (process_emits E Parse fuel cfg j w) as Hem. pose proof (process_within j w) as Hw. unfold within in Hw.
    assert (Hrun : forall r, out = Some r -> sRunID r = jRunID j) by (intros r ->; by eapply process_run).
    rewrite Hp in Hem, Hw. destruct Hem as (es' & He' & Hc). cbn [fst] in Hw. rewrite He in He', Hw.
    apply app_inv_head in He' as <-. destruct (Hc out eq_refl) as [H1 H2]. rewrite length_app in Hw.
    split_and!; [by destruct out|done|lia|done]. }
  assert (Hb : 1 <= jobBound) by (unfold jobBound; lia).
  split.
  - intros j acts out (es & -> & H1 & _)%Hes. by apply withWrite_writes.
  - intros j acts out (es & -> & H1 & _)%Hes. unfold tallied. by rewrite withWrite_events.
  - intros j acts out (es & -> & _ & H2 & _)%Hes. unfold tallied. by rewrite withWrite_events.
  - intros j acts r (es & _ & _ & _ & _ & Hr)%Hes. by apply Hr.
  - intros j acts out (es & -> & _ & _ & H3 & _)%Hes. pose proof (withWrite_length out es). lia.
Qed.

(** C4. The harvest as a whole: when [Run] has returned, with any number of
    workers and any interleaving of the source, the workers and the end of the
    context, every job taken was processed exactly once; the sink was handed
    exactly the results of those jobs; Success counts them, and Success plus
    Dropped counts the jobs taken; the jobs not taken are still in the channel or
    with the source.  Unless the context ended, every job was taken, in order. *)
Theorem pool_run_exact capacity closes n jobs s : (Z.of_nat (length jobs) < 2 ^ 64)%Z ->
  rtc (tstep capacity closes (jobActions E Parse fuel cfg)) (initial n jobs) s -> returned s = true ->
  jobs = (taken s ++ buffer s ++ toSend s)%list /\
  map pJob (processed s) ≡ₚ taken s /\
  (forall x, x ∈ processed s -> jobActions E Parse fuel cfg (pJob x) (pActs x) (pOut x)) /\
  sinkAfter (log s) ≡ₚ omap pOut (processed s) /\
  Success (countersAfter (log s)) = Z.of_nat (length (sinkAfter (log s))) /\
  (Success (countersAfter (log s)) + Dropped (countersAfter (log s)) = Z.of_nat (length (taken s)))%Z /\
  (ctxEnded s = false -> 0 < n -> taken s = jobs).
Proof. apply run_exact with (bound := jobBound). apply process_contract. Qed.

(** C7. [Run] always returns: a run over [jobs] has at most
    [(6 * (MaxRetries + 1) + 7) * jobs + 2 * workers + 2] steps, and as long as
    [Run] has not returned, some step of the program is possible, if the source
    closes its channel or the context has ended, and no job panics or runs out
    of fuel in every world. *)
Theorem pool_run_returns capacity closes n jobs k s :
  nsteps (tstep capacity closes (jobActions E Parse fuel cfg)) k (initial n jobs) s ->
  k <= (6 * Z.to_nat (MaxRetries cfg + 1) + 7) * length jobs + 2 * n + 2 /\
  (returned s = false -> closes = true \/ ctxEnded s = true ->
   (forall j, exists acts out, jobActions E Parse fuel cfg j acts out) ->
   exists e s', e <> CtxEnd /\ allowed (jobActions E Parse fuel cfg) e s /\ step capacity closes e s = Some s').
Proof.
  intros Hr. split.
  - pose proof (run_bound capacity closes _ jobBound k _ _ Hr) as Hb.
    rewrite measure_initial in Hb. unfold jobBound in Hb. lia.
  - intros Hret Hend Htot. eapply run_progress; [exact Htot| |done|done].
    eapply (run_inv_reach _ _ _ n jobs). apply (rtc_nsteps_2 k). exact Hr.
Qed.

End Process.

(** ** Witnesses: one job that succeeds *)

Definition servingEnv : Env (T := RateLimit.rateBucket) (NS := unit) :=
  mkEnv (fun _ s => (s, inr (mkResponse 200 "<html>" (5 * Millisecond)%Z "text/html" ""))) (fun _ => 1%Z) (fun _ => 0%Z)
    (fun _ => tt : RateLimit.ctx (TokenBucket := RateLimit.rateBucket)) (fun _ => EText "ctx")
    pool limiter latencies (fun _ => 0) (fun _ _ => 0%Z) (fun _ => 0%Z) (fun _ _ => 0) (fun _ => f64_zero)
    (fun _ _ => 0%Z) (fun _ => 0%Z) (fun _ => true) None (EText "canceled").

Definition servedParse (query body : string) : goerr + SerpResult :=
  inr (mkSerp query "" "" "" zeroTime 0 "" None None [] [] None "").

Definition servedCfg : PoolConfig := mkPoolConfig 0 0 "bot".

(** What processing a job gives there. *)
Definition servedResult (j : Job) : SerpResult :=
  mkSerp (jQuery j) (jRunID j) (jLocale j) (jDevice j) 101 5 "p" None None [] [] None "".

Definition servedActs (j : Job) : list action :=
  [Increment (IncOutcome "success"); WriteSink (servedResult j); Increment IncSuccess].

Lemma served_ok j : jobActions servingEnv servedParse 2 servedCfg j (servedActs j) (Some (servedResult j)).
Proof.
  exists (idleWorld (ProxyPool.NewPool ["p"] 3 30)).
  destruct (process servingEnv servedParse 2 servedCfg j (idleWorld (ProxyPool.NewPool ["p"] 3 30))) as [w' r] eqn:Hp.
  exists w', [IncOutcome "success"; IncSuccess]. vm_compute in Hp. injection Hp as <- <-. split_and!; reflexivity.
Qed.

(** One worker, one job: processed, and then to the end of [Run]. *)
Definition soloDone (j : Job) : RState :=
  mkR [] [] false false [Selecting] 0 (servedActs j) [j] [mkProcessed j (servedActs j) (Some (servedResult j))].

Definition soloEnd (j : Job) : RState :=
  mkR [] [] true false [Joined] 1 (servedActs j) [j] [mkProcessed j (servedActs j) (Some (servedResult j))].

Section Solo.
Context (capacity : nat) (cfg : PoolConfig) (j : Job).
Context (Hok : jobActions servingEnv servedParse 2 cfg j (servedActs j) (Some (servedResult j))).

Ltac served_step e :=
  eapply rtc_l;
  [ exists e; split;
    [ first [ exact I
            | intros ? ? [= <- <-]; exact Hok
            | intros ? ? [= <- <-]; eexists _, _; exact Hok ]
    | reflexivity ]
  | ].

Lemma solo_done closes : rtc (tstep capacity closes (jobActions servingEnv servedParse 2 cfg)) (initial 1 [j]) (soloDone j).
Proof.
  served_step (Handoff 0). served_step (Act 0 (Increment (IncOutcome "success"))).
  served_step (Act 0 (WriteSink (servedResult j))). served_step (Act 0 (Increment IncSuccess)).
  served_step (Finish 0 (Some (servedResult j))). apply rtc_refl.
Qed.

Lemma solo_run : rtc (tstep capacity true (jobActions servingEnv servedParse 2 cfg)) (initial 1 [j]) (soloEnd j).
Proof.
  etrans; [apply solo_done|]. served_step Close. served_step (Quit 0). served_step (Join 0). apply rtc_refl.
Qed.
End Solo.

Definition toyJob : Job := mkJob "cats" "run-1" "us-en" "".

Lemma pool_run_exact_witness : Success (countersAfter (log (soloEnd toyJob))) = 1%Z /\ taken (soloEnd toyJob) = [toyJob].
Proof.
  destruct (pool_run_exact servingEnv servedParse 2 servedCfg 0 true 1 [toyJob] (soloEnd toyJob))
    as (_ & _ & _ & _ & Hs & _ & Ht); [reflexivity|exact (solo_run 0 servedCfg toyJob (served_ok toyJob))|reflexivity|].
  split; [rewrite Hs; reflexivity|apply Ht; [reflexivity|lia]].
Defined.

Lemma pool_run_returns_witness : exists e s', e <> CtxEnd /\ step 0 true e (initial 1 [toyJob]) = Some s'.
Proof.
  destruct (pool_run_returns servingEnv servedParse 2 servedCfg 0 true 1 [toyJob] 0 (initial 1 [toyJob])) as [_ H].
  - apply nsteps_O.
  - destruct H as (e & s' & He & _ & Hs); [reflexivity|by left| |by exists e, s'].
    intros j. exists (servedActs j), (Some (servedResult j)). apply served_ok.
Defined.
