(* ===== verification/Robots.v ===== *)
(** * robots.txt ([internal/robots/robots.go])

    Parsing, matching and caching of the Robots Exclusion Protocol.  A compiled
    pattern is kept as what its regular expression says: literal rune
    sequences separated by gaps ([.*], which does not cross a newline),
    anchored at the start and optionally at the end.  [regexp.MustCompile]
    panics on invalid UTF-8, so compiling, and with it parsing, returns
    [option], [None] being the panic.

    Parameters: [strconv.ParseFloat] and the implementation-specific result of
    converting an out-of-range float to an integer (both only feed
    Crawl-delay), and the [Getter] of the cache. *)

From Stdlib Require Import Ascii.
From S2P Require Import Prelude Float64 GoString.

Open Scope string_scope.
Open Scope Z_scope.

(** ** Patterns *)

Record regex := mkRegex { parts : list (list Z); anchored : bool }.

Record rule := mkRule { allow : bool; pattern : string; re : regex }.

Definition unescape (s : string) : string := default s (PathUnescape s).

Definition compile (pat : string) : option regex :=
  let anch := HasSuffix pat "$" in
  let expr := unescape (TrimSuffix pat "$") in
  if validUTF8 expr then Some (mkRegex (map runes (SplitByte "*" expr)) anch) else None.

Definition newRule (allow : bool) (pat : string) : option rule :=
  r ← compile pat; Some (mkRule allow pat r).

(** A literal at the front of the input. *)
Fixpoint strip (p l : list Z) : option (list Z) :=
  match p, l with
  | [], _ => Some l
  | a :: p', b :: l' => if a =? b then strip p' l' else None
  | _ :: _, [] => None
  end.

(** [.*lit] repeated, then the end of the expression. *)
Fixpoint matchRest (ps : list (list Z)) (anch : bool) (l : list Z) : bool :=
  match ps with
  | [] => if anch then match l with [] => true | _ => false end else true
  | p :: ps' =>
      (fix skip (l : list Z) : bool :=
         match strip p l with Some rest => matchRest ps' anch rest | None => false end ||
         match l with [] => false | c :: l' => negb (c =? 10) && skip l' end) l
  end.

Definition MatchString (r : regex) (s : string) : bool :=
  match parts r with
  | [] => true
  | p :: ps => match strip p (runes s) with Some rest => matchRest ps (anchored r) rest | None => false end
  end.

(** ** Rules *)

Record Rules := mkRules { rules : list rule; CrawlDelay : duration; Sitemaps : list string }.

Definition AllowAll : Rules := mkRules [] 0 [].

Definition DisallowAll : Rules :=
  mkRules [mkRule false "/" (mkRegex [[47]] false)] 0 [].

(** The loop of [Allowed] over the rules with the best match so far. *)
Fixpoint allowed_loop (path : string) (best : Z) (allowed : bool) (rs : list rule) : bool :=
  match rs with
  | [] => allowed
  | ru :: rest =>
      if negb (MatchString (re ru) path) then allowed_loop path best allowed rest
      else
        let n := len (pattern ru) in
        if (best <? n) || ((n =? best) && allow ru) then allowed_loop path n (allow ru) rest
        else allowed_loop path best allowed rest
  end.

Definition Allowed (r : Rules) (path : string) : bool :=
  let path := if decide (path = "") then "/" else path in
  if decide (path = "/robots.txt") then true
  else allowed_loop (unescape path) (-1) true (rules r).

(** ** Parsing *)

Record group := mkGroup { agents : list string; grules : list rule; delay : duration }.

(** The tokens of a [bufio.Scanner] splitting lines, with its 1 MiB limit: a
    longer line stops the scan.  [cur] is the line read so far, reversed. *)
Definition maxLine : Z := 2 ^ 20.

Definition dropCR (rev_line : string) : string :=
  match rev_line with
  | String a rest => if Ascii.eqb a "013" then str_rev "" rest else str_rev "" rev_line
  | EmptyString => ""
  end.

Fixpoint scan_loop (room : Z) (cur : string) (s : string) : list string :=
  match s with
  | EmptyString => if decide (cur = "") then [] else [dropCR cur]
  | String a rest =>
      if Ascii.eqb a "010" then dropCR cur :: scan_loop maxLine "" rest
      else if room <=? 1 then [] else scan_loop (room - 1) (String a cur) rest
  end.

Definition scan (content : string) : list string := scan_loop maxLine "" content.

Record pstate := mkP {
  groups : list group;       (* [cur] is the last one *)
  lastWasAgent : bool;
  sitemaps : list string }.

(** Apply [f] to the last group, which [cur] points to; a no-op when there is none. *)
Fixpoint updateLast {A} (f : A -> A) (l : list A) : list A :=
  match l with
  | [] => []
  | [x] => [f x]
  | x :: rest => x :: updateLast f rest
  end.

Definition cutComment (line : string) : string := (CutByte "#" line).1.1.

Section Parse.
Context (ParseFloat : string -> option f64) (outOfRange : f64 -> Z).

(** [time.Duration(f)] *)
Definition durationOf (f : f64) : duration :=
  match f with
  | S754_nan | S754_infinity _ => outOfRange f
  | _ => let z := f64_trunc f in
         if (int64_min <=? z) && (z <=? int64_max) then z else outOfRange f
  end.

Definition crawlDelay (value : string) : option duration :=
  match ParseFloat value with
  | Some secs => if f64_ltb f64_zero secs then Some (durationOf (f64_mul secs (f64_of_Z Second))) else None
  | None => None
  end.

(** The [switch key] of the loop. *)
Definition dispatch (key value : string) (st : pstate) : option pstate :=
  if decide (key = "user-agent") then
    let gs := if negb (lastWasAgent st) || match groups st with [] => true | _ => false end
              then (groups st ++ [mkGroup [] [] 0])%list else groups st in
    Some (mkP (updateLast (fun g => mkGroup (agents g ++ [ToLower value])%list (grules g) (delay g)) gs)
            true (sitemaps st))
  else if decide (key = "allow" \/ key = "disallow") then
    match groups st with
    | [] => Some (mkP [] false (sitemaps st))
    | gs =>
        if decide (value = "") then Some (mkP gs false (sitemaps st))
        else r ← newRule (bool_decide (key = "allow")) value;
             Some (mkP (updateLast (fun g => mkGroup (agents g) (grules g ++ [r])%list (delay g)) gs)
                     false (sitemaps st))
    end
  else if decide (key = "crawl-delay") then
    match crawlDelay value with
    | Some d => Some (mkP (updateLast (fun g => mkGroup (agents g) (grules g) d) (groups st)) false (sitemaps st))
    | None => Some (mkP (groups st) false (sitemaps st))
    end
  else if decide (key = "sitemap") then Some (mkP (groups st) false (sitemaps st ++ [value])%list)
  else Some (mkP (groups st) false (sitemaps st)).

Definition parseLine (line : string) (st : pstate) : option pstate :=
  let '(key, value, ok) := CutByte ":" (cutComment line) in
  if negb ok then Some st else dispatch (ToLower (TrimSpace key)) (TrimSpace value) st.

Fixpoint parseLines (ls : list string) (st : pstate) : option pstate :=
  match ls with
  | [] => Some st
  | l :: rest => st' ← parseLine l st; parseLines rest st'
  end.

Definition names (agent : string) (a : string) : bool :=
  bool_decide (a <> "*") && bool_decide (a <> "") && Contains agent a.

Definition isStar (a : string) : bool := bool_decide (a = "*").

(** Merge every group one of whose agents satisfies [sel]. *)
Definition merge (sel : string -> bool) (gs : list group) : list rule * duration :=
  fold_left (fun '(rs, d) g => if existsb sel (agents g) then ((rs ++ grules g)%list, Z.max d (delay g)) else (rs, d))
    gs ([], 0).

Definition selectGroups (agent : string) (gs : list group) : list rule * duration :=
  if existsb (fun g => existsb (names agent) (agents g)) gs
  then merge (names agent) gs
  else merge isStar gs.

Definition Parse (content agent : string) : option Rules :=
  st ← parseLines (scan content) (mkP [] false []);
  let '(rs, d) := selectGroups (ToLower agent) (groups st) in
  Some (mkRules rs d (sitemaps st)).

(** ** The cache *)

Inductive getResult := GetErr | GetResp (status : Z) (body : string).

Record Cache := mkCache {
  Agent : string;
  entries : gmap string Rules;
  requests : list string }.   (* the origins whose robots.txt was fetched *)

Definition rulesFor (agent : string) (r : getResult) : option Rules :=
  match r with
  | GetErr => Some DisallowAll
  | GetResp status body =>
      if (200 <=? status) && (status <? 300) then Parse body agent
      else if (400 <=? status) && (status <? 500) && negb (status =? 429) then Some AllowAll
      else Some DisallowAll
  end.

Definition For (get : string -> getResult) (scheme host : string) (c : Cache) : option (Cache * Rules) :=
  let origin := scheme ++ "://" ++ host in
  match entries c !! origin with
  | Some r => Some (c, r)
  | None =>
      r ← rulesFor (Agent c) (get (origin ++ "/robots.txt"));
      Some (mkCache (Agent c) (<[origin := r]> (entries c)) (requests c ++ [origin])%list, r)
  end.

End Parse.

(** ** What a pattern matches *)

(** [s] is the literals in order, separated by gaps without newlines. *)
Inductive gaps (anch : bool) : list (list Z) -> list Z -> Prop :=
  | gaps_end l : (anch = true -> l = []) -> gaps anch [] l
  | gaps_lit g p ps l : Forall (fun c => c <> 10) g -> gaps anch ps l -> gaps anch (p :: ps) (g ++ p ++ l).

Definition Matches (pat path : string) : Prop :=
  match map runes (SplitByte "*" (unescape (TrimSuffix pat "$"))) with
  | [] => True
  | p :: ps => exists l, runes path = (p ++ l)%list /\ gaps (HasSuffix pat "$") ps l
  end.

Lemma strip_spec p l rest : strip p l = Some rest <-> l = (p ++ rest)%list.
Proof.
  revert l. induction p as [|a p IH]; intros l; simpl.
  - split; congruence.
  - destruct l as [|b l]; [done|]. destruct (Z.eqb_spec a b) as [->|Hne].
    + rewrite IH. split; congruence.
    + split; congruence.
Qed.

Lemma matchRest_spec anch ps : forall l, matchRest ps anch l = true <-> gaps anch ps l.
Proof.
  induction ps as [|p ps IH]; intros l.
  - simpl. split.
    + intros H. constructor. intros ->. by destruct l.
    + inversion 1 as [l' Hl|]; subst. destruct anch; [|done]. by rewrite Hl.
  - assert (Hlit : forall l, match strip p l with Some rest => matchRest ps anch rest | None => false end = true <->
              exists rest, l = (p ++ rest)%list /\ gaps anch ps rest).
    { intros l'. destruct (strip p l') as [rest|] eqn:Hs.
      - apply strip_spec in Hs as ->. rewrite IH. split; [eauto|].
        intros (rest' & Heq & Hg). by apply app_inv_head in Heq as ->.
      - split; [done|]. intros (rest & Heq & _). apply strip_spec in Heq. congruence. }
    cbn [matchRest]. induction l as [|c l IHl]; rewrite orb_true_iff, Hlit.
    + split.
      * intros [(rest & Heq & Hg)|]; [|done]. rewrite Heq. by apply (gaps_lit anch []).
      * inversion 1 as [|g p' ps' rest Hg Hgaps Heq Heq2]; subst.
        apply app_eq_nil in Heq2 as [-> Hpr].
        left. exists rest. by rewrite Hpr.
    + rewrite andb_true_iff, negb_true_iff, Z.eqb_neq, IHl. split.
      * intros [(rest & Heq & Hg)|[Hc Hg]].
        -- rewrite Heq. by apply (gaps_lit anch []).
        -- inversion Hg as [|g p' ps' rest Hgf Hgaps]; subst.
           change (c :: (g ++ p ++ rest)%list) with ((c :: g) ++ p ++ rest)%list.
           constructor; [by constructor|done].
      * inversion 1 as [|g p' ps' rest Hgf Hgaps Heq Heq2]; subst.
        destruct g as [|c' g]; [left; eauto|]. right. simpl in Heq2. simplify_eq.
        apply Forall_cons in Hgf as [? ?]. split; [done|]. by constructor.
Qed.

Lemma MatchString_spec pat r path : compile pat = Some r ->
  MatchString r path = true <-> Matches pat path.
Proof.
  unfold compile, MatchString, Matches. destruct (validUTF8 _); [|done]. intros [= <-]. simpl.
  destruct (map runes _) as [|p ps]; [done|]. destruct (strip p (runes path)) as [rest|] eqn:Hs.
  - apply strip_spec in Hs as ->. rewrite matchRest_spec. split; [eauto|].
    intros (l & Heq & Hg). by apply app_inv_head in Heq as ->.
  - split; [done|]. intros (l & Heq & _). apply strip_spec in Heq. congruence.
Qed.

(** ** Longest match *)

Definition rule_ok (ru : rule) : Prop := compile (pattern ru) = Some (re ru).

Lemma newRule_ok a pat ru : newRule a pat = Some ru -> rule_ok ru /\ allow ru = a /\ pattern ru = pat.
Proof. unfold newRule, rule_ok. destruct (compile pat) eqn:Hc; simpl; [|done]. by intros [= <-]. Qed.

Definition hits (path : string) (ru : rule) : bool := MatchString (re ru) path.

(** What the loop knows after the rules [seen]. *)
Definition verdict (path : string) (seen : list rule) (best : Z) (a : bool) : Prop :=
  (best = -1 /\ a = true /\ forall y, y ∈ seen -> hits path y = false) \/
  ((exists x, x ∈ seen /\ hits path x = true /\ len (pattern x) = best /\ allow x = a) /\
   forall y, y ∈ seen -> hits path y = true ->
     len (pattern y) <= best /\ (len (pattern y) = best -> allow y = true -> a = true)).

Lemma verdict_keep path seen best a ru : verdict path seen best a ->
  (hits path ru = true -> len (pattern ru) <= best /\ (len (pattern ru) = best -> allow ru = true -> a = true)) ->
  (best = -1 -> hits path ru = false) -> verdict path (seen ++ [ru]) best a.
Proof.
  intros [(Hb & Ha & Hno)|[(x & Hx & Hh) Hall]] Hru Hm1.
  - left. split; [done|]. split; [done|].
    intros y [Hy|Hy]%elem_of_app; [by apply Hno|]. apply list_elem_of_singleton in Hy as ->. by apply Hm1.
  - right. split; [exists x; split; [|done]; apply elem_of_app; by left|].
    intros y [Hy|Hy]%elem_of_app; [by apply Hall|]. apply list_elem_of_singleton in Hy as ->. done.
Qed.

Lemma allowed_loop_verdict path rest : forall seen best a, -1 <= best -> verdict path seen best a ->
  exists best', verdict path (seen ++ rest) best' (allowed_loop path best a rest).
Proof.
  induction rest as [|ru rest IH]; intros seen best a Hb Hv; [exists best; by rewrite app_nil_r|].
  replace (seen ++ ru :: rest)%list with ((seen ++ [ru]) ++ rest)%list by (by rewrite <- app_assoc).
  assert (Hn : 0 <= len (pattern ru)) by (unfold len; lia).
  cbn [allowed_loop]. fold (hits path ru). destruct (hits path ru) eqn:Hhit; cbn [negb].
  - destruct ((best <? len (pattern ru)) || ((len (pattern ru) =? best) && allow ru)) eqn:Hcmp.
    + apply IH; [lia|]. right. split.
      { exists ru. split; [apply elem_of_app; right; by apply list_elem_of_singleton|done]. }
      intros y [Hy|Hy]%elem_of_app Hyh;
        [|apply list_elem_of_singleton in Hy as ->; split; [lia|done]].
      apply orb_true_iff in Hcmp.
      destruct Hv as [(-> & _ & Hno)|[_ Hall]]; [by rewrite Hno in Hyh|].
      destruct (Hall y Hy Hyh) as [Hle Htie].
      destruct Hcmp as [Hlt%Z.ltb_lt|[Heq%Z.eqb_eq Hal]%andb_true_iff]; [split; lia|].
      rewrite Heq, Hal. done.
    + apply IH; [done|]. apply orb_false_iff in Hcmp as [Hge%Z.ltb_ge Htie].
      apply verdict_keep; [done| |lia]. intros _. split; [done|]. intros Heq Hal.
      by rewrite Heq, Hal, Z.eqb_refl in Htie.
  - apply IH; [done|]. apply verdict_keep; [done|by rewrite Hhit|done].
Qed.

Lemma allowed_loop_spec path rs : allowed_loop path (-1) true rs = true <->
  forall d, d ∈ rs -> allow d = false -> hits path d = true ->
    exists x, x ∈ rs /\ allow x = true /\ hits path x = true /\ len (pattern d) <= len (pattern x).
Proof.
  assert (H0 : verdict path [] (-1) true).
  { left. split; [done|]. split; [done|]. intros y Hy. by apply not_elem_of_nil in Hy. }
  destruct (allowed_loop_verdict path rs [] (-1) true ltac:(lia) H0) as [best Hv]. simpl in Hv.
  destruct (allowed_loop path (-1) true rs).
  - split; [|done]. intros _ d Hd Hal Hh.
    destruct Hv as [(_ & _ & Hno)|[(x & Hx & Hxh & Hxl & Hxa) Hall]]; [by rewrite Hno in Hh|].
    exists x. split; [done|]. split; [done|]. split; [done|]. rewrite Hxl. by apply Hall.
  - split; [done|]. intros Hcond.
    destruct Hv as [(_ & ? & _)|[(x & Hx & Hxh & Hxl & Hxa) Hall]]; [done|].
    destruct (Hcond x Hx Hxa Hxh) as (y & Hy & Hya & Hyh & Hle).
    destruct (Hall y Hy Hyh) as [Hle' Htie]. apply Htie; [lia|done].
Qed.

(** ** Parsing keeps rules compiled *)

Section ParseProps.
Context (ParseFloat : string -> option f64) (outOfRange : f64 -> Z).

Definition groups_ok (gs : list group) : Prop := Forall (fun g => Forall rule_ok (grules g)) gs.

Lemma updateLast_Forall {A} (P : A -> Prop) f l : (forall x, P x -> P (f x)) -> Forall P l -> Forall P (updateLast f l).
Proof.
  intros Hf. induction l as [|x [|y l] IH]; intros HF; [done| |].
  - simpl. rewrite Forall_singleton in HF |- *. by apply Hf.
  - apply Forall_cons in HF as [H1 H2]. apply Forall_cons. split; [done|]. by apply IH.
Qed.

Lemma parseLine_ok line st st' : groups_ok (groups st) ->
  parseLine ParseFloat outOfRange line st = Some st' -> groups_ok (groups st').
Proof.
  intros Hok. unfold parseLine. destruct (CutByte ":" _) as [[key value] ok].
  destruct (negb ok); [by intros [= <-]|]. unfold dispatch.
  destruct (decide (_ = "user-agent")).
  { intros [= <-]. simpl. apply updateLast_Forall; [done|].
    destruct (_ || _); [|done]. apply Forall_app. split; [done|]. by apply Forall_singleton. }
  destruct (decide (_ \/ _)).
  { destruct (groups st) as [|g gs] eqn:Hg; [by intros [= <-]|].
    destruct (decide (_ = "")); [by intros [= <-]|].
    destruct (newRule _ _) as [r|] eqn:Hr; simpl; [|done]. intros [= <-].
    apply newRule_ok in Hr as [Hr _].
    apply (updateLast_Forall _ (fun g => mkGroup (agents g) (grules g ++ [r])%list (delay g)) (g :: gs)); [|done].
    intros x Hx. simpl. apply Forall_app. split; [done|]. by apply Forall_singleton. }
  destruct (decide (_ = "crawl-delay")).
  { destruct (crawlDelay _ _ _); intros [= <-]; [|done]. by apply updateLast_Forall. }
  destruct (decide (_ = "sitemap")); by intros [= <-].
Qed.

Lemma parseLines_ok ls : forall st st', groups_ok (groups st) ->
  parseLines ParseFloat outOfRange ls st = Some st' -> groups_ok (groups st').
Proof.
  induction ls as [|l ls IH]; intros st st' Hok; simpl; [by intros [= <-]|].
  destruct (parseLine _ _ l st) as [st1|] eqn:H1; simpl; [|done].
  apply IH. by eapply parseLine_ok.
Qed.

Lemma merge_ok sel gs : groups_ok gs -> Forall rule_ok (merge sel gs).1.
Proof.
  unfold merge. assert (H : Forall rule_ok (@nil rule)) by done. revert H. generalize (@nil rule) 0.
  induction gs as [|g gs IH]; intros rs d Hrs HF; simpl; [done|].
  apply Forall_cons in HF as [H1 H2]. destruct (existsb _ _); apply IH; try done.
  by rewrite Forall_app.
Qed.

Lemma Parse_ok content agent r : Parse ParseFloat outOfRange content agent = Some r -> Forall rule_ok (rules r).
Proof.
  unfold Parse. destruct (parseLines _ _ _ _) as [st|] eqn:Hp; simpl; [|done].
  apply parseLines_ok in Hp; [|by apply Forall_nil].
  assert (Hs : Forall rule_ok (selectGroups (ToLower agent) (groups st)).1)
    by (unfold selectGroups; destruct (existsb _ _); by apply merge_ok).
  destruct (selectGroups _ _) as [rs d]. by intros [= <-].
Qed.

End ParseProps.

(** ** Rendering a robots.txt

    The inverse of [Parse] on well-formed documents: groups with at least one
    agent and one rule, written one per line. *)

Definition docGroup : Type := list string * list (bool * string).

Definition newline : string := String "010" "".

Definition agentLine (a : string) : string := "User-agent: " ++ a.

Definition ruleLine (r : bool * string) : string := (if r.1 then "Allow: " else "Disallow: ") ++ r.2.

Definition groupLines (g : docGroup) : list string := (map agentLine g.1 ++ map ruleLine g.2)%list.

Fixpoint unlines (ls : list string) : string :=
  match ls with [] => "" | l :: rest => l ++ newline ++ unlines rest end.

Definition render (doc : list docGroup) : string := unlines (concat (map groupLines doc)).

(** *** What the group selection is meant to do

    A group names an agent when one of its tokens, [*] apart, occurs in the
    agent's name up to letter case.  (RFC 9309 compares product tokens; the code
    asks for a substring.) *)
Definition occurs (sub s : string) : Prop := exists before after, s = before ++ sub ++ after.

Definition named (agent : string) (g : docGroup) : Prop :=
  exists a, a ∈ g.1 /\ ToLower a <> "*" /\ ToLower a <> "" /\ occurs (ToLower a) (ToLower agent).

Definition starred (g : docGroup) : Prop := exists a, a ∈ g.1 /\ ToLower a = "*".

(** The rules of the groups with [P], in document order. *)
Inductive picks (P : docGroup -> Prop) : list docGroup -> list (bool * string) -> Prop :=
  | picks_nil : picks P [] []
  | picks_in g doc rs : P g -> picks P doc rs -> picks P (g :: doc) (g.2 ++ rs)%list
  | picks_out g doc rs : ~ P g -> picks P doc rs -> picks P (g :: doc) rs.

(** The groups that name the agent, or else the [*] groups. *)
Definition chosen (agent : string) (doc : list docGroup) (rs : list (bool * string)) : Prop :=
  (exists g, g ∈ doc /\ named agent g) /\ picks (named agent) doc rs \/
  (forall g, g ∈ doc -> ~ named agent g) /\ picks starred doc rs.

(** A token: printable ASCII without white space or [#], short enough for a line. *)
Definition tokenByte (a : ascii) : bool := wordByte a && negb (Ascii.eqb a "#").

Definition token (s : string) : Prop :=
  s <> "" /\ allb tokenByte s = true /\ len s + 32 < maxLine.

Definition docGroup_ok (g : docGroup) : Prop :=
  g.1 <> [] /\ g.2 <> [] /\ Forall token g.1 /\
  Forall (fun r => token r.2 /\ is_Some (compile r.2)) g.2.

(** *** Scanning *)

Definition lineByte (a : ascii) : bool := negb (Ascii.eqb a "010") && negb (Ascii.eqb a "013").

Lemma str_rev_lineByte cur s : allb lineByte s = true -> allb lineByte cur = true -> allb lineByte (str_rev cur s) = true.
Proof.
  revert cur. induction s as [|a s IH]; intros cur; cbn [allb str_rev]; [done|].
  rewrite andb_true_iff. intros [Ha Hs] Hc. apply IH; [done|]. cbn [allb]. by rewrite Ha.
Qed.

Lemma dropCR_line s : allb lineByte s = true -> dropCR (str_rev "" s) = s.
Proof.
  intros Hs. rewrite <- (str_rev_involutive s) at 2.
  pose proof (str_rev_lineByte "" s Hs eq_refl) as Hr. destruct (str_rev "" s) as [|a r]; [done|].
  cbn [allb] in Hr. unfold dropCR, lineByte in *. destruct (Ascii.eqb a "013"); [|done].
  by rewrite andb_false_r in Hr.
Qed.

Lemma scan_loop_line l rest : forall room cur, allb lineByte l = true -> len l < room ->
  scan_loop room cur (l ++ newline ++ rest) = dropCR (str_rev cur l) :: scan_loop maxLine "" rest.
Proof.
  induction l as [|a l IH]; intros room cur Hl Hlen; [done|].
  cbn [allb] in Hl. apply andb_true_iff in Hl as [Ha Hl].
  assert (0 <= len l) by (unfold len; lia).
  assert (Hlen' : len l + 1 < room) by (unfold len in *; cbn [String.length] in Hlen; lia).
  cbn [String.append scan_loop].
  unfold lineByte in Ha. apply andb_true_iff in Ha as [Ha%negb_true_iff _]. rewrite Ha.
  destruct (Z.leb_spec room 1); [lia|]. by rewrite IH by (done || lia).
Qed.

Lemma scan_unlines ls : Forall (fun l => allb lineByte l = true /\ len l < maxLine) ls ->
  scan (unlines ls) = ls.
Proof.
  unfold scan. induction 1 as [|l ls [Hl Hlen] _ IH]; [done|]. cbn [unlines].
  rewrite scan_loop_line by done. by rewrite dropCR_line, IH.
Qed.

Lemma tokenByte_line a : tokenByte a = true -> lineByte a = true.
Proof.
  unfold tokenByte, lineByte, wordByte, between. intros [H _]%andb_true_iff.
  destruct (Ascii.eqb_spec a "010") as [->|_]; [by vm_compute in H|].
  destruct (Ascii.eqb_spec a "013") as [->|_]; [by vm_compute in H|done].
Qed.

Lemma groupLines_lines g : docGroup_ok g ->
  Forall (fun l => allb lineByte l = true /\ len l < maxLine) (groupLines g).
Proof.
  intros (_ & _ & Ha & Hr). unfold groupLines. apply Forall_app. split; apply Forall_map.
  - eapply Forall_impl; [exact Ha|]. intros a (_ & Hb & Hlen). unfold agentLine.
    unfold len in *. rewrite allb_app, str_length_app. split; [|change (String.length "User-agent: ") with 12%nat; lia].
    apply andb_true_iff. split; [done|]. by eapply allb_impl, Hb; apply tokenByte_line.
  - eapply Forall_impl; [exact Hr|]. intros [al p] [(_ & Hb & Hlen) _]. cbn [snd] in *. unfold ruleLine. cbn [fst snd].
    unfold len in *. rewrite allb_app, str_length_app.
    split; [|destruct al; [change (String.length "Allow: ") with 7%nat|change (String.length "Disallow: ") with 10%nat]; lia].
    apply andb_true_iff. split; [by destruct al|]. by eapply allb_impl, Hb; apply tokenByte_line.
Qed.

(** *** Lines *)

Section Lines.
Context (ParseFloat : string -> option f64) (outOfRange : f64 -> Z).
Let line := parseLine ParseFloat outOfRange.
Let lines := parseLines ParseFloat outOfRange.

Lemma cutComment_token pre s : allb (fun a => negb (Ascii.eqb a "#")) pre = true -> allb tokenByte s = true ->
  cutComment (pre ++ s) = pre ++ s.
Proof.
  intros Hp Hs. unfold cutComment. rewrite CutByte_absent; [done|]. rewrite allb_app, Hp.
  eapply allb_impl, Hs. intros a. by intros [_ H]%andb_true_iff.
Qed.

Lemma tokenByte_word s : allb tokenByte s = true -> allb wordByte s = true.
Proof. apply allb_impl. intros a. by intros [H _]%andb_true_iff. Qed.

Lemma keyed_line key s : allb (fun a => negb (Ascii.eqb a "#")) key = true ->
  allb (fun a => negb (Ascii.eqb a ":")) key = true -> allb tokenByte s = true ->
  CutByte ":" (cutComment ((key ++ ": ") ++ s)) = (key, String " " s, true).
Proof.
  intros Hh Hc Hs. rewrite cutComment_token; [|by rewrite allb_app, Hh|done].
  rewrite str_app_assoc. by apply CutByte_present.
Qed.

Lemma updateLast_app {A} (f : A -> A) l x : updateLast f (l ++ [x])%list = (l ++ [f x])%list.
Proof.
  induction l as [|y l IH]; [done|]. simpl.
  destruct (l ++ [x])%list as [|z l'] eqn:Hl; [by destruct l|]. by rewrite IH.
Qed.

Lemma agentLine_dispatch a st : token a ->
  line (agentLine a) st = dispatch ParseFloat outOfRange "user-agent" a st.
Proof.
  intros (_ & Hb & _). unfold line, parseLine.
  change (agentLine a) with (("User-agent" ++ ": ") ++ a).
  rewrite keyed_line by done. cbn [negb].
  by rewrite TrimSpace_word by (by apply tokenByte_word).
Qed.

Lemma ruleLine_dispatch al p st : token p ->
  line (ruleLine (al, p)) st = dispatch ParseFloat outOfRange (if al then "allow" else "disallow") p st.
Proof.
  intros (_ & Hb & _). unfold line, parseLine.
  assert (Hcut : CutByte ":" (cutComment (ruleLine (al, p))) =
            (if al then "Allow" else "Disallow", String " " p, true))
    by (destruct al; [by apply (keyed_line "Allow" p)|by apply (keyed_line "Disallow" p)]).
  rewrite Hcut. cbn [negb]. rewrite TrimSpace_word by (by apply tokenByte_word).
  by destruct al.
Qed.

(** The agent lines after the first extend the group it opened. *)
Lemma agentLines_parse rest gs ags : forall as_, Forall token as_ ->
  lines (map agentLine as_ ++ rest)%list (mkP (gs ++ [mkGroup ags [] 0])%list true []) =
  lines rest (mkP (gs ++ [mkGroup (ags ++ map ToLower as_)%list [] 0])%list true []).
Proof.
  intros as_ Has. revert ags. induction Has as [|a as_ Ha _ IH]; intros ags; [by rewrite app_nil_r|].
  change (lines (map agentLine (a :: as_) ++ rest)%list ?s) with
    (st ← line (agentLine a) s; lines (map agentLine as_ ++ rest)%list st).
  rewrite agentLine_dispatch by done. unfold dispatch. rewrite decide_True by done.
  cbn [groups lastWasAgent sitemaps negb orb].
  replace (match (gs ++ [mkGroup ags [] 0])%list with [] => true | _ => false end) with false by (by destruct gs).
  rewrite updateLast_app. cbn [mbind option_bind agents grules delay]. rewrite IH.
  by rewrite <- app_assoc.
Qed.

Lemma ruleLines_parse rest gs ags rs : Forall (fun r => token r.2 /\ is_Some (compile r.2)) rs ->
  forall lwa rs0, rs <> [] \/ lwa = false ->
  exists rs1, map (fun ru => (allow ru, pattern ru)) rs1 = rs /\
  lines (map ruleLine rs ++ rest)%list (mkP (gs ++ [mkGroup ags rs0 0])%list lwa []) =
  lines rest (mkP (gs ++ [mkGroup ags (rs0 ++ rs1)%list 0])%list false []).
Proof.
  induction 1 as [|[al p] rs [Htok Hc] _ IH]; intros lwa rs0 Hne.
  { exists []. destruct Hne as [ | -> ]; [done|]. by rewrite app_nil_r. }
  destruct (newRule al p) as [r|] eqn:Hr.
  2: { unfold newRule in Hr. destruct Hc as [c Hc]. cbn [snd] in Hc. by rewrite Hc in Hr. }
  destruct (newRule_ok _ _ _ Hr) as (_ & Hal & Hpat).
  destruct (IH false (rs0 ++ [r])%list) as (rs1 & Hmap & Heq); [by right|].
  exists (r :: rs1). split; [by rewrite <- Hmap; simpl; rewrite Hal, Hpat|].
  change (lines (map ruleLine ((al, p) :: rs) ++ rest)%list ?s) with
    (st ← line (ruleLine (al, p)) s; lines (map ruleLine rs ++ rest)%list st).
  rewrite ruleLine_dispatch by done. unfold dispatch.
  rewrite decide_False by (by destruct al). rewrite decide_True by (destruct al; auto).
  cbn [groups lastWasAgent sitemaps].
  destruct (gs ++ [mkGroup ags rs0 0])%list as [|g0 gs0] eqn:Hgs; [by destruct gs|]. rewrite <- Hgs.
  rewrite decide_False by apply Htok.
  replace (bool_decide ((if al then "allow" else "disallow") = "allow")) with al by (by destruct al).
  rewrite Hr. cbn [mbind option_bind]. rewrite updateLast_app. cbn [agents grules delay].
  rewrite Heq. by rewrite <- app_assoc.
Qed.

Lemma groupLines_parse g rest gs : docGroup_ok g ->
  exists g1, agents g1 = map ToLower g.1 /\ map (fun ru => (allow ru, pattern ru)) (grules g1) = g.2 /\ delay g1 = 0 /\
  lines (groupLines g ++ rest)%list (mkP gs false []) = lines rest (mkP (gs ++ [g1])%list false []).
Proof.
  destruct g as [as_ rs]. intros (Hna & Hnr & Ha & Hr). cbn [fst snd] in *.
  destruct as_ as [|a as_]; [done|]. apply Forall_cons in Ha as [Ha Has].
  unfold groupLines. cbn [fst snd]. rewrite <- app_assoc.
  change (lines (map agentLine (a :: as_) ++ ?r)%list ?s) with
    (st ← line (agentLine a) s; lines (map agentLine as_ ++ r)%list st).
  rewrite agentLine_dispatch by done. unfold dispatch. rewrite decide_True by done.
  cbn [groups lastWasAgent sitemaps negb orb]. rewrite updateLast_app. cbn [mbind option_bind agents grules delay app].
  rewrite agentLines_parse by done.
  destruct (ruleLines_parse rest gs ([ToLower a] ++ map ToLower as_)%list rs Hr true [] ltac:(by left)) as (rs1 & Hmap & Heq).
  rewrite Heq. by exists (mkGroup ([ToLower a] ++ map ToLower as_)%list rs1 0).
Qed.

Lemma docLines_parse doc : Forall docGroup_ok doc -> forall gs,
  exists gs1, Forall2 (fun g g1 => agents g1 = map ToLower g.1 /\
                 map (fun ru => (allow ru, pattern ru)) (grules g1) = g.2 /\ delay g1 = 0) doc gs1 /\
  lines (concat (map groupLines doc)) (mkP gs false []) = Some (mkP (gs ++ gs1)%list false []).
Proof.
  induction 1 as [|g doc Hg _ IH]; intros gs.
  - exists []. split; [done|]. by rewrite app_nil_r.
  - cbn [map concat]. destruct (groupLines_parse g (concat (map groupLines doc)) gs Hg) as (g1 & H1 & H2 & H3 & ->).
    destruct (IH (gs ++ [g1])%list) as (gs1 & HF & ->).
    exists (g1 :: gs1). split; [by constructor|]. by rewrite <- app_assoc.
Qed.

(** *** Selecting *)

Lemma merge_filter sel doc gs1 :
  Forall2 (fun (g : docGroup) g1 => agents g1 = map ToLower g.1 /\
     map (fun ru => (allow ru, pattern ru)) (grules g1) = g.2 /\ delay g1 = 0) doc gs1 ->
  map (fun ru => (allow ru, pattern ru)) (merge sel gs1).1 =
    concat (map snd (List.filter (fun g => existsb sel (map ToLower g.1)) doc)) /\ (merge sel gs1).2 = 0.
Proof.
  intros HF. unfold merge.
  enough (H : forall rs, map (fun ru => (allow ru, pattern ru))
     (fold_left (fun '(rs, d) g => if existsb sel (agents g) then ((rs ++ grules g)%list, Z.max d (delay g)) else (rs, d))
        gs1 (rs, 0)).1 = (map (fun ru => (allow ru, pattern ru)) rs ++
    concat (map snd (List.filter (fun g => existsb sel (map ToLower g.1)) doc)))%list /\
    (fold_left (fun '(rs, d) g => if existsb sel (agents g) then ((rs ++ grules g)%list, Z.max d (delay g)) else (rs, d))
        gs1 (rs, 0)).2 = 0) by apply H.
  induction HF as [|g g1 doc gs1 (Ha & Hr & Hd) _ IH]; intros rs; [simpl; by rewrite app_nil_r|].
  cbn [fold_left List.filter]. rewrite <- Ha. destruct (existsb sel (agents g1)); [|apply IH].
  rewrite Hd. change (Z.max 0 0) with 0. destruct (IH (rs ++ grules g1)%list) as [-> ->]. split; [|done].
  rewrite map_app, Hr. cbn [map concat]. by rewrite app_assoc.
Qed.

End Lines.

Lemma HasPrefix_spec s p : HasPrefix s p = true <-> exists rest, s = p ++ rest.
Proof.
  unfold HasPrefix. revert s. induction p as [|a p IH]; intros s; [split; [by exists s|by destruct s]|].
  destruct s as [|b s]; cbn [String.prefix String.append]; [split; [done|by intros [? ?]]|].
  destruct (ascii_dec a b) as [->|Hne].
  - rewrite IH. split; intros [rest H]; exists rest; congruence.
  - split; [done|]. intros [rest H]. congruence.
Qed.

Lemma Contains_spec s sub : Contains s sub = true <-> occurs sub s.
Proof.
  induction s as [|a s IH]; cbn [Contains]; rewrite orb_true_iff, HasPrefix_spec.
  - split; [intros [[rest ->]|]; [by exists "", rest|done]|]. intros ([|] & after & H); [left; by exists after|done].
  - rewrite IH. split.
    + intros [[rest ->]|(before & after & ->)]; [by exists "", rest|by exists (String a before), after].
    + intros ([|b before] & after & H); [left; by exists after|right]. exists before, after. by injection H.
Qed.

(** The code's tests decide the specification. *)
Lemma names_spec agent g : existsb (names (ToLower agent)) (map ToLower g.1) = true <-> named agent g.
Proof.
  rewrite existsb_exists. unfold named, names. split.
  - intros (b & (a & <- & Ha)%in_map_iff & Hn). rewrite !andb_true_iff, !bool_decide_eq_true, Contains_spec in Hn.
    exists a. rewrite list_elem_of_In. tauto.
  - intros (a & Ha & Hstar & Hne & Ho). exists (ToLower a). split; [by apply in_map, list_elem_of_In|].
    by rewrite !andb_true_iff, !bool_decide_eq_true, Contains_spec.
Qed.

Lemma isStar_spec g : existsb isStar (map ToLower g.1) = true <-> starred g.
Proof.
  rewrite existsb_exists. unfold starred, isStar. split.
  - intros (b & (a & <- & Ha)%in_map_iff & Hs%bool_decide_eq_true). exists a. by rewrite list_elem_of_In.
  - intros (a & Ha & Hs). exists (ToLower a). split; [by apply in_map, list_elem_of_In|by apply bool_decide_eq_true].
Qed.

Lemma filter_picks (P : docGroup -> Prop) f doc : (forall g, g ∈ doc -> f g = true <-> P g) ->
  picks P doc (concat (map snd (List.filter f doc))).
Proof.
  induction doc as [|g doc IH]; intros Hf; [constructor|]. cbn [List.filter].
  specialize (IH ltac:(intros g' Hg'; apply Hf; by right)). destruct (f g) eqn:Hg.
  - constructor; [by apply Hf; [left|]|done].
  - apply picks_out; [|done]. rewrite <- Hf by (by left). by rewrite Hg.
Qed.

Lemma existsb_groups agent doc gs1 :
  Forall2 (fun (g : docGroup) g1 => agents g1 = map ToLower g.1 /\
     map (fun ru => (allow ru, pattern ru)) (grules g1) = g.2 /\ delay g1 = 0) doc gs1 ->
  existsb (fun g => existsb (names (ToLower agent)) (agents g)) gs1 =
  existsb (fun g => existsb (names (ToLower agent)) (map ToLower g.1)) doc.
Proof.
  induction 1 as [|g g1 doc gs1 (Ha & _) _ IH]; [done|]. cbn [existsb]. by rewrite <- Ha, IH.
Qed.

(** ** Properties *)

(** C15. [Parse] inverts the rendering of any well-formed document and selects
    its groups: the result has, in document order, the rules of every group one
    of whose tokens occurs in the agent's name (case-insensitively), or of every
    [*] group when none does, and nothing else. *)
Theorem parse_render ParseFloat outOfRange agent doc : Forall docGroup_ok doc ->
  exists r, Parse ParseFloat outOfRange (render doc) agent = Some r /\
    chosen agent doc (map (fun ru => (allow ru, pattern ru)) (rules r)) /\ CrawlDelay r = 0 /\ Sitemaps r = [].
Proof.
  intros Hdoc. unfold Parse, render. rewrite scan_unlines.
  2: { apply Forall_concat, Forall_map. eapply Forall_impl; [exact Hdoc|]. apply groupLines_lines. }
  destruct (docLines_parse ParseFloat outOfRange doc Hdoc []) as (gs1 & HF & Hp). rewrite Hp.
  cbn [mbind option_bind groups sitemaps app].
  unfold selectGroups, chosen. rewrite (existsb_groups agent doc) by done.
  destruct (existsb (fun g => existsb _ (map ToLower g.1)) doc) eqn:Hany.
  - pose proof (merge_filter (names (ToLower agent)) doc gs1 HF) as [H1 H2].
    destruct (merge _ _) as [rs d]. cbn [fst snd] in *. subst d. exists (mkRules rs 0 []). split; [done|]. split; [|done]. left.
    apply existsb_exists in Hany as (g & Hg%list_elem_of_In & Hn). split; [exists g; split; [done|by apply names_spec]|].
    cbn [rules]. rewrite H1. apply filter_picks. intros g' _. apply names_spec.
  - pose proof (merge_filter isStar doc gs1 HF) as [H1 H2].
    destruct (merge _ _) as [rs d]. cbn [fst snd] in *. subst d. exists (mkRules rs 0 []). split; [done|]. split; [|done]. right. split.
    + intros g Hg Hn. apply (names_spec agent g) in Hn.
      rewrite (proj2 (existsb_exists _ _)) in Hany; [done|]. exists g. split; [by apply list_elem_of_In|done].
    + cbn [rules]. rewrite H1. apply filter_picks. intros g' _. apply isStar_spec.
Qed.

Lemma parse_render_witness :
  let doc := [(["Foo"; "bar"], [(false, "/private/"); (true, "/private/x")]); (["*"], [(false, "/")])] in
  exists r, Parse (fun _ => None) (fun _ => 0) (render doc) "my-foo" = Some r /\
    chosen "my-foo" doc (map (fun ru => (allow ru, pattern ru)) (rules r)) /\ CrawlDelay r = 0 /\ Sitemaps r = [].
Proof.
  intros doc.
  assert (Htok : forall s, s <> "" -> allb tokenByte s = true -> len s <= 20 -> token s).
  { intros s H1 H2 H3. split; [done|]. split; [done|]. unfold maxLine. change (2 ^ 20) with 1048576. lia. }
  apply (parse_render (fun _ => None) (fun _ => 0) "my-foo" doc).
  assert (Hc : forall p, compile p <> None -> is_Some (compile p)) by (intros p; by destruct (compile p)).
  repeat (apply Forall_cons; split); try (by apply Forall_nil);
    (split; [done|split; [done|split]]); cbn [fst snd];
    repeat (apply Forall_cons; split); try (by apply Forall_nil); cbn [fst snd]; try split;
    first [apply Htok; [done|done|by vm_compute] | apply Hc; by vm_compute].
Defined.

(** A group for another crawler, whose name is part of ours, is obeyed instead of
    the [*] group. *)
Example substring_agent :
  option_map (fun r => map pattern (rules r))
    (Parse (fun _ => None) (fun _ => 0) (render [(["web"], [(true, "/")]); (["*"], [(false, "/")])]) "web-harvester") = Some ["/"].
Proof. by vm_compute. Qed.

(** C16. [Allowed] is the longest-match rule of RFC 9309, for rules as [Parse]
    returns them: a path other than /robots.txt is refused exactly when some
    Disallow pattern that matches it is strictly longer than every matching
    Allow pattern; a pattern matches when the decoded path is its literals in
    order, separated by runs without newlines, up to the end if anchored. *)
Theorem allowed_longest_match r path : Forall rule_ok (rules r) -> path <> "/robots.txt" ->
  let p := unescape (if decide (path = "") then "/" else path) in
  Allowed r path = true <->
  forall d, d ∈ rules r -> allow d = false -> Matches (pattern d) p ->
    exists a, a ∈ rules r /\ allow a = true /\ Matches (pattern a) p /\ len (pattern d) <= len (pattern a).
Proof.
  intros Hok Hne p. unfold Allowed. fold p.
  rewrite decide_False by (by destruct (decide (path = ""))). rewrite allowed_loop_spec.
  assert (Hm : forall ru, ru ∈ rules r -> hits p ru = true <-> Matches (pattern ru) p).
  { intros ru Hru. rewrite Forall_forall in Hok. apply (MatchString_spec (pattern ru)). by apply Hok. }
  split; intros H d Hd Hal Hhit.
  - destruct (H d Hd Hal) as (x & Hx & Hxa & Hxh & Hle); [by apply Hm|].
    exists x. split; [done|]. split; [done|]. split; [by apply Hm|done].
  - destruct (H d Hd Hal) as (x & Hx & Hxa & Hxh & Hle); [by apply Hm|].
    exists x. split; [done|]. split; [done|]. split; [by apply Hm|done].
Qed.

Lemma allowed_longest_match_witness :
  match Parse (fun _ => None) (fun _ => 0) (render [(["*"], [(false, "/a*b"); (true, "/a/*b$")])]) "x" with
  | Some r => Allowed r "/a/ccb" = true /\ Allowed r "/a/ccbd" = false
  | None => False
  end.
Proof.
  destruct (Parse _ _ _ _) as [r|] eqn:Hr; [|by vm_compute in Hr].
  pose proof (Parse_ok _ _ _ _ _ Hr) as Hok.
  split; [|vm_compute in Hr; injection Hr as <-; by vm_compute].
  apply (allowed_longest_match r "/a/ccb" Hok); [done|].
  vm_compute in Hr. injection Hr as <-. clear Hok.
  intros d Hd Hal Hm. cbn [rules] in Hd |- *. rewrite !elem_of_cons in Hd.
  destruct Hd as [->|[->|Hd]]; [|done|by apply not_elem_of_nil in Hd].
  eexists. split; [right; left|]. split; [done|]. split; [|by vm_compute].
  exists [99; 99; 98]. split; [by vm_compute|].
  apply (gaps_lit true [99; 99] [98] [] []); [by repeat constructor|by constructor].
Defined.

(** *** The cache *)

Inductive cache_run (ParseFloat : string -> option f64) (outOfRange : f64 -> Z) (agent : string) : Cache -> Prop :=
  | run_new : cache_run ParseFloat outOfRange agent (mkCache agent ∅ [])
  | run_for get scheme host c c' r : cache_run ParseFloat outOfRange agent c ->
      For ParseFloat outOfRange get scheme host c = Some (c', r) -> cache_run ParseFloat outOfRange agent c'.

Lemma For_spec pf oor get scheme host c c' r : For pf oor get scheme host c = Some (c', r) ->
  let origin := scheme ++ "://" ++ host in
  (entries c !! origin = Some r /\ c' = c) \/
  (entries c !! origin = None /\ rulesFor pf oor (Agent c) (get (origin ++ "/robots.txt")) = Some r /\
   c' = mkCache (Agent c) (<[origin := r]> (entries c)) (requests c ++ [origin])%list).
Proof.
  unfold For. cbv zeta. destruct (entries c !! (scheme ++ "://" ++ host)) as [r0|].
  - intros [= <- <-]. by left.
  - destruct (rulesFor _ _ _ _) as [r0|]; cbn [mbind option_bind]; [|done].
    intros [= <- <-]. by right.
Qed.

Lemma cache_run_inv pf oor agent c : cache_run pf oor agent c ->
  Agent c = agent /\ NoDup (requests c) /\ forall o, o ∈ requests c <-> is_Some (entries c !! o).
Proof.
  induction 1 as [|get scheme host c c' r _ (IHa & IHn & IHd) HF].
  - split; [done|]. split; [constructor|]. intros o. cbn [entries requests]. rewrite lookup_empty.
    split; [intros H; by apply not_elem_of_nil in H|by intros [? ?]].
  - apply For_spec in HF as [(_ & ->)|(Hnone & _ & ->)]; [done|]. cbn [Agent requests entries].
    split; [done|]. split.
    + apply NoDup_app. split; [done|]. split; [|apply NoDup_singleton].
      intros o Ho Hin. apply list_elem_of_singleton in Hin as ->. apply IHd in Ho as [? Ho]. congruence.
    + intros o. rewrite elem_of_app, list_elem_of_singleton, IHd. split.
      * intros [Ho| -> ]; [|rewrite lookup_insert_eq; eauto].
        destruct (decide (o = scheme ++ "://" ++ host)) as [->|]; [rewrite lookup_insert_eq; eauto|].
        by rewrite lookup_insert_ne.
      * destruct (decide (o = scheme ++ "://" ++ host)) as [->|]; [by right|].
        rewrite lookup_insert_ne by done. by left.
Qed.

(** The cache fetches each origin's robots.txt at most once: a call for an
    origin already asked about changes nothing and returns the stored rules,
    the first call records them, and from then on every call for that origin
    returns those same rules whatever the site now answers. *)
Theorem cache_fetches_once pf oor agent c get scheme host c' r :
  cache_run pf oor agent c -> For pf oor get scheme host c = Some (c', r) ->
  let origin := scheme ++ "://" ++ host in
  NoDup (requests c') /\
  (origin ∈ requests c -> c' = c) /\
  (origin ∉ requests c -> requests c' = (requests c ++ [origin])%list /\
     rulesFor pf oor agent (get (origin ++ "/robots.txt")) = Some r) /\
  forall get', For pf oor get' scheme host c' = Some (c', r).
Proof.
  intros Hrun HF origin. pose proof (run_for _ _ _ _ _ _ _ _ _ Hrun HF) as Hrun'.
  destruct (cache_run_inv _ _ _ _ Hrun) as (Ha & _ & Hd).
  destruct (cache_run_inv _ _ _ _ Hrun') as (_ & Hn' & _).
  split; [done|]. unfold For. fold origin.
  apply For_spec in HF as [(Hs & ->)|(Hnone & Hr & ->)]; [fold origin in Hs|fold origin in Hnone, Hr |- *].
  - split; [done|]. split; [|by rewrite Hs]. intros Hno. exfalso. apply Hno, Hd. eauto.
  - split; [intros Ho; apply Hd in Ho as [? Ho]; congruence|]. split; [by rewrite <- Ha|].
    intros get'. cbn [entries]. by rewrite lookup_insert_eq.
Qed.

Lemma cache_fetches_once_witness :
  let f := For (fun _ => None) (fun _ => 0) in
  let c0 := mkCache "x" ∅ [] in
  match f (fun _ => GetResp 404 "") "https" "a.test" c0 with
  | Some (c1, r) => f (fun _ => GetErr) "https" "a.test" c1 = Some (c1, r)
  | None => False
  end.
Proof.
  intros f c0. destruct (f _ _ _ c0) as [[c1 r]|] eqn:H1; [|by vm_compute in H1].
  destruct (cache_fetches_once (fun _ => None) (fun _ => 0) "x" c0 _ "https" "a.test" c1 r
              (run_new _ _ _) H1) as (_ & _ & _ & H).
  apply H.
Defined.

(** What an origin's answer to /robots.txt means, as RFC 9309 asks: a
    network error, a 5xx, a 429 or a stray status forbids every path but
    /robots.txt itself; any other 4xx allows everything; a 2xx is parsed. *)
Theorem robots_status_policy pf oor agent get r path :
  rulesFor pf oor agent get = Some r -> path = "" \/ HasPrefix path "/" = true -> path <> "/robots.txt" ->
  match get with
  | GetErr => Allowed r path = false
  | GetResp status body =>
      if (200 <=? status) && (status <=? 299) then Parse pf oor body agent = Some r
      else Allowed r path = (400 <=? status) && (status <=? 499) && negb (status =? 429)
  end.
Proof.
  intros Hr Hp Hne.
  assert (Hall : Allowed AllowAll path = true) by (unfold Allowed; by repeat case_decide).
  assert (Hnone : Allowed DisallowAll path = false).
  { unfold Allowed. assert (Hp' : exists s, (if decide (path = "") then "/" else path) = String "/" s).
    { destruct (decide (path = "")); [by exists ""|]. destruct Hp as [|Hp]; [done|].
      destruct path as [|a s]; [done|]. exists s. revert Hp. unfold HasPrefix. cbn [String.prefix].
      destruct (Ascii.ascii_dec "/" a) as [<-|]; done. }
    rewrite decide_False by (by destruct (decide (path = ""))). destruct Hp' as [s ->].
    assert (Hu : exists s', unescape (String "/" s) = String "/" s').
    { unfold unescape. change (PathUnescape (String "/" s)) with (String "/" <$> PathUnescape s).
      destruct (PathUnescape s); simpl; eauto. }
    destruct Hu as [s' ->]. unfold DisallowAll. cbn [rules allowed_loop re pattern allow].
    unfold MatchString, runes. rewrite decode_ascii_cons by done. reflexivity. }
  destruct get as [|status body]; simpl in Hr; [by injection Hr as <-|].
  replace (status <=? 299) with (status <? 300) by lia. replace (status <=? 499) with (status <? 500) by lia.
  destruct (_ && (status <? 300)); [done|].
  destruct ((400 <=? status) && (status <? 500) && negb (status =? 429)); by injection Hr as <-.
Qed.

Lemma robots_status_policy_witness : Allowed DisallowAll "/index.html" = false.
Proof.
  apply (robots_status_policy (fun _ => None) (fun _ => 0) "x" (GetResp 429 "") DisallowAll "/index.html").
  - reflexivity.
  - by right.
  - done.
Defined.

(** A site can crash the crawler: a rule whose percent-decoding is not
    valid UTF-8 (a Latin-1 path such as /caf%E9) makes [regexp.MustCompile]
    panic while its robots.txt is parsed, for every user agent. *)
Theorem robots_latin1_panics pf oor agent :
  rulesFor pf oor agent (GetResp 200 (unlines ["User-agent: *"; "Disallow: /caf%E9"])) = None.
Proof. reflexivity. Qed.
