(* ===== verification/Extract.v ===== *)
(** * Page extraction ([internal/extract/extract.go])

    [Page] turns the HTML of a page into the generic page data plus the fields
    and items of a target's rules; [Links] lists the links to follow.  The HTML
    and URL libraries are the classes of [Web]; selector compilation and
    [json.Valid] are parameters.  A Go map that the code ranges over is the
    association list of its entries in the order the range visits them, with
    distinct keys; [page_deterministic] shows that the order does not matter. *)

From Stdlib Require Import Ascii.
From S2P Require Import Prelude GoString Web Errors Model.

Open Scope string_scope.
Open Scope Z_scope.

Record Rule := mkRule { Selector : string; ruleAttr : string; All : bool; Required : bool }.

Record ItemsSpec := mkItems { itSelector : string; itFields : list (string * Rule); itRequired : bool }.

Record Spec := mkSpec {
  spFields : list (string * Rule);
  spItems : option ItemsSpec;
  TextLimit : Z;
  SkipLinks : bool }.

Definition DefaultTextLimit : Z := Z.shiftl 64 10.

(** ** Text *)

Definition clean (s : string) : string := Join " " (Fields s).

(** The loop of [truncateUTF8]: back up to the start of a character. *)
Fixpoint backUp (s : string) (n : nat) : nat :=
  match n with
  | O => O
  | S n' => match String.get n s with
            | Some a => if Z.land (byteval a) 192 =? 128 then backUp s n' else n
            | None => n
            end
  end.

(** [None] is the panic of slicing with a negative bound. *)
Definition truncateUTF8 (s : string) (n : Z) : option string :=
  if len s <=? n then Some s
  else if n <? 0 then None
  else Some (String.substring 0 (backUp s (Z.to_nat n)) s).

(** ** Validation *)

Section Validate.
(** [cascadia.Compile]: the error, if any. *)
Context (selectorError : string -> option goerr).

Definition checkSelector (where_ sel : string) : option goerr :=
  if decide (TrimSpace sel = "") then Some (EText ("extract: " ++ where_ ++ ": empty selector"))
  else match selectorError sel with
       | Some e => Some (EWrapf ("extract: " ++ where_ ++ ": invalid selector " ++ quoted sel) e)
       | None => None
       end.

(** The first error of a list of checks. *)
Fixpoint firstError (l : list (option goerr)) : option goerr :=
  match l with [] => None | Some e :: _ => Some e | None :: rest => firstError rest end.

Definition Validate (s : Spec) : option goerr :=
  firstError
    (map (fun f => checkSelector ("field " ++ f.1) (Selector f.2)) (spFields s) ++
     match spItems s with
     | None => []
     | Some it =>
         checkSelector "items" (itSelector it) ::
         map (fun f => checkSelector ("items field " ++ f.1) (Selector f.2)) (itFields it)
     end)%list.

End Validate.

Section Extract.
Context `{NetURL} `{DOM}.
Context (json_Valid : string -> bool).

Definition resolve (base : URL) (ref : string) : string :=
  match url_Resolve base (TrimSpace ref) with Some u => url_String u | None => ref end.

(** ** Links *)

Definition isHTTP (u : URL) : bool :=
  bool_decide (Scheme u = "http") || bool_decide (Scheme u = "https").

(** [u.Fragment, u.RawFragment = "", ""] *)
Definition noFragment (u : URL) : URL :=
  mkURL (Scheme u) (User u) (Host u) (Path u) (RawPath u) (RawQuery u) "" "".

(** The absolute URL one matched element contributes, before deduplication. *)
Definition linkOf (base : URL) (s : Sel) : option string :=
  if Contains (ToLower (AttrOr "rel" "" s)) "nofollow" then None
  else match Attr "href" s with
       | None => None
       | Some href =>
           match url_Resolve base (TrimSpace href) with
           | None => None
           | Some u => if isHTTP u then Some (url_String (noFragment u)) else None
           end
       end.

(** The body of [Each]: [seen] and [out] grow together. *)
Definition addLink (base : URL) (out : list string) (s : Sel) : list string :=
  match linkOf base s with
  | Some abs => if decide (abs ∈ out) then out else (out ++ [abs])%list
  | None => out
  end.

Definition Links (base : URL) (doc : Sel) (selector : string) : list string :=
  fold_left (addLink base) (Each (Find selector doc)) [].

(** ** Rules *)

(** [read]: [None] when the element has no such value. *)
Definition read (base : URL) (m : Sel) (attr : string) : option string :=
  let nonEmpty v := if decide (v = "") then None else Some v in
  let kind := ToLower attr in
  if decide (kind = "" \/ kind = "text") then nonEmpty (clean (Text m))
  else if decide (kind = "html") then
    match Html m with Some v => nonEmpty (TrimSpace v) | None => None end
  else match Attr attr m with
       | None => None
       | Some v =>
           let v := TrimSpace v in
           nonEmpty (if decide (kind = "href" \/ kind = "src" \/ kind = "action") then resolve base v else v)
       end.

(** [EachWithBreak] stops after the first match unless [All]. *)
Definition apply_ (base : URL) (s : Sel) (rule : Rule) : option any :=
  let matches := Each (Find (Selector rule) s) in
  let visited := if All rule then matches else take 1 matches in
  let values := omap (fun m => read base m (ruleAttr rule)) visited in
  match values with
  | [] => None
  | v :: _ => if All rule then Some (AStrings values) else Some (AString v)
  end.

(** ** The generic page data *)

Definition metaContent (doc : Sel) (selector : string) : string :=
  TrimSpace (AttrOr "content" "" (First (Find selector doc))).

Definition hiddenElements : string := "script, style, noscript, template, svg, iframe".

Definition visibleText (doc : Sel) : string :=
  clean (Text (Without hiddenElements (Find "body" doc))).

(** [int(NodeName(s)[1] - '0')] on a byte; the selector only matches h1 to h3,
    so the name has a second byte. *)
Definition headingLevel (name : string) : Z :=
  match String.get 1 name with Some a => (byteval a - 48) mod 256 | None => 0 end.

Definition headings (doc : Sel) : list Heading :=
  omap (fun s => let text := clean (Text s) in
                 if decide (text = "") then None else Some (mkHeading (headingLevel (NodeName s)) text))
    (Each (Find "h1, h2, h3" doc)).

(** The first value of an OpenGraph property wins. *)
Definition addOpenGraph (m : gmap string string) (s : Sel) : gmap string string :=
  match Attr "content" s with
  | None => m
  | Some content =>
      let prop := default "" (Attr "property" s) in
      match m !! prop with Some _ => m | None => <[prop := TrimSpace content]> m end
  end.

Definition openGraph (doc : Sel) : gmap string string :=
  fold_left addOpenGraph (Each (Find ("meta[property^=" ++ quoted "og:" ++ "]") doc)) ∅.

Definition jsonLD (doc : Sel) : list string :=
  List.filter json_Valid
    (map (fun s => TrimSpace (Text s))
       (Each (Find ("script[type=" ++ quoted "application/ld+json" ++ " i]") doc))).

(** ** Fields and items *)

(** The loop over the target's fields: the values and the missing names. *)
Definition addField (base : URL) (doc : Sel) (acc : gmap string any * list string) (f : string * Rule)
    : gmap string any * list string :=
  match apply_ base doc f.2 with
  | Some v => (<[f.1 := v]> acc.1, acc.2)
  | None => (acc.1, if Required f.2 then (acc.2 ++ [f.1])%list else acc.2)
  end.

Definition itemOf (base : URL) (s : Sel) (fs : list (string * Rule)) : gmap string any :=
  fold_left (fun m f => match apply_ base s f.2 with Some v => <[f.1 := v]> m | None => m end) fs ∅.

Definition itemsOf (base : URL) (doc : Sel) (it : ItemsSpec) : list (gmap string any) :=
  List.filter (fun m => negb (bool_decide (m = ∅)))
    (map (fun s => itemOf base s (itFields it)) (Each (Find (itSelector it) doc))).

(** [base], moved by [<base href>]. *)
Definition baseOf (base : URL) (doc : Sel) : URL :=
  match Attr "href" (First (Find "base[href]" doc)) with
  | Some href => default base (url_Resolve base (TrimSpace href))
  | None => base
  end.

Definition textOf (doc : Sel) (limit : Z) : string :=
  if limit <? 0 then ""
  else default "" (truncateUTF8 (visibleText doc) (if limit =? 0 then DefaultTextLimit else limit)).

Definition ExtractPage (pageURL html : string) (spec : Spec) : goerr + Model.Page :=
  match url_Parse pageURL with
  | None => inl (EText "extract: page url")
  | Some base0 =>
      match NewDocument html with
      | None => inl (EText "extract: parse html")
      | Some doc =>
          let base := baseOf base0 doc in
          let canonical :=
            match Attr "href" (First (Find ("link[rel=" ++ quoted "canonical" ++ " i]") doc)) with
            | Some href => resolve base href
            | None => ""
            end in
          let '(fields, missing) := fold_left (addField base doc) (spFields spec) (∅, []) in
          let items := match spItems spec with Some it => itemsOf base doc it | None => [] end in
          let missing :=
            match spItems spec with
            | Some it => if itRequired it && bool_decide (items = []) then (missing ++ ["items"])%list else missing
            | None => missing
            end in
          inr (mkPage "" "" "" "" 0 0 "" zeroTime 0 ""
                 (clean (Text (First (Find "title" doc))))
                 (metaContent doc ("meta[name=" ++ quoted "description" ++ " i]"))
                 canonical
                 (TrimSpace (AttrOr "lang" "" (Find "html" doc)))
                 (headings doc) (openGraph doc) (jsonLD doc)
                 (textOf doc (TextLimit spec))
                 (if SkipLinks spec then [] else Links base doc "a[href]")
                 fields items
                 (match missing with [] => None | _ => Some (mkExtraction (sortStrings missing)) end)
                 "")
      end
  end.

End Extract.
