(* ===== verification/ExtractSpec.v ===== *)
(** * Properties of page extraction

    Truncation never splits a character, the links of a page are clean and
    distinct, and what is extracted does not depend on the order in which Go
    ranges over the rules. *)

From Stdlib Require Import Ascii.
From S2P Require Import Prelude GoString Web Errors Model Extract.

Open Scope string_scope.
Open Scope Z_scope.

(** ** Truncation *)

Lemma land_isCont a : (Z.land (byteval a) 192 =? 128) = isCont a.
Proof. by destruct a as [[] [] [] [] [] [] [] []]. Qed.

Lemma get_app_l (a b : string) n : (n < String.length a)%nat -> String.get n (a ++ b) = String.get n a.
Proof.
  revert n. induction a as [|x a IH]; intros n Hn; cbn [String.length] in Hn; [lia|].
  destruct n as [|n]; [done|]. cbn [String.append String.get]. apply IH. lia.
Qed.

Lemma get_app_r (a b : string) n : String.get (String.length a + n) (a ++ b) = String.get n b.
Proof. induction a as [|x a IH]; [done|]. exact IH. Qed.

Lemma get_allb p s n a : allb p s = true -> String.get n s = Some a -> p a = true.
Proof.
  revert n. induction s as [|x s IH]; intros n Hs; [done|]. cbn [allb] in Hs. apply andb_true_iff in Hs as [Hx Hs].
  destruct n as [|n]; cbn [String.get]; [by intros [= <-]|by apply IH].
Qed.

Lemma substring_full s : String.substring 0 (String.length s) s = s.
Proof. induction s as [|x s IH]; [done|]. cbn [String.length String.substring]. by rewrite IH. Qed.

Lemma substring_app a b : String.substring 0 (String.length a) (a ++ b) = a.
Proof. induction a as [|x a IH]; [by destruct b|]. cbn [String.length String.append String.substring]. by rewrite IH. Qed.

Lemma backUp_le s n : (backUp s n <= n)%nat.
Proof. induction n as [|n IH]; [done|]. cbn [backUp]. repeat case_match; lia. Qed.

(** Backing up stops no earlier than at a byte that starts a character. *)
Lemma backUp_ge s n m : (m <= n)%nat -> (forall a, String.get m s = Some a -> isCont a = false) -> (m <= backUp s n)%nat.
Proof.
  intros Hmn Hm. induction n as [|n IH]; [lia|]. cbn [backUp].
  destruct (String.get (S n) s) as [a|] eqn:Hg; [|lia]. rewrite land_isCont.
  destruct (isCont a) eqn:Ha; [|lia]. destruct (decide (m = S n)) as [->|Hne]; [|apply IH; lia].
  rewrite (Hm a Hg) in Ha. done.
Qed.

(** The bytes before a split of a valid string backed up from [n] are whole
    characters. *)
Lemma backUp_split s : validUTF8 s = true -> forall n, (n <= String.length s)%nat ->
  exists r t, s = r ++ t /\ String.length r = backUp s n /\ validUTF8 r = true.
Proof.
  revert s. apply (validUTF8_ind (fun s => forall n, (n <= String.length s)%nat ->
    exists r t, s = r ++ t /\ String.length r = backUp s n /\ validUTF8 r = true)).
  { intros n Hn. exists "", "". cbn [String.length] in Hn. replace n with 0%nat by lia. done. }
  intros r c rest Hc Hv IH n Hn. destruct (chunk_head _ _ Hc) as (a & c' & Hcc & Ha & Hc').
  destruct (decide (n < String.length c)%nat) as [Hlt|Hge].
  - exists "", (c ++ rest). split_and!; [done| |done]. cbn [String.length]. symmetry.
    clear Hn. induction n as [|n IHn]; [done|]. cbn [backUp]. rewrite get_app_l by done.
    rewrite Hcc in Hlt |- *. cbn [String.length String.get] in *.
    destruct (String.get n c') as [x|] eqn:Hx.
    + rewrite land_isCont, (get_allb _ _ _ _ Hc' Hx). rewrite <- Hcc. apply IHn. rewrite Hcc. cbn [String.length]. lia.
    + exfalso. clear -Hx Hlt. assert (Hl : (n < String.length c')%nat) by lia. clear Hlt. revert n Hx Hl.
      induction c' as [|y c' IH]; intros [|n] Hx Hl; cbn [String.length String.get] in *; try lia; try done.
      apply (IH n); [done|lia].
  - rewrite str_length_app in Hn. destruct (IH (n - String.length c)%nat ltac:(lia)) as (r1 & t1 & -> & Hr1 & Hv1).
    exists (c ++ r1), t1. rewrite str_app_assoc, str_length_app, Hr1, (validUTF8_chunk _ _ _ Hc). split_and!; [done| |done].
    clear Hr1. set (rest := r1 ++ t1) in *.
    assert (Hshift : forall m, backUp (c ++ rest) (String.length c + m) = (String.length c + backUp rest m)%nat).
    { induction m as [|m IHm].
      - cbn [backUp]. rewrite !Nat.add_0_r. apply Nat.le_antisymm; [apply backUp_le|]. apply backUp_ge; [done|].
        intros b Hb. pose proof (get_app_r c rest 0) as Hg. rewrite Nat.add_0_r in Hg. rewrite Hg in Hb.
        destruct rest as [|b' rest']; [done|]. injection Hb as ->. by apply (validUTF8_head b rest').
      - rewrite Nat.add_succ_r. cbn [backUp]. rewrite <- Nat.add_succ_r, get_app_r.
        destruct (String.get (S m) rest); [|done]. by case_match. }
    rewrite <- Hshift. f_equal. lia.
Qed.

Lemma validUTF8_app_inv r : validUTF8 r = true -> forall t, validUTF8 (r ++ t) = validUTF8 t.
Proof.
  revert r. apply (validUTF8_ind (fun r => forall t, validUTF8 (r ++ t) = validUTF8 t)); [done|].
  intros r c rest Hc _ IH t. by rewrite str_app_assoc, (validUTF8_chunk _ _ _ Hc).
Qed.

(** [truncateUTF8] cuts valid text to a prefix of at most [n] bytes made of
    whole characters, and no longer prefix of whole characters fits; text that
    already fits is returned as it is. *)
Theorem truncate_whole_characters s n : 0 <= n -> validUTF8 s = true ->
  exists r t, truncateUTF8 s n = Some r /\ s = r ++ t /\ len r <= n /\ validUTF8 r = true /\
    (len s <= n -> r = s) /\
    forall r' t', s = r' ++ t' -> validUTF8 r' = true -> len r' <= n -> len r' <= len r.
Proof.
  intros Hn Hv. unfold truncateUTF8, len. destruct (Z.leb_spec (Z.of_nat (String.length s)) n) as [Hle|Hgt].
  { exists s, "". rewrite str_app_nil_r. split_and!; try done. intros r' t' -> _ _. rewrite str_length_app. lia. }
  rewrite (proj2 (Z.ltb_ge n 0)) by lia.
  destruct (backUp_split s Hv (Z.to_nat n) ltac:(lia)) as (r & t & He & Hr & Hvr).
  pose proof (backUp_le s (Z.to_nat n)) as Hle.
  exists r, t. rewrite <- Hr. split_and!; [|done|lia|done|lia|].
  { rewrite He at 1. by rewrite substring_app. }
  intros r' t' He' Hv' Hl'. rewrite Hr. apply Nat2Z.inj_le, backUp_ge; [lia|].
  intros a Ha. rewrite He' in Ha, Hv. pose proof (get_app_r r' t' 0) as Hg. rewrite Nat.add_0_r in Hg. rewrite Hg in Ha.
  rewrite validUTF8_app_inv in Hv by done. destruct t' as [|b t'']; [done|]. injection Ha as ->.
  by apply (validUTF8_head a t'').
Qed.

Lemma truncate_whole_characters_witness :
  exists r t, truncateUTF8 (String (chr 226) (String (chr 130) (String (chr 172) "uro"))) 4 = Some r /\
    String (chr 226) (String (chr 130) (String (chr 172) "uro")) = r ++ t /\ len r <= 4.
Proof.
  destruct (truncate_whole_characters (String (chr 226) (String (chr 130) (String (chr 172) "uro"))) 4) as (r & t & H1 & H2 & H3 & _);
    [lia|by vm_compute|].
  exists r, t. split; [exact H1|]. split; [exact H2|exact H3].
Defined.

Section PageSpec.
Context `{NetURL} `{DOM}.
Context (json_Valid : string -> bool).

(** ** Links *)

Lemma addLink_spec base ss : forall out, NoDup out ->
  NoDup (fold_left (addLink base) ss out) /\
  forall x, x ∈ fold_left (addLink base) ss out <-> x ∈ out \/ exists s, s ∈ ss /\ linkOf base s = Some x.
Proof.
  induction ss as [|s ss IH]; intros out Hnd; cbn [fold_left].
  { split; [done|]. intros x. split; [by left|]. intros [?|(s & Hs & _)]; [done|]. by apply not_elem_of_nil in Hs. }
  assert (Hadd : NoDup (addLink base out s) /\ forall x, x ∈ addLink base out s <-> x ∈ out \/ linkOf base s = Some x).
  { unfold addLink. destruct (linkOf base s) as [abs|] eqn:Hl.
    2: { split; [done|]. intros x. split; [by left|by intros [?|[=]]]. }
    destruct (decide (abs ∈ out)) as [Hin|Hin].
    - split; [done|]. intros x. split; [by left|]. by intros [?|[= <-]].
    - split; [apply NoDup_app; split_and!; [done| |apply NoDup_singleton]; intros x Hx Hx2%list_elem_of_singleton; by subst|].
      intros x. rewrite elem_of_app, list_elem_of_singleton. naive_solver. }
  destruct Hadd as [Hnd' Hin]. destruct (IH _ Hnd') as [H1 H2]. split; [done|].
  intros x. rewrite H2, Hin. setoid_rewrite elem_of_cons. naive_solver.
Qed.

(** The links of a page are, without duplicates, exactly the absolute
    fragment-free http(s) URLs of the matching elements that carry an [href]
    the base resolves and no [nofollow] relation. *)
Theorem links_exact base doc selector :
  NoDup (Links base doc selector) /\
  forall x, x ∈ Links base doc selector <->
    exists s href u, s ∈ Each (Find selector doc) /\ Attr "href" s = Some href /\
      Contains (ToLower (AttrOr "rel" "" s)) "nofollow" = false /\
      url_Resolve base (TrimSpace href) = Some u /\ (Scheme u = "http" \/ Scheme u = "https") /\
      x = url_String (noFragment u).
Proof.
  unfold Links. destruct (addLink_spec base (Each (Find selector doc)) [] (NoDup_nil_2)) as [Hnd Hin].
  split; [exact Hnd|]. intros x. rewrite Hin. split.
  - intros [Hx|(s & Hs & Hl)]; [by apply not_elem_of_nil in Hx|]. unfold linkOf, isHTTP in Hl.
    destruct (Contains _ _) eqn:Hc; [done|]. destruct (Attr "href" s) as [href|] eqn:Ha; [|done].
    destruct (url_Resolve _ _) as [u|] eqn:Hu; [|done].
    exists s, href, u. repeat case_bool_decide; try done; injection Hl as <-; split_and!; auto.
  - intros (s & href & u & Hs & Ha & Hc & Hu & Hsch & ->). right. exists s. split; [done|].
    unfold linkOf, isHTTP. rewrite Hc, Ha, Hu. by destruct Hsch as [-> | ->].
Qed.

(** ** Rules *)

(** The names of the required fields that match nothing. *)
Definition missingOf (base : URL) (doc : Sel) (fs : list (string * Rule)) : list string :=
  omap (fun f => if apply_ base doc f.2 is Some _ then None else if Required f.2 then Some f.1 else None) fs.

Definition fieldsOf (base : URL) (doc : Sel) (fs : list (string * Rule)) (m : gmap string any) : gmap string any :=
  fold_left (fun m f => match apply_ base doc f.2 with Some v => <[f.1 := v]> m | None => m end) fs m.

Lemma addField_spec base doc fs : forall m l,
  fold_left (addField base doc) fs (m, l) = (fieldsOf base doc fs m, (l ++ missingOf base doc fs)%list).
Proof.
  induction fs as [|f fs IH]; intros m l; cbn [fold_left fieldsOf missingOf omap list_omap]; [by rewrite app_nil_r|].
  unfold addField at 2. cbn [fst snd]. destruct (apply_ base doc f.2) as [v|]; [by rewrite IH|].
  destruct (Required f.2); rewrite IH; [|done]. by rewrite <- app_assoc.
Qed.

Lemma fieldsOf_perm base doc fs fs' m : fs ≡ₚ fs' -> NoDup (map fst fs) -> fieldsOf base doc fs m = fieldsOf base doc fs' m.
Proof.
  intros Hp Hnd. apply (fold_left_perm fst); [|done|done]. intros a x y Hne.
  destruct (apply_ base doc x.2), (apply_ base doc y.2); try done. by apply insert_insert_ne.
Qed.

Definition items_same (a b : option ItemsSpec) : Prop :=
  match a, b with
  | None, None => True
  | Some x, Some y => itSelector x = itSelector y /\ itRequired x = itRequired y /\
      itFields x ≡ₚ itFields y /\ NoDup (map fst (itFields x))
  | _, _ => False
  end.

(** C22. Extraction does not depend on the order in which Go ranges over the
    target's rules: two runs that visit the field maps in different orders give
    the same page, missing list included. *)
Theorem page_deterministic pageURL html sp sp' :
  NoDup (map fst (spFields sp)) -> spFields sp ≡ₚ spFields sp' -> items_same (spItems sp) (spItems sp') ->
  TextLimit sp = TextLimit sp' -> SkipLinks sp = SkipLinks sp' ->
  ExtractPage json_Valid pageURL html sp = ExtractPage json_Valid pageURL html sp'.
Proof.
  intros Hnd Hp Hit Ht Hs. unfold ExtractPage. rewrite <- Ht, <- Hs.
  destruct (url_Parse pageURL) as [base0|]; [|done]. destruct (NewDocument html) as [doc|]; [|done].
  cbv zeta. set (base := baseOf base0 doc). rewrite !addField_spec, (fieldsOf_perm base doc _ _ ∅ Hp Hnd).
  assert (Hmiss : ([] ++ missingOf base doc (spFields sp) ≡ₚ [] ++ missingOf base doc (spFields sp'))%list)
    by (cbn [app]; unfold missingOf; by rewrite Hp).
  assert (Hnote : forall l l', l ≡ₚ l' ->
    match l with [] => None | _ => Some (mkExtraction (sortStrings l)) end =
    match l' with [] => None | _ => Some (mkExtraction (sortStrings l')) end).
  { intros l l' Hl. rewrite (sortStrings_unique l l' Hl). destruct l, l'; try done.
    - by apply Permutation_nil_cons in Hl.
    - symmetry in Hl. by apply Permutation_nil_cons in Hl. }
  destruct (spItems sp) as [it|], (spItems sp') as [it'|]; [|done|done|].
  2: { by rewrite (Hnote _ _ Hmiss). }
  destruct Hit as (Hsel & Hreq & Hf & Hfn).
  assert (Hitems : itemsOf base doc it = itemsOf base doc it').
  { unfold itemsOf. rewrite Hsel. f_equal. apply map_ext. intros s. by apply fieldsOf_perm. }
  rewrite Hitems, Hreq. destruct (_ && _); [|by rewrite (Hnote _ _ Hmiss)].
  rewrite (Hnote _ _ (Permutation_app_tail ["items"] Hmiss)). done.
Qed.

(** The extraction note is exact: it is absent when every required field
    matched and a required item list is non-empty, and otherwise lists, sorted,
    exactly the required fields that matched nothing, plus [items]. *)
Theorem extraction_note_exact pageURL html sp p :
  ExtractPage json_Valid pageURL html sp = inr p ->
  exists base0 doc, url_Parse pageURL = Some base0 /\ NewDocument html = Some doc /\
  let base := baseOf base0 doc in
  let miss := (missingOf base doc (spFields sp) ++
     match spItems sp with
     | Some it => if itRequired it && bool_decide (pItems p = []) then ["items"] else []
     | None => []
     end)%list in
  (pExtraction p = None <-> miss = []) /\
  (forall note, pExtraction p = Some note -> Missing note ≡ₚ miss /\ Missing note = sortStrings miss) /\
  (forall k, k ∈ missingOf base doc (spFields sp) <->
     exists r, (k, r) ∈ spFields sp /\ apply_ base doc r = None /\ Required r = true).
Proof.
  unfold ExtractPage. destruct (url_Parse pageURL) as [base0|]; [|done]. destruct (NewDocument html) as [doc|]; [|done].
  cbv zeta. rewrite addField_spec. intros [= <-]. exists base0, doc. split; [done|]. split; [done|]. cbv zeta.
  cbn [pItems pExtraction app]. set (base := baseOf base0 doc).
  set (items := match spItems sp with Some it => itemsOf base doc it | None => [] end).
  match goal with |- context [match ?m with [] => None | _ => _ end] => set (missing := m) end.
  set (miss := (missingOf base doc (spFields sp) ++ _)%list).
  assert (Hm : missing = miss).
  { unfold missing, miss. destruct (spItems sp) as [it|]; [|by rewrite app_nil_r].
    destruct (_ && _); [done|by rewrite app_nil_r]. }
  rewrite Hm. split_and!.
  - by destruct miss.
  - intros note Hn. destruct miss as [|a l] eqn:Hl; [done|]. injection Hn as <-. cbn [Missing].
    split; [apply sortStrings_perm|done].
  - intros k. unfold missingOf. rewrite list_elem_of_omap. split.
    + intros ([k' r] & Hin & Hf). cbn [fst snd] in Hf. exists r.
      destruct (apply_ base doc r) eqn:Ha; [done|]. destruct (Required r) eqn:Hr; [|done]. by injection Hf as <-.
    + intros (r & Hin & Ha & Hr). exists (k, r). cbn [fst snd]. by rewrite Ha, Hr.
Qed.

End PageSpec.

Definition ruleFor (sel : string) : Rule := mkRule sel "" false true.

Lemma page_deterministic_witness :
  ExtractPage (fun _ => true) "http://h/p" "price: 3" (mkSpec [("a", ruleFor "price"); ("b", ruleFor "stock")] None 0 true) =
  ExtractPage (fun _ => true) "http://h/p" "price: 3" (mkSpec [("b", ruleFor "stock"); ("a", ruleFor "price")] None 0 true).
Proof.
  apply page_deterministic.
  - apply (bool_decide_unpack _). by vm_compute.
  - apply Permutation_swap.
  - exact I.
  - reflexivity.
  - reflexivity.
Defined.

Lemma extraction_note_exact_witness :
  exists p, ExtractPage (fun _ => true) "http://h/p" "price: 3" (mkSpec [("a", ruleFor "price"); ("b", ruleFor "stock")] None 0 true) = inr p /\
  exists note, pExtraction p = Some note /\ Missing note = ["b"].
Proof.
  destruct (ExtractPage (fun _ => true) "http://h/p" "price: 3" (mkSpec [("a", ruleFor "price"); ("b", ruleFor "stock")] None 0 true)) as [e|p] eqn:Hp.
  - vm_compute in Hp. discriminate.
  - exists p. split; [reflexivity|].
    destruct (extraction_note_exact (fun _ => true) _ _ _ p Hp) as (base0 & doc & _ & Hd & _ & Hn & _).
    vm_compute in Hp. injection Hp as <-. eexists. split; [reflexivity|]. reflexivity.
Defined.
