(* ===== verification/CrawlScope.v ===== *)
(** * Crawl targets and their scope ([internal/crawl/target.go])

    [compile_] validates a target and applies the defaults, [follows] decides
    whether a URL is in scope and [normalize] canonicalizes URLs so that the
    crawler can recognise one it has seen.  Regular expressions are the class
    [Regexp]; selector compilation is a parameter, as in [Extract]. *)

From Stdlib Require Import Ascii.
From S2P Require Import Prelude GoString Web Errors Extract.

Open Scope string_scope.
Open Scope Z_scope.

Class Regexp := {
  regexp : Type;
  re_Compile : string -> goerr + regexp;
  re_MatchString : regexp -> string -> bool }.

Record Target := mkTarget {
  tName : string;
  StartURLs : list string;
  AllowedDomains : list string;
  MaxDepth : Z;
  MaxPages : Z;
  Follow : string;
  Include : list string;
  Exclude : list string;
  Render : string;
  tWaitSelector : string;
  tExtract : Spec;
  RespectRobots : option bool;
  tConcurrency : Z;
  tLocale : string;
  tDevice : string }.

Definition DefaultMaxPages : Z := 100.

Definition skipExtensions : list string :=
  [".7z"; ".avi"; ".bmp"; ".css"; ".dmg"; ".doc"; ".docx";
   ".eot"; ".exe"; ".gif"; ".gz"; ".ico"; ".iso"; ".jpeg";
   ".jpg"; ".js"; ".m4a"; ".mov"; ".mp3"; ".mp4"; ".pdf";
   ".png"; ".ppt"; ".pptx"; ".rar"; ".svg"; ".tar"; ".tgz";
   ".ttf"; ".wav"; ".webm"; ".webp"; ".woff"; ".woff2";
   ".xls"; ".xlsx"; ".zip"].

(** [path.Ext]: from the last dot of the last path element. *)
Fixpoint pathExt (s : string) : string :=
  match s with
  | EmptyString => ""
  | String a rest =>
      let e := pathExt rest in
      if decide (e <> "") then e
      else if Ascii.eqb a "." && allb (fun b => negb (Ascii.eqb b "/")) rest then s else ""
  end.

Section Scope.
Context `{NetURL} `{Regexp}.

Record scope := mkScope {
  target : Target;
  starts : list string;
  domains : list string;
  include : list regexp;
  exclude : list regexp }.

Definition setPath (p : string) (u : URL) : URL :=
  mkURL (Scheme u) (User u) (Host u) p (RawPath u) (RawQuery u) (Fragment u) (RawFragment u).

(** The URL [normalize] prints. *)
Definition normalizeURL (u : URL) : URL :=
  let scheme := ToLower (Scheme u) in
  let host := ToLower (Hostname u) in
  let host := if Contains host ":" then "[" ++ host ++ "]" else host in
  let port := Port u in
  let host :=
    if negb (bool_decide (port = "")) &&
       negb (bool_decide (scheme = "http") && bool_decide (port = "80")) &&
       negb (bool_decide (scheme = "https") && bool_decide (port = "443"))
    then host ++ ":" ++ port else host in
  mkURL scheme (User u) host (if decide (Path u = "") then "/" else Path u) (RawPath u) (RawQuery u) "" "".

Definition normalize (u : URL) : string := url_String (normalizeURL u).

(** ** Validation and defaults *)

Context (selectorError : string -> option goerr).

Definition setDefaults (t : Target) (render : string) : Target :=
  mkTarget (tName t) (StartURLs t) (AllowedDomains t) (MaxDepth t)
    (if MaxPages t <=? 0 then DefaultMaxPages else MaxPages t)
    (if decide (Follow t = "") then "a[href]" else Follow t)
    (Include t) (Exclude t) render (tWaitSelector t) (tExtract t)
    (Some (default true (RespectRobots t))) (tConcurrency t) (tLocale t) (tDevice t).

Definition targetError (t : Target) (msg : string) : goerr :=
  EText ("crawl: target " ++ quoted (tName t) ++ ": " ++ msg).

(** The loop over the start URLs: the normalized URLs and their hosts. *)
Fixpoint compileStarts (t : Target) (raws : list string) : goerr + list string * list string :=
  match raws with
  | [] => inr ([], [])
  | raw :: rest =>
      match url_Parse (TrimSpace raw) with
      | Some u =>
          if isHTTP u && negb (bool_decide (Host u = "")) then
            match compileStarts t rest with
            | inl e => inl e
            | inr (ss, hs) => inr (normalize u :: ss, Hostname u :: hs)
            end
          else inl (targetError t ("start url " ++ quoted raw ++ " must be an absolute http(s) URL"))
      | None => inl (targetError t ("start url " ++ quoted raw ++ " must be an absolute http(s) URL"))
      end
  end.

Fixpoint compileExprs (t : Target) (what : string) (exprs : list string) : goerr + list regexp :=
  match exprs with
  | [] => inr []
  | expr :: rest =>
      match re_Compile expr with
      | inl e => inl (EWrapf ("crawl: target " ++ quoted (tName t) ++ ": " ++ what ++ " " ++ quoted expr) e)
      | inr re => match compileExprs t what rest with inl e => inl e | inr res => inr (re :: res) end
      end
  end.

Definition domainOf (d : string) : string := ToLower (TrimPrefix (TrimSpace d) ".").

Definition compile_ (t : Target) : goerr + scope :=
  if decide (tName t = "") then inl (EText "crawl: target without a name")
  else if decide (StartURLs t = []) then inl (targetError t "no start_urls")
  else if MaxDepth t <? 0 then inl (targetError t "max_depth must be >= 0")
  else
    match (if decide (Render t = "") then Some "http"
           else if decide (Render t ∈ ["http"; "browser"; "auto"]) then Some (Render t) else None) with
    | None => inl (targetError t ("render " ++ quoted (Render t) ++ " (want http|browser|auto)"))
    | Some render =>
        let t := setDefaults t render in
        match Validate selectorError (tExtract t) with
        | Some e => inl (EWrapf ("crawl: target " ++ quoted (tName t)) e)
        | None =>
            match Validate selectorError (mkSpec [("follow", mkRule (Follow t) "" false false)] None 0 false) with
            | Some e => inl (EWrapf ("crawl: target " ++ quoted (tName t) ++ ": follow") e)
            | None =>
                match compileStarts t (StartURLs t) with
                | inl e => inl e
                | inr (ss, hs) =>
                    let ds := ((if decide (AllowedDomains t = []) then hs else []) ++ map domainOf (AllowedDomains t))%list in
                    match compileExprs t "include" (Include t) with
                    | inl e => inl e
                    | inr inc =>
                        match compileExprs t "exclude" (Exclude t) with
                        | inl e => inl e
                        | inr exc => inr (mkScope t ss ds inc exc)
                        end
                    end
                end
            end
        end
    end.

(** ** Scope *)

Definition inDomain (s : scope) (host : string) : bool :=
  existsb (fun d => bool_decide (host = d) || HasSuffix host ("." ++ d)) (domains s).

Definition follows (s : scope) (raw : string) : bool :=
  match url_Parse raw with
  | None => false
  | Some u =>
      if negb (isHTTP u) then false
      else if bool_decide (ToLower (pathExt (Path u)) ∈ skipExtensions) then false
      else if negb (inDomain s (ToLower (Hostname u))) then false
      else if negb (match include s with [] => true | _ => existsb (fun re => re_MatchString re raw) (include s) end) then false
      else negb (existsb (fun re => re_MatchString re raw) (exclude s))
  end.

End Scope.

Arguments scope {_}.
