(* ===== verification/ScopeSpec.v ===== *)
(** * Properties of the crawl scope

    What [follows] lets through, the canonical form of URLs, and a start host
    with an upper-case letter, whose links are never followed. *)

From Stdlib Require Import Ascii.
From S2P Require Import Prelude GoString Web Errors Extract CrawlScope.

Open Scope string_scope.
Open Scope Z_scope.

(** ** Scope *)

Section ScopeSpec.
Context `{NetURL} `{Regexp}.

(** C36. A URL is followed only within scope: it parses, it is http(s), its file
    type is not a skipped one, its lower-cased host is an allowed domain or a
    dot-separated subdomain of one, it matches an include expression when there
    are any, and it matches no exclude expression; and every such URL is
    followed. *)
Theorem follows_exact s raw :
  follows s raw = true <->
  exists u d, url_Parse raw = Some u /\ (Scheme u = "http" \/ Scheme u = "https") /\
    ToLower (pathExt (Path u)) ∉ skipExtensions /\
    d ∈ domains s /\ (ToLower (Hostname u) = d \/ exists sub, ToLower (Hostname u) = sub ++ "." ++ d) /\
    (include s = [] \/ exists re, re ∈ include s /\ re_MatchString re raw = true) /\
    forall re, re ∈ exclude s -> re_MatchString re raw = false.
Proof.
  assert (Hex : forall {A} (f : A -> bool) l, existsb f l = true <-> exists x, x ∈ l /\ f x = true)
    by (intros; rewrite existsb_exists; by setoid_rewrite list_elem_of_In).
  unfold follows. split.
  - destruct (url_Parse raw) as [u|]; [|done]. destruct (isHTTP u) eqn:Hh; [|done]. cbn [negb].
    case_bool_decide as Hskip; [done|]. destruct (inDomain s _) eqn:Hd; [|done]. cbn [negb].
    destruct (match include s with [] => true | _ => _ end) eqn:Hi; [|done]. cbn [negb]. intros Hx%negb_true_iff.
    unfold inDomain in Hd. apply Hex in Hd as (d & Hd & Hm). exists u, d. split_and!; try done.
    + unfold isHTTP in Hh. apply orb_true_iff in Hh as [Hh|Hh]; apply bool_decide_eq_true in Hh; auto.
    + apply orb_true_iff in Hm as [Hm|Hm]; [left; by apply bool_decide_eq_true in Hm|right; by apply HasSuffix_spec in Hm].
    + destruct (include s) as [|r rs] eqn:Hinc; [by left|right]. rewrite <- Hinc in *. by apply Hex.
    + intros re Hre. destruct (re_MatchString re raw) eqn:Hr; [|done].
      assert (existsb (fun re => re_MatchString re raw) (exclude s) = true) by (apply Hex; by exists re). congruence.
  - intros (u & d & -> & Hsch & Hskip & Hd & Hhost & Hinc & Hexc).
    assert (Hh : isHTTP u = true) by (unfold isHTTP; destruct Hsch as [-> | ->]; done).
    rewrite Hh, bool_decide_eq_false_2 by done. cbn [negb].
    assert (Hdom : inDomain s (ToLower (Hostname u)) = true).
    { unfold inDomain. apply Hex. exists d. split; [done|]. apply orb_true_iff.
      destruct Hhost as [Hhost|Hhost]; [left; by apply bool_decide_eq_true|right; by apply HasSuffix_spec]. }
    rewrite Hdom. cbn [negb].
    assert (Hi : match include s with [] => true | _ => existsb (fun re => re_MatchString re raw) (include s) end = true).
    { destruct Hinc as [-> |Hinc]; [done|]. destruct (include s) eqn:Hin; [done|]. rewrite <- Hin in *. by apply Hex. }
    rewrite Hi. cbn [negb]. apply negb_true_iff, not_true_iff_false. rewrite Hex. intros (re & Hre & Hm).
    rewrite Hexc in Hm; done.
Qed.

(** *** Start hosts are compared as written *)

Lemma compileStarts_hosts t raws ss hs : compileStarts t raws = inr (ss, hs) ->
  forall d, d ∈ hs -> exists raw u, raw ∈ raws /\ url_Parse (TrimSpace raw) = Some u /\ d = Hostname u.
Proof.
  revert ss hs. induction raws as [|raw raws IH]; intros ss hs Hc d Hd; cbn [compileStarts] in Hc.
  { injection Hc as <- <-. by apply not_elem_of_nil in Hd. }
  destruct (url_Parse (TrimSpace raw)) as [u|] eqn:Hu; [|done]. destruct (_ && _); [|done].
  destruct (compileStarts t raws) as [e|[ss' hs']]; [done|]. injection Hc as <- <-.
  apply elem_of_cons in Hd as [->|Hd]; [exists raw, u; split; [by left|done]|].
  destruct (IH _ _ eq_refl d Hd) as (raw' & u' & Hr & Hu'). exists raw', u'. split; [by right|done].
Qed.

(** The domains of a compiled target without [allowed_domains]. *)
Lemma compile_domains selectorError t s : compile_ selectorError t = inr s -> AllowedDomains t = [] ->
  forall d, d ∈ domains s -> exists raw u, raw ∈ StartURLs t /\ url_Parse (TrimSpace raw) = Some u /\ d = Hostname u.
Proof.
  intros Hc Ha d Hd. unfold compile_ in Hc. repeat (destruct (decide _); [done|]).
  destruct (MaxDepth t <? 0); [done|]. destruct (if decide (Render t = "") then _ else _) as [render|]; [|done].
  cbv zeta in Hc. repeat (destruct (Validate _ _); [done|]).
  destruct (compileStarts _ _) as [|[ss hs]] eqn:Hs; [done|]. do 2 (destruct (compileExprs _ _ _); [done|]).
  injection Hc as <-. cbn [domains setDefaults AllowedDomains] in Hd. rewrite Ha, app_nil_r in Hd.
  rewrite decide_True in Hd by done. by eapply compileStarts_hosts.
Qed.

Lemma allb_app_r p a b : allb p (a ++ b) = true -> allb p b = true.
Proof. rewrite allb_app. by intros [_ ?]%andb_true_iff. Qed.

(** C40. A target whose start URLs spell their host with an upper-case letter and
    that sets no [allowed_domains] follows no link at all: the domain is taken
    from the URL as written while the host of every candidate is lower-cased. *)
Theorem uppercase_host_follows_nothing selectorError t s : compile_ selectorError t = inr s -> AllowedDomains t = [] ->
  (forall raw u, raw ∈ StartURLs t -> url_Parse (TrimSpace raw) = Some u ->
     allb (fun a => negb (isUpper a)) (Hostname u) = false) ->
  forall raw, follows s raw = false.
Proof.
  intros Hc Ha Hup raw. unfold follows. destruct (url_Parse raw) as [u|]; [|done].
  destruct (negb (isHTTP u)); [done|]. case_bool_decide; [done|].
  enough (Hd : inDomain s (ToLower (Hostname u)) = false) by (by rewrite Hd).
  unfold inDomain. apply not_true_iff_false. rewrite existsb_exists. intros (d & Hd%list_elem_of_In & Hm).
  destruct (compile_domains _ _ _ Hc Ha d Hd) as (raw0 & u0 & Hr & Hu & ->). specialize (Hup raw0 u0 Hr Hu).
  pose proof (ToLower_lower (Hostname u)) as Hlow. apply orb_true_iff in Hm as [Hm|Hm].
  - apply bool_decide_eq_true in Hm. congruence.
  - apply HasSuffix_spec in Hm as [r Hm]. rewrite Hm in Hlow. apply allb_app_r, allb_app_r in Hlow. congruence.
Qed.

End ScopeSpec.

(** A regular expression that is a substring to find, for examples. *)
#[export] Instance toyRegexp : Regexp :=
  {| regexp := string; re_Compile s := inr s; re_MatchString re s := Contains s re |}.

Definition siteTarget (starts : list string) : Target :=
  mkTarget "shop" starts [] 2 0 "" [] [] "" "" (mkSpec [] None 0 false) None 0 "" "".

Lemma uppercase_host_follows_nothing_witness :
  exists s, compile_ (fun _ => None) (siteTarget ["http://Shop.example/"]) = inr s /\
    starts s = ["http://shop.example/"] /\ follows s "http://shop.example/page" = false.
Proof.
  destruct (compile_ (fun _ => None) (siteTarget ["http://Shop.example/"])) as [e|s] eqn:Hc; [by vm_compute in Hc|].
  exists s. split; [reflexivity|]. split; [vm_compute in Hc; injection Hc as <-; reflexivity|].
  apply (uppercase_host_follows_nothing (fun _ => None) _ s Hc); [reflexivity|].
  intros raw u Hraw Hu. apply list_elem_of_singleton in Hraw as ->. vm_compute in Hu. injection Hu as <-. reflexivity.
Defined.
