(* ===== verification/Crawl.v ===== *)
(** * The web crawler ([internal/crawl/crawler.go])

    Three parts.  [reserve] and [waitCrawlDelay] space the requests to one host.
    [visit] is what a worker does with one URL: robots.txt, the shared
    acquisition loop of [Worker], extraction and the links to follow.
    [Run] is a coordinator and its workers talking over two unbuffered
    channels: the transition system of [Coordinator], in which a rendezvous is
    one event and a visit may return any links its [visit] can return. *)

From Stdlib Require Import Ascii.
From S2P Require Import Prelude Float64 GoString Web Errors Model Metrics Worker Extract CrawlScope.
From S2P Require ProxyPool RateLimit Robots.

Open Scope string_scope.
Open Scope Z_scope.

Record job := mkCrawlJob { jurl : string; depth : Z }.

#[export] Instance job_eq_dec : EqDecision job.
Proof. solve_decision. Defined.

Record CrawlStats := mkCrawlStats {
  Fetched : Z; Failed : Z; RobotsDisallow : Z; Flagged : Z; Discovered : Z; BudgetExhausted : bool }.

(** ** Crawl-delay gates *)

(** The locked part of [waitCrawlDelay]: the slot this request got, the next one
    being reserved. *)
Definition reserve (host : string) (delay : duration) (now : time) (gates : gmap string time) : gmap string time * time :=
  let next := default zeroTime (gates !! host) in
  let at_ := if Before next now then now else next in
  (<[host := at_ + delay]> gates, at_).

(** ** Pure helpers *)

Definition rateByHost `{NetURL} (_ : ProxyPool.Proxy) (req : Request) : string :=
  match url_Parse (rURL req) with Some u => ToLower (Host u) | None => rURL req end.

Definition query (u : URL) : string := if decide (RawQuery u = "") then "" else "?" ++ RawQuery u.

(** [strings.SplitN(locale, "-", 2)] *)
Definition localePart (locale : string) (i : nat) : string :=
  let '(a, b, ok) := CutByte "-" locale in
  if ok : bool then (if decide (i = 0%nat) then a else b) else "".

Definition isHTMLType (contentType : string) : bool :=
  let ct := ToLower contentType in bool_decide (ct = "") || Contains ct "html".

(** A nil slice of links is an empty one: [Links] never returns an empty
    non-nil slice. *)
Definition followLinks `{NetURL} `{DOM} (pageURL body selector : string) (extracted : list string) : list string :=
  if bool_decide (selector = "a[href]") && negb (bool_decide (extracted = [])) then extracted
  else match url_Parse pageURL with
       | None => []
       | Some base => match NewDocument body with None => [] | Some doc => Links base doc selector end
       end.

Section Visit.
Context `{NetURL} `{DOM} `{Regexp}.
Context (json_Valid : string -> bool).
Context (ParseFloat : string -> option f64) (outOfRange : f64 -> Z).
Context {T : RateLimit.TokenBucket} {NS : Type}.

Abbreviation World := (World (T := T) (NS := NS)).
Abbreviation Env := (Env (T := T) (NS := NS)).

(** The pool of the page fetches, and the one the robots.txt getter uses. *)
Context (E ER : Env) (cfg robotsCfg : PoolConfig) (fuel : nat).
Context (RunID : string).
(** [Sink.WritePage]: its error, if any, given the calls made before. *)
Context (WritePage : list (Page * option goerr) -> Page -> option goerr).

(** What the crawler keeps besides the shared world; the sink as the calls of
    [WritePage] with what they answered. *)
Record VWorld := mkV {
  vworld : World;
  gates : gmap string time;
  robots : Robots.Cache;
  stats : CrawlStats;
  written : list (Page * option goerr) }.

Definition on_world (f : World -> World) (v : VWorld) : VWorld :=
  mkV (f (vworld v)) (gates v) (robots v) (stats v) (written v).
Definition on_stats (f : CrawlStats -> CrawlStats) (v : VWorld) : VWorld :=
  mkV (vworld v) (gates v) (robots v) (f (stats v)) (written v).

Definition addFetched (s : CrawlStats) : CrawlStats :=
  mkCrawlStats (wrap64 (Fetched s + 1)) (Failed s) (RobotsDisallow s) (Flagged s) (Discovered s) (BudgetExhausted s).
Definition addFailed (s : CrawlStats) : CrawlStats :=
  mkCrawlStats (Fetched s) (wrap64 (Failed s + 1)) (RobotsDisallow s) (Flagged s) (Discovered s) (BudgetExhausted s).
Definition addDisallow (s : CrawlStats) : CrawlStats :=
  mkCrawlStats (Fetched s) (Failed s) (wrap64 (RobotsDisallow s + 1)) (Flagged s) (Discovered s) (BudgetExhausted s).
Definition addFlagged (s : CrawlStats) : CrawlStats :=
  mkCrawlStats (Fetched s) (Failed s) (RobotsDisallow s) (wrap64 (Flagged s + 1)) (Discovered s) (BudgetExhausted s).

(** A timer of duration [d] against the context: with [d <= 0] the timer is
    ready at once, and either may win when both are. *)
Definition timerWait (d : duration) (w : World) : World * bool :=
  if d <=? 0 then (w, negb (ctxDone E w) || timerFirst E w) else sleepCtx E d w.

Definition waitCrawlDelay (host : string) (delay : duration) (v : VWorld) : VWorld * bool :=
  let '(gs, at_) := reserve host delay (now (vworld v)) (gates v) in
  let '(w, fired) := timerWait (at_ - now (vworld v)) (vworld v) in
  (mkV w gs (robots v) (stats v) (written v), fired).

(** [RobotsGetter(pool)]: [None] is a panic or an exhausted fuel. *)
Definition RobotsGetter (robotsURL : string) (w : World) : World * option Robots.getResult :=
  let build px (_ : World) := mkRequest "" robotsURL (cfgUserAgent robotsCfg) (ProxyPool.URL px) "" "" "" "" in
  let use resp (_ : ProxyPool.Proxy) (_ : World) : goerr + Z * string := inr (StatusCode resp, Body resp) in
  let '(w, r) := Acquire ER fuel (MaxProxyWait robotsCfg) build (Some rateByHost) use (MaxRetries robotsCfg) w in
  (w, match r with
      | Acquired (status, body) => Some (Robots.GetResp status body)
      | DroppedErr _ _ (Some e) =>
          match As asStatus e with
          | Some code => Some (Robots.GetResp code "")
          | None => match As asRateLimit e with
                    | Some rl => Some (Robots.GetResp (rlStatus rl) "")
                    | None => Some Robots.GetErr
                    end
          end
      | DroppedErr _ _ None => Some Robots.GetErr
      | AcquirePanic | AcquireFuel => None
      end).

(** [c.Robots.For(ctx, u)] *)
Definition robotsFor (u : URL) (v : VWorld) : VWorld * option Robots.Rules :=
  let origin := Scheme u ++ "://" ++ Host u in
  match Robots.entries (robots v) !! origin with
  | Some r => (v, Some r)
  | None =>
      let '(w, g) := RobotsGetter (origin ++ "/robots.txt") (vworld v) in
      let v := mkV w (gates v) (robots v) (stats v) (written v) in
      match g with
      | None => (v, None)
      | Some g =>
          match Robots.For ParseFloat outOfRange (fun _ => g) (Scheme u) (Host u) (robots v) with
          | Some (c, r) => (mkV w (gates v) c (stats v) (written v), Some r)
          | None => (v, None)
          end
      end
  end.

(** *** One visit *)

Definition visitRequest (s : scope) (j : job) (px : ProxyPool.Proxy) (_ : World) : Request :=
  let t := target s in
  mkRequest "" (jurl j) (cfgUserAgent cfg) (ProxyPool.URL px)
    (localePart (tLocale t) 0) (localePart (tLocale t) 1) (tDevice t) (tWaitSelector t).

(** The fields of the page the crawler stamps. *)
Definition stamp (s : scope) (j : job) (final : string) (resp : Response) (px : ProxyPool.Proxy) (t : time)
    (raw : string) (p : Page) : Page :=
  mkPage (tName (target s)) RunID (jurl j) (if decide (final = jurl j) then pFinalURL p else final) (depth j)
    (StatusCode resp) (ContentType resp) t (Milliseconds (Latency resp)) (ProxyPool.Key px)
    (pTitle p) (pDescription p) (pCanonical p) (pLanguage p) (pHeadings p) (pOpenGraph p) (pJSONLD p)
    (pText p) (pLinks p) (pFields p) (pItems p) (pExtraction p) raw.

(** The [use] callback: the page and the links to follow. *)
Definition usePage (s : scope) (j : job) (resp : Response) (px : ProxyPool.Proxy) (w : World) : goerr + Page * list string :=
  let final := if decide (FinalURL resp = "") then jurl j else FinalURL resp in
  if isHTMLType (ContentType resp) then
    match ExtractPage json_Valid final (Body resp) (tExtract (target s)) with
    | inl e => inl e
    | inr p =>
        let follow := if depth j <? MaxDepth (target s)
                      then followLinks final (Body resp) (Follow (target s)) (pLinks p) else [] in
        let raw := match pExtraction p with Some _ => Body resp | None => pRawBody p end in
        inr (stamp s j final resp px (now w) raw p, follow)
    end
  else inr (stamp s j final resp px (now w) "" emptyPage, []).

(** The loop over the links of a page. *)
Definition nextJobs (s : scope) (j : job) (links : list string) : list job :=
  omap (fun l => match url_Parse l with
                 | None => None
                 | Some lu => let n := normalize lu in
                              if follows s n then Some (mkCrawlJob n (wrap64 (depth j + 1))) else None
                 end) links.

(** After robots.txt: fetch, write and follow.  A page counts as fetched
    whether or not it could be written: the error is only logged. *)
Definition fetchPage (s : scope) (j : job) (v : VWorld) : VWorld * option (list job) :=
  let '(w, r) := Acquire E fuel (MaxProxyWait cfg) (visitRequest s j) (Some rateByHost) (usePage s j)
                   (MaxRetries cfg) (vworld v) in
  let v := mkV w (gates v) (robots v) (stats v) (written v) in
  match r with
  | AcquirePanic | AcquireFuel => (v, None)
  | DroppedErr _ true _ => (v, Some [])
  | DroppedErr _ false _ => (on_world (emit [IncDropped]) (on_stats addFailed v), Some [])
  | Acquired (page, follow) =>
      let v := mkV (emit [IncSuccess] w) (gates v) (robots v) (addFetched (stats v))
                 (written v ++ [(page, WritePage (written v) page)])%list in
      let v := match pExtraction page with
               | Some _ => on_world (emit [IncCalibrationFlagged]) (on_stats addFlagged v)
               | None => v
               end in
      (v, Some (nextJobs s j follow))
  end.

(** [None] in the second component is a panic or an exhausted fuel. *)
Definition visit (s : scope) (j : job) (v : VWorld) : VWorld * option (list job) :=
  match url_Parse (jurl j) with
  | None => (v, Some [])
  | Some u =>
      if default true (RespectRobots (target s)) then
        let '(v, rules) := robotsFor u v in
        match rules with
        | None => (v, None)
        | Some rules =>
            if negb (Robots.Allowed rules (url_EscapedPath u ++ query u)) then
              (on_world (emit [IncRobotsDisallowed]) (on_stats addDisallow v), Some [])
            else if 0 <? Robots.CrawlDelay rules then
              let '(v, fired) := waitCrawlDelay (ToLower (Host u)) (Robots.CrawlDelay rules) v in
              if fired then fetchPage s j v else (v, Some [])
            else fetchPage s j v
        end
      else fetchPage s j v
  end.

End Visit.

(** ** The start of [Run]

    Validation, the check that robots.txt can be respected, and the number of
    workers; the loop itself is [Coordinator]. *)

Definition workerCount (targetConcurrency poolConcurrency : Z) : Z :=
  let n := if targetConcurrency <=? 0 then poolConcurrency else targetConcurrency in
  if n <=? 0 then 1 else n.

Definition runStart `{NetURL} `{Regexp} (selectorError : string -> option goerr) (hasRobots : bool) (poolConcurrency : Z)
    (t : Target) : goerr + scope * Z :=
  match compile_ selectorError t with
  | inl e => inl e
  | inr s =>
      if default true (RespectRobots (target s)) && negb hasRobots then
        inl (targetError (target s) "respects robots.txt but no robots cache is configured")
      else inr (s, workerCount (tConcurrency (target s)) poolConcurrency)
  end.
