(* ===== verification/Coordinator.v ===== *)
(** * The crawl coordinator ([Crawler.Run] in [internal/crawl/crawler.go])

    [Run] as a transition system.  The coordinator owns [seen] and [pending];
    workers receive jobs and send back links over unbuffered channels, so each
    transfer is one event of both sides.  What a visit returns is any list the
    parameter [returns] allows; the context may end at any time.  [step] is
    executable: it answers [None] when the event is not possible. *)

From Stdlib Require Import Ascii.
From S2P Require Import Prelude GoString Crawl.

Open Scope string_scope.
Open Scope Z_scope.

(** A worker: waiting for a job, in [visit], sending links, or returned. *)
Inductive phase := Idle | Visiting (j : job) | Sending (links : list job) | Exited.

#[export] Instance phase_eq_dec : EqDecision phase.
Proof. solve_decision. Defined.

Record CState := mkC {
  seen : gset string;
  pending : list job;
  inFlight : nat;
  discovered : nat;
  exhausted : bool;          (* stats.BudgetExhausted *)
  ctxEnded : bool;           (* ctx.Err() != nil *)
  canceledNil : bool;        (* the canceled case was taken *)
  jobsClosed : bool;
  workers : list phase;
  started : list job;        (* history: the jobs handed out, in order *)
  visits : list (job * list job) }.  (* history: the visits finished, with their links *)

(** [enqueue] *)
Definition enqueue (maxPages : nat) (j : job) (s : CState) : CState :=
  if decide (jurl j ∈ seen s) then s
  else if decide (maxPages <= size (seen s))%nat then
    mkC (seen s) (pending s) (inFlight s) (discovered s) true (ctxEnded s) (canceledNil s) (jobsClosed s)
      (workers s) (started s) (visits s)
  else
    mkC ({[jurl j]} ∪ seen s) (pending s ++ [j])%list (inFlight s) (S (discovered s)) (exhausted s) (ctxEnded s)
      (canceledNil s) (jobsClosed s) (workers s) (started s) (visits s).

Definition enqueues (maxPages : nat) (js : list job) (s : CState) : CState :=
  fold_left (fun s j => enqueue maxPages j s) js s.

(** The state in which the coordinator's loop starts. *)
Definition initial (maxPages nworkers : nat) (starts : list string) : CState :=
  enqueues maxPages (map (fun u => mkCrawlJob u 0) starts)
    (mkC ∅ [] 0 0 false false false false (replicate nworkers Idle) [] []).

Inductive event :=
  | Send (i : nat)                        (* the coordinator hands the next job to worker i *)
  | VisitDone (i : nat) (links : list job)
  | Recv (i : nat)                        (* worker i hands its links to the coordinator *)
  | CtxEnd
  | CancelSeen
  | CloseJobs
  | Exit (i : nat).

(** The condition of the coordinator's loop. *)
Definition looping (s : CState) : bool :=
  negb (bool_decide (pending s = [])) || (0 <? inFlight s)%nat.

Definition step (maxPages : nat) (e : event) (s : CState) : option CState :=
  match e with
  | Send i =>
      match pending s, workers s !! i with
      | j :: rest, Some Idle =>
          if jobsClosed s then None
          else Some (mkC (seen s) rest (S (inFlight s)) (discovered s) (exhausted s) (ctxEnded s) (canceledNil s) false
                       (<[i := Visiting j]> (workers s)) (started s ++ [j])%list (visits s))
      | _, _ => None
      end
  | VisitDone i links =>
      match workers s !! i with
      | Some (Visiting j) =>
          Some (mkC (seen s) (pending s) (inFlight s) (discovered s) (exhausted s) (ctxEnded s) (canceledNil s) (jobsClosed s)
                  (<[i := Sending links]> (workers s)) (started s) (visits s ++ [(j, links)])%list)
      | _ => None
      end
  | Recv i =>
      match workers s !! i with
      | Some (Sending links) =>
          if looping s then
            let s1 := mkC (seen s) (pending s) (pred (inFlight s)) (discovered s) (exhausted s) (ctxEnded s) (canceledNil s)
                        (jobsClosed s) (<[i := Idle]> (workers s)) (started s) (visits s) in
            Some (if ctxEnded s then s1 else enqueues maxPages links s1)
          else None
      | _ => None
      end
  | CtxEnd =>
      if ctxEnded s then None
      else Some (mkC (seen s) (pending s) (inFlight s) (discovered s) (exhausted s) true (canceledNil s) (jobsClosed s)
                   (workers s) (started s) (visits s))
  | CancelSeen =>
      if ctxEnded s && negb (canceledNil s) && looping s then
        Some (mkC (seen s) [] (inFlight s) (discovered s) (exhausted s) (ctxEnded s) true (jobsClosed s)
                (workers s) (started s) (visits s))
      else None
  | CloseJobs =>
      if negb (looping s) && negb (jobsClosed s) then
        Some (mkC (seen s) (pending s) (inFlight s) (discovered s) (exhausted s) (ctxEnded s) (canceledNil s) true
                (workers s) (started s) (visits s))
      else None
  | Exit i =>
      match workers s !! i with
      | Some Idle =>
          if jobsClosed s then
            Some (mkC (seen s) (pending s) (inFlight s) (discovered s) (exhausted s) (ctxEnded s) (canceledNil s) true
                    (<[i := Exited]> (workers s)) (started s) (visits s))
          else None
      | _ => None
      end
  end.

(** [Run] returns once the channel is closed and every worker has returned. *)
Definition finished (s : CState) : bool := jobsClosed s && forallb (fun p => bool_decide (p = Exited)) (workers s).

(** A run from a list of events. *)
Fixpoint crun (maxPages : nat) (es : list event) (s : CState) : option CState :=
  match es with
  | [] => Some s
  | e :: rest => match step maxPages e s with Some s' => crun maxPages rest s' | None => None end
  end.

Section Reach.
Context (returns : job -> list job -> Prop).
Context (maxPages nworkers : nat) (starts : list string).

(** The events a visit of the program can cause. *)
Definition allowed (e : event) (s : CState) : Prop :=
  match e with
  | VisitDone i links => exists j, workers s !! i = Some (Visiting j) /\ returns j links
  | _ => True
  end.

Inductive reach : CState -> Prop :=
  | reach_init : reach (initial maxPages nworkers starts)
  | reach_step e s s' : reach s -> allowed e s -> step maxPages e s = Some s' -> reach s'.

End Reach.
