(* ===== verification/CoordSpec.v ===== *)
(** * Properties of the crawl coordinator

    The invariant of [Run] and what it gives: the page budget, no URL visited
    twice, no deadlock, a bound on the length of every run and completeness of
    a crawl that was neither canceled nor cut by its budget. *)

From Stdlib Require Import Ascii.
From S2P Require Import Prelude GoString Crawl Coordinator.

Open Scope string_scope.
Open Scope Z_scope.

(** ** One worker among the others *)

Definition isBusy (p : phase) : bool := match p with Visiting _ | Sending _ => true | _ => false end.

Definition busy (ws : list phase) : nat := countb isBusy ws.

(** The jobs being visited. *)
Definition visitJob (p : phase) : option job := match p with Visiting j => Some j | _ => None end.

Lemma busy_middle a p b : busy (a ++ p :: b)%list = (busy (a ++ b)%list + if isBusy p then 1 else 0)%nat.
Proof. apply countb_middle. Qed.

(** ** The queue *)

(** What [seen] and the queued jobs say about each other. *)
Record queue_ok (maxPages : nat) (s : CState) : Prop := mkQueueOk {
  q_size : (size (seen s) <= maxPages)%nat;
  q_disc : discovered s = size (seen s);
  q_nodup : NoDup (map jurl (started s ++ pending s));
  q_sub : forall j, j ∈ (started s ++ pending s)%list -> jurl j ∈ seen s;
  q_all : canceledNil s = false -> forall u, u ∈ seen s -> exists j, j ∈ (started s ++ pending s)%list /\ jurl j = u }.

(** The fields [enqueue] leaves alone. *)
Definition same_control (s s' : CState) : Prop :=
  inFlight s' = inFlight s /\ ctxEnded s' = ctxEnded s /\ canceledNil s' = canceledNil s /\
  jobsClosed s' = jobsClosed s /\ workers s' = workers s /\ started s' = started s /\ visits s' = visits s.

(** What enqueueing [js] did. *)
Record enqueued (maxPages : nat) (js : list job) (s s' : CState) : Prop := mkEnqueued {
  en_control : same_control s s';
  en_seen : seen s ⊆ seen s';
  en_exhausted : exhausted s = true -> exhausted s' = true;
  en_all : forall j, j ∈ js -> jurl j ∈ seen s' \/ exhausted s' = true;
  en_origin : forall u, u ∈ seen s' -> u ∈ seen s \/ exists j, j ∈ js /\ jurl j = u;
  en_pending : forall j, j ∈ pending s' -> j ∈ pending s \/ j ∈ js;
  en_weight : (length (pending s') + size (seen s) = length (pending s) + size (seen s'))%nat;
  en_ok : queue_ok maxPages s -> queue_ok maxPages s' }.

Lemma same_control_trans s1 s2 s3 : same_control s1 s2 -> same_control s2 s3 -> same_control s1 s3.
Proof. unfold same_control. intuition congruence. Qed.

Lemma enqueue_spec maxPages j s : enqueued maxPages [j] s (enqueue maxPages j s).
Proof.
  unfold enqueue. destruct (decide (jurl j ∈ seen s)) as [Hin|Hnin].
  { split; try done; try (by left). intros j' Hj%list_elem_of_singleton. subst. by left. }
  destruct (decide (maxPages <= size (seen s))%nat) as [Hfull|Hroom].
  { split; cbn [seen pending exhausted]; try done; try (by left); try (by right). intros []. by split. }
  assert (Hsize : size ({[jurl j]} ∪ seen s) = S (size (seen s))).
  { rewrite size_union by set_solver. by rewrite size_singleton. }
  split; cbn [seen pending exhausted].
  - repeat split.
  - set_solver.
  - done.
  - intros j' ->%list_elem_of_singleton. left. set_solver.
  - intros u [Hu%elem_of_singleton|Hu]%elem_of_union; [subst u; right; exists j; split; [by left|done]|by left].
  - intros j' [Hj|Hj]%elem_of_app; [by left|by right].
  - rewrite Hsize, length_app. simpl. lia.
  - intros [H1 H2 H3 H4 H5]. split; cbn [seen pending started discovered canceledNil].
    + lia.
    + lia.
    + rewrite app_assoc, map_app. apply NoDup_app. split_and!; [done| |apply NoDup_singleton].
      intros u Hu He%list_elem_of_singleton. subst u. apply Hnin.
      apply list_elem_of_fmap in Hu as (j' & -> & Hj'). by apply H4.
    + intros j'. rewrite app_assoc, elem_of_app, list_elem_of_singleton. intros [Hj| ->]; [|set_solver].
      apply elem_of_union. right. by apply H4.
    + intros Hc u [Hu%elem_of_singleton|Hu]%elem_of_union; [subst u|].
      * exists j. split; [|done]. rewrite app_assoc. apply elem_of_app. right. by left.
      * destruct (H5 Hc u Hu) as (j' & Hj & <-). exists j'. split; [|done]. rewrite app_assoc. apply elem_of_app. by left.
Qed.

Lemma enqueues_spec maxPages js : forall s, enqueued maxPages js s (enqueues maxPages js s).
Proof.
  induction js as [|j js IH]; intros s; unfold enqueues; cbn [fold_left].
  { split; try done; try (by left). by intros j ?%not_elem_of_nil. }
  fold (enqueues maxPages js (enqueue maxPages j s)).
  destruct (enqueue_spec maxPages j s) as [A1 A2 A3 A4 A5 A6 A7 A8].
  destruct (IH (enqueue maxPages j s)) as [B1 B2 B3 B4 B5 B6 B7 B8].
  split.
  - by eapply same_control_trans.
  - set_solver.
  - auto.
  - intros j' [->|Hj]%elem_of_cons; [|auto]. destruct (A4 j) as [Hs|He]; [by left|left; set_solver|right; auto].
  - intros u Hu. destruct (B5 u Hu) as [Hu'|(j' & Hj' & <-)]; [|right; exists j'; split; [by right|done]].
    destruct (A5 u Hu') as [?|(j' & Hj' & <-)]; [by left|]. right. exists j'. split; [|done].
    apply list_elem_of_singleton in Hj' as ->. by left.
  - intros j' Hj'. destruct (B6 j' Hj') as [Hp|Hp]; [|by right; right].
    destruct (A6 j' Hp) as [?|Hq%list_elem_of_singleton]; [by left|subst; right; by left].
  - lia.
  - auto.
Qed.

(** ** The invariant *)

Section Inv.
Context (returns : job -> list job -> Prop).
Context (maxPages nworkers : nat) (starts : list string).

(** Where a queued job comes from. *)
Definition provenance (s : CState) (j : job) : Prop :=
  (exists u, u ∈ starts /\ j = mkCrawlJob u 0) \/ exists j' links, (j', links) ∈ visits s /\ j ∈ links.

Record coord_inv (s : CState) : Prop := mkInv {
  ci_queue : queue_ok maxPages s;
  ci_busy : inFlight s = busy (workers s);
  ci_started : started s ≡ₚ (map fst (visits s) ++ omap visitJob (workers s))%list;
  ci_closed : jobsClosed s = true -> pending s = [] /\ inFlight s = 0%nat;
  ci_exited : Exited ∈ workers s -> jobsClosed s = true;
  ci_cancel : canceledNil s = true -> ctxEnded s = true /\ pending s = [];
  ci_len : length (workers s) = nworkers;
  ci_returns : forall j links, (j, links) ∈ visits s -> returns j links;
  ci_sending : forall links, Sending links ∈ workers s -> exists j, (j, links) ∈ visits s;
  ci_delivered : ctxEnded s = false -> forall j links, (j, links) ∈ visits s ->
    Sending links ∈ workers s \/ forall l, l ∈ links -> jurl l ∈ seen s \/ exhausted s = true;
  ci_starts : forall u, u ∈ starts -> u ∈ seen s \/ exhausted s = true;
  ci_jobs : forall j, j ∈ (started s ++ pending s)%list -> provenance s j;
  ci_origin : forall u, u ∈ seen s -> u ∈ starts \/ exists j links l, (j, links) ∈ visits s /\ l ∈ links /\ jurl l = u }.

Lemma busy_idle n : busy (replicate n Idle) = 0%nat.
Proof. unfold busy, countb. by induction n as [|n IH]. Qed.

Lemma inv_initial : coord_inv (initial maxPages nworkers starts).
Proof.
  unfold initial. set (s0 := mkC _ _ _ _ _ _ _ _ _ _ _).
  destruct (enqueues_spec maxPages (map (fun u => mkCrawlJob u 0) starts) s0) as [Hc _ _ Hall Horig Hpend _ Hok].
  set (s := enqueues _ _ s0) in *. clearbody s. destruct Hc as (C1 & C2 & C3 & C4 & C5 & C6 & C7).
  cbn [s0 inFlight ctxEnded canceledNil jobsClosed workers started visits] in *.
  assert (Hjobs : forall j, j ∈ map (fun u => mkCrawlJob u 0) starts -> exists u, u ∈ starts /\ j = mkCrawlJob u 0).
  { intros j Hj. apply list_elem_of_fmap in Hj as (u & -> & Hu). by exists u. }
  split; rewrite ?C1, ?C2, ?C3, ?C4, ?C5, ?C6, ?C7; try done.
  - apply Hok. split; cbn [s0 seen discovered started pending app map canceledNil];
      [rewrite size_empty; lia|by rewrite size_empty|constructor|by intros j ?%not_elem_of_nil|by intros _ u ?%elem_of_empty].
  - by rewrite busy_idle.
  - cbn [map app]. clear. by induction nworkers as [|n IH].
  - intros He. apply elem_of_replicate in He. by destruct He.
  - by rewrite length_replicate.
  - by intros j links ?%not_elem_of_nil.
  - intros links He. apply elem_of_replicate in He. by destruct He.
  - by intros _ j links ?%not_elem_of_nil.
  - intros u Hu. destruct (Hall (mkCrawlJob u 0)); [|by left|by right].
    apply list_elem_of_fmap. by exists u.
  - cbn [app]. intros j Hj. destruct (Hpend j Hj) as [?%not_elem_of_nil|Hj']; [done|].
    left. by apply Hjobs.
  - intros u Hu. left. destruct (Horig u Hu) as [Hu'|(j & Hj & <-)]; [by apply elem_of_empty in Hu'|].
    destruct (Hjobs j Hj) as (u' & Hu' & ->). done.
Qed.

Lemma inv_send i s s' : coord_inv s -> step maxPages (Send i) s = Some s' -> coord_inv s'.
Proof.
  intros [Q B S Cl Ex Ca L R Se D St J O] Hs. cbn [step] in Hs.
  destruct (pending s) as [|j rest] eqn:Hp; [done|].
  destruct (workers s !! i) as [[| | |]|] eqn:Hi; try done. destruct (jobsClosed s) eqn:Hcl; [done|]. injection Hs as <-.
  destruct (list_split_at _ _ _ Hi) as (a & b & Hw & Hins).
  assert (Hmove : ((started s ++ [j]) ++ rest)%list = (started s ++ j :: rest)%list) by (by rewrite <- app_assoc).
  split; cbn [seen pending inFlight discovered exhausted ctxEnded canceledNil jobsClosed workers started visits];
    rewrite ?Hins in *; try done.
  - destruct Q as [Q1 Q2 Q3 Q4 Q5]. rewrite Hp in *. split; cbn [seen pending started discovered canceledNil]; rewrite ?Hmove; done.
  - rewrite busy_middle, B, Hw, busy_middle. simpl. lia.
  - rewrite omap_middle. cbn [visitJob option_list app]. rewrite S, Hw, omap_middle. cbn [visitJob option_list app].
    rewrite <- app_assoc. apply Permutation_app_head. by rewrite Permutation_app_comm.
  - intros He. rewrite <- (Ex ltac:(rewrite Hw; set_solver)). done.
  - intros Hc. by destruct (Ca Hc).
  - rewrite length_app in *. rewrite Hw in L. rewrite length_app in L. exact L.
  - intros links Hl. apply Se. rewrite Hw. set_solver.
  - intros Hc j' links Hv. destruct (D Hc j' links Hv) as [Hsend|?]; [left|by right]. rewrite Hw in Hsend. set_solver.
  - intros j'. rewrite Hmove. intros Hj'. destruct (J j' Hj') as [?|?]; [by left|by right].
Qed.

Lemma inv_visit i links s s' : coord_inv s -> allowed returns (VisitDone i links) s ->
  step maxPages (VisitDone i links) s = Some s' -> coord_inv s'.
Proof.
  intros [Q B S Cl Ex Ca L R Se D St J O] (j & Hi & Hret) Hs. cbn [step] in Hs. rewrite Hi in Hs. injection Hs as <-.
  destruct (list_split_at _ _ _ Hi) as (a & b & Hw & Hins).
  assert (Hv : forall x, x ∈ (visits s ++ [(j, links)])%list <-> x ∈ visits s \/ x = (j, links))
    by (intros x; by rewrite elem_of_app, list_elem_of_singleton).
  split; cbn [seen pending inFlight discovered exhausted ctxEnded canceledNil jobsClosed workers started visits];
    rewrite ?Hins in *; try done.
  - destruct Q as [Q1 Q2 Q3 Q4 Q5]. by split.
  - rewrite busy_middle, B, Hw, busy_middle. simpl. lia.
  - rewrite omap_middle, map_app. cbn [visitJob option_list app map fst]. rewrite S, Hw, omap_middle.
    cbn [visitJob option_list app]. by rewrite <- app_assoc.
  - intros He. apply Ex. rewrite Hw. set_solver.
  - rewrite Hw in L. by rewrite length_app in *.
  - intros j' links'. rewrite Hv. intros [Hin|[= -> ->]]; [by apply R|done].
  - intros links' Hl. destruct (decide (links' = links)) as [->|Hne]; [exists j; apply Hv; by right|].
    destruct (Se links') as (j' & Hj'); [rewrite Hw; set_solver|]. exists j'. apply Hv. by left.
  - intros Hc j' links'. rewrite Hv. intros [Hin|[= -> ->]]; [|left; set_solver].
    destruct (D Hc j' links' Hin) as [Hsend|?]; [left|by right]. rewrite Hw in Hsend. set_solver.
  - intros j' Hj'. destruct (J j' Hj') as [?|(j2 & l2 & H2 & ?)]; [by left|right]. exists j2, l2. split; [apply Hv; by left|done].
  - intros u Hu. destruct (O u Hu) as [?|(j2 & l2 & l & H2 & ?)]; [by left|right]. exists j2, l2, l. split; [apply Hv; by left|done].
Qed.

(** The state after the worker's side of [Recv], as if the context had ended. *)
Definition received (i : nat) (s : CState) : CState :=
  mkC (seen s) (pending s) (pred (inFlight s)) (discovered s) (exhausted s) true (canceledNil s)
    (jobsClosed s) (<[i := Idle]> (workers s)) (started s) (visits s).

Lemma inv_received i links s : coord_inv s -> workers s !! i = Some (Sending links) ->
  coord_inv (received i s) /\ jobsClosed s = false /\
  forall l, Sending l ∈ workers s -> l = links \/ Sending l ∈ workers (received i s).
Proof.
  intros [Q B S Cl Ex Ca L R Se D St J O] Hi.
  destruct (list_split_at _ _ _ Hi) as (a & b & Hw & Hins).
  assert (Hbusy : busy (workers s) = (busy (a ++ b)%list + 1)%nat) by (by rewrite Hw, busy_middle).
  assert (Hncl : jobsClosed s = false).
  { destruct (jobsClosed s) eqn:Hc; [|done]. destruct (Cl eq_refl) as [_ Hz]. lia. }
  split; [|split; [done|]].
  2: { intros l Hl. unfold received. cbn [workers]. rewrite Hins. rewrite Hw in Hl. set_solver. }
  unfold received. split; cbn [seen pending inFlight discovered exhausted ctxEnded canceledNil jobsClosed workers started visits];
    rewrite ?Hins in *; try done.
  - destruct Q as [Q1 Q2 Q3 Q4 Q5]. by split.
  - rewrite B, Hbusy, busy_middle. simpl. lia.
  - rewrite omap_middle. cbn [visitJob option_list app]. by rewrite S, Hw, omap_middle.
  - by rewrite Hncl.
  - intros He. apply Ex. rewrite Hw. set_solver.
  - intros Hc. by destruct (Ca Hc).
  - rewrite Hw in L. by rewrite length_app in *.
  - intros l Hl. apply Se. rewrite Hw. set_solver.
Qed.

Lemma inv_recv i s s' : coord_inv s -> step maxPages (Recv i) s = Some s' -> coord_inv s'.
Proof.
  intros HI Hs. cbn [step] in Hs. destruct (workers s !! i) as [[| |links|]|] eqn:Hi; try done.
  destruct (looping s); [|done]. injection Hs as <-.
  destruct (inv_received i links s HI Hi) as (HR & Hncl & Hother).
  destruct (ci_sending _ HI links) as [j0 Hj0]; [by eapply list_elem_of_lookup_2|].
  pose proof (ci_delivered _ HI) as D. pose proof (ci_cancel _ HI) as Ca. clear HI.
  destruct (ctxEnded s) eqn:Hctx; [exact HR|].
  destruct HR as [Q B S Cl Ex _ L R Se _ St J O]. unfold received in *.
  set (s1 := mkC _ _ _ _ _ false _ _ _ _ _). destruct (enqueues_spec maxPages links s1) as [C Hsub Hexh Hall Horig Hpend _ Hok].
  destruct C as (C1 & C2 & C3 & C4 & C5 & C6 & C7).
  cbn [s1 seen pending inFlight discovered exhausted ctxEnded canceledNil jobsClosed workers started visits] in *.
  set (s' := enqueues maxPages links s1) in *.
  assert (Hmono : forall u, u ∈ seen s \/ exhausted s = true -> u ∈ seen s' \/ exhausted s' = true)
    by (intros u [Hu|He]; [left; set_solver|right; auto]).
  split; rewrite ?C1, ?C2, ?C3, ?C4, ?C5, ?C6, ?C7; try done.
  - apply Hok. destruct Q as [Q1 Q2 Q3 Q4 Q5]. by split.
  - by rewrite Hncl.
  - intros Hc. destruct (Ca Hc). congruence.
  - intros _ j links' Hv. destruct (D eq_refl j links' Hv) as [Hsend|Hdel].
    + destruct (Hother _ Hsend) as [->|?]; [right; intros l Hl; by apply Hall|by left].
    + right. intros l Hl. by apply Hmono, Hdel.
  - intros u Hu. by apply Hmono, St.
  - intros j Hj. unfold provenance. rewrite C7. rewrite elem_of_app in Hj. destruct Hj as [Hj|Hj].
    + apply J, elem_of_app. by left.
    + destruct (Hpend j Hj) as [Hj'|Hj']; [apply J, elem_of_app; by right|]. right. by exists j0, links.
  - intros u Hu. destruct (Horig u Hu) as [Hu'|(l & Hl & <-)]; [by apply O|]. right. by exists j0, links, l.
Qed.

Lemma inv_ctx s s' : coord_inv s -> step maxPages CtxEnd s = Some s' -> coord_inv s'.
Proof.
  intros [Q B S Cl Ex Ca L R Se D St J O] Hs. cbn [step] in Hs. destruct (ctxEnded s) eqn:Hc; [done|]. injection Hs as <-.
  split; cbn [seen pending inFlight discovered exhausted ctxEnded canceledNil jobsClosed workers started visits]; try done.
  - destruct Q as [Q1 Q2 Q3 Q4 Q5]. by split.
  - intros Hn. by destruct (Ca Hn).
Qed.

Lemma inv_cancel s s' : coord_inv s -> step maxPages CancelSeen s = Some s' -> coord_inv s'.
Proof.
  intros [Q B S Cl Ex Ca L R Se D St J O] Hs. cbn [step] in Hs.
  destruct (ctxEnded s) eqn:Hc; [|done]. destruct (canceledNil s) eqn:Hn; [done|]. destruct (looping s) eqn:Hl; [|done].
  injection Hs as <-.
  split; cbn [seen pending inFlight discovered exhausted ctxEnded canceledNil jobsClosed workers started visits]; try done.
  - destruct Q as [Q1 Q2 Q3 Q4 Q5]. split; cbn [seen pending started discovered canceledNil]; try done; rewrite app_nil_r.
    + rewrite map_app in Q3. by apply NoDup_app in Q3 as (? & _ & _).
    + intros j Hj. apply Q4, elem_of_app. by left.
  - intros Hcl. by destruct (Cl Hcl).
  - intros j. rewrite app_nil_r. intros Hj. apply J, elem_of_app. by left.
Qed.

Lemma inv_close s s' : coord_inv s -> step maxPages CloseJobs s = Some s' -> coord_inv s'.
Proof.
  intros [Q B S Cl Ex Ca L R Se D St J O] Hs. cbn [step] in Hs. unfold looping in Hs.
  case_bool_decide as Hp; [|done]. destruct (Nat.ltb_spec 0 (inFlight s)) as [|Hz]; [done|].
  destruct (jobsClosed s) eqn:Hcl; [done|]. injection Hs as <-.
  split; cbn [seen pending inFlight discovered exhausted ctxEnded canceledNil jobsClosed workers started visits]; try done.
  - destruct Q as [Q1 Q2 Q3 Q4 Q5]. by split.
  - intros _. split; [done|lia].
Qed.

Lemma inv_exit i s s' : coord_inv s -> step maxPages (Exit i) s = Some s' -> coord_inv s'.
Proof.
  intros [Q B S Cl Ex Ca L R Se D St J O] Hs. cbn [step] in Hs.
  destruct (workers s !! i) as [[| | |]|] eqn:Hi; try done. destruct (jobsClosed s) eqn:Hcl; [|done]. injection Hs as <-.
  destruct (list_split_at _ _ _ Hi) as (a & b & Hw & Hins).
  split; cbn [seen pending inFlight discovered exhausted ctxEnded canceledNil jobsClosed workers started visits];
    rewrite ?Hins in *; try done.
  - destruct Q as [Q1 Q2 Q3 Q4 Q5]. by split.
  - rewrite busy_middle, B, Hw, busy_middle. simpl. lia.
  - rewrite omap_middle. cbn [visitJob option_list app]. by rewrite S, Hw, omap_middle.
  - rewrite Hw in L. by rewrite length_app in *.
  - intros l Hl. apply Se. rewrite Hw. set_solver.
  - intros Hc j' links Hv. destruct (D Hc j' links Hv) as [Hsend|?]; [left|by right]. rewrite Hw in Hsend. set_solver.
Qed.

Lemma reach_inv s : reach returns maxPages nworkers starts s -> coord_inv s.
Proof.
  induction 1 as [|e s s' _ IH Hal Hs]; [apply inv_initial|]. destruct e.
  - by eapply inv_send.
  - by eapply inv_visit.
  - by eapply inv_recv.
  - by eapply inv_ctx.
  - by eapply inv_cancel.
  - by eapply inv_close.
  - by eapply inv_exit.
Qed.

End Inv.

(** ** What a run guarantees *)

Section Run.
Context (returns : job -> list job -> Prop).
Context (maxPages nworkers : nat) (starts : list string).

Lemma started_in_seen s : queue_ok maxPages s -> (length (started s) <= size (seen s))%nat.
Proof.
  intros [_ _ Q3 Q4 _]. rewrite map_app in Q3. apply NoDup_app in Q3 as (Hnd & _ & _).
  rewrite <- (length_map jurl), <- (size_list_to_set (C := gset string) _ Hnd). apply subseteq_size.
  intros u Hu. apply elem_of_list_to_set, list_elem_of_fmap in Hu as (j & -> & Hj).
  apply Q4, elem_of_app. by left.
Qed.

(** In every state of a crawl, whatever its visits return and however the
    workers interleave: at most [MaxPages] URLs are ever handed out, no URL
    twice, [Discovered] is the number of distinct URLs seen, no more visits are
    in flight than there are workers, and no job is deeper than [MaxDepth]
    when visits only return links within it. *)
Lemma crawl_within_budget D s : 0 <= D -> (forall j links l, returns j links -> l ∈ links -> depth l <= D) ->
  reach returns maxPages nworkers starts s ->
  (length (started s) <= maxPages)%nat /\ NoDup (map jurl (started s)) /\
  discovered s = size (seen s) /\ (inFlight s <= nworkers)%nat /\
  forall j, j ∈ started s -> depth j <= D.
Proof.
  intros HD Hret Hr. pose proof (reach_inv _ _ _ _ _ Hr) as [Q B _ _ _ _ L R _ _ _ J _].
  pose proof (started_in_seen s Q) as Hle. pose proof (countb_le isBusy (workers s) : (busy (workers s) <= _)%nat) as Hb. destruct Q as [Q1 Q2 Q3 Q4 _].
  split_and!; [lia| |done|lia|].
  - rewrite map_app in Q3. by apply NoDup_app in Q3 as (? & _ & _).
  - intros j Hj. destruct (J j) as [(u & _ & ->)|(j' & links & Hv & Hl)]; [apply elem_of_app; by left|done|].
    by apply (Hret j' links), Hl; apply R.
Qed.

(** *** Termination *)

Definition phaseWeight (p : phase) : nat := match p with Visiting _ => 3 | Sending _ => 2 | Idle => 1 | Exited => 0 end.

Definition weight (ws : list phase) : nat := sum_list_with phaseWeight ws.

Lemma weight_middle a p b : weight (a ++ p :: b)%list = (weight (a ++ b)%list + phaseWeight p)%nat.
Proof. unfold weight. rewrite !sum_list_with_app. simpl. lia. Qed.

Definition flag (b : bool) : nat := if b then 0 else 1.

(** The steps a state can still take, at most. *)
Definition measure (s : CState) : nat :=
  (3 * (maxPages - size (seen s)) + 3 * length (pending s) + weight (workers s) +
   flag (ctxEnded s) + flag (canceledNil s) + flag (jobsClosed s))%nat.

Lemma step_measure e s s' : (size (seen s) <= maxPages)%nat -> step maxPages e s = Some s' ->
  (size (seen s') <= maxPages)%nat /\ (measure s' < measure s)%nat.
Proof.
  intros Hsz Hs. unfold measure.
  assert (Hsplit : forall i p, workers s !! i = Some p -> exists w,
            weight (workers s) = (w + phaseWeight p)%nat /\ forall q, weight (<[i := q]> (workers s)) = (w + phaseWeight q)%nat).
  { intros i p Hi. destruct (list_split_at _ _ _ Hi) as (a & b & Hw & Hins). exists (weight (a ++ b)%list).
    split; [by rewrite Hw, weight_middle|]. intros q. by rewrite Hins, weight_middle. }
  destruct e as [i|i links|i| | | |i]; cbn [step] in Hs.
  - destruct (pending s) as [|j rest] eqn:Hp; [done|].
    destruct (workers s !! i) as [[| | |]|] eqn:Hi; try done. destruct (jobsClosed s); [done|]. injection Hs as <-.
    destruct (Hsplit _ _ Hi) as (w & Hw & Hins). cbn [seen pending workers ctxEnded canceledNil jobsClosed].
    rewrite Hw, Hins. simpl. lia.
  - destruct (workers s !! i) as [[|j| |]|] eqn:Hi; try done. injection Hs as <-.
    destruct (Hsplit _ _ Hi) as (w & Hw & Hins). cbn [seen pending workers ctxEnded canceledNil jobsClosed].
    rewrite Hw, Hins. simpl. lia.
  - destruct (workers s !! i) as [[| |links|]|] eqn:Hi; try done. destruct (looping s); [|done]. injection Hs as <-.
    destruct (Hsplit _ _ Hi) as (w & Hw & Hins). specialize (Hins Idle).
    destruct (ctxEnded s) eqn:Hc; [cbn [seen pending workers ctxEnded canceledNil jobsClosed]; rewrite Hw, Hins; simpl; lia|].
    set (s1 := mkC _ _ _ _ _ _ _ _ _ _ _).
    destruct (enqueues_spec maxPages links s1) as [(_ & C2 & C3 & C4 & C5 & _) Hsub _ _ _ _ Hwt _].
    assert (Hsz' : (size (seen (enqueues maxPages links s1)) <= maxPages)%nat).
    { clear -Hsz. assert (Hs1 : (size (seen s1) <= maxPages)%nat) by done. revert Hs1. generalize s1.
      induction links as [|l links IH]; intros s2 Hs2; [done|]. unfold enqueues. cbn [fold_left]. apply IH.
      unfold enqueue. repeat destruct (decide _); cbn [seen]; try done.
      rewrite size_union by set_solver. rewrite size_singleton. lia. }
    split; [done|]. apply subseteq_size in Hsub. cbn [s1 seen pending] in *. rewrite C2, C3, C4, C5.
    cbn [s1 workers ctxEnded canceledNil jobsClosed]. rewrite Hw, Hins. simpl. lia.
  - destruct (ctxEnded s); [done|]. injection Hs as <-. cbn [seen pending workers ctxEnded canceledNil jobsClosed flag]. lia.
  - destruct (ctxEnded s); [|done]. destruct (canceledNil s); [done|]. destruct (looping s); [|done]. injection Hs as <-.
    cbn [seen pending workers ctxEnded canceledNil jobsClosed flag length]. lia.
  - destruct (looping s); [done|]. destruct (jobsClosed s); [done|]. injection Hs as <-.
    cbn [seen pending workers ctxEnded canceledNil jobsClosed flag]. lia.
  - destruct (workers s !! i) as [[| | |]|] eqn:Hi; try done. destruct (jobsClosed s); [|done]. injection Hs as <-.
    destruct (Hsplit _ _ Hi) as (w & Hw & Hins). cbn [seen pending workers ctxEnded canceledNil jobsClosed].
    rewrite Hw, Hins. simpl. lia.
Qed.

(** C12. A crawl terminates: however visits, workers and a cancellation
    interleave, [Run] takes at most [3 * MaxPages + workers + 3] steps. *)
Theorem crawl_terminates es s : crun maxPages es (initial maxPages nworkers starts) = Some s ->
  (length es <= 3 * maxPages + nworkers + 3)%nat.
Proof.
  assert (Hgen : forall es s0, (size (seen s0) <= maxPages)%nat -> crun maxPages es s0 = Some s -> (length es <= measure s0)%nat).
  { induction es0 as [|e es0 IH]; intros s0 Hsz Hr; cbn [crun length] in *; [lia|].
    destruct (step maxPages e s0) as [s1|] eqn:Hs; [|done].
    destruct (step_measure _ _ _ Hsz Hs) as [Hsz1 Hlt]. specialize (IH s1 Hsz1 Hr). lia. }
  intros Hr. pose proof (inv_initial (fun _ _ => True) maxPages nworkers starts) as [[Q1 Q2 _ _ _] _ _ _ _ _ _ _ _ _ _ _ _].
  specialize (Hgen es _ Q1 Hr). revert Hgen. unfold measure, initial.
  set (s0 := mkC _ _ _ _ _ _ _ _ _ _ _). set (js := map _ starts).
  destruct (enqueues_spec maxPages js s0) as [(_ & C2 & C3 & C4 & C5 & _) _ _ _ _ _ Hwt _].
  fold (initial maxPages nworkers starts) in *. rewrite C2, C3, C4, C5.
  cbn [s0 workers ctxEnded canceledNil jobsClosed seen pending length flag] in *. rewrite size_empty in Hwt.
  assert (Hn : weight (replicate nworkers Idle) = nworkers) by (unfold weight; clear; induction nworkers; simpl; lia).
  unfold initial in Q1. fold s0 js in Q1. lia.
Qed.

(** *** No deadlock *)

Lemma workers_cases ws :
  (exists i j, ws !! i = Some (Visiting j)) \/ (exists i l, ws !! i = Some (Sending l)) \/
  Forall (fun p => p = Idle \/ p = Exited) ws.
Proof.
  induction ws as [|p ws [(i & j & Hi)|[(i & l & Hi)|Hall]]].
  - right. right. constructor.
  - left. by exists (S i), j.
  - right. left. by exists (S i), l.
  - destruct p as [|j|l|].
    + right. right. constructor; [by left|done].
    + left. by exists 0%nat, j.
    + right. left. by exists 0%nat, l.
    + right. right. constructor; [by right|done].
Qed.

Lemma busy_none ws : Forall (fun p => p = Idle \/ p = Exited) ws -> busy ws = 0%nat.
Proof. induction 1 as [|p ws [-> | ->] _ IH]; done. Qed.

Lemma busy_some ws i p : ws !! i = Some p -> isBusy p = true -> (0 < busy ws)%nat.
Proof. intros Hi Hp. destruct (list_split_at _ _ _ Hi) as (a & b & -> & _). rewrite busy_middle, Hp. lia. Qed.

(** C13. A crawl never deadlocks: as long as [Run] has not returned, and every
    visit eventually returns something, some step of the program itself (not
    the end of the context) is possible. As every run is bounded, each maximal
    run therefore ends with [Run] returning. *)
Theorem crawl_progress s : (0 < nworkers)%nat -> (forall j, exists links, returns j links) ->
  reach returns maxPages nworkers starts s -> finished s = false ->
  exists e s', e <> CtxEnd /\ allowed returns e s /\ step maxPages e s = Some s'.
Proof.
  intros Hn Htotal Hr Hf. pose proof (reach_inv _ _ _ _ _ Hr) as [_ B _ Cl Ex _ L _ _ _ _ _ _].
  destruct (workers_cases (workers s)) as [(i & j & Hi)|[(i & l & Hi)|Hall]].
  - destruct (Htotal j) as [links Hl]. eexists (VisitDone i links), _. split; [done|].
    split; [by exists j|]. cbn [step]. by rewrite Hi.
  - eexists (Recv i), _. split; [done|]. split; [done|]. cbn [step]. rewrite Hi.
    pose proof (busy_some _ _ _ Hi eq_refl) as Hb. unfold looping.
    rewrite (proj2 (Nat.ltb_lt 0 (inFlight s))) by lia. by rewrite orb_true_r.
  - pose proof (busy_none _ Hall) as Hb. destruct (jobsClosed s) eqn:Hcl.
    + destruct (Cl eq_refl) as [Hp Hi0]. unfold finished in Hf. rewrite Hcl in Hf. cbn [andb] in Hf.
      apply not_true_iff_false in Hf. rewrite forallb_forall in Hf.
      assert (Hidle : Idle ∈ workers s).
      { apply dec_stable. intros Hno. apply Hf. intros p Hp'%list_elem_of_In. apply bool_decide_eq_true.
        rewrite Forall_forall in Hall. by destruct (Hall p Hp') as [-> | ->]. }
      apply list_elem_of_lookup in Hidle as [i Hi]. eexists (Exit i), _. split; [done|]. split; [done|].
      cbn [step]. by rewrite Hi, Hcl.
    + destruct (pending s) as [|j rest] eqn:Hp.
      * eexists CloseJobs, _. split; [done|]. split; [done|]. cbn [step]. unfold looping. rewrite Hp, B, Hb, Hcl. done.
      * destruct (workers s) as [|p ws] eqn:Hw; [simpl in L; lia|]. rewrite Forall_cons in Hall.
        destruct Hall as [[-> | ->] _]; [|specialize (Ex ltac:(by left)); congruence].
        eexists (Send 0), _. split; [done|]. split; [done|]. cbn [step]. rewrite Hp, Hw, Hcl. done.
Qed.

(** *** Completeness *)

(** Once [Run] has returned, nothing is queued and every job handed out was visited. *)
Lemma finished_visits s : reach returns maxPages nworkers starts s -> finished s = true ->
  pending s = [] /\ (forall p, p ∈ workers s -> p = Exited) /\ started s ≡ₚ map fst (visits s).
Proof.
  intros Hr Hf. pose proof (reach_inv _ _ _ _ _ Hr) as [_ _ SP Cl _ _ _ _ _ _ _ _ _].
  unfold finished in Hf. apply andb_true_iff in Hf as [Hcl Hall]. rewrite forallb_forall in Hall.
  destruct (Cl Hcl) as [Hp _].
  assert (Hw : forall p, p ∈ workers s -> p = Exited).
  { intros p Hp'%list_elem_of_In. by apply Hall, bool_decide_eq_true in Hp'. }
  assert (Hv : omap visitJob (workers s) = []).
  { clear -Hw. induction (workers s) as [|p ws IH]; [done|]. cbn [omap list_omap].
    rewrite (Hw p) by (by left). apply IH. intros q Hq. apply Hw. by right. }
  rewrite Hv, app_nil_r in SP. done.
Qed.

(** A crawl that was not canceled handed out or still queues all it discovered. *)
Lemma discovered_queued s : reach returns maxPages nworkers starts s -> ctxEnded s = false ->
  discovered s = length (started s ++ pending s).
Proof.
  intros Hr Hc. pose proof (reach_inv _ _ _ _ _ Hr) as [[_ -> Q3 Q4 Q5] _ _ _ _ Ca _ _ _ _ _ _ _].
  assert (Hnc : canceledNil s = false) by (destruct (canceledNil s); [destruct (Ca eq_refl); congruence|done]).
  rewrite <- (length_map jurl), <- (size_list_to_set (C := gset string) _ Q3). f_equal. apply set_eq. intros u.
  rewrite elem_of_list_to_set, list_elem_of_fmap. split.
  - intros Hu. destruct (Q5 Hnc u Hu) as (j & Hj & <-). by exists j.
  - intros (j & -> & Hj). by apply Q4.
Qed.

(** C14. A crawl that ran to its end without cancellation visited every URL it
    had discovered, exactly once each; and unless the page budget was
    exhausted, the visited URLs contain every start URL and every link that
    any visit returned. Conversely each visited URL is a start URL or was
    returned by a visit. *)
Theorem crawl_complete s : reach returns maxPages nworkers starts s -> finished s = true -> ctxEnded s = false ->
  NoDup (map (fun v => jurl v.1) (visits s)) /\
  (forall u, u ∈ seen s <-> exists j links, (j, links) ∈ visits s /\ jurl j = u /\ returns j links) /\
  (exhausted s = false ->
     (forall u, u ∈ starts -> u ∈ seen s) /\
     (forall j links l, (j, links) ∈ visits s -> l ∈ links -> jurl l ∈ seen s)) /\
  (forall u, u ∈ seen s -> u ∈ starts \/ exists j links l, (j, links) ∈ visits s /\ l ∈ links /\ jurl l = u).
Proof.
  intros Hr Hf Hc. destruct (finished_visits s Hr Hf) as (Hp & Hw & SP).
  pose proof (reach_inv _ _ _ _ _ Hr) as [[_ _ Q3 Q4 Q5] _ _ _ _ Ca _ R _ D St _ O]. rewrite Hp, app_nil_r in *.
  assert (Hnc : canceledNil s = false) by (destruct (canceledNil s); [destruct (Ca eq_refl); congruence|done]).
  assert (Hst : forall j, j ∈ started s <-> exists links, (j, links) ∈ visits s).
  { intros j. rewrite SP, list_elem_of_fmap. split; [intros ([j' links] & -> & Hj); by exists links|].
    intros [links Hj]. by exists (j, links). }
  split_and!.
  - rewrite <- (map_map fst jurl). by rewrite <- SP.
  - intros u. split.
    + intros Hu. destruct (Q5 Hnc u Hu) as (j & Hj & <-). apply Hst in Hj as [links Hj]. exists j, links. auto.
    + intros (j & links & Hj & <- & _). apply Q4, Hst. by exists links.
  - intros He. split.
    + intros u Hu. destruct (St u Hu); [done|congruence].
    + intros j links l Hj Hl. destruct (D Hc j links Hj) as [Hs|Hdel]; [by apply Hw in Hs|].
      destruct (Hdel l Hl); [done|congruence].
  - exact O.
Qed.

End Run.

(** ** Runs over a fixed link graph *)

(** The visits of a site whose links do not change: those of the page, one
    level deeper, while the depth is below [maxDepth]. *)
Definition siteReturns (maxDepth : Z) (links : string -> list string) (j : job) (ls : list job) : Prop :=
  ls = if depth j <? maxDepth then map (fun u => mkCrawlJob u (depth j + 1)) (links (jurl j)) else [].

#[export] Instance siteReturns_dec maxDepth links j ls : Decision (siteReturns maxDepth links j ls).
Proof. unfold siteReturns. apply _. Defined.

(** A checker for runs over a site. *)
Definition allowedb (maxDepth : Z) (links : string -> list string) (e : event) (s : CState) : bool :=
  match e with
  | VisitDone i ls => match workers s !! i with
                      | Some (Visiting j) => bool_decide (siteReturns maxDepth links j ls)
                      | _ => false
                      end
  | _ => true
  end.

Fixpoint siteRun (maxDepth : Z) (links : string -> list string) (maxPages : nat) (es : list event) (s : CState) : option CState :=
  match es with
  | [] => Some s
  | e :: rest => if allowedb maxDepth links e s
                 then match step maxPages e s with Some s' => siteRun maxDepth links maxPages rest s' | None => None end
                 else None
  end.

Lemma siteRun_reach maxDepth links maxPages n starts es : forall s s',
  reach (siteReturns maxDepth links) maxPages n starts s -> siteRun maxDepth links maxPages es s = Some s' ->
  reach (siteReturns maxDepth links) maxPages n starts s'.
Proof.
  induction es as [|e es IH]; intros s s' Hr Hs; cbn [siteRun] in Hs; [by injection Hs as <-|].
  destruct (allowedb _ _ _ _) eqn:Ha; [|done]. destruct (step _ _ _) as [s1|] eqn:Hst; [|done].
  apply (IH s1); [|done]. apply (reach_step _ _ _ _ e s s1); [done| |done]. destruct e; try done. cbn [allowed allowedb] in *.
  destruct (workers s !! i) as [[|j| |]|]; try done. apply bool_decide_eq_true in Ha. by exists j.
Qed.

(** A to X directly, B to X through D, and X to Y. *)
Definition diamond (u : string) : list string :=
  if decide (u = "A") then ["X"] else if decide (u = "B") then ["D"]
  else if decide (u = "D") then ["X"] else if decide (u = "X") then ["Y"] else [].

Definition lk (u : string) (d : Z) : job := mkCrawlJob u d.

Definition slowA : list event :=
  [Send 0; Send 1; VisitDone 1 [lk "D" 1]; Recv 1; Send 1; VisitDone 1 [lk "X" 2]; Recv 1;
   Send 1; VisitDone 1 []; Recv 1; VisitDone 0 [lk "X" 1]; Recv 0; CloseJobs; Exit 0; Exit 1].

Definition fastA : list event :=
  [Send 0; VisitDone 0 [lk "X" 1]; Recv 0; Send 0; Send 1; VisitDone 0 [lk "D" 1]; Recv 0; VisitDone 1 [lk "Y" 2];
   Recv 1; Send 0; Send 1; VisitDone 0 [lk "X" 2]; Recv 0; VisitDone 1 []; Recv 1; CloseJobs; Exit 0; Exit 1].

(** C39. The pages a depth-limited crawl visits depend on the schedule: on a
    fixed site with two workers, [MaxDepth] 2 and budget to spare, one complete
    run visits page Y, two links away from the start URL A, and another does
    not, because a slower sibling let the page before it be discovered at a
    greater depth first. *)
Theorem crawl_depth_race : exists s s',
  reach (siteReturns 2 diamond) 100 2 ["A"; "B"] s /\ reach (siteReturns 2 diamond) 100 2 ["A"; "B"] s' /\
  (finished s = true /\ ctxEnded s = false /\ exhausted s = false /\ "Y" ∈ seen s) /\
  (finished s' = true /\ ctxEnded s' = false /\ exhausted s' = false /\ "Y" ∉ seen s').
Proof.
  destruct (siteRun 2 diamond 100 fastA (initial 100 2 ["A"; "B"])) as [s|] eqn:Hs; [|by vm_compute in Hs].
  destruct (siteRun 2 diamond 100 slowA (initial 100 2 ["A"; "B"])) as [s'|] eqn:Hs'; [|by vm_compute in Hs'].
  exists s, s'. split; [|split].
  - eapply siteRun_reach; [apply reach_init|exact Hs].
  - eapply siteRun_reach; [apply reach_init|exact Hs'].
  - vm_compute in Hs, Hs'. injection Hs as <-. injection Hs' as <-.
    split; (split; [reflexivity|]; split; [reflexivity|]; split; [reflexivity|]);
      apply (bool_decide_unpack _); by vm_compute.
Qed.

(** ** Witnesses *)

Definition diamondEnd : CState :=
  default (initial 100 2 ["A"; "B"]) (siteRun 2 diamond 100 slowA (initial 100 2 ["A"; "B"])).

Lemma diamondEnd_reach : reach (siteReturns 2 diamond) 100 2 ["A"; "B"] diamondEnd.
Proof.
  unfold diamondEnd. destruct (siteRun _ _ _ _ _) as [s|] eqn:Hs; [|apply reach_init].
  eapply siteRun_reach; [apply reach_init|exact Hs].
Qed.

Lemma crawl_terminates_witness : (length slowA <= 3 * 100 + 2 + 3)%nat.
Proof.
  destruct (crun 100 slowA (initial 100 2 ["A"; "B"])) as [s|] eqn:Hs; [|by vm_compute in Hs].
  exact (crawl_terminates 100 2 ["A"; "B"] slowA s Hs).
Defined.

Lemma crawl_progress_witness : exists e s', step 100 e (initial 100 2 ["A"; "B"]) = Some s'.
Proof.
  destruct (crawl_progress (siteReturns 2 diamond) 100 2 ["A"; "B"] (initial 100 2 ["A"; "B"])) as (e & s' & _ & _ & H).
  - lia.
  - intros j. eexists. reflexivity.
  - apply reach_init.
  - reflexivity.
  - exists e, s'. exact H.
Defined.

Lemma crawl_complete_witness : NoDup (map (fun v => jurl v.1) (visits diamondEnd)) /\ length (visits diamondEnd) = 4%nat.
Proof.
  split; [|reflexivity].
  refine (proj1 (crawl_complete (siteReturns 2 diamond) 100 2 ["A"; "B"] diamondEnd diamondEnd_reach _ _)); reflexivity.
Defined.
