(* ===== verification/CrawlSpec.v ===== *)
(** * Properties of a visit

    The spacing of requests to one host, and what one visit may do: it is
    accounted for exactly once, respects robots.txt and returns only links
    within the scope and the depth limit. *)

From Stdlib Require Import Ascii.
From S2P Require Import Prelude Float64 GoString Web Errors Model Metrics Worker WorkerSpec Extract CrawlScope ScopeSpec Crawl Coordinator CoordSpec.
From S2P Require ProxyPool RateLimit Robots.

Open Scope string_scope.
Open Scope Z_scope.

(** ** Crawl delay *)

(** Reservations in the order the gates' locks are taken: host, delay and clock
    reading of each, giving the slots. *)
Fixpoint reservations (reqs : list (string * duration * time)) (gates : gmap string time) : list (string * duration * time) :=
  match reqs with
  | [] => []
  | (h, d, t) :: rest => let '(gates, at_) := reserve h d t gates in (h, d, at_) :: reservations rest gates
  end.

(** A later slot of a host is not before its gate. *)
Lemma reservations_after reqs : Forall (fun r => 0 <= r.1.2) reqs -> forall gates h g k d a,
  gates !! h = Some g -> reservations reqs gates !! k = Some (h, d, a) -> g <= a.
Proof.
  induction 1 as [|[[h0 d0] t0] reqs Hd _ IH]; intros gates h g k d a Hg Hk; [done|]. cbn [fst snd] in Hd.
  cbn [reservations] in Hk. unfold reserve in Hk. set (at_ := if Before _ _ then _ else _) in Hk.
  assert (Hat : default zeroTime (gates !! h0) <= at_) by (unfold at_, Before; case_match; lia).
  destruct k as [|k]; cbn [lookup list_lookup] in Hk.
  - injection Hk as -> -> <-. by rewrite Hg in Hat.
  - destruct (decide (h0 = h)) as [->|Hne].
    + rewrite Hg in Hat. cbn [default] in Hat.
      assert (Hle : at_ + d0 <= a) by (eapply IH; [apply lookup_insert_eq|exact Hk]). unfold id in Hat. lia.
    + eapply IH; [|exact Hk]. by rewrite lookup_insert_ne.
Qed.

(** C19. The slots [waitCrawlDelay] hands out for one host are at least the
    crawl delay apart, whatever the clock readings and whatever is reserved for
    other hosts in between, and no slot lies in the past of its request. *)
Theorem crawl_delay_spacing reqs gates i k h d a d' a' : Forall (fun r => 0 <= r.1.2) reqs -> (i < k)%nat ->
  reservations reqs gates !! i = Some (h, d, a) -> reservations reqs gates !! k = Some (h, d', a') ->
  a + d <= a' /\ exists t, reqs !! i = Some (h, d, t) /\ t <= a.
Proof.
  intros Hall. revert gates i k. induction Hall as [|[[h0 d0] t0] reqs Hd Hall IH]; intros gates i k Hik Hi Hk; [done|].
  cbn [reservations] in Hi, Hk. unfold reserve in Hi, Hk. set (at_ := if Before _ _ then _ else _) in *.
  destruct k as [|k]; [lia|]. destruct i as [|i]; cbn [lookup list_lookup] in Hi, Hk.
  - injection Hi as -> -> <-. split.
    + eapply (reservations_after reqs Hall); [apply lookup_insert_eq|exact Hk].
    + exists t0. split; [done|]. unfold at_, Before. case_match; lia.
  - apply (IH _ i k ltac:(lia) Hi Hk).
Qed.

Lemma crawl_delay_spacing_witness :
  reservations [("a", 5, 100); ("b", 5, 101); ("a", 5, 99)] ∅ = [("a", 5, 100); ("b", 5, 101); ("a", 5, 105)] /\ 100 + 5 <= 105.
Proof.
  split; [reflexivity|].
  refine (proj1 (crawl_delay_spacing [("a", 5, 100); ("b", 5, 101); ("a", 5, 99)] ∅ 0 2 "a" 5 100 5 105 _ _ _ _));
    [|lia|reflexivity|reflexivity].
  repeat constructor; cbn; lia.
Defined.

(** ** One visit *)

Inductive visit_kind := KFetched | KFailed | KDisallowed | KSkipped.

#[export] Instance visit_kind_eq_dec : EqDecision visit_kind.
Proof. solve_decision. Defined.

Section VisitSpec.
Context `{NetURL} `{DOM} `{Regexp}.
Context (json_Valid : string -> bool).
Context (ParseFloat : string -> option f64) (outOfRange : f64 -> Z).
Context {T : RateLimit.TokenBucket} {NS : Type}.
Context (E ER : Env (T := T) (NS := NS)) (cfg robotsCfg : PoolConfig) (fuel : nat) (RunID : string).
Context (WritePage : list (Page * option goerr) -> Page -> option goerr).

Abbreviation VWorld := (VWorld (T := T) (NS := NS)).
Abbreviation visit := (visit json_Valid ParseFloat outOfRange E ER cfg robotsCfg fuel RunID WritePage).
Abbreviation fetchPage := (fetchPage json_Valid E cfg fuel RunID WritePage).
Abbreviation robotsFor := (robotsFor ParseFloat outOfRange ER robotsCfg fuel).

Definition one (k k' : visit_kind) : Z := if decide (k = k') then 1 else 0.

(** The origin robots.txt is cached under, and what the cached rules say of a URL. *)
Definition origin (u : URL) : string := Scheme u ++ "://" ++ Host u.

Definition ruled (c : Robots.Cache) (url : string) (allowed : bool) : Prop :=
  exists u rules, url_Parse url = Some u /\ Robots.entries c !! origin u = Some rules /\
    Robots.Allowed rules (url_EscapedPath u ++ query u) = allowed.

(** A cache that has learned at most one origin, from an answer of its own
    robots.txt. *)
Definition cacheStep (c c' : Robots.Cache) : Prop :=
  c' = c \/
  exists o rules w w' g, Robots.entries c !! o = None /\
    RobotsGetter ER robotsCfg fuel (o ++ "/robots.txt") w = (w', Some g) /\
    Robots.rulesFor ParseFloat outOfRange (Robots.Agent c) g = Some rules /\
    c' = Robots.mkCache (Robots.Agent c) (<[o := rules]> (Robots.entries c)) (Robots.requests c ++ [o]).

(** [v'] continues [v] with a visit of [url] that ended as [k]. *)
Record accounted (url : string) (k : visit_kind) (v v' : VWorld) : Prop := mkAccounted {
  ac_events : exists es, evs (vworld v') = (evs (vworld v) ++ es)%list /\ countEv isSuccess es = one k KFetched /\
                countEv isDropped es = one k KFailed /\ countEv isDisallowed es = one k KDisallowed;
  ac_stats : match k with
             | KFetched => stats v' = addFetched (stats v) \/ stats v' = addFlagged (addFetched (stats v))
             | KFailed => stats v' = addFailed (stats v)
             | KDisallowed => stats v' = addDisallow (stats v)
             | KSkipped => stats v' = stats v
             end;
  ac_written : match k with
               | KFetched => exists p, pURL p = url /\ written v' = (written v ++ [(p, WritePage (written v) p)])%list
               | _ => written v' = written v
               end }.

(** A stretch of the visit before its end: events that finish nothing. *)
Record silent (v v' : VWorld) : Prop := mkSilent {
  si_events : exists es, evs (vworld v') = (evs (vworld v) ++ es)%list /\ countEv isSuccess es = 0 /\
                countEv isDropped es = 0 /\ countEv isDisallowed es = 0;
  si_stats : stats v' = stats v;
  si_written : written v' = written v }.

Lemma silent_refl v : silent v v.
Proof. split; [exists []; by rewrite app_nil_r|done|done]. Qed.

Lemma silent_then url k v v1 v' : silent v v1 -> accounted url k v1 v' -> accounted url k v v'.
Proof.
  intros [(es1 & He1 & C1 & C2 & C3) S1 W1] [(es2 & He2 & D1 & D2 & D3) S2 W2]. rewrite S1 in S2. rewrite W1 in W2.
  split; [|done|done]. exists (es1 ++ es2)%list. rewrite He2, He1, app_assoc, !countEv_app, C1, C2, C3. auto.
Qed.

(** A silent stretch, then the events and statistics that finish the visit. *)
Lemma silent_accounted url k v v1 es st ps v' : silent v v1 ->
  v' = mkV (emit es (vworld v1)) (gates v1) (robots v1) st (written v1 ++ ps)%list ->
  countEv isSuccess es = one k KFetched -> countEv isDropped es = one k KFailed -> countEv isDisallowed es = one k KDisallowed ->
  match k with
  | KFetched => st = addFetched (stats v1) \/ st = addFlagged (addFetched (stats v1))
  | KFailed => st = addFailed (stats v1)
  | KDisallowed => st = addDisallow (stats v1)
  | KSkipped => st = stats v1
  end ->
  match k with KFetched => exists p, pURL p = url /\ ps = [(p, WritePage (written v1) p)] | _ => ps = [] end ->
  accounted url k v v'.
Proof.
  intros Hs -> N1 N2 N3 Hst Hps. apply (silent_then url k v v1); [done|].
  split; [by exists es|done|]. destruct k; cbn [written]; [destruct Hps as (p & Hp & ->); by exists p|by rewrite Hps, app_nil_r..].
Qed.

Lemma world_silent v w : (exists es, evs w = (evs (vworld v) ++ es)%list /\ countEv isSuccess es = 0 /\
    countEv isDropped es = 0 /\ countEv isDisallowed es = 0) ->
  forall gs c, silent v (mkV w gs c (stats v) (written v)).
Proof. intros He gs c. by split. Qed.

Lemma RobotsGetter_events url w : exists es, evs (RobotsGetter ER robotsCfg fuel url w).1 = (evs w ++ es)%list /\
  countEv isSuccess es = 0 /\ countEv isDropped es = 0 /\ countEv isDisallowed es = 0.
Proof.
  unfold RobotsGetter.
  match goal with |- context [Acquire ER fuel ?mw ?b ?k ?u ?n w] => pose proof (acquire_events ER fuel mw b k u n w) as He end.
  destruct (Acquire _ _ _ _ _ _ _ _) as [w1 r]. exact He.
Qed.

Lemma robotsFor_silent u v : silent v (robotsFor u v).1.
Proof.
  unfold Crawl.robotsFor. destruct (Robots.entries _ !! _) as [r|]; [apply silent_refl|].
  pose proof (RobotsGetter_events ((Scheme u ++ "://" ++ Host u) ++ "/robots.txt") (vworld v)) as He.
  destruct (RobotsGetter _ _ _ _ _) as [w [g|]]; [|by apply world_silent].
  cbn [gates robots stats written]. destruct (Robots.For _ _ _ _ _ _) as [[c r]|]; by apply world_silent.
Qed.

Lemma waitCrawlDelay_silent h d v : silent v (waitCrawlDelay E h d v).1.
Proof.
  unfold waitCrawlDelay. destruct (reserve _ _ _ _) as [gs at_].
  assert (He : evs (timerWait E (at_ - now (vworld v)) (vworld v)).1 = evs (vworld v)).
  { unfold timerWait. destruct (_ <=? 0); [done|]. apply sleepCtx_evs. }
  destruct (timerWait _ _ _) as [w fired]. apply world_silent. exists []. by rewrite app_nil_r.
Qed.

(** The links a visit returns. *)
Definition links_ok (s : scope) (j : job) (next : list job) : Prop :=
  forall l, l ∈ next -> follows s (jurl l) = true /\ depth l = wrap64 (depth j + 1) /\ depth j < MaxDepth (target s).

Lemma usePage_links s j resp px (w : World (T := T) (NS := NS)) page follow : usePage json_Valid RunID s j resp px w = inr (page, follow) ->
  follow = [] \/ depth j < MaxDepth (target s).
Proof.
  unfold usePage. destruct (isHTMLType _); [|intros [= _ <-]; by left].
  destruct (ExtractPage _ _ _ _) as [e|p]; [done|]. intros [= _ <-].
  destruct (Z.ltb_spec (depth j) (MaxDepth (target s))); [by right|by left].
Qed.

Lemma usePage_url s j resp px (w : World (T := T) (NS := NS)) page follow : usePage json_Valid RunID s j resp px w = inr (page, follow) ->
  pURL page = jurl j.
Proof.
  unfold usePage. destruct (isHTMLType _); [|by intros [= <- _]].
  destruct (ExtractPage _ _ _ _); [done|]. by intros [= <- _].
Qed.

Lemma nextJobs_ok s j follow : follow = [] \/ depth j < MaxDepth (target s) -> links_ok s j (nextJobs s j follow).
Proof.
  intros Hd l Hl. unfold nextJobs in Hl. apply list_elem_of_omap in Hl as (raw & Hraw & Hf).
  destruct (url_Parse raw) as [lu|]; [|done]. cbv zeta in Hf. destruct (follows s (normalize lu)) eqn:Hfo; [|done].
  injection Hf as <-. cbn [jurl depth]. split_and!; [done|done|].
  destruct Hd as [->|]; [by apply not_elem_of_nil in Hraw|done].
Qed.

Lemma links_ok_nil s j : links_ok s j [].
Proof. by intros l ?%not_elem_of_nil. Qed.

(** *** The robots.txt cache *)

Lemma robotsFor_cache u v v1 rules : robotsFor u v = (v1, Some rules) ->
  Robots.entries (robots v1) !! origin u = Some rules /\ cacheStep (robots v) (robots v1).
Proof.
  unfold Crawl.robotsFor. change (Scheme u ++ "://" ++ Host u) with (origin u).
  destruct (Robots.entries (robots v) !! origin u) as [r|] eqn:Hc; [intros [= <- <-]; split; [done|by left]|].
  destruct (RobotsGetter _ _ _ _ _) as [w [g|]] eqn:Hg; [|done].
  unfold Robots.For. change (Scheme u ++ "://" ++ Host u) with (origin u). cbn [robots]. rewrite Hc.
  destruct (Robots.rulesFor _ _ _ g) as [r|] eqn:Hr; [|done]. intros [= <- <-]. cbn [robots Robots.entries].
  split; [by rewrite lookup_insert_eq|]. right. by exists (origin u), r, (vworld v), w, g.
Qed.

Lemma fetchPage_robots s j v : robots (fetchPage s j v).1 = robots v.
Proof.
  unfold Crawl.fetchPage. destruct (Acquire _ _ _ _ _ _ _ _) as [w [[page follow]|m [|] err| |]]; try done.
  by destruct (pExtraction page).
Qed.

Lemma waitCrawlDelay_robots h d v : robots (waitCrawlDelay E h d v).1 = robots v.
Proof. unfold waitCrawlDelay. destruct (reserve _ _ _ _). by destruct (timerWait _ _ _). Qed.

Lemma cacheStep_refl c : cacheStep c c.
Proof. by left. Qed.

(** The end of a visit that got past robots.txt. *)
Lemma fetchPage_accounted s j v : let '(v', r) := fetchPage s j v in
  forall next, r = Some next -> links_ok s j next /\
    exists k, accounted (jurl j) k v v' /\ k <> KDisallowed /\ (next <> [] -> k = KFetched).
Proof.
  unfold Crawl.fetchPage.
  match goal with |- context [Acquire E fuel ?mw ?b ?k ?u ?n ?w] =>
    pose proof (acquire_events E fuel mw b k u n w) as He;
    pose proof (acquire_loop_use E fuel mw b k u (Z.to_nat (n + 1)) 0 0 false None w) as Hu end.
  unfold Acquire in *. destruct (acquire_loop _ _ _ _ _ _ _ _ _ _ _ _) as [w r].
  assert (Hs : silent v (mkV w (gates v) (robots v) (stats v) (written v))) by (by apply world_silent).
  destruct r as [[page follow]|m [|] err| |]; [| | |done|done]; intros next [= <-].
  - destruct (Hu w (page, follow) eq_refl) as (resp & px & w0 & Huse).
    split; [by eapply nextJobs_ok, usePage_links|]. exists KFetched. split; [|done]. apply usePage_url in Huse.
    destruct (pExtraction page).
    + apply (silent_accounted _ _ _ _ [IncSuccess; IncCalibrationFlagged] (addFlagged (addFetched (stats v)))
               [(page, WritePage (written v) page)] _ Hs); [|done..|by right|by exists page].
      cbn [on_world on_stats emit vworld gates robots stats written]. unfold on_world, on_stats, emit.
      cbn [vworld gates robots stats written pool limiter net now latencies evs]. by rewrite <- app_assoc.
    + by apply (silent_accounted _ _ _ _ [IncSuccess] (addFetched (stats v)) [(page, WritePage (written v) page)] _ Hs);
        [|done..|left|exists page].
  - split; [apply links_ok_nil|]. exists KSkipped. split; [|done].
    by apply (silent_accounted _ _ _ _ [] (stats v) [] _ Hs); [rewrite app_nil_r; unfold emit; rewrite app_nil_r; destruct w|..].
  - split; [apply links_ok_nil|]. exists KFailed. split; [|done].
    by apply (silent_accounted _ _ _ _ [IncDropped] (addFailed (stats v)) [] _ Hs); [rewrite app_nil_r|done..].
Qed.

(** A visit is accounted for exactly once, as a page fetched (and handed to the
    sink), a page failed, a URL robots.txt disallows, or a URL skipped without a
    trace because the run was canceled; when the target respects robots.txt, a
    page is fetched or given up on only if the rules cached for its origin allow
    its path, and refused only if they do not; and links come back only from a
    fetched page above [MaxDepth], each one level deeper and within the scope. *)
Theorem visit_accounting s j v : let '(v', r) := visit s j v in
  forall next, r = Some next -> links_ok s j next /\ cacheStep (robots v) (robots v') /\
    exists k, accounted (jurl j) k v v' /\ (next <> [] -> k = KFetched) /\
      (default true (RespectRobots (target s)) = true -> k = KFetched \/ k = KFailed -> ruled (robots v') (jurl j) true) /\
      (k = KDisallowed -> default true (RespectRobots (target s)) = true /\ ruled (robots v') (jurl j) false).
Proof.
  unfold Crawl.visit. destruct (url_Parse (jurl j)) as [u|] eqn:Hu.
  2: { intros next [= <-]. split; [apply links_ok_nil|]. split; [apply cacheStep_refl|]. exists KSkipped.
       split; [|split; [done|split; [by intros _ [?|?]|done]]].
       split; [exists []; by rewrite app_nil_r|done|done]. }
  destruct (default true (RespectRobots (target s))) eqn:Hrr.
  2: { pose proof (fetchPage_accounted s j v) as Hf. pose proof (fetchPage_robots s j v) as Hc. destruct (fetchPage s j v) as [v' r].
       intros next Hn. destruct (Hf next Hn) as (Hl & k & Ha & Hd & Hk). cbn [fst] in Hc. rewrite Hc.
       split; [done|]. split; [apply cacheStep_refl|]. exists k. by split_and!. }
  pose proof (robotsFor_silent u v) as Hs. pose proof (robotsFor_cache u v) as Hcache.
  destruct (robotsFor u v) as [v1 [rules|]]; [|done]. cbn [fst] in Hs. destruct (Hcache v1 rules eq_refl) as [Hin Hstep].
  assert (Hruled : forall b, Robots.Allowed rules (url_EscapedPath u ++ query u) = b -> ruled (robots v1) (jurl j) b)
    by (intros b Hb; by exists u, rules).
  destruct (Robots.Allowed rules (url_EscapedPath u ++ query u)) eqn:Hal; cbn [negb].
  2: { intros next [= <-]. split; [apply links_ok_nil|]. split; [done|]. exists KDisallowed.
       split; [|split; [done|split; [by intros _ [?|?]|split; [done|by apply Hruled]]]].
       by apply (silent_accounted _ _ _ _ [IncRobotsDisallowed] (addDisallow (stats v1)) [] _ Hs); [rewrite app_nil_r|done..]. }
  assert (Hgo : forall v2, silent v1 v2 -> robots v2 = robots v1 -> let '(v', r) := fetchPage s j v2 in
    forall next, r = Some next -> links_ok s j next /\ cacheStep (robots v) (robots v') /\
      exists k, accounted (jurl j) k v v' /\ (next <> [] -> k = KFetched) /\
        (true = true -> k = KFetched \/ k = KFailed -> ruled (robots v') (jurl j) true) /\
        (k = KDisallowed -> true = true /\ ruled (robots v') (jurl j) false)).
  { intros v2 Hs2 Hr2. pose proof (fetchPage_accounted s j v2) as Hf. pose proof (fetchPage_robots s j v2) as Hc.
    destruct (fetchPage s j v2) as [v' r]. intros next Hn. destruct (Hf next Hn) as (Hl & k & Ha & Hd & Hk).
    cbn [fst] in Hc. rewrite Hc, Hr2. split; [done|]. split; [done|]. exists k.
    split; [by apply (silent_then _ k v v1); [|apply (silent_then _ k v1 v2)]|]. split_and!; [done|by intros _ _; apply Hruled|done]. }
  destruct (0 <? Robots.CrawlDelay rules); [|by apply Hgo; [apply silent_refl|]].
  pose proof (waitCrawlDelay_silent (ToLower (Host u)) (Robots.CrawlDelay rules) v1) as Hw.
  pose proof (waitCrawlDelay_robots (ToLower (Host u)) (Robots.CrawlDelay rules) v1) as Hwr.
  destruct (waitCrawlDelay _ _ _ _) as [v2 [|]]; cbn [fst] in Hw, Hwr; [by apply Hgo|].
  intros next [= <-]. rewrite Hwr. split; [apply links_ok_nil|]. split; [done|]. exists KSkipped.
  split; [|split; [done|split; [by intros _ [?|?]|done]]].
  apply (silent_then _ _ v v1); [done|].
  by apply (silent_accounted _ _ _ _ [] (stats v2) [] _ Hw); [rewrite app_nil_r; unfold emit; rewrite app_nil_r; destruct v2 as [[] ????]|..].
Qed.

(** What a visit of a job can return; the depth of a job is a Go [int]. *)
Definition visitReturns (s : scope) (j : job) (next : list job) : Prop :=
  in_int64 (depth j) /\ exists v v', visit s j v = (v', Some next).

Lemma visitReturns_depth s j next l : MaxDepth (target s) <= int64_max -> visitReturns s j next -> l ∈ next ->
  follows s (jurl l) = true /\ depth l <= MaxDepth (target s).
Proof.
  intros Hmax (Hj & v & v' & Hv) Hl.
  assert (Hok : links_ok s j next).
  { unfold Crawl.visit in Hv. destruct (url_Parse (jurl j)) as [u|]; [|injection Hv as _ <-; apply links_ok_nil].
    assert (Hf : forall v2, fetchPage s j v2 = (v', Some next) -> links_ok s j next).
    { intros v2 Hf. pose proof (fetchPage_accounted s j v2) as Ha. rewrite Hf in Ha. by destruct (Ha next eq_refl). }
    destruct (default true _); [|by eapply Hf]. destruct (robotsFor u v) as [v1 [rules|]]; [|done].
    destruct (negb _); [injection Hv as _ <-; apply links_ok_nil|]. destruct (0 <? _); [|by eapply Hf].
    destruct (waitCrawlDelay _ _ _ _) as [v2 [|]]; [by eapply Hf|]. injection Hv as _ <-. apply links_ok_nil. }
  destruct (Hok l Hl) as (Hfo & Hd & Hlt). split; [done|]. rewrite Hd. unfold in_int64 in Hj.
  rewrite wrap64_id by (unfold in_int64 in *; lia). lia.
Qed.

Lemma compile_bounds selectorError t s : compile_ selectorError t = inr s ->
  0 <= MaxDepth (target s) /\ 0 < MaxPages (target s) /\ MaxDepth (target s) = MaxDepth t.
Proof.
  intros Hc. unfold compile_ in Hc. repeat (destruct (decide _); [done|]).
  destruct (Z.ltb_spec (MaxDepth t) 0); [done|]. destruct (if decide (Render t = "") then _ else _) as [render|]; [|done].
  cbv zeta in Hc. repeat (destruct (Validate _ _); [done|]).
  destruct (compileStarts _ _) as [|[ss hs]]; [done|]. do 2 (destruct (compileExprs _ _ _); [done|]).
  injection Hc as <-. cbn [target setDefaults MaxDepth MaxPages].
  split_and!; [lia| |done]. destruct (Z.leb_spec (MaxPages t) 0); [by vm_compute|lia].
Qed.

(** What is handed to a visit is a start URL or in scope. *)
Lemma started_scope s nworkers st j : MaxDepth (target s) <= int64_max ->
  reach (visitReturns s) (Z.to_nat (MaxPages (target s))) nworkers (starts s) st -> j ∈ started st ->
  jurl j ∈ starts s \/ follows s (jurl j) = true.
Proof.
  intros Hmax Hr Hj. pose proof (reach_inv _ _ _ _ _ Hr) as [_ _ _ _ _ _ _ R _ _ _ J _].
  destruct (J j) as [(u & Hu & ->)|(j' & links & Hv & Hl)]; [apply elem_of_app; by left|by left|right].
  by destruct (visitReturns_depth s j' links j Hmax (R _ _ Hv) Hl).
Qed.

(** C3. The crawler as a whole: in every state a crawl of a compiled target can
    reach, with any number of workers, any interleaving and any answers of the
    network, at most [MaxPages] URLs have been handed to a visit, no URL twice,
    each is a start URL or lies in scope, none is deeper than [MaxDepth], and
    no more visits are in flight than there are workers. *)
Theorem crawl_run_safe selectorError t s nworkers st : compile_ selectorError t = inr s -> MaxDepth t <= int64_max ->
  reach (visitReturns s) (Z.to_nat (MaxPages (target s))) nworkers (starts s) st ->
  Z.of_nat (length (started st)) <= MaxPages (target s) /\ NoDup (map jurl (started st)) /\
  discovered st = size (seen st) /\ (inFlight st <= nworkers)%nat /\
  forall j, j ∈ started st -> depth j <= MaxDepth t /\ (jurl j ∈ starts s \/ follows s (jurl j) = true).
Proof.
  intros Hc Hmax Hr. destruct (compile_bounds _ _ _ Hc) as (Hd & Hp & Heq). rewrite <- Heq in *.
  destruct (crawl_within_budget (visitReturns s) (Z.to_nat (MaxPages (target s))) nworkers (starts s) (MaxDepth (target s)) st) as (B1 & B2 & B3 & B4 & B5);
    [done|intros j links l Hj Hl; by destruct (visitReturns_depth s j links l Hmax Hj Hl)|done|].
  split_and!; [lia|done|done|done|]. intros j Hj. split; [by apply B5|]. by eapply started_scope.
Qed.

End VisitSpec.

(** ** Witnesses *)

Definition siteScope : scope :=
  match compile_ (fun _ => None) (siteTarget ["http://shop/"]) with
  | inr s => s
  | inl _ => mkScope (siteTarget []) [] [] [] []
  end.

(** A sink that takes every page. *)
Definition noWriteError (_ : list (Page * option goerr)) (_ : Page) : option goerr := None.

Definition quietCfg : PoolConfig := mkPoolConfig 0 0 "bot".

Definition freshV : VWorld (T := RateLimit.rateBucket) (NS := unit) :=
  mkV (idleWorld (ProxyPool.NewPool ["p"] 3 30)) ∅ (Robots.mkCache "bot" {["http://shop" := Robots.DisallowAll]} [])
    (mkCrawlStats 0 0 0 0 1 false) [].

Lemma visit_accounting_witness :
  exists v', visit (fun _ => true) (fun _ => None) (fun _ => 0) quietEnv quietEnv quietCfg quietCfg 2 "run" noWriteError
               siteScope (mkCrawlJob "http://shop/" 0) freshV = (v', Some []) /\
    RobotsDisallow (stats v') = 1 /\ links_ok siteScope (mkCrawlJob "http://shop/" 0) [].
Proof.
  destruct (visit (fun _ => true) (fun _ => None) (fun _ => 0) quietEnv quietEnv quietCfg quietCfg 2 "run" noWriteError
               siteScope (mkCrawlJob "http://shop/" 0) freshV) as [v' r] eqn:Hv.
  pose proof (visit_accounting (fun _ => true) (fun _ => None) (fun _ => 0) quietEnv quietEnv quietCfg quietCfg 2 "run" noWriteError
               siteScope (mkCrawlJob "http://shop/" 0) freshV) as H. rewrite Hv in H.
  vm_compute in Hv. injection Hv as <- <-. eexists. split; [reflexivity|]. split; [reflexivity|].
  exact (proj1 (H [] eq_refl)).
Defined.

Lemma crawl_run_safe_witness :
  exists st, reach (visitReturns (fun _ => true) (fun _ => None) (fun _ => 0) quietEnv quietEnv quietCfg quietCfg 2 "run" noWriteError siteScope)
               (Z.to_nat (MaxPages (target siteScope))) 1 (starts siteScope) st /\
    length (started st) = 1%nat /\ Z.of_nat (length (started st)) <= MaxPages (target siteScope).
Proof.
  destruct (step 100 (Send 0) (initial 100 1 ["http://shop/"])) as [st|] eqn:Hs; [|by vm_compute in Hs].
  assert (Hr : reach (visitReturns (fun _ => true) (fun _ => None) (fun _ => 0) quietEnv quietEnv quietCfg quietCfg 2 "run" noWriteError siteScope)
                 (Z.to_nat (MaxPages (target siteScope))) 1 (starts siteScope) st)
    by (eapply (reach_step _ _ _ _ (Send 0)); [apply reach_init|exact I|exact Hs]).
  exists st. split; [exact Hr|]. split; [vm_compute in Hs; injection Hs as <-; reflexivity|].
  refine (proj1 (crawl_run_safe (fun _ => true) (fun _ => None) (fun _ => 0) quietEnv quietEnv quietCfg quietCfg 2 "run" noWriteError
    (fun _ => None) (siteTarget ["http://shop/"]) siteScope 1 st _ _ Hr)); [reflexivity|by vm_compute].
Defined.
