(* ===== verification/CrawlTotals.v ===== *)
(** * A whole crawl and its statistics

    The coordinator of [Coordinator] together with what its visits add up to:
    the [Stats] that [Run] returns, the shared counters, the calls of the sink and
    the robots.txt cache.  The additions of a visit are atomic and commute with
    those of the others; they are made when the visit ends.  The rules of an origin
    are fetched once ([sync.Once]) and never change, so a visit may be taken to
    look them up in the cache as it is at its end: what other visits loaded
    meanwhile is there, and of two visits that wait for the same answer the one
    that ends first is taken to have fetched it. *)

From Stdlib Require Import Ascii.
From S2P Require Import Prelude Float64 GoString Web Errors Model Metrics Worker WorkerSpec Extract CrawlScope ScopeSpec Crawl Coordinator CoordSpec CrawlSpec.
From S2P Require ProxyPool RateLimit Robots.

Open Scope string_scope.
Open Scope Z_scope.

Record Totals := mkTotals {
  tStats : CrawlStats;
  tEvents : list counter_event;
  tWrites : list (Page * option goerr);    (* the calls of [WritePage], with their errors *)
  tRobots : Robots.Cache }.

(** [var stats Stats], no events, nothing written, and a cache for [agent]. *)
Definition noTotals (agent : string) : Totals :=
  mkTotals (mkCrawlStats 0 0 0 0 0 false) [] [] (Robots.mkCache agent ∅ []).

(** The pages the sink took, and how many it refused. *)
Definition stored (t : Totals) : list Page := omap (fun w => match w.2 with None => Some w.1 | Some _ => None end) (tWrites t).
Definition refusals (t : Totals) : nat := countb (fun w => match w.2 with None => false | Some _ => true end) (tWrites t).

(** The [Stats] that [Run] returns: [Discovered] and [BudgetExhausted] are the
    coordinator's, the rest is added by the visits. *)
Definition runStats (c : CState) (t : Totals) : CrawlStats :=
  mkCrawlStats (Fetched (tStats t)) (Failed (tStats t)) (RobotsDisallow (tStats t)) (Flagged (tStats t))
    (Z.of_nat (discovered c)) (exhausted c).

Section Totals.
Context `{NetURL} `{DOM} `{Regexp}.
Context (json_Valid : string -> bool).
Context (ParseFloat : string -> option f64) (outOfRange : f64 -> Z).
Context {T : RateLimit.TokenBucket} {NS : Type}.
Context (E ER : Env (T := T) (NS := NS)) (cfg robotsCfg : PoolConfig) (fuel : nat) (RunID : string).
Context (WritePage : list (Page * option goerr) -> Page -> option goerr).

Abbreviation visit := (visit json_Valid ParseFloat outOfRange E ER cfg robotsCfg fuel RunID WritePage).
Abbreviation cacheStep := (cacheStep ParseFloat outOfRange ER robotsCfg fuel).
Abbreviation visitReturns := (visitReturns json_Valid ParseFloat outOfRange E ER cfg robotsCfg fuel RunID WritePage).

(** A visit of [j], in some world with the totals so far, returns [next] and
    leaves these totals. *)
Definition visitTotals (s : scope) (j : job) (next : list job) (t t' : Totals) : Prop :=
  exists v v' es, visit s j v = (v', Some next) /\
    stats v = tStats t /\ stats v' = tStats t' /\
    evs (vworld v') = (evs (vworld v) ++ es)%list /\ tEvents t' = (tEvents t ++ es)%list /\
    written v = tWrites t /\ written v' = tWrites t' /\
    robots v = tRobots t /\ robots v' = tRobots t'.

(** One step of a crawl of [s]. *)
Definition crawlStep (s : scope) (x x' : CState * Totals) : Prop :=
  exists e, step (Z.to_nat (MaxPages (target s))) e x.1 = Some x'.1 /\
    match e with
    | VisitDone i next => exists j, workers x.1 !! i = Some (Visiting j) /\ in_int64 (depth j) /\ visitTotals s j next x.2 x'.2
    | _ => x'.2 = x.2
    end.

Definition crawlStart (s : scope) (nworkers : nat) (agent : string) : CState * Totals :=
  (initial (Z.to_nat (MaxPages (target s))) nworkers (starts s), noTotals agent).

(** ** The coordinator does not see the totals *)

Lemma crawl_reach s nworkers agent x : rtc (crawlStep s) (crawlStart s nworkers agent) x ->
  reach (visitReturns s) (Z.to_nat (MaxPages (target s))) nworkers (starts s) x.1.
Proof.
  assert (Hgen : forall y, rtc (crawlStep s) y x ->
    reach (visitReturns s) (Z.to_nat (MaxPages (target s))) nworkers (starts s) y.1 ->
    reach (visitReturns s) (Z.to_nat (MaxPages (target s))) nworkers (starts s) x.1).
  { induction 1 as [y|y1 y2 y3 (e & Hs & He) _ IH]; [done|]. intros Hr. apply IH. eapply reach_step; [exact Hr| |exact Hs].
    destruct e; try exact I. destruct He as (j & Hj & Hd & v & v' & _ & Hv & _). exists j. split; [done|]. split; [done|]. by exists v, v'. }
  intros Hr. eapply Hgen; [exact Hr|apply reach_init].
Qed.

(** ** What the visits add up to *)

Definition kinds (k : visit_kind) (l : list (string * visit_kind)) : Z :=
  Z.of_nat (countb (fun x => bool_decide (x.2 = k)) l).

(** What robots.txt has to do with how a visit ended: a URL is fetched or given up
    on only if the rules cached for its origin allow it, or are not respected,
    and refused only if they do not. *)
Definition robotsDecided (s : scope) (c : Robots.Cache) (url : string) (k : visit_kind) : Prop :=
  (default true (RespectRobots (target s)) = true -> k = KFetched \/ k = KFailed -> ruled c url true) /\
  (k = KDisallowed -> default true (RespectRobots (target s)) = true /\ ruled c url false).

(** The rules of an origin are those of an answer to a request for its own
    robots.txt. *)
Definition rulesAnswered (c : Robots.Cache) : Prop :=
  forall o rules, Robots.entries c !! o = Some rules ->
    exists w w' g, RobotsGetter ER robotsCfg fuel (o ++ "/robots.txt") w = (w', Some g) /\
      Robots.rulesFor ParseFloat outOfRange (Robots.Agent c) g = Some rules.

(** The totals are those of one visit per finished job, of some kind each. *)
Record totals_inv (s : scope) (agent : string) (x : CState * Totals) (l : list (string * visit_kind)) : Prop := mkTotalsInv {
  ti_visits : map fst l = map (fun v => jurl v.1) (visits x.1);
  ti_fetched : Fetched (tStats x.2) = wrap64 (kinds KFetched l);
  ti_failed : Failed (tStats x.2) = wrap64 (kinds KFailed l);
  ti_disallow : RobotsDisallow (tStats x.2) = wrap64 (kinds KDisallowed l);
  ti_flagged : exists f, Flagged (tStats x.2) = wrap64 f /\ 0 <= f <= kinds KFetched l;
  ti_success : countEv isSuccess (tEvents x.2) = kinds KFetched l;
  ti_dropped : countEv isDropped (tEvents x.2) = kinds KFailed l;
  ti_robots : countEv isDisallowed (tEvents x.2) = kinds KDisallowed l;
  ti_pages : map (fun w => pURL w.1) (tWrites x.2) = omap (fun y => if decide (y.2 = KFetched) then Some y.1 else None) l;
  ti_decided : forall u k, (u, k) ∈ l -> robotsDecided s (tRobots x.2) u k;
  ti_rules : Robots.Agent (tRobots x.2) = agent /\ rulesAnswered (tRobots x.2) }.

(** The cache only grows. *)
Lemma cacheStep_grows c c' : cacheStep c c' -> Robots.Agent c' = Robots.Agent c /\
  (forall o r, Robots.entries c !! o = Some r -> Robots.entries c' !! o = Some r) /\ (rulesAnswered c -> rulesAnswered c').
Proof.
  intros [->|(o & rules & w & w' & g & Ho & Hg & Hr & ->)]; [done|]. cbn [Robots.Agent Robots.entries]. split; [done|]. split.
  - intros o' r Hin. rewrite lookup_insert_ne; [done|]. intros <-. congruence.
  - intros Hall o' r. cbn [Robots.entries Robots.Agent]. destruct (decide (o' = o)) as [->|Hne].
    + rewrite lookup_insert_eq. intros [= <-]. by exists w, w', g.
    + rewrite lookup_insert_ne by done. apply Hall.
Qed.

Lemma decided_grows s c c' u k : cacheStep c c' -> robotsDecided s c u k -> robotsDecided s c' u k.
Proof.
  intros (_ & Hin & _)%cacheStep_grows.
  assert (Hr : forall b, ruled c u b -> ruled c' u b) by (intros b (p & r & ? & ? & ?); exists p, r; split_and!; [done|by apply Hin|done]).
  intros [Hal Hdis]. split; [intros Hrr Hk; by apply Hr, Hal|]. intros Hk. destruct (Hdis Hk) as [Hrr Hru]. split; [done|by apply Hr].
Qed.

Lemma kinds_cons k l u k' : kinds k ((u, k') :: l) = one k' k + kinds k l.
Proof.
  unfold kinds, one. change ((u, k') :: l) with ([] ++ (u, k') :: l)%list. rewrite countb_middle. cbn [snd app].
  destruct (decide (k' = k)); [rewrite bool_decide_eq_true_2 by done|rewrite bool_decide_eq_false_2 by done]; lia.
Qed.

Lemma kinds_app k l u k' : kinds k (l ++ [(u, k')])%list = kinds k l + one k' k.
Proof.
  unfold kinds, one. rewrite countb_middle, app_nil_r. cbn [snd].
  destruct (decide (k' = k)); [rewrite bool_decide_eq_true_2 by done|rewrite bool_decide_eq_false_2 by done]; lia.
Qed.

Lemma visits_step maxPages e c c' : step maxPages e c = Some c' ->
  match e with
  | VisitDone i links => forall j, workers c !! i = Some (Visiting j) -> visits c' = (visits c ++ [(j, links)])%list
  | _ => visits c' = visits c
  end.
Proof.
  intros Hs. destruct e as [i|i links|i| | | |i]; cbn [step] in Hs.
  - destruct (pending c); [done|]. destruct (workers c !! i) as [[]|]; try done. destruct (jobsClosed c); [done|]. by injection Hs as <-.
  - destruct (workers c !! i) as [[]|]; try done. injection Hs as <-. by intros j' [= <-].
  - destruct (workers c !! i) as [[]|]; try done. destruct (looping c); [|done]. injection Hs as <-.
    destruct (ctxEnded c); [done|]. set (s1 := mkC _ _ _ _ _ _ _ _ _ _ _).
    by destruct (enqueues_spec maxPages links s1) as [(_ & _ & _ & _ & _ & _ & ->) _ _ _ _ _ _ _].
  - destruct (ctxEnded c); [done|]. by injection Hs as <-.
  - destruct (_ && _); [|done]. by injection Hs as <-.
  - destruct (_ && _); [|done]. by injection Hs as <-.
  - destruct (workers c !! i) as [[]|]; try done. destruct (jobsClosed c); [|done]. by injection Hs as <-.
Qed.

(** One more visit, of kind [k]. *)
Lemma totals_visit s agent x x' l j next : totals_inv s agent x l -> visits x'.1 = (visits x.1 ++ [(j, next)])%list ->
  visitTotals s j next x.2 x'.2 -> exists k, totals_inv s agent x' (l ++ [(jurl j, k)]).
Proof.
  intros [T1 T2 T3 T4 (f & T5 & Hf) T6 T7 T8 T9 T10 [T11 T12]] Hv (v & v' & es & Hvis & Hs & Hs' & He & He' & Hw & Hw' & Hr & Hr').
  pose proof (visit_accounting json_Valid ParseFloat outOfRange E ER cfg robotsCfg fuel RunID WritePage s j v) as Ha.
  rewrite Hvis in Ha. destruct (Ha next eq_refl) as (_ & Hcache & k & [(es2 & A1 & A2 & A3 & A4) Ast Aw] & _ & Hrob & Hdis).
  rewrite He in A1. apply app_inv_head in A1 as <-. exists k.
  rewrite Hw, Hw' in Aw. rewrite Hs, Hs' in Ast. rewrite Hr, Hr' in Hcache. rewrite Hr' in Hrob, Hdis.
  assert (Hps : exists ps, tWrites x'.2 = (tWrites x.2 ++ ps)%list /\ map (fun w => pURL w.1) ps = if decide (k = KFetched) then [jurl j] else []).
  { destruct k; cbn in *; [destruct Aw as (p & Hp & ->); eexists; split; [done|by rewrite <- Hp]|..];
      exists []; by rewrite app_nil_r. }
  destruct Hps as (ps & Hps1 & Hps). destruct (cacheStep_grows _ _ Hcache) as (Hag & _ & Hans).
  assert (Hst : Fetched (tStats x'.2) = wrap64 (Fetched (tStats x.2) + one k KFetched) /\
                Failed (tStats x'.2) = wrap64 (Failed (tStats x.2) + one k KFailed) /\
                RobotsDisallow (tStats x'.2) = wrap64 (RobotsDisallow (tStats x.2) + one k KDisallowed) /\
                exists d, Flagged (tStats x'.2) = wrap64 (Flagged (tStats x.2) + d) /\ 0 <= d <= one k KFetched).
  { assert (Hid : wrap64 (Fetched (tStats x.2) + 0) = Fetched (tStats x.2) /\ wrap64 (Failed (tStats x.2) + 0) = Failed (tStats x.2) /\
                  wrap64 (RobotsDisallow (tStats x.2) + 0) = RobotsDisallow (tStats x.2) /\ wrap64 (Flagged (tStats x.2) + 0) = Flagged (tStats x.2)).
    { rewrite !Z.add_0_r, T2, T3, T4, T5. split_and!; apply wrap64_id, wrap64_range. }
    destruct Hid as (I1 & I2 & I3 & I4).
    destruct k; [destruct Ast as [-> | ->]|rewrite Ast..]; cbn [one addFetched addFlagged addFailed addDisallow Fetched Failed RobotsDisallow Flagged];
      rewrite ?I1, ?I2, ?I3; (split_and!; [done..|]);
      first [exists 0; rewrite I4; done|exists 1; done]. }
  destruct Hst as (S1 & S2 & S3 & d & S4 & Hd).
  split.
  - by rewrite Hv, !map_app, T1.
  - by rewrite kinds_app, S1, T2, wrap64_wrap_add.
  - by rewrite kinds_app, S2, T3, wrap64_wrap_add.
  - by rewrite kinds_app, S3, T4, wrap64_wrap_add.
  - exists (f + d). rewrite kinds_app, S4, T5, wrap64_wrap_add. split; [done|lia].
  - by rewrite kinds_app, He', countEv_app, T6, A2.
  - by rewrite kinds_app, He', countEv_app, T7, A3.
  - by rewrite kinds_app, He', countEv_app, T8, A4.
  - rewrite Hps1, map_app, T9, Hps, omap_app. f_equal. cbn. by destruct (decide (k = KFetched)).
  - intros u k' [Hin|Hin%list_elem_of_singleton]%elem_of_app; [by eapply decided_grows, T10|]. by injection Hin as -> ->.
  - split; [congruence|by apply Hans].
Qed.

Lemma totals_reach s nworkers agent x : rtc (crawlStep s) (crawlStart s nworkers agent) x -> exists l, totals_inv s agent x l.
Proof.
  assert (Hgen : forall y, rtc (crawlStep s) y x -> (exists l, totals_inv s agent y l) -> exists l, totals_inv s agent x l).
  { induction 1 as [y|y1 y2 y3 (e & Hs & He) _ IH]; [done|]. intros (l & Hl). apply IH.
    pose proof (visits_step _ _ _ _ Hs) as Hv. destruct e.
    2: { destruct He as (j & Hj & _ & Ht). specialize (Hv j Hj). destruct (totals_visit _ _ _ _ _ _ _ Hl Hv Ht) as (k & Hk). by eexists. }
    all: exists l; destruct Hl as [T1 T2 T3 T4 T5 T6 T7 T8 T9 T10 T11]; split; rewrite ?Hv, ?He; done. }
  intros Hr. eapply Hgen; [exact Hr|]. exists [].
  assert (Hv : visits (crawlStart s nworkers agent).1 = []).
  { unfold crawlStart, initial. cbn [fst]. set (s0 := mkC _ _ _ _ _ _ _ _ _ _ _).
    by destruct (enqueues_spec (Z.to_nat (MaxPages (target s))) (map (fun u => mkCrawlJob u 0) (starts s)) s0) as [(_ & _ & _ & _ & _ & _ & ->) _ _ _ _ _ _ _]. }
  split; rewrite ?Hv; try done.
  - by exists 0.
  - by intros u k ?%not_elem_of_nil.
Qed.

Lemma kinds_total l : kinds KFetched l + kinds KFailed l + kinds KDisallowed l + kinds KSkipped l = Z.of_nat (length l).
Proof.
  induction l as [|[u k] l IH]; [done|]. rewrite !kinds_cons. cbn [length].
  assert (Hk : one k KFetched + one k KFailed + one k KDisallowed + one k KSkipped = 1) by (by destruct k). lia.
Qed.

Lemma kinds_nonneg k l : 0 <= kinds k l.
Proof. unfold kinds. lia. Qed.

Lemma kinds_fetched l :
  Z.of_nat (length (omap (fun y : string * visit_kind => if decide (y.2 = KFetched) then Some y.1 else None) l)) = kinds KFetched l.
Proof.
  induction l as [|[u k] l IH]; [done|]. rewrite kinds_cons, <- IH. cbn [omap list_omap snd fst]. unfold one.
  destruct (decide (k = KFetched)); cbn [length]; lia.
Qed.

Lemma stored_refused t : length (tWrites t) = (length (stored t) + refusals t)%nat.
Proof. unfold stored, refusals, countb. induction (tWrites t) as [|[p [e|]] l IH]; [done|..]; cbn in *; lia. Qed.

(** C6. The statistics of a crawl are exact.  When a crawl of a compiled target
    has ended without being canceled, each URL discovered was visited once and
    was fetched, given up on, refused by robots.txt or skipped; [Fetched],
    [Failed] and [RobotsDisallow] are the numbers of the first three, as are the
    counters for success, dropped jobs and refusals.  The sink was handed one page
    for each URL fetched, in the order the visits ended, and [Fetched] counts
    those it could not write too.  Each URL is a start URL or lies in scope; when
    the target respects robots.txt, it was fetched or given up on only if the
    rules the crawl keeps for its origin allow it, and refused only if they do
    not; and these rules are those of an answer to a request for the origin's
    robots.txt. *)
Theorem crawl_stats_exact selectorError t s nworkers agent x : compile_ selectorError t = inr s ->
  MaxDepth t <= int64_max -> MaxPages (target s) <= int64_max ->
  rtc (crawlStep s) (crawlStart s nworkers agent) x -> finished x.1 = true -> ctxEnded x.1 = false ->
  let st := runStats x.1 x.2 in
  exists l : list (string * visit_kind),
  map fst l = map (fun v => jurl v.1) (visits x.1) /\ NoDup (map fst l) /\ Discovered st = Z.of_nat (length l) /\
  Fetched st = kinds KFetched l /\ Failed st = kinds KFailed l /\ RobotsDisallow st = kinds KDisallowed l /\
  0 <= Flagged st <= Fetched st /\
  countEv isSuccess (tEvents x.2) = Fetched st /\ countEv isDropped (tEvents x.2) = Failed st /\
  countEv isDisallowed (tEvents x.2) = RobotsDisallow st /\
  map (fun w => pURL w.1) (tWrites x.2) = omap (fun y => if decide (y.2 = KFetched) then Some y.1 else None) l /\
  Fetched st = Z.of_nat (length (stored x.2)) + Z.of_nat (refusals x.2) /\
  (forall u k, (u, k) ∈ l -> (u ∈ starts s \/ follows s u = true) /\ robotsDecided s (tRobots x.2) u k) /\
  Robots.Agent (tRobots x.2) = agent /\ rulesAnswered (tRobots x.2).
Proof.
  intros Hc Hmax Hpages Hx Hf He. destruct (compile_bounds _ _ _ Hc) as (Hd & Hp & Heq). rewrite <- Heq in Hmax.
  pose proof (crawl_reach _ _ _ _ Hx) as Hr. destruct (totals_reach _ _ _ _ Hx) as (l & [T1 T2 T3 T4 (f & T5 & Hfl) T6 T7 T8 T9 T10 [T11 T12]]).
  destruct (finished_visits _ _ _ _ _ Hr Hf) as (Hpend & _ & Hst).
  pose proof (discovered_queued _ _ _ _ _ Hr He) as Hdisc. rewrite Hpend, app_nil_r in Hdisc.
  pose proof (reach_inv _ _ _ _ _ Hr) as [[Q1 Q2 Q3 Q4 _] _ _ _ _ _ _ _ _ _ _ _ _]. rewrite Hpend, app_nil_r in Q3.
  assert (Hlen : length l = length (visits x.1)) by (rewrite <- (length_map fst l), T1; apply length_map).
  assert (Hdv : discovered x.1 = length (visits x.1)) by (rewrite Hdisc, Hst; apply length_map).
  pose proof (kinds_total l) as Hk. pose proof (kinds_nonneg KFetched l). pose proof (kinds_nonneg KFailed l).
  pose proof (kinds_nonneg KDisallowed l). pose proof (kinds_nonneg KSkipped l).
  assert (Hle : Z.of_nat (length l) <= int64_max) by lia.
  assert (Hw : forall z, 0 <= z <= Z.of_nat (length l) -> wrap64 z = z).
  { intros z Hz. apply wrap64_id. unfold in_int64, int64_min, int64_max in *. lia. }
  assert (Hurls : map fst l ≡ₚ map jurl (started x.1)) by (rewrite Hst, T1, map_map; done).
  exists l. cbn [runStats Fetched Failed RobotsDisallow Flagged Discovered]. rewrite T2, T3, T4, T5, T6, T7, T8, !Hw by lia.
  split_and!; try done; try lia.
  - by rewrite Hurls.
  - rewrite <- kinds_fetched, <- T9, length_map, stored_refused. lia.
  - intros u k Hin. split; [|by apply T10]. assert (Hu : u ∈ map fst l) by (apply list_elem_of_fmap; by exists (u, k)).
    rewrite Hurls in Hu. apply list_elem_of_fmap in Hu as (j & -> & Hj). by eapply started_scope.
Qed.

End Totals.

(** ** Witness: one page *)

(** A server that answers plain text. *)
Definition textEnv : Env (T := RateLimit.rateBucket) (NS := unit) :=
  mkEnv (fun _ s => (s, inr (mkResponse 200 "hello" (5 * Millisecond) "text/plain" ""))) (fun _ => 1) (fun _ => 0)
    (fun _ => tt : RateLimit.ctx (TokenBucket := RateLimit.rateBucket)) (fun _ => EText "ctx")
    pool limiter latencies (fun _ => 0%nat) (fun _ _ => 0) (fun _ => 0) (fun _ _ => 0%nat) (fun _ => f64_zero)
    (fun _ _ => 0) (fun _ => 0) (fun _ => true) None (EText "canceled").

Definition textV : VWorld (T := RateLimit.rateBucket) (NS := unit) :=
  mkV (idleWorld (ProxyPool.NewPool ["p"] 3 30)) ∅ (tRobots (noTotals "bot")) (tStats (noTotals "bot")) [].

Definition textStep := crawlStep (fun _ => true) (fun _ => None) (fun _ => 0) textEnv textEnv quietCfg quietCfg 2 "run" noWriteError siteScope.

Definition textJob : job := mkCrawlJob "http://shop/" 0.

Definition textVisit : VWorld (T := RateLimit.rateBucket) (NS := unit) * option (list job) :=
  visit (fun _ => true) (fun _ => None) (fun _ => 0) textEnv textEnv quietCfg quietCfg 2 "run" noWriteError siteScope textJob textV.

Definition textTotals : Totals :=
  mkTotals (stats textVisit.1) (evs (vworld textVisit.1)) (written textVisit.1) (robots textVisit.1).

Definition textEnd : CState * Totals :=
  (default (initial 100 1 ["http://shop/"]) (crun 100 [Send 0; VisitDone 0 []; Recv 0; CloseJobs; Exit 0] (initial 100 1 ["http://shop/"])), textTotals).

Lemma textStart : crawlStart siteScope 1 "bot" = (initial 100 1 ["http://shop/"], noTotals "bot").
Proof. by vm_compute. Qed.

Lemma textVisit_totals :
  visitTotals (fun _ => true) (fun _ => None) (fun _ => 0) textEnv textEnv quietCfg quietCfg 2 "run" noWriteError siteScope textJob []
    (noTotals "bot") textTotals.
Proof.
  exists textV, textVisit.1, (evs (vworld textVisit.1)).
  split; [by vm_compute|]. split_and!; done.
Qed.

Lemma text_l e c c' t t' x : step 100 e c = Some c' ->
  (match e with
   | VisitDone i next => workers c !! i = Some (Visiting textJob) /\ next = [] /\ t = noTotals "bot" /\ t' = textTotals
   | _ => t' = t
   end) -> rtc textStep (c', t') x -> rtc textStep (c, t) x.
Proof.
  intros Hs He Hr. apply (rtc_l _ _ (c', t')); [|exact Hr]. exists e. split; [exact Hs|].
  destruct e; try exact He. destruct He as (Hj & -> & -> & ->). exists textJob.
  split; [exact Hj|]. split; [done|exact textVisit_totals].
Qed.

Ltac text_step e := eapply (text_l e); [vm_compute; reflexivity|first [exact eq_refl|by split_and!]|].

Lemma textEnd_reach : rtc textStep (crawlStart siteScope 1 "bot") textEnd.
Proof.
  rewrite textStart. text_step (Send 0). text_step (VisitDone 0 []). text_step (Recv 0). text_step CloseJobs. text_step (Exit 0).
  apply rtc_refl.
Qed.

(** One page, allowed by the robots.txt the crawl fetched first. *)
Lemma crawl_stats_exact_witness :
  Fetched (runStats textEnd.1 textEnd.2) = 1 /\ exists l, map fst l = ["http://shop/"] /\
    Fetched (runStats textEnd.1 textEnd.2) = kinds KFetched l /\ rulesAnswered (fun _ => None) (fun _ => 0) textEnv quietCfg 2 (tRobots textEnd.2) /\
    Robots.entries (tRobots textEnd.2) !! "http://shop" <> None.
Proof.
  split; [by vm_compute|].
  destruct (crawl_stats_exact (fun _ => true) (fun _ => None) (fun _ => 0) textEnv textEnv quietCfg quietCfg 2 "run" noWriteError
    (fun _ => None) (siteTarget ["http://shop/"]) siteScope 1 "bot" textEnd) as (l & Hl & _ & _ & Hf & _ & _ & _ & _ & _ & _ & _ & _ & _ & _ & Hr);
    [reflexivity|by vm_compute|by vm_compute|exact textEnd_reach|by vm_compute|by vm_compute|].
  exists l. split; [rewrite Hl; vm_compute; reflexivity|]. split; [exact Hf|]. split; [exact Hr|by vm_compute].
Defined.
