(* ===== verification/Jobs.v ===== *)
(** * Jobs: submission, scheduling and the queue
    ([internal/api], [internal/scheduler], [internal/queue])

    The API and the scheduler push jobs through a [Producer]; a harvester
    process reads them back from a source.  Redis, cron, YAML, [encoding/json] and
    [crypto/rand] are parameters: [XAdd] is the effect of one stream append, the
    batches [XReadGroup] answers are arguments of [jobsLoop], a request arrives
    routed and decoded, and [parseCron] is the error of a cron expression.  A
    [select] between a hand-off and [ctx.Done()] is decided by the oracle
    [ready]. *)

From Stdlib Require Import Ascii.
From stdpp Require Import gmap strings.
From S2P Require Import Prelude GoString Errors Model.

Open Scope string_scope.
Open Scope Z_scope.

(** ** Producers *)

Class Producer (W : Type) := PushJob : Job -> W -> W * option goerr.

(** [req.Country + "-" + req.Language], in the API and in the scheduler. *)
Definition localeOf (country language : string) : string :=
  if bool_decide (country <> "") || bool_decide (language <> "") then country ++ "-" ++ language else "".

Definition lowerhex (n : Z) : ascii := chr (Z.to_N (if n <? 10 then 48 + n else 87 + n)).

(** [hex.EncodeToString] *)
Fixpoint hexEncode (s : string) : string :=
  match s with
  | EmptyString => ""
  | String a rest => String (lowerhex (byteval a / 16)) (String (lowerhex (byteval a mod 16)) (hexEncode rest))
  end.

(** [newRunID] of the API and of the scheduler: [rand] is what [rand.Read]
    filled the eight bytes with. *)
Definition newRunID (pre : string) (rand : goerr + string) : goerr + string :=
  match rand with inl e => inl e | inr b => inr (pre ++ hexEncode b) end.

(** ** The scheduler *)

Record Harvest := mkHarvest {
  Name : string; CronExpr : string; Queries : list string; hCountry : string; hLanguage : string; hDevice : string }.

(** The [Scheduler]: the harvests registered with cron, in order.  Starting and
    stopping it is cron's. *)
Record Scheduler := mkScheduler { registered : list Harvest }.

Definition NewScheduler : Scheduler := mkScheduler [].

Definition AddHarvest (parseCron : string -> option goerr) (h : Harvest) (s : Scheduler) : Scheduler * option goerr :=
  match parseCron (CronExpr h) with
  | Some e => (s, Some (EWrapf ("scheduler: invalid cron expression " ++ quoted (CronExpr h) ++ " for harvest " ++ quoted (Name h)) e))
  | None => (mkScheduler (registered s ++ [h])%list, None)
  end.

(** What [os.ReadFile] answers. *)
Inductive FileRead := FileMissing (e : goerr) | FileError (e : goerr) | FileData (b : string).

(** [LoadHarvests]; [parseYAML] is [yaml.Unmarshal] into a [harvestsFile]. *)
Definition LoadHarvests (parseYAML : string -> goerr + list Harvest) (path : string) (file : FileRead) : goerr + list Harvest :=
  if decide (path = "") then inr []
  else match file with
       | FileMissing _ => inr []
       | FileError e => inl (EWrapf ("scheduler: read " ++ path) e)
       | FileData b => match parseYAML b with
                       | inl e => inl (EWrapf ("scheduler: parse " ++ path) e)
                       | inr hs => inr hs
                       end
       end.

Section Producers.
Context {W : Type} `{!Producer W}.

(** The loop of [runOnce]: a query that cannot be pushed is skipped. *)
Fixpoint pushEach (jobs : list Job) (w : W) : W * nat :=
  match jobs with
  | [] => (w, 0%nat)
  | job :: rest =>
      let '(w, err) := PushJob job w in
      let '(w, pushed) := pushEach rest w in
      (w, match err with None => S pushed | Some _ => pushed end)
  end.

Definition runOnce (h : Harvest) (rand : goerr + string) (w : W) : W * nat :=
  match newRunID "sched-" rand with
  | inl _ => (w, 0%nat)
  | inr runID =>
      pushEach (map (fun q => mkJob q runID (localeOf (hCountry h) (hLanguage h)) (hDevice h)) (Queries h)) w
  end.

(** ** The API *)

Record createJobRequest := mkCreate { crQueries : list string; crCountry : string; crLanguage : string; crDevice : string }.

(** The JSON bodies the server writes. *)
Inductive Reply :=
  | RError (status : Z) (msg : string)
  | RCreated (runID : string) (accepted : Z)
  | RStatus (runID : string) (submitted completed : Z) (known submittedKnown : bool).

(** [w.WriteHeader] of the reply. *)
Definition replyStatus (r : Reply) : Z :=
  match r with RError status _ => status | RCreated _ _ => 202 | RStatus _ _ _ _ _ => 200 end.

Section Server.
Context (errorText : goerr -> string).

(** The loop of [handleCreateJob]: the first failure ends it. *)
Fixpoint pushAll (jobs : list Job) (w : W) : W * option goerr :=
  match jobs with
  | [] => (w, None)
  | job :: rest =>
      let '(w, err) := PushJob job w in
      match err with Some e => (w, Some e) | None => pushAll rest w end
  end.

Definition jobsOf (req : createJobRequest) (runID : string) : list Job :=
  map (fun q => mkJob q runID (localeOf (crCountry req) (crLanguage req)) (crDevice req)) (crQueries req).

(** [submitted] is [s.submitted]. *)
Definition handleCreateJob (body : goerr + createJobRequest) (rand : goerr + string)
    (submitted : gmap string Z) (w : W) : gmap string Z * W * Reply :=
  match body with
  | inl e => (submitted, w, RError 400 ("invalid JSON body: " ++ errorText e))
  | inr req =>
      match crQueries req with
      | [] => (submitted, w, RError 400 "queries must be a non-empty array")
      | _ =>
          match newRunID "run-" rand with
          | inl _ => (submitted, w, RError 500 "failed to generate run ID")
          | inr runID =>
              let '(w, err) := pushAll (jobsOf req runID) w in
              match err with
              | Some e => (submitted, w, RError 502 ("failed to enqueue job: " ++ errorText e))
              | None =>
                  let n := Z.of_nat (length (crQueries req)) in
                  (<[runID := n]> submitted, w, RCreated runID n)
              end
          end
      end
  end.

(** [counter] is [s.Counter], if there is one, with what it counts. *)
Definition handleJobStatus (counter : option (string -> goerr + Z)) (pathValue : string)
    (submitted : gmap string Z) : Reply :=
  let runID := TrimSpace pathValue in
  if decide (runID = "") then RError 400 "run_id is required"
  else
    let n := default 0 (submitted !! runID) in
    let submittedKnown := bool_decide (is_Some (submitted !! runID)) in
    match counter with
    | None => RStatus runID n (-1) false submittedKnown
    | Some count =>
        match count runID with
        | inl e => RError 500 ("failed to count results: " ++ errorText e)
        | inr completed => RStatus runID n completed true submittedKnown
        end
    end.

(** *** Routes *)

(** What a handler writes. *)
Record HTTPReply := mkHTTPReply { hrStatus : Z; hrContentType : string; hrBody : string }.

(** [writeJSON] and [writeError]; [encode] is [json.Encoder.Encode] of the reply. *)
Definition writeJSON (encode : Reply -> string) (r : Reply) : HTTPReply :=
  mkHTTPReply (replyStatus r) "application/json" (encode r).

Definition handleHealthz : HTTPReply := mkHTTPReply 200 "" "ok".

(** A request the mux has matched, with what its handler reads of it. *)
Inductive Matched :=
  | MCreateJob (body : goerr + createJobRequest) (rand : goerr + string)
  | MJobStatus (pathValue : string)
  | MHealthz.

(** The patterns [Handler] registers. *)
Definition pattern (m : Matched) : string :=
  match m with
  | MCreateJob _ _ => "POST /jobs"
  | MJobStatus _ => "GET /jobs/{run_id}"
  | MHealthz => "GET /healthz"
  end.

(** [Handler()] on a matched request. *)
Definition serveMatched (encode : Reply -> string) (counter : option (string -> goerr + Z)) (m : Matched)
    (submitted : gmap string Z) (w : W) : gmap string Z * W * HTTPReply :=
  match m with
  | MCreateJob body rand =>
      let '(submitted, w, r) := handleCreateJob body rand submitted w in (submitted, w, writeJSON encode r)
  | MJobStatus pathValue => (submitted, w, writeJSON encode (handleJobStatus counter pathValue submitted))
  | MHealthz => (submitted, w, handleHealthz)
  end.

(** Requests one after the other; [NewServer] starts with no runs submitted. *)
Fixpoint serveAll (encode : Reply -> string) (counter : option (string -> goerr + Z)) (ms : list Matched)
    (submitted : gmap string Z) (w : W) : gmap string Z * W * list HTTPReply :=
  match ms with
  | [] => (submitted, w, [])
  | m :: rest =>
      let '(submitted, w, r) := serveMatched encode counter m submitted w in
      let '(submitted, w, rs) := serveAll encode counter rest submitted w in (submitted, w, r :: rs)
  end.

Definition NewServer : gmap string Z := ∅.

End Server.
End Producers.

(** ** The Redis stream *)

(** The field map of an entry, and an entry as [XReadGroup] answers it: a field
    is a string or absent. *)
Definition Values_ : Type := gmap string string.
Record XMessage := mkMsg { ID : string; Values : Values_ }.

Definition jobValues (job : Job) : Values_ :=
  <["query" := jQuery job]> (<["run_id" := jRunID job]> (<["locale" := jLocale job]> {["device" := jDevice job]})).

(** [msg.Values[k].(string)], the zero value when it fails. *)
Definition field (k : string) (m : XMessage) : string := default "" (Values m !! k).

Definition jobOf (m : XMessage) : Job := mkJob (field "query" m) (field "run_id" m) (field "locale" m) (field "device" m).

Section Redis.
Context {W : Type}.
(** [Client.XAdd] on the stream. *)
Context (XAdd : Values_ -> W -> W * option goerr).

Definition pushStream (job : Job) (w : W) : W * option goerr :=
  let '(w, err) := XAdd (jobValues job) w in
  (w, match err with Some e => Some (EWrapf "queue: push job" e) | None => None end).

Definition PushQuery (query : string) (w : W) : W * option goerr := pushStream (mkJob query "" "" "") w.

End Redis.

(** [err] is the error of [XGroupCreateMkStream], if any. *)
Definition ensureGroup (errorText : goerr -> string) (err : option goerr) : option goerr :=
  match err with
  | Some e => if Contains (errorText e) "BUSYGROUP" then None else Some (EWrapf "queue: create consumer group" e)
  | None => None
  end.

(** What a source does that others see. *)
Inductive qevent := Hand (job : Job) | Ack (id : string).

(** What one turn of the loop of [Jobs] finds: the context done before the read,
    no answer (an error; [stop] when the context ends the backoff), or a batch. *)
Inductive Read := ReadDone | ReadError (stop : bool) | ReadBatch (msgs : list XMessage).

Section Source.
(** [ready n]: whether the [n]-th hand-off is taken rather than [ctx.Done()]. *)
Context (ready : nat -> bool).

(** The messages of a batch from the [n]-th hand-off on; [false] when the loop
    returned. *)
Fixpoint deliver (n : nat) (msgs : list XMessage) : list qevent * bool :=
  match msgs with
  | [] => ([], true)
  | m :: rest =>
      if ready n then let '(evs, go) := deliver (S n) rest in (Hand (jobOf m) :: Ack (ID m) :: evs, go)
      else ([], false)
  end.

(** The loop of [RedisStreamSource.Jobs] over what it reads. *)
Fixpoint jobsLoop (n : nat) (reads : list Read) : list qevent :=
  match reads with
  | [] | ReadDone :: _ => []
  | ReadError stop :: rest => if stop then [] else jobsLoop n rest
  | ReadBatch msgs :: rest =>
      let '(evs, go) := deliver n msgs in
      (evs ++ if go then jobsLoop (n + length msgs) rest else [])%list
  end.

(** [MemorySource.Jobs] *)
Fixpoint memoryJobs (n : nat) (queries : list string) : list Job :=
  match queries with
  | [] => []
  | q :: rest => if ready n then mkJob q "" "" "" :: memoryJobs (S n) rest else []
  end.

End Source.
