(* ===== verification/JobsSpec.v ===== *)
(** * Properties of job submission and delivery

    The branches of the API's handlers, the promise of a queue as a class that
    the Redis stream implements, and the way of a job from a request to the
    worker that serves it. *)

From Stdlib Require Import Ascii.
From stdpp Require Import gmap strings.
From S2P Require Import Prelude GoString Errors Model Worker Jobs.

Open Scope string_scope.
Open Scope Z_scope.

(** ** Pushing *)

Section Pushing.
Context {W : Type} `{!Producer W}.

(** The jobs were all accepted, one after the other. *)
Inductive pushes : list Job -> W -> W -> Prop :=
  | pushes_nil w : pushes [] w w
  | pushes_cons job jobs w w1 w' : PushJob job w = (w1, None) -> pushes jobs w1 w' -> pushes (job :: jobs) w w'.

Lemma pushAll_spec jobs w : let '(w', err) := pushAll jobs w in
  match err with
  | None => pushes jobs w w'
  | Some e => exists before job after w1, jobs = (before ++ job :: after)%list /\ pushes before w w1 /\ PushJob job w1 = (w', Some e)
  end.
Proof.
  revert w. induction jobs as [|job jobs IH]; intros w; cbn [pushAll]; [constructor|].
  destruct (PushJob job w) as [w1 [e|]] eqn:Hp.
  - exists [], job, jobs, w. split; [done|]. split; [constructor|done].
  - specialize (IH w1). destruct (pushAll jobs w1) as [w' [e|]]; [|by econstructor].
    destruct IH as (before & j & after & w2 & -> & Hb & Hj). exists (job :: before), j, after, w2.
    split; [done|]. split; [by econstructor|done].
Qed.

Lemma created_run errorText body rand submitted (w : W) submitted' w' runID n :
  handleCreateJob errorText body rand submitted w = (submitted', w', RCreated runID n) ->
  exists req b, body = inr req /\ runID = "run-" ++ hexEncode b /\ n = Z.of_nat (length (crQueries req)) /\
    submitted' = <[runID := n]> submitted /\ pushes (jobsOf req runID) w w'.
Proof.
  unfold handleCreateJob. destruct body as [e|req]; [done|]. destruct (crQueries req) eqn:Hq; [done|]. rewrite <- Hq.
  destruct rand as [e|b]; cbn [newRunID]; [done|]. pose proof (pushAll_spec (jobsOf req ("run-" ++ hexEncode b)) w) as Hp.
  destruct (pushAll _ w) as [w1 [e|]]; [done|]. intros [= <- <- <- <-]. by exists req, b.
Qed.

(** C26. [POST /jobs] on every branch.  A request is accepted exactly when its
    body decodes, it has queries, a run ID could be made and every job was
    pushed, in the order of its queries; only then is the run recorded.  When a
    push fails the reply is 502 although the jobs before it stay queued, and the
    run is not recorded. *)
Theorem create_job_outcome errorText body rand submitted (w : W) :
  let '(submitted', w', reply) := handleCreateJob errorText body rand submitted w in
  match reply with
  | RCreated runID n =>
      exists req b, body = inr req /\ rand = inr b /\ runID = "run-" ++ hexEncode b /\
        n = Z.of_nat (length (crQueries req)) /\ 0 < n /\
        submitted' = <[runID := n]> submitted /\ pushes (jobsOf req runID) w w'
  | RError status _ =>
      submitted' = submitted /\
      match body, rand with
      | inl _, _ => status = 400 /\ w' = w
      | inr req, inl _ => status = (if decide (crQueries req = []) then 400 else 500) /\ w' = w
      | inr req, inr b =>
          if decide (crQueries req = []) then status = 400 /\ w' = w
          else status = 502 /\ exists before job after w1 e,
            jobsOf req ("run-" ++ hexEncode b) = (before ++ job :: after)%list /\ pushes before w w1 /\ PushJob job w1 = (w', Some e)
      end
  | RStatus _ _ _ _ _ => False
  end.
Proof.
  unfold handleCreateJob. destruct body as [e|req]; [done|].
  destruct (crQueries req) as [|q qs] eqn:Hq; [by destruct rand|]. rewrite <- Hq.
  unfold newRunID. destruct rand as [e|b]; [by rewrite decide_False by (by rewrite Hq)|].
  pose proof (pushAll_spec (jobsOf req ("run-" ++ hexEncode b)) w) as Hp.
  destruct (pushAll _ w) as [w' [e|]].
  - rewrite decide_False by (by rewrite Hq). destruct Hp as (before & job & after & w1 & Hj & Hb & He).
    split; [done|]. split; [done|]. by exists before, job, after, w1, e.
  - exists req, b. do 4 (split; [done|]). split; [rewrite Hq; cbn [length]; lia|done].
Qed.

(** Only a request to create a job changes anything; every reply of the job
    routes is JSON with the status of its reply. *)
Lemma serve_readonly errorText encode counter m submitted (w : W) :
  let '(submitted', w', r) := serveMatched errorText encode counter m submitted w in
  (pattern m <> "POST /jobs" -> submitted' = submitted /\ w' = w) /\
  (pattern m <> "GET /healthz" -> hrContentType r = "application/json" /\ exists reply, hrStatus r = replyStatus reply /\ hrBody r = encode reply).
Proof.
  destruct m as [body rand|pathValue|]; cbn [serveMatched pattern]; [| |done].
  - destruct (handleCreateJob _ _ _ _ _) as [[submitted' w'] r]. split; [done|]. intros _. split; [done|]. by exists r.
  - split; [done|]. intros _. split; [done|]. by eexists.
Qed.

End Pushing.

(** ** Run IDs and status *)

Lemma hexEncode_words s : allb wordByte (hexEncode s) = true.
Proof.
  induction s as [|a s IH]; [done|]. cbn [hexEncode allb]. rewrite IH, andb_true_r.
  assert (Hx : forall n, 0 <= n < 16 -> wordByte (lowerhex n) = true).
  { intros n Hn. unfold wordByte, between, lowerhex, byteval, chr.
    destruct (Z.ltb_spec n 10); rewrite N_ascii_embedding by lia; rewrite Z2N.id; lia. }
  assert (Ha : 0 <= byteval a < 256) by (unfold byteval; pose proof (N_ascii_bounded a); lia).
  rewrite !Hx; [done|..]; [apply Z.mod_pos_bound; lia|]. split; [apply Z.div_pos; lia|apply Z.div_lt_upper_bound; lia].
Qed.

Lemma TrimSpace_words s : allb wordByte s = true -> TrimSpace s = s.
Proof.
  intros Hs. pose proof (decode_word s Hs) as Hf. unfold TrimSpace. rewrite (dropSpace_none (decode s)) by done.
  rewrite dropSpace_none by (by apply Forall_reverse). rewrite reverse_involutive. apply decode_concat.
Qed.

(** The status of a run just accepted reports all its queries as submitted,
    with the count of the results when there is a counter and [-1], marked
    unknown, when there is none; a run this process did not submit is reported
    as not known rather than as empty. *)
Theorem job_status_after_create `{!Producer W} errorText body rand submitted (w : W) runID n submitted' w' counter other :
  handleCreateJob errorText body rand submitted w = (submitted', w', RCreated runID n) ->
  submitted !! TrimSpace other = None -> TrimSpace other <> "" -> TrimSpace other <> runID ->
  handleJobStatus errorText counter runID submitted' =
    match counter with
    | None => RStatus runID n (-1) false true
    | Some count => match count runID with
                    | inl e => RError 500 ("failed to count results: " ++ errorText e)
                    | inr c => RStatus runID n c true true
                    end
    end /\
  (forall id m c k known, handleJobStatus errorText counter other submitted' = RStatus id m c k known ->
     m = 0 /\ known = false).
Proof.
  intros Hc Ho Hne Hother. apply created_run in Hc as (req & b & _ & -> & -> & -> & _).
  unfold handleJobStatus. rewrite (TrimSpace_words ("run-" ++ hexEncode b)) by (rewrite allb_app; by rewrite hexEncode_words).
  rewrite decide_False by done. rewrite lookup_insert_eq. split; [by destruct counter|].
  intros id m c k known. cbv zeta. rewrite decide_False by done. rewrite lookup_insert_ne, Ho by congruence.
  destruct counter as [count|]; [destruct (count _); [done|]|]; by intros [= <- <- <- <- <-].
Qed.

(** A producer that keeps every job. *)
Definition listProducer : Producer (list Job) := fun job w => ((w ++ [job])%list, None).

Definition toyCreate : createJobRequest := mkCreate ["cats"; "dogs"] "us" "en" "mobile".

Definition noneSubmitted : gmap string Z := ∅.
Definition toySub : gmap string Z := {["run-6162" := 2]}.

Lemma job_status_after_create_witness :
  handleJobStatus (fun _ => "") None "run-6162" toySub = RStatus "run-6162" 2 (-1) false true.
Proof.
  exact (proj1 (@job_status_after_create (list Job) listProducer (fun _ => "") (inr toyCreate) (inr "ab") noneSubmitted [] "run-6162" 2 toySub
    (jobsOf toyCreate "run-6162") None " other " ltac:(vm_compute; reflexivity) ltac:(vm_compute; reflexivity)
    ltac:(vm_compute; discriminate) ltac:(vm_compute; discriminate))).
Defined.

(** ** The queue *)

(** What a producer promises: a job it accepted is queued, after those before it. *)
Class QueueLaws (W : Type) `{!Producer W} (queued : W -> list Job) : Prop :=
  push_queued : forall job w w', PushJob job w = (w', None) -> queued w' = (queued w ++ [job])%list.

Lemma pushes_queued `{!Producer W} (queued : W -> list Job) `{!QueueLaws W queued} jobs w w' :
  pushes jobs w w' -> queued w' = (queued w ++ jobs)%list.
Proof.
  induction 1 as [w|job jobs w w1 w' Hp _ IH]; [by rewrite app_nil_r|].
  rewrite IH, (push_queued _ _ _ Hp), <- app_assoc. done.
Qed.

(** *** The Redis stream is a queue *)

Lemma jobOf_values id job : jobOf (mkMsg id (jobValues job)) = job.
Proof. by destruct job. Qed.

Section Stream.
Context {W : Type} (XAdd : Values_ -> W -> W * option goerr) (entries : W -> list XMessage).
(** An append that succeeds puts an entry with the given fields at the end. *)
Context (XAdd_appends : forall v w w', XAdd v w = (w', None) -> exists id, entries w' = (entries w ++ [mkMsg id v])%list).

#[local] Instance stream_producer : Producer W := pushStream XAdd.

#[local] Instance stream_laws : QueueLaws W (fun w => map jobOf (entries w)).
Proof.
  intros job w w'. unfold PushJob, stream_producer, pushStream.
  destruct (XAdd (jobValues job) w) as [w1 [e|]] eqn:Hx; [done|]. intros [= <-].
  destruct (XAdd_appends _ _ _ Hx) as [id ->]. rewrite map_app. cbn [map]. by rewrite jobOf_values.
Qed.
End Stream.

(** *** Reading *)

Definition messages (reads : list Read) : list XMessage :=
  concat (map (fun r => match r with ReadBatch msgs => msgs | _ => [] end) reads).

(** A message handed to a worker and acknowledged. *)
Definition handled (m : XMessage) : list qevent := [Hand (jobOf m); Ack (ID m)].

Definition stops (r : Read) : bool := match r with ReadDone | ReadError true => true | _ => false end.

Lemma deliver_spec ready n msgs : exists k, (k <= length msgs)%nat /\
  fst (deliver ready n msgs) = concat (map handled (take k msgs)) /\
  (snd (deliver ready n msgs) = true <-> k = length msgs) /\
  ((forall i, ready i = true) -> k = length msgs).
Proof.
  revert n. induction msgs as [|m msgs IH]; intros n; [by exists 0%nat|]. cbn [deliver].
  destruct (ready n) eqn:Hr.
  - destruct (IH (S n)) as (k & Hk & He & Hg & Ha). destruct (deliver ready (S n) msgs) as [evs go]. exists (S k).
    cbn [fst snd length firstn map concat] in *. rewrite He. split; [lia|]. split; [done|]. split; [|intros; f_equal; auto].
    rewrite Hg. split; congruence.
  - exists 0%nat. cbn [fst snd length]. split; [lia|]. split; [done|]. split; [done|]. intros H. by rewrite H in Hr.
Qed.

Lemma jobsLoop_prefix ready n reads : exists k,
  jobsLoop ready n reads = concat (map handled (take k (messages reads))) /\
  ((forall i, ready i = true) -> forallb (fun r => negb (stops r)) reads = true -> (length (messages reads) <= k)%nat).
Proof.
  revert n. induction reads as [|r reads IH]; intros n; [by exists 0%nat|].
  destruct r as [|stop|msgs].
  - exists 0%nat. split; [done|]. intros _. done.
  - cbn [jobsLoop]. change (messages (ReadError stop :: reads)) with (messages reads).
    destruct stop; [exists 0%nat; split; [done|]; intros _; done|]. apply IH.
  - cbn [jobsLoop]. change (messages (ReadBatch msgs :: reads)) with (msgs ++ messages reads)%list.
    destruct (deliver_spec ready n msgs) as (k & Hk & He & Hg & Ha). destruct (deliver ready n msgs) as [evs [|]]; cbn [fst snd] in *.
    + assert (k = length msgs) as -> by (by apply Hg). destruct (IH (n + length msgs)%nat) as (k' & Hj & Hall).
      exists (length msgs + k')%nat. rewrite firstn_app_2, map_app, concat_app, Hj, He, firstn_all. split; [done|].
      intros Hready Hs. rewrite length_app. specialize (Hall Hready Hs). lia.
    + exists k. rewrite app_nil_r, He, take_app_le by done. split; [done|]. intros Hready _. specialize (Ha Hready).
      destruct Hg as [_ Hg]. by specialize (Hg Ha).
Qed.

(** The Redis source acknowledges a message exactly when it has handed the
    job on, right after it: whatever the reads and the cancellation, the events
    are those of the first messages read, in order, and all of them when nothing
    stops the loop.  A job that was handed to a worker is acknowledged, so it is
    not left pending if that worker dies. *)
Theorem stream_acks_handed ready reads : exists k,
  jobsLoop ready 0 reads = concat (map handled (take k (messages reads))) /\
  ((forall i, ready i = true) -> forallb (fun r => negb (stops r)) reads = true ->
   jobsLoop ready 0 reads = concat (map handled (messages reads))).
Proof.
  destruct (jobsLoop_prefix ready 0 reads) as (k & He & Hall). exists k. split; [done|].
  intros Hr Hs. rewrite He, take_ge; [done|]. by apply Hall.
Qed.

Lemma stream_acks_handed_witness :
  jobsLoop (fun _ => true) 0 [ReadError false; ReadBatch [mkMsg "1" (jobValues (mkJob "q" "r" "us-en" ""))]] =
  [Hand (mkJob "q" "r" "us-en" ""); Ack "1"].
Proof.
  destruct (stream_acks_handed (fun _ => true) [ReadError false; ReadBatch [mkMsg "1" (jobValues (mkJob "q" "r" "us-en" ""))]])
    as (k & _ & H).
  exact (H (fun _ => eq_refl) eq_refl).
Defined.

(** *** From a request to the worker *)

Definition noDash (s : string) : bool := allb (fun a => negb (Ascii.eqb a "-"%char)) s.

Lemma locale_roundtrip country language : noDash country = true ->
  localeCountry (localeOf country language) = country /\ localeLanguage (localeOf country language) = language.
Proof.
  intros Hc. unfold localeOf, localeCountry, localeLanguage.
  destruct (bool_decide (country <> "") || bool_decide (language <> "")) eqn:He.
  - change (country ++ "-" ++ language) with (country ++ String "-" language). by rewrite (CutByte_present "-" country language Hc).
  - apply orb_false_iff in He as [H1%bool_decide_eq_false H2%bool_decide_eq_false].
    apply dec_stable in H1 as ->. by apply dec_stable in H2 as ->.
Qed.

Definition handedJobs (evs : list qevent) : list Job := omap (fun e => match e with Hand j => Some j | Ack _ => None end) evs.

Lemma handedJobs_handled ms : handedJobs (concat (map handled ms)) = map jobOf ms.
Proof. induction ms as [|m ms IH]; [done|]. cbn. by rewrite <- IH. Qed.

(** C23. A request accepted over the Redis stream reaches the workers intact: the
    entries it added, when read without interruption, are handed on as one job
    per query, in order, with the reply's run ID and the request's device, and
    the country and language a worker takes from a job's locale are the
    request's, if its country has no dash. *)
Theorem submitted_jobs_delivered {W} (XAdd : Values_ -> W -> W * option goerr) (entries : W -> list XMessage)
    errorText req rand submitted w submitted' w' runID n ready reads added :
  (forall v w w', XAdd v w = (w', None) -> exists id, entries w' = (entries w ++ [mkMsg id v])%list) ->
  handleCreateJob (Producer0 := pushStream XAdd) errorText (inr req) rand submitted w = (submitted', w', RCreated runID n) ->
  entries w' = (entries w ++ added)%list -> messages reads = added -> (forall i, ready i = true) ->
  forallb (fun r => negb (stops r)) reads = true -> noDash (crCountry req) = true ->
  map jQuery (handedJobs (jobsLoop ready 0 reads)) = crQueries req /\
  Forall (fun j => jRunID j = runID /\ jDevice j = crDevice req /\
                   localeCountry (jLocale j) = crCountry req /\ localeLanguage (jLocale j) = crLanguage req)
    (handedJobs (jobsLoop ready 0 reads)).
Proof.
  intros Hx Hc Hadded Hm Hready Hs Hdash.
  destruct (created_run (Producer0:=pushStream XAdd) _ _ _ _ _ _ _ _ _ Hc) as (req' & b & [= <-] & _ & _ & _ & Hp).
  apply (pushes_queued (Producer0:=stream_producer XAdd) _ (QueueLaws0:=stream_laws XAdd entries Hx)) in Hp.
  rewrite Hadded, map_app in Hp. apply app_inv_head in Hp.
  destruct (jobsLoop_prefix ready 0 reads) as (k & He & Hall). rewrite He, take_ge by (by apply Hall).
  rewrite handedJobs_handled, Hm, Hp. unfold jobsOf. split.
  - rewrite map_map. cbn [jQuery]. apply map_id.
  - destruct (locale_roundtrip _ (crLanguage req) Hdash) as [H1 H2].
    apply Forall_forall. intros j. rewrite list_elem_of_In, in_map_iff. by intros (q & <- & _).
Qed.

Definition listXAdd (v : Values_) (w : list XMessage) : list XMessage * option goerr := ((w ++ [mkMsg "0" v])%list, None).

Definition toyMs : list XMessage := map (fun j => mkMsg "0" (jobValues j)) (jobsOf toyCreate "run-6162").

Lemma submitted_jobs_delivered_witness :
  crQueries toyCreate = ["cats"; "dogs"] /\
  map jQuery (handedJobs (jobsLoop (fun _ => true) 0
    [ReadBatch toyMs])) = ["cats"; "dogs"].
Proof.
  split; [done|].
  exact (proj1 (submitted_jobs_delivered listXAdd id (fun _ => "") toyCreate (inr "ab") noneSubmitted [] toySub toyMs "run-6162" 2
    (fun _ => true) [ReadBatch toyMs] toyMs
    ltac:(intros v w w' [= <-]; by eexists) ltac:(vm_compute; reflexivity) ltac:(vm_compute; reflexivity)
    ltac:(vm_compute; reflexivity) ltac:(done) ltac:(vm_compute; reflexivity) ltac:(vm_compute; reflexivity))).
Defined.
