(* ===== verification/Parser.v ===== *)
(** * Result parsers ([internal/parser])

    [Parse] reads a search page through the HTML library of [Web]; [ParseJSON]
    maps a provider's decoded response.  [json.Unmarshal] is a parameter. *)

From S2P Require Import Prelude GoString Web Errors Model.

Open Scope string_scope.
Open Scope Z_scope.

(** [&model.SerpResult{Query: query}] with the blocks found and the
    calibration note. *)
Definition resultOf (query : string) (ai : option AIOverview) (fs : option FeaturedSnippet)
    (paa : list string) (organic : list OrganicResult) (missing : list string) : SerpResult :=
  mkSerp query "" "" "" zeroTime 0 "" ai fs paa organic
    (match missing with [] => None | _ => Some (mkCalibration missing "") end) "".

Definition missingBlocks (organic : list OrganicResult) : list string :=
  match organic with [] => ["organic_results"] | _ => [] end.

(** ** [parser.go] *)

Section HTML.
Context `{DOM}.

Definition overviewSource (s : Sel) : option string :=
  match Attr "href" s with Some href => if decide (href = "") then None else Some href | None => None end.

Definition overviewOf (doc : Sel) : option AIOverview :=
  let ov := Find ".serp-ai-overview" doc in
  if 0 <? Length ov then
    Some (mkAIOverview (TrimSpace (Text (Find ".ai-overview-text" ov)))
            (omap overviewSource (Each (Find ".ai-overview-sources a" ov))))
  else None.

Definition snippetOf (doc : Sel) : option FeaturedSnippet :=
  let fs := Find ".serp-featured-snippet" doc in
  if 0 <? Length fs then
    Some (mkFeatured (TrimSpace (Text (Find ".fs-title" fs))) (AttrOr "href" "" (Find ".fs-link" fs))
            (TrimSpace (Text (Find ".fs-text" fs))))
  else None.

Definition questionsOf (doc : Sel) : list string :=
  omap (fun s => let q := TrimSpace (Text s) in if decide (q = "") then None else Some q) (Each (Find ".paa-question" doc)).

(** The [i]-th organic result, from 0. *)
Definition organicOf (i : nat) (s : Sel) : OrganicResult :=
  mkOrganic (Z.of_nat i + 1) (TrimSpace (Text (Find ".organic-title" s))) (AttrOr "href" "" (Find ".organic-link" s))
    (TrimSpace (Text (Find ".organic-snippet" s))).

Definition organicsOf (doc : Sel) : list OrganicResult := imap organicOf (Each (Find ".organic-result" doc)).

Definition Parse (query html : string) : goerr + SerpResult :=
  match NewDocument html with
  | None => inl (EText "parser: parse html")
  | Some doc =>
      let organic := organicsOf doc in
      inr (resultOf query (overviewOf doc) (snippetOf doc) (questionsOf doc) organic (missingBlocks organic))
  end.

End HTML.

(** ** [json_provider.go] *)

(** One record per JSON object of the response. *)
Record organicEntry := mkEntry { prPosition : Z; prTitle : string; prLink : string; prSnippet : string }.

Record relatedQuestion := mkQuestion { rqQuestion : string }.

Record answerBox := mkAnswer { abTitle : string; abLink : string; abSnippet : string }.

Record textBlock := mkBlock { tbType : string; tbSnippet : string }.

Record reference := mkReference { rfLink : string }.

(** [ai_overview] *)
Record overviewBox := mkOverview { ovBlocks : list textBlock; ovReferences : list reference; ovError : string }.

Record providerResponse := mkProvider {
  OrganicResults : list organicEntry;
  RelatedQuestions : list relatedQuestion;
  AnswerBox : option answerBox;
  prOverview : option overviewBox }.

Definition nonEmpty (s : string) : bool := negb (bool_decide (s = "")).

Definition blankLine : string := String (chr 10) (String (chr 10) "").

(** The loop over the text blocks. *)
Fixpoint joinBlocks (text : string) (blocks : list textBlock) : string :=
  match blocks with
  | [] => text
  | b :: rest =>
      if decide (tbSnippet b = "") then joinBlocks text rest
      else joinBlocks ((if decide (text = "") then text else text ++ blankLine) ++ tbSnippet b) rest
  end.

(** The loop over the references. *)
Fixpoint overviewLinks (refs : list reference) : list string :=
  match refs with
  | [] => []
  | r :: rest => if decide (rfLink r <> "") then rfLink r :: overviewLinks rest else overviewLinks rest
  end.

Definition providerOverview (o : option overviewBox) : option AIOverview :=
  match o with
  | Some v =>
      if decide (ovError v = "") then
        let text := joinBlocks "" (ovBlocks v) in
        let sources := overviewLinks (ovReferences v) in
        if nonEmpty text || bool_decide (sources <> []) then Some (mkAIOverview text sources) else None
      else None
  | None => None
  end.

(** The loop over the related questions. *)
Fixpoint providerQuestions (qs : list relatedQuestion) : list string :=
  match qs with
  | [] => []
  | q :: rest => if decide (rqQuestion q <> "") then rqQuestion q :: providerQuestions rest else providerQuestions rest
  end.

Definition providerSnippet (a : option answerBox) : option FeaturedSnippet :=
  match a with Some a => Some (mkFeatured (abTitle a) (abLink a) (abSnippet a)) | None => None end.

(** The loop over the organic results. *)
Fixpoint providerOrganic (rs : list organicEntry) : list OrganicResult :=
  match rs with
  | [] => []
  | r :: rest => mkOrganic (prPosition r) (prTitle r) (prLink r) (prSnippet r) :: providerOrganic rest
  end.

Definition ParseJSON (Unmarshal : string -> goerr + providerResponse) (query body : string) : goerr + SerpResult :=
  match Unmarshal body with
  | inl e => inl (EWrapf "json parser: decode provider response" e)
  | inr raw =>
      let organic := providerOrganic (OrganicResults raw) in
      inr (resultOf query (providerOverview (prOverview raw)) (providerSnippet (AnswerBox raw))
             (providerQuestions (RelatedQuestions raw)) organic (missingBlocks organic))
  end.

(** * Properties *)

Lemma missing_calibration query ai fs paa organic :
  let r := resultOf query ai fs paa organic (missingBlocks organic) in
  (sCalibration r = None <-> sOrganic r <> []) /\
  (sOrganic r = [] -> sCalibration r = Some (mkCalibration ["organic_results"] "")).
Proof. by destruct organic. Qed.

(** The strings of a list that are not empty. *)
Definition nonEmpties (l : list string) : list string := List.filter nonEmpty l.

Lemma nonEmpties_cons s l : nonEmpties (s :: l) = if decide (s = "") then nonEmpties l else s :: nonEmpties l.
Proof. unfold nonEmpties, nonEmpty. cbn [List.filter]. case_decide; subst; cbn; [done|]. by rewrite bool_decide_eq_false_2. Qed.

Lemma joinBlocks_spec text blocks : text <> "" ->
  joinBlocks text blocks = String.concat blankLine (text :: nonEmpties (map tbSnippet blocks)).
Proof.
  revert text. induction blocks as [|b blocks IH]; intros text Ht; [done|]. cbn [joinBlocks map]. rewrite nonEmpties_cons.
  destruct (decide (tbSnippet b = "")) as [Hb|Hb]; [by apply IH|]. rewrite decide_False by done.
  rewrite IH by (destruct text; [done|by intros [=]]). cbn [String.concat].
  destruct (nonEmpties (map tbSnippet blocks)); by rewrite !str_app_assoc.
Qed.

Lemma joinBlocks_empty blocks : joinBlocks "" blocks = String.concat blankLine (nonEmpties (map tbSnippet blocks)).
Proof.
  induction blocks as [|b blocks IH]; [done|]. cbn [joinBlocks map]. rewrite nonEmpties_cons.
  destruct (decide (tbSnippet b = "")) as [Hb|Hb]; [done|]. rewrite decide_True by done. by apply (joinBlocks_spec (tbSnippet b) blocks).
Qed.

Lemma overviewLinks_eq refs : overviewLinks refs = nonEmpties (map rfLink refs).
Proof. induction refs as [|r refs IH]; [done|]. cbn [overviewLinks map]. rewrite nonEmpties_cons, IH. by repeat case_decide. Qed.

Lemma providerQuestions_eq qs : providerQuestions qs = nonEmpties (map rqQuestion qs).
Proof. induction qs as [|q qs IH]; [done|]. cbn [providerQuestions map]. rewrite nonEmpties_cons, IH. by repeat case_decide. Qed.

Lemma concat_nonEmpty l : nonEmpty (String.concat blankLine (nonEmpties l)) = bool_decide (nonEmpties l <> []).
Proof.
  induction l as [|b l IH]; [done|]. rewrite nonEmpties_cons. case_decide as Hb; [exact IH|].
  rewrite bool_decide_eq_true_2 by done. unfold nonEmpty. cbn [String.concat].
  rewrite negb_true_iff, bool_decide_eq_false. destruct (nonEmpties l); [done|]. by destruct b.
Qed.

(** What an organic entry of the response and a result have in common. *)
Definition sameOrganic (e : organicEntry) (r : OrganicResult) : Prop :=
  oPosition r = prPosition e /\ oTitle r = prTitle e /\ oURL r = prLink e /\ oSnippet r = prSnippet e.

Lemma providerOrganic_same rs : Forall2 sameOrganic rs (providerOrganic rs).
Proof. induction rs as [|r rs IH]; constructor; [by split_and!|done]. Qed.

(** C33. A provider's answer is turned into exactly its non-empty content: the
    overview is the non-empty snippets of its blocks joined by blank lines with the
    non-empty links of its references, present when there is any of either and the
    provider reported no error; the questions are the non-empty ones; the featured
    snippet is the answer box, present when it is; there is one organic result for
    each the provider lists, in order, with its position, title, link and snippet,
    and the result is flagged when and only when there are none.  What
    the worker fills in (run, locale, device, proxy, times, body) is left unset, and an answer that does not decode is the only
    error. *)
Theorem provider_parse_exact Unmarshal query body :
  match ParseJSON Unmarshal query body with
  | inl e' => exists e, Unmarshal body = inl e /\ e' = EWrapf "json parser: decode provider response" e
  | inr r =>
      exists raw, Unmarshal body = inr raw /\ sQuery r = query /\ Forall2 sameOrganic (OrganicResults raw) (sOrganic r) /\
        sPeopleAlsoAsk r = nonEmpties (map rqQuestion (RelatedQuestions raw)) /\
        (OrganicResults raw <> [] -> sCalibration r = None) /\
        (OrganicResults raw = [] -> sCalibration r = Some (mkCalibration ["organic_results"] "")) /\
        (sRunID r = "" /\ sLocale r = "" /\ sDevice r = "" /\ sProxyUsed r = "" /\ sRawBody r = "" /\
         sFetchedAt r = zeroTime /\ sLatencyMS r = 0) /\
        (forall title url text, sFeaturedSnippet r = Some (mkFeatured title url text) <->
           exists a, AnswerBox raw = Some a /\ abTitle a = title /\ abLink a = url /\ abSnippet a = text) /\
        (forall text sources, sAIOverview r = Some (mkAIOverview text sources) <->
          exists v, prOverview raw = Some v /\ ovError v = "" /\
            text = String.concat blankLine (nonEmpties (map tbSnippet (ovBlocks v))) /\
            sources = nonEmpties (map rfLink (ovReferences v)) /\
            (nonEmpties (map tbSnippet (ovBlocks v)) <> [] \/ sources <> []))
  end.
Proof.
  unfold ParseJSON. destruct (Unmarshal body) as [e|raw] eqn:Hu; [by exists e|]. exists raw. cbv zeta.
  cbn [resultOf sQuery sOrganic sPeopleAlsoAsk sCalibration sRunID sLocale sDevice sProxyUsed sRawBody sFetchedAt sLatencyMS sFeaturedSnippet sAIOverview].
  split_and!; [done|done|apply providerOrganic_same|apply providerQuestions_eq| | |done..| |].
  1,2: by destruct (OrganicResults raw).
  - intros title url text. unfold providerSnippet. destruct (AnswerBox raw) as [a|]; [|by split; [|intros (a & ? & _)]].
    split; [intros [= <- <- <-]; by exists a|]. by intros (a' & [= <-] & <- & <- & <-).
  - intros text sources. unfold providerOverview. destruct (prOverview raw) as [v|]; [|by split; [|intros (v & ? & _)]].
    destruct (decide (ovError v = "")) as [He|He]; [|split; [done|by intros (v' & [= <-] & ? & _)]].
    rewrite joinBlocks_empty, overviewLinks_eq, concat_nonEmpty, <- bool_decide_or. case_bool_decide as H.
    + split; [intros [= <- <-]; exists v; by split_and!|]. by intros (v' & [= <-] & _ & -> & -> & _).
    + split; [done|]. intros (v' & [= <-] & _ & _ & -> & Hne). by destruct H.
Qed.

(** The HTML parser numbers the organic results from 1 in document order,
    takes one result per matching element, keeps no empty source or question,
    and flags the result when and only when it found none. *)
Theorem html_parse_exact `{DOM} query html :
  match Parse query html with
  | inl _ => NewDocument html = None
  | inr r =>
      exists doc, NewDocument html = Some doc /\ sQuery r = query /\
        map oPosition (sOrganic r) = map Z.of_nat (seq 1 (length (Each (Find ".organic-result" doc)))) /\
        (sCalibration r = None <-> Each (Find ".organic-result" doc) <> []) /\
        ~ ("" ∈ sPeopleAlsoAsk r) /\ (forall ai, sAIOverview r = Some ai -> ~ ("" ∈ aiSources ai))
  end.
Proof.
  unfold Parse. destruct (NewDocument html) as [doc|] eqn:Hd; [|done]. exists doc. do 2 (split; [done|]).
  cbn [resultOf sOrganic sPeopleAlsoAsk sAIOverview]. split; [|split; [|split]].
  - unfold organicsOf. apply list_eq. intros i. rewrite !list_lookup_fmap, list_lookup_imap.
    destruct (Each (Find ".organic-result" doc) !! i) as [s|] eqn:Hs; cbn [fmap option_fmap option_map organicOf oPosition].
    + apply lookup_lt_Some in Hs. rewrite lookup_seq_lt by done. cbn [fmap option_fmap option_map]. f_equal. lia.
    + apply lookup_ge_None in Hs. by rewrite lookup_seq_ge.
  - destruct (missing_calibration query (overviewOf doc) (snippetOf doc) (questionsOf doc) (organicsOf doc)) as [Hc _].
    cbv zeta in Hc. rewrite Hc. cbn [resultOf sOrganic]. unfold organicsOf. destruct (Each _); [done|]. by split.
  - unfold questionsOf. intros (s & _ & Hs)%list_elem_of_omap. cbv zeta in Hs. by case_decide; [|injection Hs].
  - intros ai. unfold overviewOf. destruct (0 <? _); [|done]. intros [= <-]. cbn [aiSources].
    intros (s & _ & Hs)%list_elem_of_omap. unfold overviewSource in Hs. destruct (Attr _ _); [|done]. by case_decide; [|injection Hs].
Qed.
