(* ===== verification/Schema.v ===== *)
(** * The PostgreSQL schema and the connection ([internal/store/postgres.go])

    The schema and the statements as they are sent to the database, how the sink
    opens its connection and how it counts; and, to check rows against the
    schema, a reader for the part of SQL they use. *)

From Stdlib Require Import Ascii.
From S2P Require Import Prelude GoString Errors.

Open Scope string_scope.
Open Scope Z_scope.

Definition schema : string := "
CREATE TABLE IF NOT EXISTS serp_results (
	id               BIGSERIAL PRIMARY KEY,
	run_id           TEXT,
	query            TEXT NOT NULL,
	locale           TEXT,
	device           TEXT,
	fetched_at       TIMESTAMPTZ NOT NULL,
	latency_ms       BIGINT NOT NULL DEFAULT 0,
	proxy_used       TEXT,
	organic          JSONB,
	featured_snippet JSONB,
	ai_overview      JSONB,
	people_also_ask  JSONB,
	calibration      JSONB,
	raw_response     BYTEA,
	created_at       TIMESTAMPTZ NOT NULL DEFAULT now()
);
CREATE INDEX IF NOT EXISTS idx_serp_results_run_id    ON serp_results (run_id);
CREATE INDEX IF NOT EXISTS idx_serp_results_query     ON serp_results (query);
CREATE INDEX IF NOT EXISTS idx_serp_results_fetched_at ON serp_results (fetched_at);

CREATE TABLE IF NOT EXISTS pages (
	id           BIGSERIAL PRIMARY KEY,
	run_id       TEXT,
	target       TEXT NOT NULL,
	url          TEXT NOT NULL,
	final_url    TEXT,
	depth        INT NOT NULL DEFAULT 0,
	status_code  INT NOT NULL DEFAULT 0,
	content_type TEXT,
	fetched_at   TIMESTAMPTZ NOT NULL,
	latency_ms   BIGINT NOT NULL DEFAULT 0,
	proxy_used   TEXT,
	title        TEXT,
	description  TEXT,
	canonical    TEXT,
	language     TEXT,
	headings     JSONB,
	open_graph   JSONB,
	json_ld      JSONB,
	text         TEXT,
	links        JSONB,
	fields       JSONB,
	items        JSONB,
	extraction   JSONB,
	raw_response BYTEA,
	created_at   TIMESTAMPTZ NOT NULL DEFAULT now()
);
CREATE INDEX IF NOT EXISTS idx_pages_run_id     ON pages (run_id);
CREATE INDEX IF NOT EXISTS idx_pages_target     ON pages (target);
CREATE INDEX IF NOT EXISTS idx_pages_url        ON pages (url);
CREATE INDEX IF NOT EXISTS idx_pages_fetched_at ON pages (fetched_at);
".

(** The statements of [Write] and [WritePage]. *)
Definition insertResult : string := "
		INSERT INTO serp_results
			(run_id, query, locale, device, fetched_at, latency_ms, proxy_used,
			 organic, featured_snippet, ai_overview, people_also_ask, calibration, raw_response)
		VALUES ($1,$2,$3,$4,$5,$6,$7,$8,$9,$10,$11,$12,$13)
	".

Definition insertPage : string := "
		INSERT INTO pages
			(run_id, target, url, final_url, depth, status_code, content_type, fetched_at, latency_ms, proxy_used,
			 title, description, canonical, language, headings, open_graph, json_ld, text, links, fields, items,
			 extraction, raw_response)
		VALUES ($1,$2,$3,$4,$5,$6,$7,$8,$9,$10,$11,$12,$13,$14,$15,$16,$17,$18,$19,$20,$21,$22,$23)
	".

(** ** The connection *)

(** What the sink asks of [database/sql]. *)
Inductive dbop := OpOpen (dsn : string) | OpPing | OpExec (query : string) | OpClose.

(** [NewPostgresSink] with the answers of [Open], [PingContext] and
    [ExecContext]: what it does, in order, and its error, if any. *)
Definition NewPostgresSink (dsn : string) (open_ ping exec : option goerr) : list dbop * option goerr :=
  match open_ with
  | Some e => ([OpOpen dsn], Some (EWrapf "postgres sink: open" e))
  | None =>
      match ping with
      | Some e => ([OpOpen dsn; OpPing; OpClose], Some (EWrapf "postgres sink: ping" e))
      | None =>
          match exec with
          | Some e => ([OpOpen dsn; OpPing; OpExec schema; OpClose], Some (EWrapf "postgres sink: apply schema" e))
          | None => ([OpOpen dsn; OpPing; OpExec schema], None)
          end
      end
  end.

Definition Close : list dbop := [OpClose].

(** The counting queries, over what [QueryRowContext(...).Scan] answers for a
    query and its argument. *)
Section Counts.
Context (QueryRow : string -> string -> goerr + Z).

Definition CountByRunID (runID : string) : goerr + Z :=
  match QueryRow "SELECT COUNT(*) FROM serp_results WHERE run_id = $1" runID with
  | inl e => inl (EWrapf "postgres sink: count by run_id" e)
  | inr n => inr n
  end.

Definition CountPagesByRunID (runID : string) : goerr + Z :=
  match QueryRow "SELECT COUNT(*) FROM pages WHERE run_id = $1" runID with
  | inl e => inl (EWrapf "postgres sink: count pages by run_id" e)
  | inr n => inr n
  end.
End Counts.

(** A sink whose set-up fails after the connection was opened closes it; one
    that is returned is still open. *)
Lemma postgres_no_leak dsn open_ ping exec : let '(ops, err) := NewPostgresSink dsn open_ ping exec in
  (err = None -> ~ (OpClose ∈ ops) /\ (OpExec schema ∈ ops)) /\
  (is_Some err -> open_ = None -> last ops = Some OpClose).
Proof.
  unfold NewPostgresSink. destruct open_, ping, exec; cbn; split; intros H; try done; try (by destruct H);
    split; rewrite ?not_elem_of_cons, ?elem_of_cons; intuition (try congruence); by eapply not_elem_of_nil.
Qed.

(** ** Reading the schema *)

Record column := mkColumn { cName : string; cType : string; cNullable : bool; cDefault : bool }.

#[export] Instance column_eq_dec : EqDecision column.
Proof. solve_decision. Defined.

Definition newline : ascii := chr 10.

(** A line of a table: the name, the type and the constraints. *)
Definition columnOf (line : string) : option column :=
  match Fields line with
  | name :: typ :: _ =>
      let typ := TrimSuffix typ "," in
      Some (mkColumn name typ (negb (Contains line "NOT NULL" || Contains line "PRIMARY KEY"))
              (Contains line "DEFAULT" || bool_decide (typ = "BIGSERIAL")))
  | _ => None
  end.

(** The lines of [table] up to its closing parenthesis. *)
Fixpoint columnsFrom (inside : bool) (table : string) (lines : list string) : list column :=
  match lines with
  | [] => []
  | line :: rest =>
      if inside then
        if bool_decide (line = ");") then []
        else (option_list (columnOf line) ++ columnsFrom true table rest)%list
      else columnsFrom (bool_decide (line = "CREATE TABLE IF NOT EXISTS " ++ table ++ " (")) table rest
  end.

Definition tableColumns (table : string) : list column := columnsFrom false table (SplitByte newline schema).

(** What stands between the [n]-th pair of parentheses of a statement. *)
Definition parens (n : nat) (stmt : string) : list string :=
  match nth_error (SplitByte "(" stmt) (S n) with
  | Some s => match SplitByte ")" s with inner :: _ => map TrimSpace (SplitByte "," inner) | [] => [] end
  | None => []
  end.

Definition insertColumns (stmt : string) : list string := parens 0 stmt.
Definition placeholders (stmt : string) : list string := parens 1 stmt.

Definition columnNamed (table name : string) : option column :=
  List.find (fun c => bool_decide (cName c = name)) (tableColumns table).
