(* ===== verification/RawJSON.v ===== *)
(** * Raw JSON messages

    A [json.RawMessage] holds JSON text as it was found.  [json.Marshal] does not
    decode it: it copies the text without the white space between its tokens, and
    spells [<], [>], [&] and the two Unicode line separators as escapes, so that
    the output can stand in an HTML page.  [compactRaw] is that copy.  Several
    messages are written as the elements of an array; [split_array] says that the
    array has them all. *)

From Stdlib Require Import Ascii.
From S2P Require Import Prelude GoString.

Open Scope string_scope.

(** ** The scanner *)

(** Where a byte of a JSON text stands. *)
Inductive jscan := Outside | InString | InEscape.

#[export] Instance jscan_eq_dec : EqDecision jscan.
Proof. solve_decision. Defined.

Definition dquote : ascii := chr 34.
Definition backslash : ascii := chr 92.

(** The state after the byte [a]. *)
Definition jnext (st : jscan) (a : ascii) : jscan :=
  match st with
  | Outside => if Ascii.eqb a dquote then InString else Outside
  | InString => if Ascii.eqb a dquote then Outside else if Ascii.eqb a backslash then InEscape else InString
  | InEscape => InString
  end.

(** Space, tab, line feed and carriage return. *)
Definition jspace (a : ascii) : bool := existsb (Ascii.eqb a) [chr 32; chr 9; chr 10; chr 13].

(** ** The copy *)

(** The escape of a byte that HTML gives a meaning. *)
Definition htmlEscape (a : ascii) : option string :=
  if Ascii.eqb a (chr 60) then Some "\u003c"
  else if Ascii.eqb a (chr 62) then Some "\u003e"
  else if Ascii.eqb a (chr 38) then Some "\u0026"
  else None.

(** The escape of U+2028 and U+2029, by their three bytes. *)
Definition lineEscape (a b c : ascii) : option string :=
  if Ascii.eqb a (chr 226) && Ascii.eqb b (chr 128) then
    if Ascii.eqb c (chr 168) then Some "\u2028" else if Ascii.eqb c (chr 169) then Some "\u2029" else None
  else None.

(** One byte of the copy. *)
Definition copyByte (st : jscan) (a : ascii) : string :=
  match htmlEscape a with
  | Some e => e
  | None => if bool_decide (st = Outside) && jspace a then "" else String a ""
  end.

Fixpoint compactFrom (st : jscan) (s : string) : string :=
  match s with
  | String a s1 =>
      let byte := copyByte st a ++ compactFrom (jnext st a) s1 in
      match s1 with
      | String b (String c s3) =>
          match lineEscape a b c with
          | Some e => e ++ compactFrom (jnext (jnext (jnext st a) b) c) s3
          | None => byte
          end
      | _ => byte
      end
  | "" => ""
  end.

Definition compactRaw : string -> string := compactFrom Outside.

(** ** Texts that stand for themselves in an array *)

(** The depth of brackets after a byte outside the strings; [None] for a comma or
    a closing bracket that belongs to what is around the text. *)
Definition jdepth (a : ascii) (d : nat) : option nat :=
  if Ascii.eqb a (chr 91) || Ascii.eqb a (chr 123) then Some (S d)
  else if Ascii.eqb a (chr 93) || Ascii.eqb a (chr 125) then match d with S d => Some d | O => None end
  else if Ascii.eqb a (chr 44) then match d with O => None | _ => Some d end
  else Some d.

Definition scanByte (st : jscan) (a : ascii) (d : nat) : option (jscan * nat) :=
  match st with
  | Outside => d' ← jdepth a d; Some (jnext Outside a, d')
  | _ => Some (jnext st a, d)
  end.

Fixpoint scan (st : jscan) (d : nat) (s : string) : option (jscan * nat) :=
  match s with
  | "" => Some (st, d)
  | String a s => x ← scanByte st a d; scan x.1 x.2 s
  end.

(** Strings and brackets are closed, and no comma stands outside them, as in every
    JSON value. *)
Definition selfContained (s : string) : bool := bool_decide (scan Outside 0 s = Some (Outside, 0%nat)).

(** The elements of an array. *)
Definition arrayText (l : list string) : string := "[" ++ String.concat "," l ++ "]".

(** * Properties *)

Lemma scan_app st d a b : scan st d (a ++ b) = (x ← scan st d a; scan x.1 x.2 b).
Proof. revert st d. induction a as [|c a IH]; intros st d; cbn; [done|]. destruct (scanByte st c d) as [[st' d']|]; cbn; auto. Qed.

(** The copy of a byte does to the scanner what the byte does. *)
Lemma scan_copyByte st a d : scan st d (copyByte st a) = scanByte st a d.
Proof.
  unfold copyByte. destruct (htmlEscape a) as [e|] eqn:He.
  - unfold htmlEscape in He. repeat case_match; try done; simplify_eq.
    all: match goal with E : Ascii.eqb _ _ = true |- _ => apply Ascii.eqb_eq in E end; subst; by destruct st.
  - destruct (bool_decide (st = Outside) && jspace a) eqn:Hs; [|by cbn; destruct (scanByte st a d) as [[]|]].
    apply andb_true_iff in Hs as [->%bool_decide_eq_true Hs]. unfold jspace in Hs. apply existsb_exists in Hs as (x & Hx & ->%Ascii.eqb_eq).
    repeat (destruct Hx as [<-|Hx]; [done|]). done.
Qed.

Lemma scan_lineEscape st a b c e d : lineEscape a b c = Some e ->
  scan st d e = (x ← scanByte st a d; y ← scanByte x.1 b x.2; scanByte y.1 c y.2) /\
  scan st d e = Some (jnext (jnext (jnext st a) b) c, d).
Proof.
  unfold lineEscape. intros H. repeat case_match; try done; simplify_eq.
  all: repeat match goal with E : _ && _ = true |- _ => apply andb_true_iff in E as [?%Ascii.eqb_eq ?%Ascii.eqb_eq] end.
  all: repeat match goal with E : Ascii.eqb _ _ = true |- _ => apply Ascii.eqb_eq in E end; subst; by destruct st.
Qed.

Lemma scanByte_next st a d x : scanByte st a d = Some x -> x.1 = jnext st a.
Proof. destruct st; cbn; [|by intros [= <-]..]. destruct (jdepth a d); cbn; [|done]. by intros [= <-]. Qed.

Lemma compactFrom_cons st a s : compactFrom st (String a s) = copyByte st a ++ compactFrom (jnext st a) s \/
  exists b c s3 e, s = String b (String c s3) /\ lineEscape a b c = Some e /\
    compactFrom st (String a s) = e ++ compactFrom (jnext (jnext (jnext st a) b) c) s3.
Proof.
  destruct s as [|b [|c s3]]; [by left..|]. cbn [compactFrom]. destruct (lineEscape a b c) as [e|] eqn:He; [|by left].
  right. by exists b, c, s3, e.
Qed.

Lemma scan_compactFrom n : forall s st d, (String.length s <= n)%nat -> scan st d (compactFrom st s) = scan st d s.
Proof.
  induction n as [|n IH]; intros [|a s] st d Hn; cbn [String.length] in Hn; [done|lia|done|].
  destruct (compactFrom_cons st a s) as [->|(b & c & s3 & e & -> & He & ->)]; rewrite scan_app.
  - rewrite scan_copyByte. cbn [scan]. destruct (scanByte st a d) as [[st' d']|] eqn:Hs; cbn; [|done].
    apply scanByte_next in Hs. cbn in Hs. subst st'. apply IH. lia.
  - cbn [String.length] in Hn. destruct (scan_lineEscape st a b c e d He) as [H1 H2]. rewrite H2. rewrite H2 in H1.
    cbn [mbind option_bind]. rewrite IH by lia. cbn [scan]. destruct (scanByte st a d) as [x|]; cbn in H1 |- *; [|done].
    destruct (scanByte x.1 b x.2) as [y|]; cbn in H1 |- *; [|done]. by rewrite <- H1.
Qed.

(** The copy of a self-contained text is self-contained. *)
Lemma compactRaw_selfContained s : selfContained s = true -> selfContained (compactRaw s) = true.
Proof. unfold selfContained, compactRaw. by rewrite (scan_compactFrom (String.length s)). Qed.

(** A text that ends the scan at the top level, followed by nothing or by a comma,
    is determined by what it starts. *)
Definition follows (r : string) : Prop := r = "" \/ exists r', r = "," ++ r'.

Lemma follows_not_scanned b s x t : scan Outside 0 (String b s) = Some x -> ~ follows (String b t).
Proof. intros Hs [Hr|[r' Hr]]; [done|]. injection Hr as -> _. done. Qed.

Lemma scan_prefix s1 : forall s2 st d r1 r2, scan st d s1 = Some (Outside, 0%nat) -> scan st d s2 = Some (Outside, 0%nat) ->
  follows r1 -> follows r2 -> s1 ++ r1 = s2 ++ r2 -> s1 = s2 /\ r1 = r2.
Proof.
  induction s1 as [|a s1 IH]; intros [|b s2] st d r1 r2 H1 H2 F1 F2 He; cbn [String.append] in He.
  - done.
  - injection H1 as -> ->. subst r1. by destruct (follows_not_scanned _ _ _ _ H2 F1).
  - injection H2 as -> ->. subst r2. by destruct (follows_not_scanned _ _ _ _ H1 F2).
  - injection He as -> He. cbn [scan] in H1, H2. destruct (scanByte st b d) as [[st' d']|]; [|done]. cbn in H1, H2.
    by destruct (IH s2 st' d' r1 r2 H1 H2 F1 F2 He) as [-> ->].
Qed.

Lemma concat_cons s l : exists r, String.concat "," (s :: l) = s ++ r /\ follows r /\
  (l <> [] -> r = "," ++ String.concat "," l) /\ (l = [] -> r = "").
Proof.
  destruct l as [|s' l].
  - exists "". split; [symmetry; apply str_app_nil_r|]. split; [by left|]. done.
  - exists ("," ++ String.concat "," (s' :: l)). split; [done|]. split; [right; by eexists|]. done.
Qed.

(** The array of self-contained texts has them all. *)
Lemma split_array l1 : forall l2, l1 <> [] -> l2 <> [] ->
  Forall (fun s => selfContained s = true) l1 -> Forall (fun s => selfContained s = true) l2 ->
  String.concat "," l1 = String.concat "," l2 -> l1 = l2.
Proof.
  induction l1 as [|s1 l1 IH]; intros [|s2 l2] N1 N2 F1 F2 He; try done. apply Forall_cons in F1 as [S1 F1], F2 as [S2 F2].
  destruct (concat_cons s1 l1) as (r1 & E1 & W1 & C1 & D1), (concat_cons s2 l2) as (r2 & E2 & W2 & C2 & D2). rewrite E1, E2 in He.
  unfold selfContained in S1, S2. apply bool_decide_eq_true in S1, S2.
  destruct (scan_prefix s1 s2 Outside 0 r1 r2 S1 S2 W1 W2 He) as [-> ->]. f_equal.
  destruct l1 as [|t1 l1], l2 as [|t2 l2]; [done| | |].
  - specialize (D1 eq_refl). subst r2. by specialize (C2 ltac:(done)).
  - specialize (D2 eq_refl). subst r2. by specialize (C1 ltac:(done)).
  - apply IH; try done. specialize (C1 ltac:(done)). specialize (C2 ltac:(done)). rewrite C1 in C2. by injection C2.
Qed.

Lemma arrayText_inj l1 l2 : l1 <> [] -> l2 <> [] ->
  Forall (fun s => selfContained s = true) l1 -> Forall (fun s => selfContained s = true) l2 -> arrayText l1 = arrayText l2 -> l1 = l2.
Proof.
  intros N1 N2 F1 F2 He. apply split_array; try done. unfold arrayText in He. injection He as He.
  revert He. generalize (String.concat "," l1) (String.concat "," l2). intros a b. revert b.
  induction a as [|x a IH]; intros [|y b] Hab; cbn in Hab; [done| | |injection Hab as -> Hab; f_equal; by apply IH];
    injection Hab as _ Hab; [by destruct b|by destruct a].
Qed.

(** White space between tokens goes, white space in strings stays. *)
Example compact_space :
  compactRaw (String dquote ("a b" ++ String dquote " : [ 1, 2 ] ")) = String dquote ("a b" ++ String dquote ":[1,2]").
Proof. by vm_compute. Qed.

(** A sign and its escape are the same afterwards. *)
Example compact_html :
  compactRaw (String dquote ("<" ++ String dquote "")) = compactRaw (String dquote ("\u003c" ++ String dquote "")).
Proof. by vm_compute. Qed.
