(* ===== verification/Store.v ===== *)
(** * Sinks ([internal/store])

    The JSON-Lines writer and the PostgreSQL rows.  [encoding/json], the
    underlying writer and the database are parameters: [Marshal] of the values
    the sinks serialise, the effect of one [Write] and of one [ExecContext].
    A nil slice, map or pointer is the empty value of [Model]. *)

From Stdlib Require Import Ascii.
From stdpp Require Import gmap strings.
From S2P Require Import Prelude GoString Errors Model Schema RawJSON.

Open Scope string_scope.
Open Scope Z_scope.

(** What the sinks pass to [json.Marshal]. *)
Inductive jvalue :=
  | JResult (r : SerpResult) | JPage (p : Model.Page)
  | JOrganic (l : list OrganicResult) | JSnippet (s : option FeaturedSnippet) | JOverview (o : option AIOverview)
  | JStrings (l : list string) | JCalibration (c : option CalibrationNote)
  | JHeadings (l : list Heading) | JMap (m : gmap string string) | JRaw (l : list string)
  | JFields (m : gmap string any) | JItems (l : list (gmap string any)) | JExtraction (e : option ExtractionNote).

Section Store.
Context (Marshal : jvalue -> goerr + string).

Definition lineEnd : string := String (chr 10) "".

(** ** [store.go] *)

Section JSONL.
Context {W : Type} (wWrite : string -> W -> W * option goerr).

Definition writeLine (v : jvalue) (w : W) : W * option goerr :=
  match Marshal v with
  | inl e => (w, Some (EWrapf "store: marshal result" e))
  | inr b =>
      let '(w, err) := wWrite (b ++ lineEnd) w in
      (w, match err with Some e => Some (EWrapf "store: write result" e) | None => None end)
  end.

Definition jsonlWrite (r : SerpResult) : W -> W * option goerr := writeLine (JResult r).
Definition jsonlWritePage (p : Model.Page) : W -> W * option goerr := writeLine (JPage p).
End JSONL.

(** ** [postgres.go] *)

Inductive sqlval := SNull | SText (s : string) | SBytes (b : string) | SInt (n : Z) | STime (t : time).

Definition nullIfEmpty (s : string) : sqlval := if decide (s = "") then SNull else SText s.
Definition nullBytes (b : string) : sqlval := if decide (b = "") then SNull else SBytes b.

Definition isNilValue (v : jvalue) : bool :=
  match v with
  | JResult _ | JPage _ => false
  | JOrganic l => bool_decide (l = [])
  | JSnippet o => negb (bool_decide (is_Some o))
  | JOverview o => negb (bool_decide (is_Some o))
  | JStrings l | JRaw l => bool_decide (l = [])
  | JCalibration o => negb (bool_decide (is_Some o))
  | JHeadings l => bool_decide (l = [])
  | JMap m => bool_decide (m = ∅)
  | JFields m => bool_decide (m = ∅)
  | JItems l => bool_decide (l = [])
  | JExtraction o => negb (bool_decide (is_Some o))
  end.

Definition marshalOptional (v : jvalue) : goerr + sqlval :=
  if isNilValue v then inr SNull
  else match Marshal v with inl e => inl e | inr b => inr (SBytes b) end.

(** The columns of several values; the first error, with the name of its column. *)
Fixpoint marshalColumns (vs : list (string * jvalue)) : goerr + list sqlval :=
  match vs with
  | [] => inr []
  | (name, v) :: rest =>
      match marshalOptional v with
      | inl e => inl (EWrapf ("postgres sink: marshal " ++ name) e)
      | inr c => match marshalColumns rest with inl e => inl e | inr cs => inr (c :: cs) end
      end
  end.

(** The arguments of the insert of [Write]: [organic] is marshalled even when nil. *)
Definition serpRow (r : SerpResult) : goerr + list sqlval :=
  match Marshal (JOrganic (sOrganic r)) with
  | inl e => inl (EWrapf "postgres sink: marshal organic" e)
  | inr organic =>
      match marshalColumns [("featured_snippet", JSnippet (sFeaturedSnippet r)); ("ai_overview", JOverview (sAIOverview r));
                            ("people_also_ask", JStrings (sPeopleAlsoAsk r)); ("calibration", JCalibration (sCalibration r))] with
      | inl e => inl e
      | inr cols =>
          inr ([nullIfEmpty (sRunID r); SText (sQuery r); nullIfEmpty (sLocale r); nullIfEmpty (sDevice r);
                STime (sFetchedAt r); SInt (sLatencyMS r); nullIfEmpty (sProxyUsed r); SBytes organic] ++ cols ++
               [nullBytes (sRawBody r)])%list
      end
  end.

(** The arguments of the insert of [WritePage]. *)
Definition pageRow (p : Model.Page) : goerr + list sqlval :=
  match marshalColumns [("page column 0", JHeadings (pHeadings p)); ("page column 1", JMap (pOpenGraph p));
                        ("page column 2", JRaw (pJSONLD p)); ("page column 3", JStrings (pLinks p));
                        ("page column 4", JFields (pFields p)); ("page column 5", JItems (pItems p));
                        ("page column 6", JExtraction (pExtraction p))] with
  | inr [c0; c1; c2; c3; c4; c5; c6] =>
      inr [nullIfEmpty (pRunID p); SText (pTarget p); SText (pURL p); nullIfEmpty (pFinalURL p); SInt (pDepth p);
           SInt (pStatusCode p); nullIfEmpty (pContentType p); STime (pFetchedAt p); SInt (pLatencyMS p);
           nullIfEmpty (pProxyUsed p); nullIfEmpty (pTitle p); nullIfEmpty (pDescription p); nullIfEmpty (pCanonical p);
           nullIfEmpty (pLanguage p); c0; c1; c2; nullIfEmpty (pText p); c3; c4; c5; c6; nullBytes (pRawBody p)]
  | inr _ => inl (EText "unreachable")
  | inl e => inl e
  end.

Section Postgres.
(** [db.ExecContext] of an insert with its arguments. *)
Context {W : Type} (exec : string -> list sqlval -> W -> W * option goerr).

Definition pgWrite (r : SerpResult) (w : W) : W * option goerr :=
  match serpRow r with
  | inl e => (w, Some e)
  | inr row =>
      let '(w, err) := exec insertResult row w in
      (w, match err with Some e => Some (EWrapf "postgres sink: insert" e) | None => None end)
  end.

Definition pgWritePage (p : Model.Page) (w : W) : W * option goerr :=
  match pageRow p with
  | inl e => (w, Some e)
  | inr row =>
      let '(w, err) := exec insertPage row w in
      (w, match err with Some e => Some (EWrapf "postgres sink: insert page" e) | None => None end)
  end.
End Postgres.

(** * Properties *)

(** ** Lines *)

Lemma split_line b rest : allb (fun a => negb (Ascii.eqb a (chr 10))) b = true ->
  SplitByte (chr 10) (b ++ lineEnd ++ rest) = b :: SplitByte (chr 10) rest.
Proof.
  induction b as [|a b IH]; intros Hb; [done|]. cbn [allb] in Hb. apply andb_true_iff in Hb as [Ha Hb].
  apply negb_true_iff in Ha. change (String a b ++ lineEnd ++ rest) with (String a (b ++ lineEnd ++ rest)).
  cbn [SplitByte]. rewrite Ha, IH by done. done.
Qed.

(** Writing values one after the other to a buffer; the errors. *)
Fixpoint writeAll (vs : list jvalue) (w : string) : string * list (option goerr) :=
  match vs with
  | [] => (w, [])
  | v :: rest =>
      let '(w, err) := writeLine (fun b w => (w ++ b, None)) v w in
      let '(w, errs) := writeAll rest w in (w, err :: errs)
  end.

Definition marshalled (vs : list jvalue) : list string :=
  omap (fun v => match Marshal v with inr b => Some b | inl _ => None end) vs.

Lemma writeAll_buffer vs w : (writeAll vs w).1 = w ++ (writeAll vs "").1.
Proof.
  revert w. induction vs as [|v vs IH]; intros w; cbn [writeAll]; [by rewrite str_app_nil_r|].
  unfold writeLine. destruct (Marshal v) as [e|b].
  - specialize (IH w). destruct (writeAll vs w), (writeAll vs ""). cbn [fst] in *. done.
  - pose proof (IH (w ++ b ++ lineEnd)) as H1. pose proof (IH ("" ++ b ++ lineEnd)) as H2. cbn [String.append] in *.
    destruct (writeAll vs (w ++ b ++ lineEnd)), (writeAll vs (b ++ lineEnd)). cbn [fst] in *.
    by rewrite H1, H2, !str_app_assoc.
Qed.

(** A JSON-Lines file is the marshalled values, one per line and in the
    order of the writes: splitting what was written at its lineEnds gives back
    exactly the values that could be marshalled, and only the others are
    reported as errors.  The hypothesis is what [encoding/json] documents of
    [Marshal]: its output is compact, so it holds no lineEnd. *)
Theorem jsonl_roundtrip vs :
  (forall v b, Marshal v = inr b -> allb (fun a => negb (Ascii.eqb a (chr 10))) b = true) ->
  SplitByte (chr 10) (writeAll vs "").1 = (marshalled vs ++ [""])%list /\
  map (fun e => bool_decide (e = None)) (writeAll vs "").2 = map (fun v => match Marshal v with inr _ => true | inl _ => false end) vs.
Proof.
  intros Hm. induction vs as [|v vs [IH1 IH2]]; [done|]. cbn [writeAll map marshalled omap list_omap]. unfold writeLine.
  destruct (Marshal v) as [e|b] eqn:Hv.
  - destruct (writeAll vs "") as [w errs]. cbn [fst snd map] in *. split; [done|]. by rewrite IH2.
  - pose proof (writeAll_buffer vs (b ++ lineEnd)) as Hw. cbn [String.append].
    assert (He : (writeAll vs (b ++ lineEnd)).2 = (writeAll vs "").2).
    { clear -vs. generalize (b ++ lineEnd) "". induction vs as [|v vs IH]; intros w1 w2; [done|]. cbn [writeAll]. unfold writeLine.
      destruct (Marshal v) as [e|b']; [specialize (IH w1 w2)|specialize (IH (w1 ++ b' ++ lineEnd) (w2 ++ b' ++ lineEnd))];
        destruct (writeAll vs _), (writeAll vs _); cbn [snd] in *; by rewrite IH. }
    destruct (writeAll vs (b ++ lineEnd)) as [w errs]. cbn [fst snd map] in *. rewrite Hw, str_app_assoc.
    rewrite split_line by (by eapply Hm). rewrite IH1. split; [done|]. rewrite He. by rewrite IH2.
Qed.

(** ** Rows *)

Lemma nullIfEmpty_inj s t : nullIfEmpty s = nullIfEmpty t -> s = t.
Proof. unfold nullIfEmpty. repeat case_decide; congruence. Qed.

Lemma nullBytes_inj s t : nullBytes s = nullBytes t -> s = t.
Proof. unfold nullBytes. repeat case_decide; congruence. Qed.

(** The value of an optional column is determined by the column. *)
Definition sameKind (v1 v2 : jvalue) : bool :=
  match v1, v2 with
  | JSnippet _, JSnippet _ | JOverview _, JOverview _ | JStrings _, JStrings _ | JCalibration _, JCalibration _
  | JHeadings _, JHeadings _ | JMap _, JMap _ | JRaw _, JRaw _ | JFields _, JFields _ | JItems _, JItems _
  | JExtraction _, JExtraction _ | JOrganic _, JOrganic _ => true
  | _, _ => false
  end.

Lemma nil_unique v1 v2 : sameKind v1 v2 = true -> isNilValue v1 = true -> isNilValue v2 = true -> v1 = v2.
Proof.
  destruct v1, v2; cbn [sameKind isNilValue]; try done; intros _; rewrite ?negb_true_iff, ?bool_decide_eq_true, ?bool_decide_eq_false,
    <- ?eq_None_not_Some; by intros -> ->.
Qed.

(** The texts of a value that goes into a JSON column. *)
Definition anyTexts (a : any) : list string := match a with AString s => [s] | AStrings l => l end.

Definition fieldTexts (m : gmap string any) : list string :=
  concat (map (fun kv => kv.1 :: anyTexts kv.2) (map_to_list m)).

Definition textsOf (v : jvalue) : list string :=
  match v with
  | JResult _ | JPage _ | JRaw _ => []
  | JOrganic l => concat (map (fun o => [oTitle o; oURL o; oSnippet o]) l)
  | JSnippet o => match o with Some f => [fTitle f; fURL f; fText f] | None => [] end
  | JOverview o => match o with Some a => aiText a :: aiSources a | None => [] end
  | JStrings l => l
  | JCalibration o => match o with Some c => RawHTMLPath c :: MissingBlocks c | None => [] end
  | JHeadings l => map hText l
  | JMap m => concat (map (fun kv => [kv.1; kv.2]) (map_to_list m))
  | JFields m => fieldTexts m
  | JItems l => concat (map fieldTexts l)
  | JExtraction o => match o with Some e => Missing e | None => [] end
  end.

Definition utf8Value (v : jvalue) : Prop := Forall (fun s => validUTF8 s = true) (textsOf v).

(** What a JSON column keeps of a value: the value itself, but of raw messages
    only the copies that [json.Marshal] makes of them. *)
Definition sameJSON (v1 v2 : jvalue) : Prop :=
  match v1, v2 with JRaw l1, JRaw l2 => map compactRaw l1 = map compactRaw l2 | _, _ => v1 = v2 end.

Lemma sameJSON_refl v : sameJSON v v.
Proof. by destruct v. Qed.

(** A raw message that is not empty (an empty one is not JSON). *)
Definition storable (v : jvalue) : Prop :=
  utf8Value v /\ match v with JRaw l => Forall (fun s => s <> "") l | _ => True end.

(** What [encoding/json] documents of [Marshal]: it writes different values of one
    type differently when their strings are valid UTF-8; raw messages have to be
    JSON, and are written as the array of their copies. *)
Record marshalDistinguishes : Prop := mkDistinguishes {
  marshal_values : forall v1 v2 b, sameKind v1 v2 = true -> (forall l, v1 <> JRaw l) -> utf8Value v1 -> utf8Value v2 ->
    Marshal v1 = inr b -> Marshal v2 = inr b -> v1 = v2;
  marshal_raw : forall l b, l <> [] -> Forall (fun s => s <> "") l -> Marshal (JRaw l) = inr b ->
    Forall (fun s => selfContained s = true) l /\ b = arrayText (map compactRaw l) }.

Context (Marshal_inj : marshalDistinguishes).

Lemma marshal_raw_inj l1 l2 b : l1 <> [] -> l2 <> [] -> Forall (fun s => s <> "") l1 -> Forall (fun s => s <> "") l2 ->
  Marshal (JRaw l1) = inr b -> Marshal (JRaw l2) = inr b -> map compactRaw l1 = map compactRaw l2.
Proof.
  intros N1 N2 F1 F2 H1 H2. apply (marshal_raw Marshal_inj) in H1 as [S1 ->], H2 as [S2 He]; try done.
  apply arrayText_inj; [by destruct l1|by destruct l2|..|done].
  all: apply Forall_fmap; eapply Forall_impl; [eassumption|]; intros; by apply compactRaw_selfContained.
Qed.

Lemma marshalOptional_inj v1 v2 c : sameKind v1 v2 = true -> storable v1 -> storable v2 ->
  marshalOptional v1 = inr c -> marshalOptional v2 = inr c -> sameJSON v1 v2.
Proof.
  intros Hk [U1 N1] [U2 N2]. unfold marshalOptional. destruct (isNilValue v1) eqn:I1, (isNilValue v2) eqn:I2;
    [rewrite (nil_unique v1 v2) by done; intros; apply sameJSON_refl|..];
    destruct (Marshal v1) eqn:H1, (Marshal v2) eqn:H2; try (by intros [=]); intros; simplify_eq.
  destruct v1 as [| | | | | | | | |l1| | |].
  10: { destruct v2 as [| | | | | | | | |l2| | |]; try done. cbn [isNilValue] in I1, I2. apply bool_decide_eq_false in I1, I2.
        by eapply marshal_raw_inj. }
  all: match goal with |- sameJSON ?v ?w => assert (v = w) as -> by (by eapply (marshal_values Marshal_inj)) end; apply sameJSON_refl.
Qed.

Lemma marshalColumns_inj vs1 vs2 cs : marshalColumns vs1 = inr cs -> marshalColumns vs2 = inr cs ->
  Forall storable (map snd vs1) -> Forall storable (map snd vs2) ->
  Forall2 (fun a b => sameKind a.2 b.2 = true) vs1 vs2 -> Forall2 (fun a b => sameJSON a.2 b.2) vs1 vs2.
Proof.
  intros H1 H2 U1 U2 Hk. revert cs H1 H2 U1 U2. induction Hk as [|[n1 v1] [n2 v2] vs1 vs2 Hv _ IH]; intros cs; [constructor|].
  cbn [marshalColumns map snd]. destruct (marshalOptional v1) as [e|c1] eqn:Hm1; [done|].
  destruct (marshalColumns vs1) as [e|cs1]; [done|]. intros [= <-].
  destruct (marshalOptional v2) as [e|c2] eqn:Hm2; [done|]. destruct (marshalColumns vs2) as [e|cs2]; [done|]. intros [= -> ->].
  intros [U1 U1']%Forall_cons [U2 U2']%Forall_cons. constructor; [|by eapply IH]. by eapply marshalOptional_inj.
Qed.
End Store.

(** Enough of [json.Marshal] for examples. *)
Definition toyMarshal (v : jvalue) : goerr + string :=
  match v with
  | JOrganic [] => inr "null"
  | JStrings ["q"] => inr "q"
  | JRaw l =>
      if forallb selfContained l && allb (fun a => negb (Ascii.eqb a (chr 10))) (arrayText (map compactRaw l))
      then inr (arrayText (map compactRaw l)) else inl (EText "unsupported")
  | _ => inl (EText "unsupported")
  end.

Lemma toyMarshal_some v b : toyMarshal v = inr b ->
  v = JOrganic [] /\ b = "null" \/ v = JStrings ["q"] /\ b = "q" \/
  exists l, v = JRaw l /\ b = arrayText (map compactRaw l) /\ forallb selfContained l = true /\
    allb (fun a => negb (Ascii.eqb a (chr 10))) b = true.
Proof.
  destruct v as [| |l| | |l| | | |l| | |]; cbn [toyMarshal]; try done; [destruct l; [intros [= <-]; by left|done]| |].
  - destruct l as [|s [|]]; [done| |by repeat case_match].
    destruct (decide (s = "q")) as [->|Hne]; [intros [= <-]; right; by left|]. intros H. exfalso. apply Hne.
    repeat (let a := fresh "a" in destruct s as [|[[] [] [] [] [] [] [] []] s]; try done).
  - destruct (_ && _) eqn:Hs; [|done]. intros [= <-]. apply andb_true_iff in Hs as [? ?]. right. right. by exists l.
Qed.

Lemma jsonl_roundtrip_witness :
  SplitByte (chr 10) (writeAll toyMarshal [JOrganic []; JMap ∅; JStrings ["q"]] "").1 = ["null"; "q"; ""].
Proof.
  exact (proj1 (jsonl_roundtrip toyMarshal [JOrganic []; JMap ∅; JStrings ["q"]]
    ltac:(intros v b [[_ ->]|[[_ ->]|(l & _ & _ & _ & Hb)]]%toyMarshal_some; [reflexivity|reflexivity|exact Hb]))).
Defined.

(** The values a row stores as JSON. *)
Definition resultJSON (r : SerpResult) : list jvalue :=
  [JOrganic (sOrganic r); JSnippet (sFeaturedSnippet r); JOverview (sAIOverview r); JStrings (sPeopleAlsoAsk r);
   JCalibration (sCalibration r)].

Definition pageJSON (p : Model.Page) : list jvalue :=
  [JHeadings (pHeadings p); JMap (pOpenGraph p); JRaw (pJSONLD p); JStrings (pLinks p); JFields (pFields p);
   JItems (pItems p); JExtraction (pExtraction p)].

(** Everything of a page but its JSON-LD blocks. *)
Definition dropJSONLD (p : Model.Page) : Model.Page :=
  mkPage (pTarget p) (pRunID p) (pURL p) (pFinalURL p) (pDepth p) (pStatusCode p) (pContentType p) (pFetchedAt p)
    (pLatencyMS p) (pProxyUsed p) (pTitle p) (pDescription p) (pCanonical p) (pLanguage p) (pHeadings p) (pOpenGraph p) []
    (pText p) (pLinks p) (pFields p) (pItems p) (pExtraction p) (pRawBody p).

(** C35. A row holds everything the pipeline knows of a result: two results with
    the same row are the same, although empty texts and absent parts are stored as
    NULL.  Two pages with the same row are the same but for their JSON-LD blocks, and
    of those only the white space between the tokens is lost, and whether [<], [>],
    [&] and the line separators were escaped: there are as many, and [compactRaw]
    makes the same text of each.  The parts stored as JSON have to be valid UTF-8, as
    [json.Marshal] replaces other bytes, and a JSON-LD block not empty. *)
Theorem rows_lossless Marshal : marshalDistinguishes Marshal ->
  (forall r1 r2 row, Forall storable (resultJSON r1) -> Forall storable (resultJSON r2) ->
     serpRow Marshal r1 = inr row -> serpRow Marshal r2 = inr row -> r1 = r2) /\
  (forall p1 p2 row, Forall storable (pageJSON p1) -> Forall storable (pageJSON p2) ->
     pageRow Marshal p1 = inr row -> pageRow Marshal p2 = inr row ->
     dropJSONLD p1 = dropJSONLD p2 /\ map compactRaw (pJSONLD p1) = map compactRaw (pJSONLD p2)).
Proof.
  intros Hinj. split.
  - intros r1 r2 row [O1 U1]%Forall_cons [O2 U2]%Forall_cons. unfold serpRow.
    destruct (Marshal (JOrganic (sOrganic r1))) as [e|b1] eqn:H1; [done|].
    destruct (marshalColumns Marshal _) as [e|c1] eqn:C1; [done|]. intros [= <-].
    destruct (Marshal (JOrganic (sOrganic r2))) as [e|b2] eqn:H2; [done|].
    destruct (marshalColumns Marshal (_ :: _)) as [e|c2] eqn:C2 in |- *; [done|]. intros [= ?%nullIfEmpty_inj ? ?%nullIfEmpty_inj
      ?%nullIfEmpty_inj ? ? ?%nullIfEmpty_inj -> Hcols].
    apply app_inj_2 in Hcols as [-> [= ?%nullBytes_inj]]; [|done].
    pose proof (marshalColumns_inj Marshal Hinj _ _ _ C1 C2 U1 U2 ltac:(by repeat constructor)) as Hc.
    rewrite !Forall2_cons in Hc. destruct Hc as (? & ? & ? & ? & _). pose proof (marshal_values Marshal Hinj (JOrganic _) (JOrganic _) _ eq_refl ltac:(done) (proj1 O1) (proj1 O2) H1 H2).
    destruct r1, r2; cbn in *; simplify_eq; done.
  - intros p1 p2 row U1 U2. unfold pageRow.
    destruct (marshalColumns Marshal _) as [e|c1] eqn:C1; [done|].
    destruct c1 as [|a0 [|a1 [|a2 [|a3 [|a4 [|a5 [|a6 [|]]]]]]]]; try done. intros [= <-].
    destruct (marshalColumns Marshal (_ :: _)) as [e|c2] eqn:C2 in |- *; [done|].
    destruct c2 as [|b0 [|b1 [|b2 [|b3 [|b4 [|b5 [|b6 [|]]]]]]]]; try done.
    intros Heq. assert (Hrow : [a0;a1;a2;a3;a4;a5;a6] = [b0;b1;b2;b3;b4;b5;b6]) by congruence. rewrite <- Hrow in C2.
    pose proof (marshalColumns_inj Marshal Hinj _ _ _ C1 C2 U1 U2 ltac:(by repeat constructor)) as Hc.
    rewrite !Forall2_cons in Hc. destruct Hc as (? & ? & ? & ? & ? & ? & ? & _).
    injection Heq as ?%nullIfEmpty_inj ? ? ?%nullIfEmpty_inj ? ? ?%nullIfEmpty_inj ? ? ?%nullIfEmpty_inj ?%nullIfEmpty_inj
      ?%nullIfEmpty_inj ?%nullIfEmpty_inj ?%nullIfEmpty_inj ? ? ? ?%nullIfEmpty_inj ? ? ? ? ?%nullBytes_inj.
    destruct p1, p2; cbn in *; simplify_eq; done.
Qed.

Definition toyResult : SerpResult := mkSerp "cats" "run-1" "" "mobile" 5 7 "" None None ["q"] [] None "".

Lemma toyMarshal_distinguishes : marshalDistinguishes toyMarshal.
Proof.
  split.
  - intros v1 v2 b _ Hr _ _ [[-> ->]|[[-> ->]|(l & -> & _)]]%toyMarshal_some; [..|by destruct (Hr l)];
      intros [[-> ?]|[[-> ?]|(l & -> & ? & _)]]%toyMarshal_some; try done.
  - intros l b _ _ [[? _]|[[? _]|(l' & [= <-] & -> & Hs & _)]]%toyMarshal_some; [done..|]. split; [|done].
    rewrite forallb_forall in Hs. apply Forall_forall. intros x Hx%list_elem_of_In. by apply Hs.
Qed.

(** A page with a block of JSON-LD that is not compact. *)
Definition toyPage : Model.Page :=
  mkPage "t" "" "http://a/" "" 0 200 "text/html" 5 7 "" "a title" "" "" "" [] ∅ ["[ 1, 2 ]"; "3"] "" ["q"] ∅ [] None "".

Lemma rows_lossless_witness :
  (exists row, serpRow toyMarshal toyResult = inr row /\
     forall r, Forall storable (resultJSON r) -> serpRow toyMarshal r = inr row -> r = toyResult) /\
  exists row, pageRow toyMarshal toyPage = inr row /\ SBytes "[[1,2],3]" ∈ row /\
     forall p, Forall storable (pageJSON p) -> pageRow toyMarshal p = inr row ->
       dropJSONLD p = dropJSONLD toyPage /\ map compactRaw (pJSONLD p) = ["[1,2]"; "3"].
Proof.
  pose proof (rows_lossless toyMarshal toyMarshal_distinguishes) as [Hr Hp]. split.
  - eexists. split; [vm_compute; reflexivity|]. intros r Hu H.
    eapply (Hr r toyResult _ Hu); [by repeat constructor|exact H|vm_compute; reflexivity].
  - eexists. split; [vm_compute; reflexivity|]. split; [repeat (first [left|right])|].
    intros p Hu H. eapply (Hp p toyPage _ Hu); [by repeat constructor|exact H|vm_compute; reflexivity].
Defined.

(** ** Rows and the schema *)

(** A text the database takes: UTF-8 without NUL. *)
Definition pgText (s : string) : bool := validUTF8 s && allb (fun a => negb (Ascii.eqb a (chr 0))) s.

(** A value the column takes. *)
Definition fits (c : column) (v : sqlval) : bool :=
  match v with
  | SNull => cNullable c
  | SText s => bool_decide (cType c = "TEXT") && pgText s
  | SBytes _ => bool_decide (cType c = "JSONB") || bool_decide (cType c = "BYTEA")
  | SInt n => (bool_decide (cType c = "BIGINT") && (int64_min <=? n) && (n <=? int64_max)) ||
              (bool_decide (cType c = "INT") && (- 2 ^ 31 <=? n) && (n <? 2 ^ 31))
  | STime _ => bool_decide (cType c = "TIMESTAMPTZ")
  end.

(** A row fits an insert into [table]. *)
Definition rowFits (table stmt : string) (row : list sqlval) : Prop :=
  Forall2 (fun name v => exists c, columnNamed table name = Some c /\ fits c v = true) (insertColumns stmt) row /\
  length (placeholders stmt) = length row.

(** A nullable text, bytes or JSON column takes what the sink makes of a value. *)
Lemma fits_text name s : pgText s = true -> fits (mkColumn name "TEXT" true false) (nullIfEmpty s) = true.
Proof. unfold nullIfEmpty. by case_decide. Qed.

Lemma fits_some_text name null s : pgText s = true -> fits (mkColumn name "TEXT" null false) (SText s) = true.
Proof. done. Qed.

Lemma fits_bytes name s : fits (mkColumn name "BYTEA" true false) (nullBytes s) = true.
Proof. unfold nullBytes. by case_decide. Qed.

Lemma marshalColumns_fit Marshal vs cs : marshalColumns Marshal vs = inr cs ->
  length cs = length vs /\ Forall (fun c => forall name, fits (mkColumn name "JSONB" true false) c = true) cs.
Proof.
  revert cs. induction vs as [|[n v] vs IH]; intros cs; cbn [marshalColumns]; [by intros [= <-]|].
  unfold marshalOptional. destruct (isNilValue v).
  - destruct (marshalColumns Marshal vs) as [|cs']; [done|]. intros [= <-]. destruct (IH cs' eq_refl) as [Hl Hf].
    split; [cbn [length]; by rewrite Hl|by constructor].
  - destruct (Marshal v); [done|]. destruct (marshalColumns Marshal vs) as [|cs']; [done|]. intros [= <-].
    destruct (IH cs' eq_refl) as [Hl Hf]. split; [cbn [length]; by rewrite Hl|by constructor].
Qed.

Ltac fit_column := eexists; split; [vm_compute; reflexivity|];
  first [apply fits_bytes|apply fits_text; assumption|apply fits_some_text; assumption|reflexivity|assumption|by eauto].

(** The texts a row stores as they are. *)
Definition resultTexts (r : SerpResult) : list string := [sRunID r; sQuery r; sLocale r; sDevice r; sProxyUsed r].

Definition pageTexts (p : Model.Page) : list string :=
  [pRunID p; pTarget p; pURL p; pFinalURL p; pContentType p; pProxyUsed p; pTitle p; pDescription p; pCanonical p;
   pLanguage p; pText p].

(** C34. The rows fit the schema the sink itself creates: each statement names as
    many columns as it passes values, each column exists and takes its value
    (no NULL where the schema forbids it, the type of the value, the range of the
    integer), and a column that no statement sets is nullable or has a default.
    The texts have to be UTF-8 without NUL; for pages the depth and the status
    have to fit a 32-bit INT, for both the latency 64 bits. *)
Theorem rows_fit_schema Marshal :
  (forall r row, serpRow Marshal r = inr row -> Forall (fun s => pgText s = true) (resultTexts r) ->
     in_int64 (sLatencyMS r) -> rowFits "serp_results" insertResult row) /\
  (forall p row, pageRow Marshal p = inr row -> Forall (fun s => pgText s = true) (pageTexts p) ->
     - 2 ^ 31 <= pDepth p < 2 ^ 31 -> - 2 ^ 31 <= pStatusCode p < 2 ^ 31 ->
     in_int64 (pLatencyMS p) -> rowFits "pages" insertPage row) /\
  (forall table stmt c, (table, stmt) ∈ [("serp_results", insertResult); ("pages", insertPage)] ->
     c ∈ tableColumns table -> cName c ∈ insertColumns stmt \/ cNullable c = true \/ cDefault c = true).
Proof.
  assert (Hb : forall name n, in_int64 n -> fits (mkColumn name "BIGINT" false true) (SInt n) = true).
  { intros name n [? ?]. unfold fits. cbn [cType]. by replace (int64_min <=? n) with true by lia; replace (n <=? int64_max) with true by lia. }
  assert (Hi : forall name n, - 2 ^ 31 <= n < 2 ^ 31 -> fits (mkColumn name "INT" false true) (SInt n) = true).
  { intros name n ?. unfold fits. cbn [cType]. by replace (- 2 ^ 31 <=? n) with true by lia; replace (n <? 2 ^ 31) with true by lia. }
  split; [|split].
  - intros r row Hr Htexts Hlat. unfold resultTexts in Htexts. rewrite !Forall_cons in Htexts. destruct_and!. unfold serpRow in Hr. destruct (Marshal _) as [|organic]; [done|].
    destruct (marshalColumns Marshal _) as [|cols] eqn:Hc; [done|]. injection Hr as <-.
    apply marshalColumns_fit in Hc as [Hl Hf]. destruct cols as [|c0 [|c1 [|c2 [|c3 [|]]]]]; try done.
    rewrite !Forall_cons in Hf. destruct Hf as (F0 & F1 & F2 & F3 & _). split; [|reflexivity].
    cbn [app]. let l := eval vm_compute in (insertColumns insertResult) in change (insertColumns insertResult) with l.
    repeat (constructor; [fit_column|]). constructor.
  - intros p row Hr Htexts Hd Hs Hlat. unfold pageTexts in Htexts. rewrite !Forall_cons in Htexts. destruct_and!. unfold pageRow in Hr.
    destruct (marshalColumns Marshal _) as [|cols] eqn:Hc; [done|]. apply marshalColumns_fit in Hc as [Hl Hf].
    destruct cols as [|c0 [|c1 [|c2 [|c3 [|c4 [|c5 [|c6 [|]]]]]]]]; try done. injection Hr as <-.
    rewrite !Forall_cons in Hf. destruct Hf as (F0 & F1 & F2 & F3 & F4 & F5 & F6 & _). split; [|reflexivity].
    let l := eval vm_compute in (insertColumns insertPage) in change (insertColumns insertPage) with l.
    repeat (constructor; [fit_column|]). constructor.
  - intros table stmt c Ht. revert c. apply Forall_forall. rewrite !elem_of_cons in Ht.
    destruct Ht as [[= -> ->]|[[= -> ->]|?%not_elem_of_nil]]; [| |done]; apply (bool_decide_unpack _); by vm_compute.
Qed.

Lemma rows_fit_schema_witness : exists row, serpRow toyMarshal toyResult = inr row /\ rowFits "serp_results" insertResult row.
Proof.
  eexists. split; [vm_compute; reflexivity|].
  apply (proj1 (rows_fit_schema toyMarshal) toyResult); [vm_compute; reflexivity|by repeat constructor|split; discriminate].
Defined.

(** A page in another character set is lost to the database: extraction keeps
    the bytes of a title as they are, and a text column refuses them. *)
Theorem foreign_charset_refused Marshal p row : pageRow Marshal p = inr row -> validUTF8 (pTitle p) = false ->
  ~ rowFits "pages" insertPage row.
Proof.
  unfold pageRow. destruct (marshalColumns Marshal _) as [|[|c0 [|c1 [|c2 [|c3 [|c4 [|c5 [|c6 [|]]]]]]]]]; try done.
  intros [= <-] Hv [Hf _]. let l := eval vm_compute in (insertColumns insertPage) in change (insertColumns insertPage) with l in Hf.
  assert (Ht : exists c, columnNamed "pages" "title" = Some c /\ fits c (nullIfEmpty (pTitle p)) = true)
    by (rewrite !Forall2_cons in Hf; tauto).
  destruct Ht as (c & _ & Hfit). unfold nullIfEmpty in Hfit. case_decide as Hnil; [by rewrite Hnil in Hv|].
  cbn [fits] in Hfit. unfold pgText in Hfit. rewrite Hv, andb_false_r in Hfit. done.
Qed.

Definition latin1Page : Model.Page :=
  mkPage "t" "" "http://a/" "" 0 200 "text/html" 5 7 "" (String (chr 233) "") "" "" "" [] ∅ [] "" [] ∅ [] None "".

Lemma foreign_charset_refused_witness : exists row, pageRow toyMarshal latin1Page = inr row /\ ~ rowFits "pages" insertPage row.
Proof.
  eexists. split; [vm_compute; reflexivity|].
  apply (foreign_charset_refused toyMarshal latin1Page); vm_compute; reflexivity.
Defined.
