(* ===== verification/Browser.v ===== *)
(** * The browser fetcher ([internal/fetcher/playwright.go]): one fetch

    The configuration, the profile of a session and [render], one navigation of
    a page.  Playwright is a parameter: the operations of a page are state
    functions of the class [PageOps].  The pool of sessions is [BrowserPool]. *)

From Stdlib Require Import Ascii.
From S2P Require Import Prelude Float64 GoString Web Errors Classify HttpFetch Metrics.

Open Scope string_scope.
Open Scope Z_scope.

(** ** Configuration *)

Record PlaywrightConfig := mkPlaywright {
  pwEndpoint : string;
  pwTimeout : duration;
  PoolSize : Z;
  MaxSessionUses : Z;
  pwHeadless : bool;
  pwExecutablePath : string;
  pwGeneric : bool;
  pwWaitSelector : string }.

(** The checks and defaults of [NewPlaywrightFetcher]. *)
Definition newConfig (cfg : PlaywrightConfig) : goerr + PlaywrightConfig :=
  if bool_decide (pwEndpoint cfg = "") && negb (pwGeneric cfg)
  then inl (EText "playwright fetcher: endpoint is required (or Generic, for URL fetches)")
  else inr (mkPlaywright (pwEndpoint cfg)
              (if pwTimeout cfg <=? 0 then 30 * Second else pwTimeout cfg)
              (if PoolSize cfg <=? 0 then 4 else PoolSize cfg)
              (if MaxSessionUses cfg <=? 0 then 50 else MaxSessionUses cfg)
              (pwHeadless cfg) (pwExecutablePath cfg) (pwGeneric cfg) (pwWaitSelector cfg)).

(** ** Profiles *)

(** [strings.ToUpper] of a country code, which is ASCII. *)
Fixpoint upperASCII (s : string) : string :=
  match s with
  | EmptyString => ""
  | String a rest => String (if between 97 122 a then chr (Z.to_N (byteval a - 32)) else a) (upperASCII rest)
  end.

Definition localeTag (language country : string) : string :=
  if decide (language = "") then ""
  else if decide (country = "") then language
  else language ++ "-" ++ upperASCII country.

Record deviceProfile := mkDevice {
  dname : string; width : Z; height : Z; scale : f64; mobile : bool; touch : bool }.

Definition deviceProfileFor (device : string) : deviceProfile :=
  let d := ToLower device in
  if decide (d = "mobile") then mkDevice "mobile" 412 915 (f64_const 21 8) true true
  else if decide (d = "tablet") then mkDevice "tablet" 820 1180 (f64_of_Z 2) true true
  else mkDevice "desktop" 1366 768 f64_one false false.

Definition NUL : string := String (chr 0) "".

Definition sessionKey (req : Request) : string :=
  Join NUL [ProxyURL req; UserAgent req; localeTag (Language req) (Country req); dname (deviceProfileFor (Device req))].

(** ** The context of a session *)

Record ProxySettings := mkProxySettings { Server : string; Credentials : option (string * option string) }.

(** The options of [NewContext]; [None] is an option left unset. *)
Record ContextOptions := mkContext {
  cxDevice : deviceProfile; cxUserAgent : option string; cxLocale : option string; cxProxy : option ProxySettings }.

Definition setIf (s : string) : option string := if decide (s = "") then None else Some s.

Section Context_.
Context `{NetURL}.
(** [u.User]: the user name and the password, if set. *)
Context (userinfo : URL -> option (string * option string)).

Definition proxySettings (proxyURL : string) : goerr + ProxySettings :=
  let invalid := inl (EText ("playwright fetcher: invalid proxy url " ++ quoted proxyURL)) in
  match url_Parse proxyURL with
  | None => invalid
  | Some u => if decide (Host u = "") then invalid
              else inr (mkProxySettings (Scheme u ++ "://" ++ Host u) (userinfo u))
  end.

(** The options [newSession] opens a context with. *)
Definition contextOptions (req : Request) : goerr + ContextOptions :=
  let opts := mkContext (deviceProfileFor (Device req)) (setIf (UserAgent req))
                (setIf (localeTag (Language req) (Country req))) in
  if decide (ProxyURL req = "") then inr (opts None)
  else match proxySettings (ProxyURL req) with inl e => inl e | inr p => inr (opts (Some p)) end.
End Context_.

(** ** The search URL *)

Fixpoint plusToSpace (s : string) : string :=
  match s with EmptyString => "" | String a rest => String (if Ascii.eqb a "+" then " " else a)%char (plusToSpace rest) end.

(** [url.QueryUnescape] *)
Definition QueryUnescape (s : string) : option string := PathUnescape (plusToSpace s).

(** [u.Query()]: the pairs that decode; one holding a semicolon is dropped. *)
Definition parseQuery (raw : string) : Values :=
  omap (fun kv =>
          if Contains kv ";" || bool_decide (kv = "") then None
          else let '(k, v, _) := CutByte "=" kv in
               match QueryUnescape k, QueryUnescape v with
               | Some k, Some v => Some (k, v)
               | _, _ => None
               end) (SplitByte "&" raw).

Definition pwSearchURL `{NetURL} (endpoint : string) (req : Request) : goerr + string :=
  match url_Parse endpoint with
  | None => inl (EText "playwright fetcher: invalid endpoint")
  | Some u =>
      let q := Set_ "q" (Query req) (parseQuery (RawQuery u)) in
      let q := if decide (Country req = "") then q else Set_ "gl" (Country req) q in
      let q := if decide (Language req = "") then q else Set_ "hl" (Language req) q in
      inr (url_String (mkURL (Scheme u) (User u) (Host u) (Path u) (RawPath u) (Encode q) (Fragment u) (RawFragment u)))
  end.

(** ** A page *)

(** A navigation's response: its status and header lookup. *)
Record PResp := mkPResp { pStatus : Z; HeaderValue : string -> option string }.

Class PageOps (W : Type) := {
  Goto : string -> Z -> W -> W * (goerr + option PResp);
  Content : W -> W * (goerr + string);
  PageURL : W -> string;
  CountButtons : string -> W -> W * option Z;
  ClickAndNavigate : string -> Z -> W -> W * (goerr + option PResp);
  WaitForSelector : string -> Z -> W -> W * bool;
  Clock : W -> time }.

Section Render.
Context `{NetURL} `{DOM} {W : Type} `{!PageOps W}.
Context (ParseTime : string -> option time).
(** [err.Error()] *)
Context (errorText : goerr -> string).
Context (cfg : PlaywrightConfig).

(** The page and the counter increments made so far. *)
Record PState := mkP { page : W; pevents : list browser_event }.

Definition pemit (ev : browser_event) (s : PState) : PState := mkP (page s) (pevents s ++ [ev])%list.

Definition pwClassify (pageURL : string) (status : Z) (html : string) : pageKind :=
  if pwGeneric cfg then classifyGenericPage pageURL status html else classifyPage pageURL html.

Definition navigationError (err : goerr) (s : PState) : PState * goerr :=
  if Is isPlaywrightTimeout err then
    (pemit EvNavTimeout s, EWrapf "playwright fetcher: navigation timed out" err)
  else if Contains (errorText err) "net::ERR_" then
    (s, ETransport (EWrapf "playwright fetcher: navigation failed" err))
  else (s, EWrapf "playwright fetcher: navigation failed" err).

(** [remainingMS]: whole milliseconds left, at least 1. *)
Definition remainingMS (deadline : time) (s : PState) : Z :=
  Z.max 1 (Z.quot (Until deadline (Clock (page s))) Millisecond).

Definition consentButton : string := rejectConsentForm ++ " :is(button, input[type=" ++ quoted "submit" ++ "])".

(** [submitRejectConsent]: [None] when the page has no such form. *)
Definition submitRejectConsent (timeoutMS : Z) (w : W) : W * (goerr + option (option PResp)) :=
  let '(w, n) := CountButtons consentButton w in
  match n with
  | None => (w, inr None)
  | Some n =>
      if n =? 0 then (w, inr None)
      else let '(w, r) := ClickAndNavigate consentButton timeoutMS w in
           (w, match r with inl e => inl e | inr resp => inr (Some resp) end)
  end.

Definition statusOf (resp : option PResp) : Z := match resp with Some r => pStatus r | None => 0 end.

(** The end of [render]: the page's kind, its status, the selector to wait for. *)
Definition renderEnd (req : Request) (start deadline : time) (contentType : string) (resp : option PResp)
    (kind : pageKind) (html : string) (s : PState) : PState * FetchResult :=
  let status := statusOf resp in
  match blockedErrorFor kind (PageURL (page s)) status html with
  | Some b => (pemit (EvBlocked (Reason b)) s, inl (EBlocked b))
  | None =>
      if status =? 429 then
        let retryAfter := match resp with
                          | Some r => match HeaderValue r "retry-after" with
                                      | Some v => (parseRetryAfter ParseTime (Clock (page s)) v).1
                                      | None => 0
                                      end
                          | None => 0
                          end in
        (s, inl (ERateLimit (mkRateLimit status retryAfter (truncate html 512))))
      else if 400 <=? status then (s, inl (EStatus status))
      else
        let waitSelector := if decide (WaitSelector req = "") then pwWaitSelector cfg else WaitSelector req in
        let answer html s :=
          (s, inr (mkResponse (if status =? 0 then 200 else status) (truncate html maxBodyBytes)
                     (Clock (page s) - start) contentType (PageURL (page s)))) in
        if decide (waitSelector = "") then answer html s
        else
          let '(w, found) := WaitForSelector waitSelector (remainingMS deadline s) (page s) in
          let s := mkP w (pevents s) in
          if found then
            let '(w, r) := Content (page s) in
            let s := mkP w (pevents s) in
            match r with
            | inl e => (s, inl (EWrapf "playwright fetcher: read page content" e))
            | inr html => answer html s
            end
          else answer html s
  end.

(** The consent step, then the end. *)
Definition renderConsent (req : Request) (start deadline : time) (contentType : string) (resp : option PResp)
    (html : string) (s : PState) : PState * FetchResult :=
  let '(w, r) := submitRejectConsent (remainingMS deadline s) (page s) in
  let s := mkP w (pevents s) in
  match r with
  | inl e => let '(s, e) := navigationError e s in (s, inl e)
  | inr None =>
      let s := pemit (EvBlocked "consent") s in
      (s, match blockedErrorFor pageConsent (PageURL (page s)) (statusOf resp) html with
          | Some b => inl (EBlocked b)
          | None => inl (EText "unreachable")
          end)
  | inr (Some next) =>
      let s := pemit EvConsentHandled s in
      let '(w, r) := Content (page s) in
      let s := mkP w (pevents s) in
      match r with
      | inl e => (s, inl (EWrapf "playwright fetcher: read page content" e))
      | inr html => renderEnd req start deadline contentType next
                      (pwClassify (PageURL (page s)) (statusOf next) html) html s
      end
  end.

Definition renderTarget (req : Request) : goerr + string :=
  if decide (rURL req = "") then
    if decide (pwEndpoint cfg = "") then inl (EText "playwright fetcher: request has no URL and the fetcher no endpoint")
    else pwSearchURL (pwEndpoint cfg) req
  else inr (rURL req).

Definition render (req : Request) (s : PState) : PState * FetchResult :=
  let start := Clock (page s) in
  let deadline := start + pwTimeout cfg in
  match renderTarget req with
  | inl e => (s, inl e)
  | inr target =>
      let '(w, r) := Goto target (remainingMS deadline s) (page s) in
      let s := mkP w (pevents s) in
      match r with
      | inl e => let '(s, e) := navigationError e s in (s, inl e)
      | inr resp =>
          let '(w, r) := Content (page s) in
          let s := mkP w (pevents s) in
          match r with
          | inl e => (s, inl (EWrapf "playwright fetcher: read page content" e))
          | inr html =>
              let contentType := match resp with Some r => default "" (HeaderValue r "content-type") | None => "" end in
              let kind := pwClassify (PageURL (page s)) (statusOf resp) html in
              if decide (kind = pageConsent) then renderConsent req start deadline contentType resp html s
              else renderEnd req start deadline contentType resp kind html s
          end
      end
  end.

End Render.
