(* ===== verification/RenderSpec.v ===== *)
(** * Properties of one browser fetch

    What [render] answers on every path, and the counters it moves. *)

From S2P Require Import Prelude GoString Web Errors Classify HttpFetch FetchSpec Metrics Browser.

Open Scope string_scope.
Open Scope Z_scope.

Section RenderSpec.
Context `{NetURL} `{DOM} {W : Type} `{!PageOps W}.
Context (ParseTime : string -> option time) (errorText : goerr -> string) (cfg : PlaywrightConfig).

(** ** How a fetch can end *)

(** Without a navigation; in a failed one; with a page that could not be read; on a
    consent wall without a form; on a page of some kind and status (0 when the
    navigation had no response) with this HTML. *)
Inductive ending :=
  | Unsent (e : goerr)
  | NavFailed (e : goerr)
  | Unread (e : goerr)
  | NoForm (status : Z)
  | Landed (kind : pageKind) (status : Z) (html : string).

(** The time left of [s]'s deadline when the page is [w]. *)
Definition left_ (s : PState (W:=W)) (w : W) : Z := remainingMS (Clock (page s) + pwTimeout cfg) (mkP w []).

Definition kindAt (w : W) (resp : option PResp) (html : string) : pageKind := pwClassify cfg (PageURL w) (statusOf resp) html.

(** The first page of the fetch was read: the page, the navigation's response, its HTML. *)
Definition opened (req : Request) (s : PState (W:=W)) (w : W) (resp : option PResp) (html : string) : Prop :=
  exists target w0, renderTarget cfg req = inr target /\ Goto target (left_ s (page s)) (page s) = (w0, inr resp) /\
    Content w0 = (w, inr html).

(** The course of a fetch: how it ends, and whether a consent was submitted. *)
Inductive course (req : Request) (s : PState (W:=W)) : ending -> bool -> Prop :=
  | course_unsent e : renderTarget cfg req = inl e -> course req s (Unsent e) false
  | course_goto target w e : renderTarget cfg req = inr target ->
      Goto target (left_ s (page s)) (page s) = (w, inl e) -> course req s (NavFailed e) false
  | course_unread target w resp w1 e : renderTarget cfg req = inr target ->
      Goto target (left_ s (page s)) (page s) = (w, inr resp) -> Content w = (w1, inl e) -> course req s (Unread e) false
  | course_page w resp html : opened req s w resp html -> kindAt w resp html <> pageConsent ->
      course req s (Landed (kindAt w resp html) (statusOf resp) html) false
  | course_click w resp html w2 e : opened req s w resp html -> kindAt w resp html = pageConsent ->
      submitRejectConsent (left_ s w) w = (w2, inl e) -> course req s (NavFailed e) false
  | course_no_form w resp html w2 : opened req s w resp html -> kindAt w resp html = pageConsent ->
      submitRejectConsent (left_ s w) w = (w2, inr None) -> course req s (NoForm (statusOf resp)) false
  | course_unread2 w resp html w2 next w3 e : opened req s w resp html -> kindAt w resp html = pageConsent ->
      submitRejectConsent (left_ s w) w = (w2, inr (Some next)) -> Content w2 = (w3, inl e) -> course req s (Unread e) true
  | course_page2 w resp html w2 next w3 html' : opened req s w resp html -> kindAt w resp html = pageConsent ->
      submitRejectConsent (left_ s w) w = (w2, inr (Some next)) -> Content w2 = (w3, inr html') ->
      course req s (Landed (kindAt w3 next html') (statusOf next) html') true.

(** The reason a page is blocked for, if it is. *)
Definition reasonOf (k : pageKind) : option string :=
  match k with
  | pageNormal => None
  | pageConsent => Some "consent" | pageCaptcha => Some "captcha"
  | pageInterstitial => Some "interstitial" | pageChallenge => Some "challenge"
  end.

Definition blockedAs (reason : string) (status : Z) (evs : list browser_event) (r : FetchResult) : Prop :=
  evs = [EvBlocked reason] /\
  exists b, r = inl (EBlocked b) /\ Reason b = reason /\ bStatus b = status /\ len (bBody b) <= maxBlockedBody.

(** What the end of a fetch makes of its answer and counters. *)
Definition answers (en : ending) (evs : list browser_event) (r : FetchResult) : Prop :=
  match en with
  | Unsent e => evs = [] /\ r = inl e
  | NavFailed e => evs = (if Is isPlaywrightTimeout e then [EvNavTimeout] else []) /\ exists x, r = inl x /\ wrapped e x
  | Unread e => evs = [] /\ exists x, r = inl x /\ wrapped e x
  | NoForm status => blockedAs "consent" status evs r
  | Landed kind status html =>
      match reasonOf kind with
      | Some reason => blockedAs reason status evs r
      | None =>
          evs = [] /\
          if status =? 429 then exists ra, r = inl (ERateLimit (mkRateLimit 429 ra (truncate html 512)))
          else if 400 <=? status then r = inl (EStatus status)
          else (exists resp, r = inr resp /\ StatusCode resp = (if status =? 0 then 200 else status) /\ len (Body resp) <= maxBodyBytes) \/
               (exists e x, r = inl x /\ wrapped e x /\ exists w w', Content w = (w', inl e))
      end
  end.

Lemma blocked_answer kind url status body : match reasonOf kind with
  | None => blockedErrorFor kind url status body = None
  | Some reason => exists b, blockedErrorFor kind url status body = Some b /\ Reason b = reason /\ bStatus b = status /\
      len (bBody b) <= maxBlockedBody
  end.
Proof. destruct kind; cbn [reasonOf blockedErrorFor]; try done; (eexists; split_and!; [done..|]; apply truncate_len; by vm_compute). Qed.

Lemma navigationError_answer (s : PState (W:=W)) e : let '(s', x) := navigationError errorText e s in
  pevents s' = (pevents s ++ (if Is isPlaywrightTimeout e then [EvNavTimeout] else []))%list /\ wrapped e x.
Proof.
  unfold navigationError. destruct (Is isPlaywrightTimeout e); [split; [done|apply wrap_fmt, wrap_self]|].
  destruct (Contains _ _); rewrite app_nil_r; (split; [done|]); [apply wrap_transport, wrap_fmt, wrap_self|apply wrap_fmt, wrap_self].
Qed.

Lemma renderEnd_answer req start deadline ct resp kind html s :
  let '(s', r) := renderEnd ParseTime cfg req start deadline ct resp kind html s in
  exists evs, pevents s' = (pevents s ++ evs)%list /\ answers (Landed kind (statusOf resp) html) evs r.
Proof.
  unfold renderEnd, answers. pose proof (blocked_answer kind (PageURL (page s)) (statusOf resp) html) as Hb.
  destruct (reasonOf kind) as [reason|].
  { destruct Hb as (b & -> & <- & Hst & Hlen). exists [EvBlocked (Reason b)]. split; [done|]. split; [done|]. by exists b. }
  rewrite Hb. destruct (Z.eqb_spec (statusOf resp) 429) as [H429|H429].
  { exists []. rewrite app_nil_r, H429. split; [done|]. split; [done|]. by eexists. }
  destruct (Z.leb_spec 400 (statusOf resp)) as [H400|H400]; [exists []; by rewrite app_nil_r|].
  assert (Hok : forall body lat url, exists x : Response,
    (inr (mkResponse (if statusOf resp =? 0 then 200 else statusOf resp) (truncate body maxBodyBytes) lat ct url) : FetchResult) = inr x /\
    StatusCode x = (if statusOf resp =? 0 then 200 else statusOf resp) /\ len (Body x) <= maxBodyBytes).
  { intros body lat url. eexists. split_and!; [done..|]. apply truncate_len. by vm_compute. }
  destruct (decide _); [exists []; rewrite app_nil_r; split; [done|]; split; [done|]; left; apply Hok|].
  destruct (WaitForSelector _ _ _) as [w []]; [|exists []; rewrite app_nil_r; split; [done|]; split; [done|]; left; apply Hok].
  cbn [page pevents]. destruct (Content w) as [w' [e|html']] eqn:Hc; exists []; rewrite app_nil_r; (split; [done|]); (split; [done|]);
    [right|left; apply Hok]. exists e. eexists. split; [done|]. split; [apply wrap_fmt, wrap_self|by exists w, w'].
Qed.

(** C21. The answer of a browser fetch and the counters it moves are those of its
    course.  A block page, of whatever status, and a consent wall without a "reject
    all" form are one [Blocked] count and a [BlockedError] with their reason and
    status.  On any other page the answer follows the status of the last
    navigation: 429 is a [RateLimitError], any other from 400 on a [StatusError],
    a lower one a response with that status (200 for a navigation without a
    response) and at most [maxBodyBytes], unless reading the page again after the
    wait for a selector fails; and no counter moves.  A failed navigation counts as
    a navigation timeout exactly when Playwright says so, and its error is kept in
    the answer.  A submitted consent is counted once, before all that. *)
Theorem render_accounting req s :
  let '(s', r) := render ParseTime errorText cfg req s in
  exists en handled evs, course req s en handled /\ answers en evs r /\
    pevents s' = (pevents s ++ (if handled : bool then [EvConsentHandled] else []) ++ evs)%list.
Proof.
  unfold render. destruct (renderTarget cfg req) as [e|target] eqn:Ht.
  { exists (Unsent e), false, []. split; [by constructor|]. by rewrite app_nil_r. }
  change (remainingMS (Clock (page s) + pwTimeout cfg) s) with (left_ s (page s)).
  destruct (Goto target _ _) as [w [e|resp]] eqn:Hg.
  { pose proof (navigationError_answer (mkP w (pevents s)) e) as Hn. destruct (navigationError _ _ _) as [s' x]. destruct Hn as [Hev Hw].
    exists (NavFailed e), false. eexists. split; [by eapply course_goto|]. split; [|exact Hev]. split; [done|by exists x]. }
  cbn [page pevents]. destruct (Content w) as [w1 [e|html]] eqn:Hc.
  { exists (Unread e), false, []. split; [by eapply course_unread|]. split; [|by rewrite app_nil_r]. split; [done|].
    eexists. split; [done|]. apply wrap_fmt, wrap_self. }
  assert (Ho : opened req s w1 resp html) by (by exists target, w).
  change (pwClassify cfg (PageURL w1) (statusOf resp) html) with (kindAt w1 resp html).
  destruct (decide (kindAt w1 resp html = pageConsent)) as [Hk|Hk].
  2: { pose proof (renderEnd_answer req (Clock (page s)) (Clock (page s) + pwTimeout cfg)
                     (match resp with Some r => default "" (HeaderValue r "content-type") | None => "" end) resp
                     (kindAt w1 resp html) html (mkP w1 (pevents s))) as He.
       destruct (renderEnd _ _ _ _ _ _ _ _ _ _) as [s' r]. destruct He as (evs & Hev & Ha).
       exists (Landed (kindAt w1 resp html) (statusOf resp) html), false, evs. split; [by constructor|]. by split. }
  unfold renderConsent. cbn [page pevents].
  change (remainingMS (Clock (page s) + pwTimeout cfg) (mkP w1 (pevents s))) with (left_ s w1).
  destruct (submitRejectConsent _ _) as [w2 [e|[next|]]] eqn:Hsub.
  - pose proof (navigationError_answer (mkP w2 (pevents s)) e) as Hn. destruct (navigationError _ _ _) as [s' x]. destruct Hn as [Hev Hw].
    exists (NavFailed e), false. eexists. split; [by eapply course_click|]. split; [|exact Hev]. split; [done|by exists x].
  - cbn [page pevents pemit]. destruct (Content w2) as [w3 [e|html']] eqn:Hc2.
    + exists (Unread e), true, []. split; [by eapply course_unread2|]. split; [|by rewrite app_nil_r]. split; [done|].
      eexists. split; [done|]. apply wrap_fmt, wrap_self.
    + change (pwClassify cfg (PageURL w3) (statusOf next) html') with (kindAt w3 next html').
      match goal with |- context [renderEnd ParseTime cfg ?rq ?a ?b ?c ?n ?k ?h ?s0] =>
        pose proof (renderEnd_answer rq a b c n k h s0) as He; destruct (renderEnd ParseTime cfg rq a b c n k h s0) as [s' r] end.
      destruct He as (evs & Hev & Ha). exists (Landed (kindAt w3 next html') (statusOf next) html'), true, evs.
      split; [by eapply course_page2|]. split; [done|]. rewrite Hev. cbn [pevents]. by rewrite <- app_assoc.
  - exists (NoForm (statusOf resp)), false, [EvBlocked "consent"]. split; [by eapply course_no_form|]. split; [|done].
    pose proof (blocked_answer pageConsent (PageURL w2) (statusOf resp) html) as Hb. cbn [reasonOf] in Hb.
    destruct Hb as (b & Hb & Hr). injection Hb as <-. split; [done|]. by eexists.
Qed.

End RenderSpec.
