(* ===== verification/BrowserPool.v ===== *)
(** * The pool of browser sessions ([internal/fetcher/playwright.go])

    [acquire], [release], [browserLocked] and [Close] share [slots], a counting
    semaphore, the fields guarded by [mu], and [closed], an atomic that [mu] does
    not guard.  A section under [mu] is one atomic step, except that a launch is
    a phase of its own ([TLaunching]) during which [mu] is held and everything
    that does not take it goes on: [Close] may set [closed], browsers may
    disconnect.  Between the sections a fetch is in one of the phases of
    [tphase].  The gauge updates that follow a section ([closeSession] after the
    unlock, [AddSessionsInUse] around it) are taken with it.  Browsers and
    sessions are objects in a store, named by numbers; the environment
    disconnects browsers, crashes and closes pages at any time. *)

From Stdlib Require Import Ascii.
From S2P Require Import Prelude GoString Errors Metrics Browser.

Open Scope string_scope.
Open Scope Z_scope.

Record browserSession := mkSession { skey : string; sbrowser : nat; uses : Z; crashed : bool; pageClosed : bool }.

(** [s.crashed.Load() || s.page.IsClosed()] *)
Definition dead (x : browserSession) : bool := crashed x || pageClosed x.

Record BPool := mkBPool {
  browser : option nat;
  idle : list nat;
  open : Z;
  launchFailures : Z;
  nextLaunch : time;
  lastLaunchErr : option goerr;
  closed : bool;
  sessions : gmap nat browserSession;   (* every session made so far *)
  connected : gset nat;                 (* the browsers that are connected *)
  nextId : nat;
  bevents : list browser_event }.

Definition ErrFetcherClosed : goerr := EText "playwright fetcher: closed".
Definition ErrBrowserUnavailable : goerr := EText "playwright fetcher: browser unavailable (launch backoff)".
Definition maxLaunchBackoff : duration := 30 * Second.

(** *** Updates *)

Definition set_idle (l : list nat) (p : BPool) : BPool :=
  mkBPool (browser p) l (open p) (launchFailures p) (nextLaunch p) (lastLaunchErr p) (closed p) (sessions p) (connected p)
    (nextId p) (bevents p).
Definition set_open (n : Z) (p : BPool) : BPool :=
  mkBPool (browser p) (idle p) n (launchFailures p) (nextLaunch p) (lastLaunchErr p) (closed p) (sessions p) (connected p)
    (nextId p) (bevents p).
Definition set_closed (p : BPool) : BPool :=
  mkBPool (browser p) (idle p) (open p) (launchFailures p) (nextLaunch p) (lastLaunchErr p) true (sessions p) (connected p)
    (nextId p) (bevents p).
Definition set_sessions (m : gmap nat browserSession) (p : BPool) : BPool :=
  mkBPool (browser p) (idle p) (open p) (launchFailures p) (nextLaunch p) (lastLaunchErr p) (closed p) m (connected p)
    (nextId p) (bevents p).
Definition set_connected (c : gset nat) (p : BPool) : BPool :=
  mkBPool (browser p) (idle p) (open p) (launchFailures p) (nextLaunch p) (lastLaunchErr p) (closed p) (sessions p) c
    (nextId p) (bevents p).
Definition bemit (evs : list browser_event) (p : BPool) : BPool :=
  mkBPool (browser p) (idle p) (open p) (launchFailures p) (nextLaunch p) (lastLaunchErr p) (closed p) (sessions p) (connected p)
    (nextId p) (bevents p ++ evs)%list.

(** [closeSession] of some sessions: only the gauge changes. *)
Definition closeSessions (ss : list nat) (p : BPool) : BPool := bemit (map (fun _ => EvSessionsOpen (-1)) ss) p.

Definition IsConnected (b : nat) (p : BPool) : bool := bool_decide (b ∈ connected p).

(** The object a session pointer denotes. *)
Definition session (p : BPool) (s : nat) : browserSession := default (mkSession "" 0 0 false false) (sessions p !! s).

(** ** [browserLocked] *)

(** The wait after the [n]-th failed launch in a row. *)
Definition launchBackoff (n : Z) : duration :=
  let backoff := wrap64 (Z.shiftl Second (Z.min (n - 1) 5)) in
  if maxLaunchBackoff <? backoff then maxLaunchBackoff else backoff.

(** The idle sessions of a dead browser are dropped. *)
Definition ofBrowser (b : nat) (p : BPool) (s : nat) : bool := bool_decide (sbrowser (session p s) = b).

Definition dropDead (b : nat) (p : BPool) : BPool :=
  let gone := List.filter (ofBrowser b p) (idle p) in
  closeSessions gone (set_open (open p - Z.of_nat (length gone))
    (set_idle (List.filter (fun s => negb (ofBrowser b p s)) (idle p)) p)).

(** The shared browser, if it is usable. *)
Definition liveBrowser (p : BPool) : option nat :=
  match browser p with Some b => if IsConnected b p then Some b else None | None => None end.

(** What [browserLocked] decides before it launches. *)
Inductive BrowserCheck := BUse (b : nat) | BErr (e : goerr) | BLaunch.

Definition browserCheck (now : time) (p : BPool) : BrowserCheck :=
  match liveBrowser p with
  | Some b => BUse b
  | None =>
      if closed p then BErr ErrFetcherClosed
      else if Before now (nextLaunch p) then BErr (EWrapf "last launch error" ErrBrowserUnavailable)
      else BLaunch
  end.

(** The rest of it: [launch] is the error of [Chromium.Launch], if any, and [now]
    the clock after it; a new browser is connected. *)
Definition launchLocked (now : time) (launch : option goerr) (p : BPool) : BPool * (goerr + nat) :=
  let p := match browser p with Some b => dropDead b p | None => p end in
  match launch with
  | Some e =>
      let n := wrap64 (launchFailures p + 1) in
      (bemit [EvLaunchFailure]
         (mkBPool (browser p) (idle p) (open p) n (now + launchBackoff n)
            (Some e) (closed p) (sessions p) (connected p) (nextId p) (bevents p)),
       inl (EWrapf "playwright fetcher: launch chromium" e))
  | None =>
      (bemit [EvLaunch]
         (mkBPool (Some (nextId p)) (idle p) (open p) 0 zeroTime None (closed p) (sessions p)
            ({[nextId p]} ∪ connected p) (S (nextId p)) (bevents p)),
       inr (nextId p))
  end.

(** [browserLocked] when nothing else happens during the launch. *)
Definition browserLocked (now : time) (launch : option goerr) (p : BPool) : BPool * (goerr + nat) :=
  match browserCheck now p with
  | BUse b => (p, inr b)
  | BErr e => (p, inl e)
  | BLaunch => launchLocked now launch p
  end.

(** ** [acquire] *)

(** The scan of the idle sessions: those kept, the dead ones, the one reused. *)
Fixpoint scanIdle (p : BPool) (key : string) (b : nat) (l : list nat) (reuse : option nat) : list nat * list nat * option nat :=
  match l with
  | [] => ([], [], reuse)
  | s :: rest =>
      if dead (session p s) then
        let '(kept, stale, r) := scanIdle p key b rest reuse in (kept, s :: stale, r)
      else if bool_decide (reuse = None) && bool_decide (skey (session p s) = key) && bool_decide (sbrowser (session p s) = b) then
        scanIdle p key b rest (Some s)
      else let '(kept, stale, r) := scanIdle p key b rest reuse in (s :: kept, stale, r)
  end.

Inductive AcqResult := AcqErr (e : goerr) | AcqReuse (s : nat) | AcqCreate (b : nat).

(** The section of [acquire] under [mu] from the answer [rb] of [browserLocked]
    up to [newSession]. *)
Definition acquireLocked (poolSize : Z) (key : string) (rb : goerr + nat) (p : BPool) : BPool * AcqResult :=
  match rb with
  | inl e => (p, AcqErr e)
  | inr b =>
      let '(kept, stale, reuse) := scanIdle p key b (idle p) None in
      let p := set_open (open p - Z.of_nat (length stale)) (set_idle kept p) in
      match reuse with
      | Some s => (closeSessions stale p, AcqReuse s)
      | None =>
          if (poolSize <=? open p) then
            match kept with
            | e :: rest => (closeSessions [e] (closeSessions stale (set_idle rest p)), AcqCreate b)
            | [] => (closeSessions stale (set_open (open p + 1) p), AcqCreate b)
            end
          else (closeSessions stale (set_open (open p + 1) p), AcqCreate b)
      end
  end.

(** [newSession] succeeded: the session exists. *)
Definition sessionCreated (key : string) (b : nat) (p : BPool) : BPool * nat :=
  let s := nextId p in
  (bemit [EvSessionsOpen 1]
     (mkBPool (browser p) (idle p) (open p) (launchFailures p) (nextLaunch p) (lastLaunchErr p) (closed p)
        (<[s := mkSession key b 0 false false]> (sessions p)) (connected p) (S s) (bevents p)), s).

(** ** [release] *)

Definition bumpUses (x : browserSession) : browserSession := mkSession (skey x) (sbrowser x) (wrap64 (uses x + 1)) (crashed x) (pageClosed x).

Definition crash (x : browserSession) : browserSession := mkSession (skey x) (sbrowser x) (uses x) true (pageClosed x).
Definition closePage (x : browserSession) : browserSession := mkSession (skey x) (sbrowser x) (uses x) (crashed x) true.

Definition releaseLocked (maxUses : Z) (s : nat) (healthy : bool) (p : BPool) : BPool :=
  let p := bemit [EvSessionsInUse (-1)] (set_sessions (alter bumpUses s (sessions p)) p) in
  let x := session p s in
  let keep := healthy && negb (closed p) && negb (crashed x) && (uses x <? maxUses)
              && bool_decide (browser p = Some (sbrowser x)) && IsConnected (sbrowser x) p in
  if keep then set_idle (idle p ++ [s])%list p
  else closeSessions [s] (set_open (open p - 1) p).

(** ** Fetches, closing and the environment *)

(** Where a fetch is: outside, holding a slot, past the check of [closed],
    launching a browser (it holds [mu]), creating a session, rendering on one, or
    done with it but still holding the slot. *)
Inductive tphase :=
  | TOut | TSlot (key : string) | TChecked (key : string) | TLaunching (key : string)
  | TCreating (key : string) (b : nat) | TBusy (s : nat) | TDone.

(** Where [Close] is: not called, past [closed.Store], past the idle sessions. *)
Inductive cphase := COpen | CClosing | CDraining.

(** The section of [Close] under [mu], with the sessions it closes. *)
Definition closeIdleLocked (p : BPool) : BPool :=
  closeSessions (idle p) (set_open (open p - Z.of_nat (length (idle p))) (set_idle [] p)).

Record Sys := mkSys { bpool : BPool; threads : list tphase; closing : cphase; drained : nat }.

Definition holdsSlot (t : tphase) : bool := match t with TOut => false | _ => true end.

(** The slots taken: by fetches and by [Close]. *)
Definition slotsTaken (y : Sys) : nat := (length (List.filter holdsSlot (threads y)) + drained y)%nat.

(** [mu] is held across a launch and only there: every other section under it
    is one step. *)
Definition isLaunching (t : tphase) : bool := match t with TLaunching _ => true | _ => false end.

Definition launching (ts : list tphase) : nat := countb isLaunching ts.

Definition muFree (y : Sys) : bool := bool_decide (launching (threads y) = 0%nat).

(** Where a fetch goes with the answer of [acquire]'s section. *)
Definition afterAcquire (i : nat) (key : string) (pr : BPool * AcqResult) (y : Sys) : Sys :=
  match pr.2 with
  | AcqErr _ => mkSys pr.1 (<[i := TDone]> (threads y)) (closing y) (drained y)
  | AcqReuse s => mkSys (bemit [EvSessionsInUse 1] pr.1) (<[i := TBusy s]> (threads y)) (closing y) (drained y)
  | AcqCreate b => mkSys pr.1 (<[i := TCreating key b]> (threads y)) (closing y) (drained y)
  end.

Inductive bevent :=
  | EGetSlot (i : nat) (key : string)
  | ECheckClosed (i : nat)
  | EAcquire (i : nat) (now : time)
  | ELaunched (i : nat) (now : time) (launch : option goerr)
  | ENewSession (i : nat) (ok : bool)
  | ERelease (i : nat) (healthy : bool)
  | EFreeSlot (i : nat)
  | EClose
  | ECloseIdle
  | EDrain
  | EDisconnect (b : nat)
  | ECrash (s : nat)
  | EPageClosed (s : nat).

Definition bstep (poolSize maxUses : Z) (e : bevent) (y : Sys) : option Sys :=
  let p := bpool y in
  match e with
  | EGetSlot i key =>
      match threads y !! i with
      | Some TOut => if (Z.of_nat (slotsTaken y) <? poolSize)
                     then Some (mkSys p (<[i := TSlot key]> (threads y)) (closing y) (drained y)) else None
      | _ => None
      end
  | ECheckClosed i =>
      match threads y !! i with
      | Some (TSlot key) =>
          Some (mkSys p (<[i := if closed p then TDone else TChecked key]> (threads y)) (closing y) (drained y))
      | _ => None
      end
  | EAcquire i now =>
      match threads y !! i with
      | Some (TChecked key) =>
          if muFree y then
            match browserCheck now p with
            | BUse b => Some (afterAcquire i key (acquireLocked poolSize key (inr b) p) y)
            | BErr e => Some (afterAcquire i key (acquireLocked poolSize key (inl e) p) y)
            | BLaunch => Some (mkSys p (<[i := TLaunching key]> (threads y)) (closing y) (drained y))
            end
          else None
      | _ => None
      end
  | ELaunched i now launch =>
      match threads y !! i with
      | Some (TLaunching key) =>
          let '(p, rb) := launchLocked now launch p in
          Some (afterAcquire i key (acquireLocked poolSize key rb p) y)
      | _ => None
      end
  | ENewSession i ok =>
      match threads y !! i with
      | Some (TCreating key b) =>
          if ok then let '(p, s) := sessionCreated key b p in
                     Some (mkSys (bemit [EvSessionsInUse 1] p) (<[i := TBusy s]> (threads y)) (closing y) (drained y))
          else if muFree y then Some (mkSys (set_open (open p - 1) p) (<[i := TDone]> (threads y)) (closing y) (drained y))
          else None
      | _ => None
      end
  | ERelease i healthy =>
      match threads y !! i with
      | Some (TBusy s) =>
          if muFree y then Some (mkSys (releaseLocked maxUses s healthy p) (<[i := TDone]> (threads y)) (closing y) (drained y))
          else None
      | _ => None
      end
  | EFreeSlot i =>
      match threads y !! i with
      | Some TDone => Some (mkSys p (<[i := TOut]> (threads y)) (closing y) (drained y))
      | _ => None
      end
  | EClose =>
      match closing y with
      | COpen => Some (mkSys (set_closed p) (threads y) CClosing (drained y))
      | _ => None
      end
  | ECloseIdle =>
      match closing y with
      | CClosing => if muFree y then Some (mkSys (closeIdleLocked p) (threads y) CDraining (drained y)) else None
      | _ => None
      end
  | EDrain =>
      match closing y with
      | CDraining => if (Z.of_nat (slotsTaken y) <? poolSize)
                     then Some (mkSys p (threads y) CDraining (S (drained y))) else None
      | _ => None
      end
  | EDisconnect b =>
      if negb (IsConnected b p) then None else
      Some (mkSys (set_connected (connected p ∖ {[b]}) (if closed p then p else bemit [EvDisconnect] p))
              (threads y) (closing y) (drained y))
  | ECrash s => Some (mkSys (set_sessions (alter crash s (sessions p)) (bemit [EvPageCrash] p)) (threads y) (closing y) (drained y))
  | EPageClosed s => Some (mkSys (set_sessions (alter closePage s (sessions p)) p) (threads y) (closing y) (drained y))
  end.

(** A fetcher whose first launch succeeded, and its fetches. *)
Definition binitial (nthreads : nat) : Sys :=
  mkSys (mkBPool (Some 0%nat) [] 0 0 zeroTime None false ∅ {[0%nat]} 1 [EvLaunch]) (replicate nthreads TOut) COpen 0.

Inductive breach (poolSize maxUses : Z) (nthreads : nat) : Sys -> Prop :=
  | breach_init : breach poolSize maxUses nthreads (binitial nthreads)
  | breach_step e y y' : breach poolSize maxUses nthreads y -> bstep poolSize maxUses e y = Some y' ->
      breach poolSize maxUses nthreads y'.
