(* ===== verification/BrowserSpec.v ===== *)
(** * Properties of the browser session pool

    The invariant of the pool under any interleaving of fetches, closing,
    crashes and disconnections, what a reused session guarantees, and the
    launch backoff. *)

From Stdlib Require Import Ascii.
From S2P Require Import Prelude GoString Web Errors Metrics Browser BrowserPool.

Open Scope string_scope.
Open Scope Z_scope.

#[global] Arguments acquireLocked : simpl never.
#[global] Arguments launchLocked : simpl never.

(** ** Gauges *)

(** The sum of the increments of the sessions-open and sessions-in-use gauges. *)
Definition openDelta (e : browser_event) : Z := match e with EvSessionsOpen d => d | _ => 0 end.
Definition useDelta (e : browser_event) : Z := match e with EvSessionsInUse d => d | _ => 0 end.

Definition total (f : browser_event -> Z) (es : list browser_event) : Z := foldr Z.add 0 (map f es).

Lemma total_app f a b : total f (a ++ b)%list = total f a + total f b.
Proof. unfold total. induction a as [|x a IH]; cbn [app map foldr] in *; lia. Qed.

Lemma total_one f e : total f [e] = f e.
Proof. unfold total. cbn [map foldr]. lia. Qed.

Lemma total_close (ss : list nat) : total openDelta (map (fun _ => EvSessionsOpen (-1)) ss) = - Z.of_nat (length ss) /\
  total useDelta (map (fun _ => EvSessionsOpen (-1)) ss) = 0.
Proof. unfold total. induction ss as [|s ss [IH1 IH2]]; [done|]. cbn [map foldr openDelta useDelta length]. lia. Qed.

(** ** The phases of the fetches *)

Definition busySession (t : tphase) : option nat := match t with TBusy s => Some s | _ => None end.
Definition isCreating (t : tphase) : bool := match t with TCreating _ _ => true | _ => false end.

(** Sessions in use, sessions being created. *)
Definition inUse (ts : list tphase) : list nat := omap busySession ts.
Definition creating (ts : list tphase) : nat := countb isCreating ts.

Lemma slots_cover ts : (length (inUse ts) + creating ts <= countb holdsSlot ts)%nat.
Proof.
  unfold inUse, creating, countb. induction ts as [|t ts IH]; [done|]. cbn [omap list_omap List.filter].
  destruct t; cbn [busySession isCreating holdsSlot length] in *; lia.
Qed.

(** ** Scanning the idle sessions *)

Lemma scanIdle_some p key b l s0 : let '(kept, stale, r) := scanIdle p key b l (Some s0) in
  r = Some s0 /\ l ≡ₚ kept ++ stale.
Proof.
  induction l as [|s l IH]; [done|]. cbn [scanIdle]. destruct (dead (session p s)).
  - destruct (scanIdle p key b l (Some s0)) as [[kept stale] r]. destruct IH as [-> Hp]. split; [done|].
    rewrite Hp. apply Permutation_middle.
  - rewrite bool_decide_eq_false_2 by done. cbn [andb].
    destruct (scanIdle p key b l (Some s0)) as [[kept stale] r]. destruct IH as [-> Hp]. split; [done|]. by rewrite Hp.
Qed.

(** What may be reused: a live session of the same profile and browser. *)
Definition reusable (p : BPool) (key : string) (b s : nat) : Prop :=
  dead (session p s) = false /\ skey (session p s) = key /\ sbrowser (session p s) = b.

Lemma scanIdle_spec p key b l : let '(kept, stale, r) := scanIdle p key b l None in
  l ≡ₚ (kept ++ stale ++ option_list r)%list /\
  match r with
  | Some s => reusable p key b s
  | None => forall s, s ∈ l -> ~ reusable p key b s
  end.
Proof.
  induction l as [|s l IH]; [split; [done|by intros s ?%not_elem_of_nil]|]. cbn [scanIdle].
  destruct (dead (session p s)) eqn:Hd.
  - destruct (scanIdle p key b l None) as [[kept stale] r]. destruct IH as [Hp Hr]. split.
    + rewrite Hp. apply (Permutation_middle kept (stale ++ option_list r) s).
    + destruct r as [r|]; [done|]. intros s' [->|Hs]%elem_of_cons; [intros (? & _); congruence|by apply Hr].
  - rewrite bool_decide_eq_true_2 by done. cbn [andb].
    destruct (bool_decide (skey (session p s) = key) && bool_decide (sbrowser (session p s) = b)) eqn:Hm.
    + pose proof (scanIdle_some p key b l s) as H. destruct (scanIdle p key b l (Some s)) as [[kept stale] r].
      destruct H as [-> Hp]. apply andb_true_iff in Hm as [Hk%bool_decide_eq_true Hb%bool_decide_eq_true].
      split; [|by split_and!]. cbn [option_list]. rewrite Hp, app_assoc. apply Permutation_cons_append.
    + destruct (scanIdle p key b l None) as [[kept stale] r]. destruct IH as [Hp Hr]. split; [by rewrite Hp|].
      destruct r as [r|]; [done|]. intros s' [->|Hs]%elem_of_cons; [|by apply Hr]. intros (_ & Hk & Hb).
      rewrite Hk, Hb, !bool_decide_eq_true_2 in Hm by done. done.
Qed.

(** ** The invariant *)

Section Inv.
Context (poolSize maxUses : Z) (nthreads : nat) (Hpool : 0 < poolSize) (Huses : 0 < maxUses <= int64_max).

(** What holds of the sessions [ss] the pool and the fetches own, [idle] ones
    and those [out] with a fetch, with [c] more being created. *)
Record pool_ok (p : BPool) (out : list nat) (c : nat) : Prop := mkPoolOk {
  po_open : open p = Z.of_nat (length (idle p) + length out + c);
  po_nodup : NoDup (idle p ++ out);
  po_store : forall s, s ∈ (idle p ++ out)%list -> exists x, sessions p !! s = Some x /\ 0 <= uses x < maxUses;
  po_fresh : forall s, is_Some (sessions p !! s) -> (s < nextId p)%nat;
  po_current : forall s, s ∈ idle p -> browser p = Some (sbrowser (session p s));
  po_open_gauge : total openDelta (bevents p) = Z.of_nat (length (idle p) + length out);
  po_use_gauge : total useDelta (bevents p) = Z.of_nat (length out) }.

Record sys_ok (y : Sys) : Prop := mkSysOk {
  so_pool : pool_ok (bpool y) (inUse (threads y)) (creating (threads y));
  so_cap : open (bpool y) <= poolSize;
  so_slots : Z.of_nat (slotsTaken y) <= poolSize;
  so_closed : closed (bpool y) = true <-> closing y <> COpen;
  so_drained : closing y = CDraining -> idle (bpool y) = [];
  so_threads : length (threads y) = nthreads }.

Lemma pool_ok_perm p out out' c : out ≡ₚ out' -> pool_ok p out c -> pool_ok p out' c.
Proof.
  intros Hp [O N S F C G U]. pose proof (Permutation_length Hp) as Hl.
  split; try done; try lia.
  - by rewrite <- Hp.
  - intros s. rewrite <- Hp. apply S.
Qed.

(** A launch, failed or not, keeps the pool well-formed, and after it no idle
    session is left. *)
Lemma launchLocked_ok now launch p out c : pool_ok p out c ->
  let '(p', r) := launchLocked now launch p in
  pool_ok p' out c /\ open p' <= open p /\ closed p' = closed p /\
  idle p' = [] /\ (forall b, r = inr b -> browser p' = Some b /\ b ∈ connected p').
Proof.
  intros [O N S F C G U]. unfold launchLocked.
  assert (Hsame : pool_ok p out c) by done.
  set (p1 := match browser p with Some b => dropDead b p | None => p end).
  assert (Hp1 : idle p1 = [] /\ pool_ok p1 out c /\ open p1 <= open p /\ closed p1 = closed p /\ connected p1 = connected p).
  { unfold p1. destruct (browser p) as [b|] eqn:Hb.
    2: { assert (Hnil : idle p = []) by (destruct (idle p) as [|s l]; [done|by specialize (C s ltac:(by left))]).
         by split_and!. }
    unfold dropDead. cbv zeta. set (f := ofBrowser b p).
    assert (Hall : forall s, s ∈ idle p -> f s = true).
    { intros s Hs. unfold f, ofBrowser. specialize (C s Hs). injection C as ->. by apply bool_decide_eq_true. }
    assert (Hgone : List.filter f (idle p) = idle p /\ List.filter (fun s => negb (f s)) (idle p) = []).
    { clear -Hall. induction (idle p) as [|s l IH]; [done|]. cbn [List.filter].
      rewrite (Hall s) by (by left). cbn [negb]. destruct IH as [-> ->]; [|done]. intros s' Hs'. apply Hall. by right. }
    destruct Hgone as [-> ->]. split; [done|].
    destruct (total_close (idle p)) as [T1 T2].
    split_and!; try done; [|cbn; lia].
    split; cbn [closeSessions bemit set_open set_idle idle open browser sessions nextId bevents app length];
      rewrite ?total_app, ?T1, ?T2; try done; try lia.
    - apply NoDup_app in N. tauto.
    - intros s Hs. apply S, elem_of_app. by right.
    - by intros s ?%not_elem_of_nil. }
  clearbody p1. destruct Hp1 as (Hi1 & [O1 N1 S1 F1 C1 G1 U1] & Hle & Hc1 & Hcon). rewrite Hi1 in *.
  destruct launch as [e|].
  - split_and!; cbn [bemit open closed idle]; rewrite ?Hi1; try done.
    split; cbn [bemit browser idle open sessions nextId bevents]; rewrite ?Hi1, ?total_app, ?total_one; try done;
      cbn [openDelta useDelta length] in *; lia.
  - split_and!; cbn [bemit open closed idle browser connected]; rewrite ?Hi1; try done.
    + split; cbn [bemit browser idle open sessions nextId bevents]; rewrite ?Hi1, ?total_app, ?total_one; try done;
        try (cbn [openDelta useDelta length] in *; lia).
      * intros s Hs. specialize (F1 s Hs). lia.
      * by intros s ?%not_elem_of_nil.
    + intros b [= <-]. set_solver.
Qed.

(** Dropping idle sessions: those that stay are [kept]. *)
Lemma pool_ok_close p out c kept gone : pool_ok p out c -> idle p ≡ₚ kept ++ gone ->
  pool_ok (closeSessions gone (set_open (open p - Z.of_nat (length gone)) (set_idle kept p))) out c.
Proof.
  intros [O N S F C G U] Hp. pose proof (Permutation_length Hp) as Hl. rewrite length_app in Hl.
  destruct (total_close gone) as [T1 T2]. rewrite Hp in N.
  split; cbn [closeSessions bemit set_open set_idle idle open browser sessions nextId bevents];
    rewrite ?total_app, ?T1, ?T2; try done; try lia.
  - rewrite <- app_assoc in N. rewrite Permutation_app_comm in N. rewrite <- app_assoc in N.
    apply NoDup_app in N as (_ & _ & N). by rewrite Permutation_app_comm.
  - intros s Hs. apply S. rewrite Hp. set_solver.
  - intros s Hs. apply C. rewrite Hp. set_solver.
Qed.

(** Handing an idle session to a fetch. *)
Lemma pool_ok_take p out c s rest : pool_ok p out c -> idle p ≡ₚ s :: rest ->
  pool_ok (bemit [EvSessionsInUse 1] (set_idle rest p)) (s :: out) c.
Proof.
  intros [O N S F C G U] Hp. pose proof (Permutation_length Hp) as Hl. cbn [length] in Hl. rewrite Hp in N.
  split; cbn [bemit set_idle idle open browser sessions nextId bevents length];
    rewrite ?total_app, ?total_one; cbn [openDelta useDelta]; try done; try lia.
  - by rewrite <- Permutation_middle.
  - intros s' Hs. apply S. rewrite Hp. set_solver.
  - intros s' Hs. apply C. rewrite Hp. set_solver.
Qed.

Lemma pool_ok_creating p out c : pool_ok p out c -> pool_ok (set_open (open p + 1) p) out (S c).
Proof. intros [O N S F C G U]. split; cbn [set_open idle open]; try done. lia. Qed.

(** What [browserCheck] answers without a launch. *)
Lemma liveBrowser_spec p b : liveBrowser p = Some b -> browser p = Some b /\ b ∈ connected p.
Proof.
  unfold liveBrowser, IsConnected. destruct (browser p) as [b'|]; [|done]. case_bool_decide; [|done]. by intros [= <-].
Qed.

Lemma browserCheck_spec now p :
  match browserCheck now p with
  | BUse b => browser p = Some b /\ b ∈ connected p
  | BErr _ => liveBrowser p = None
  | BLaunch => liveBrowser p = None /\ closed p = false /\ nextLaunch p <= now
  end.
Proof.
  unfold browserCheck. destruct (liveBrowser p) as [b|] eqn:Hl; [by apply liveBrowser_spec|].
  destruct (closed p); [done|]. unfold Before. by destruct (Z.ltb_spec now (nextLaunch p)).
Qed.

Lemma acquireLocked_ok key rb p1 out c :
  pool_ok p1 out c -> open p1 <= poolSize -> Z.of_nat (length out + c) < poolSize ->
  (forall b, rb = inr b -> browser p1 = Some b /\ b ∈ connected p1) ->
  let '(p', r) := acquireLocked poolSize key rb p1 in
  open p' <= poolSize /\ closed p' = closed p1 /\ (idle p1 = [] -> idle p' = []) /\
  match r with
  | AcqErr _ => pool_ok p' out c
  | AcqReuse s => pool_ok (bemit [EvSessionsInUse 1] p') (s :: out) c /\
      exists b, browser p' = Some b /\ b ∈ connected p' /\ reusable p' key b s
  | AcqCreate b => pool_ok p' out (S c) /\ browser p' = Some b /\ b ∈ connected p'
  end.
Proof.
  intros Hok1 Hle Hroom Hb. unfold acquireLocked. destruct rb as [e|b]; [by split_and!|].
  destruct (Hb b eq_refl) as [Hbr Hcon]. clear Hb.
  pose proof (scanIdle_spec p1 key b (idle p1)) as Hscan.
  destruct (scanIdle p1 key b (idle p1) None) as [[kept stale] r]. destruct Hscan as [Hperm Hr].
  assert (Hkept : idle p1 = [] -> kept = []).
  { intros Hnil. rewrite Hnil in Hperm. by apply Permutation_nil, app_eq_nil in Hperm as [? _]. }
  destruct r as [s|].
  - cbn [option_list] in Hperm.
    assert (Hgone : idle p1 ≡ₚ (kept ++ [s]) ++ stale).
    { rewrite Hperm, <- app_assoc. apply Permutation_app_head, Permutation_app_comm. }
    pose proof (pool_ok_close p1 out c (kept ++ [s])%list stale Hok1 Hgone) as Hk.
    pose proof (pool_ok_take _ out c s kept Hk) as Ht. cbn [closeSessions bemit set_open set_idle idle] in Ht.
    specialize (Ht (Permutation_app_comm kept [s])).
    split; [cbn [closeSessions bemit set_open set_idle open]; lia|]. split; [done|]. split; [exact Hkept|].
    split; [exact Ht|]. exists b. split; [exact Hbr|]. split; [exact Hcon|exact Hr].
  - cbn [option_list] in Hperm. rewrite app_nil_r in Hperm.
    pose proof (pool_ok_close p1 out c kept stale Hok1 Hperm) as Hk.
    pose proof (po_open _ _ _ Hk) as Ho. cbn [closeSessions bemit set_open set_idle open idle] in Ho.
    cbn [set_open set_idle open].
    destruct (Z.leb_spec poolSize (open p1 - Z.of_nat (length stale))) as [Hfull|Hspace].
    + destruct kept as [|e rest]; [cbn [length] in Ho; lia|].
      pose proof (pool_ok_close _ out c rest [e] Hk) as He. cbn [closeSessions bemit set_open set_idle idle] in He.
      specialize (He (Permutation_cons_append rest e)). apply pool_ok_creating in He.
      split_and!; cbn [closeSessions bemit set_open set_idle open closed browser connected idle]; try done;
        [lia|by intros ?%Hkept|].
      revert He. cbn [closeSessions bemit set_open set_idle open map app length]. by rewrite Z.sub_add.
    + apply pool_ok_creating in Hk.
      split_and!; cbn [closeSessions bemit set_open set_idle open closed browser connected idle]; try done. lia.
Qed.

Lemma sessionCreated_ok key b p out c : pool_ok p out (S c) ->
  let '(p', s) := sessionCreated key b p in pool_ok (bemit [EvSessionsInUse 1] p') (s :: out) c /\
    open p' = open p /\ closed p' = closed p /\ idle p' = idle p.
Proof.
  intros [O N S F C G U]. unfold sessionCreated. split_and!; try done.
  assert (Hnew : nextId p ∉ (idle p ++ out)%list).
  { intros Hin. destruct (S _ Hin) as (x & Hx & _). specialize (F (nextId p) ltac:(by eexists)). lia. }
  split; cbn [bemit idle open browser sessions nextId bevents length]; rewrite ?total_app, ?total_one;
    cbn [openDelta useDelta]; try done; try lia.
  - rewrite <- Permutation_middle. by constructor.
  - intros s Hs. destruct (decide (s = nextId p)) as [->|Hne].
    + rewrite lookup_insert_eq. eexists. split; [done|]. cbn. lia.
    + rewrite lookup_insert_ne by done. apply S. set_solver.
  - intros s Hs. destruct (decide (s = nextId p)) as [->|Hne]; [lia|].
    rewrite lookup_insert_ne in Hs by done. specialize (F s Hs). lia.
  - intros s Hs. unfold session. cbn [bemit sessions]. rewrite lookup_insert_ne; [by apply C|]. intros <-. apply Hnew. set_solver.
Qed.

(** A change of one session that keeps its browser and its count in range. *)
Lemma pool_ok_alter f s p out c : pool_ok p out c -> (forall x, sbrowser (f x) = sbrowser x) ->
  (forall x, 0 <= uses x < maxUses -> s ∈ (idle p ++ out)%list -> sessions p !! s = Some x -> 0 <= uses (f x) < maxUses) ->
  pool_ok (set_sessions (alter f s (sessions p)) p) out c.
Proof.
  intros [O N S F C G U] Hf Hu. split; cbn [set_sessions idle open browser sessions nextId bevents]; try done.
  - intros s' Hs. destruct (S s' Hs) as (x & Hx & Hr). rewrite lookup_alter.
    case_decide; subst; rewrite Hx; eexists; (split; [done|]); [by apply Hu|done].
  - intros s' Hs. apply F. rewrite lookup_alter in Hs. case_decide; [|done]. subst. by destruct (sessions p !! s').
  - intros s' Hs. rewrite (C s' Hs). unfold session. cbn [set_sessions sessions]. rewrite lookup_alter.
    case_decide; [|done]. subst. destruct (sessions p !! s') as [x|] eqn:Hx; [|done]. cbn [fmap option_fmap option_map default]. unfold id. by rewrite Hf.
Qed.

Lemma session_alter f s s' p : session (set_sessions (alter f s (sessions p)) p) s' =
  if decide (s' = s) then match sessions p !! s with Some x => f x | None => session p s end else session p s'.
Proof.
  unfold session. cbn [set_sessions sessions]. rewrite lookup_alter. destruct (decide (s' = s)) as [->|Hne].
  - rewrite decide_True by done. by destruct (sessions p !! s).
  - by rewrite decide_False by done.
Qed.

Lemma releaseLocked_ok s healthy p out c : pool_ok p (s :: out) c ->
  let p' := releaseLocked maxUses s healthy p in
  pool_ok p' out c /\ open p' <= open p /\ closed p' = closed p /\ (closed p = true -> idle p' = idle p).
Proof.
  intros [O N S F C G U]. unfold releaseLocked.
  set (p1 := bemit [EvSessionsInUse (-1)] (set_sessions (alter bumpUses s (sessions p)) p)).
  destruct (S s ltac:(set_solver)) as (x & Hx & Hr).
  rewrite <- Permutation_middle, NoDup_cons in N. destruct N as [Hnin N].
  assert (Hses : forall s', session p1 s' = if decide (s' = s) then bumpUses x else session p s').
  { intros s'. pose proof (session_alter bumpUses s s' p) as Ha. rewrite Hx in Ha. exact Ha. }
  assert (Hstore : forall s', s' ∈ (idle p ++ out)%list -> exists y, sessions p1 !! s' = Some y /\ 0 <= uses y < maxUses).
  { intros s' Hs'. destruct (S s' ltac:(set_solver)) as (y & Hy & Hry). exists y. split; [|done].
    cbn [p1 bemit set_sessions sessions]. rewrite lookup_alter_ne; [done|]. intros <-. by apply Hnin. }
  assert (Hfresh : forall s', is_Some (sessions p1 !! s') -> (s' < nextId p)%nat).
  { intros s' Hs'. apply F. cbn [p1 bemit set_sessions sessions] in Hs'. rewrite lookup_alter in Hs'.
    case_decide; [|done]. subst. by destruct (sessions p !! s'). }
  assert (Hcur : forall s', s' ∈ idle p -> browser p = Some (sbrowser (session p1 s'))).
  { intros s' Hs'. rewrite Hses, decide_False; [by apply C|]. intros ->. apply Hnin, elem_of_app. by left. }
  rewrite !Hses, decide_True by done. cbn [length] in *.
  destruct (_ && IsConnected _ _) eqn:Hkeep.
  - apply andb_true_iff in Hkeep as [Hkeep _]. apply andb_true_iff in Hkeep as [Hkeep Hbr%bool_decide_eq_true].
    apply andb_true_iff in Hkeep as [Hkeep Hlt%Z.ltb_lt]. apply andb_true_iff in Hkeep as [Hkeep _].
    apply andb_true_iff in Hkeep as [_ Hcl%negb_true_iff]. change (closed p1) with (closed p) in Hcl.
    split_and!; cbn [set_idle open closed idle]; [|done|done|congruence].
    split; cbn [p1 set_idle bemit set_sessions idle open browser sessions nextId bevents];
      rewrite ?length_app, ?total_app, ?total_one; cbn [length openDelta useDelta]; try lia.
    + rewrite <- app_assoc. cbn [app]. rewrite <- Permutation_middle. by constructor.
    + intros s' Hs'. destruct (decide (s' = s)) as [->|Hne]; [|apply Hstore; set_solver].
      exists (bumpUses x). rewrite lookup_alter_eq, Hx. split; [done|]. split; [|exact Hlt].
      cbn [bumpUses uses]. rewrite wrap64_id by (unfold in_int64, int64_min, int64_max in *; lia). lia.
    + exact Hfresh.
    + intros s' [Hs'|Hs'%list_elem_of_singleton]%elem_of_app; [by apply Hcur|subst s'].
      change (browser p = Some (sbrowser (session p1 s))). rewrite Hses, decide_True by done. exact Hbr.
  - split_and!; cbn [closeSessions bemit set_open open closed idle]; [|cbn; lia|done|done].
    destruct (total_close [s]) as [T1 T2]. cbn [length] in *.
    split; cbn [p1 closeSessions set_open bemit set_sessions idle open browser sessions nextId bevents];
      rewrite ?total_app, ?T1, ?T2, ?total_one; cbn [openDelta useDelta]; try done; try lia.
Qed.

(** *** Every step *)

Lemma inUse_middle a t b : inUse (a ++ t :: b) ≡ₚ (option_list (busySession t) ++ inUse (a ++ b))%list.
Proof. apply omap_middle. Qed.

Lemma creating_middle a t b : creating (a ++ t :: b) = (creating (a ++ b) + if isCreating t then 1 else 0)%nat.
Proof. apply countb_middle. Qed.

Lemma sys_ok_init : sys_ok (binitial nthreads).
Proof.
  assert (Hin : inUse (replicate nthreads TOut) = []) by (unfold inUse; clear; by induction nthreads as [|n IH]).
  assert (Hcr : creating (replicate nthreads TOut) = 0%nat) by (unfold creating, countb; clear; by induction nthreads as [|n IH]).
  assert (Hsl : countb holdsSlot (replicate nthreads TOut) = 0%nat) by (unfold countb; clear; by induction nthreads as [|n IH]).
  split; cbn [binitial bpool threads closing drained open closed]; try done; try lia.
  - rewrite Hin, Hcr. split; cbn [open idle browser sessions nextId bevents app length]; try done;
      [apply NoDup_nil_2|by intros s ?%not_elem_of_nil|intros s [y Hy]; by rewrite lookup_empty in Hy].
  - unfold slotsTaken. cbn [binitial threads drained]. unfold countb in Hsl. rewrite Hsl. lia.
  - by rewrite length_replicate.
Qed.

(** A fetch moves to another phase: what has to be shown. *)
Lemma thread_step y i t t' p : sys_ok y -> threads y !! i = Some t -> (holdsSlot t' = true -> holdsSlot t = true \/ Z.of_nat (slotsTaken y) < poolSize) ->
  closed p = closed (bpool y) -> open p <= poolSize -> (closed p = true -> idle (bpool y) = [] -> idle p = []) ->
  (forall a b, pool_ok (bpool y) (option_list (busySession t) ++ inUse (a ++ b)) (creating (a ++ b) + if isCreating t then 1 else 0) ->
     Z.of_nat (length (inUse (a ++ b)) + creating (a ++ b) + if holdsSlot t then 1 else 0) <= poolSize ->
     pool_ok p (option_list (busySession t') ++ inUse (a ++ b)) (creating (a ++ b) + if isCreating t' then 1 else 0)) ->
  sys_ok (mkSys p (<[i := t']> (threads y)) (closing y) (drained y)).
Proof.
  intros [P Cap Sl Cl Dr Th] Hi Hslot Hc Ho Hidle Hgo. destruct (list_split_at _ _ _ Hi) as (a & b & Hw & Hins).
  unfold slotsTaken in Sl, Hslot. rewrite Hw in P, Sl, Hslot, Th. fold (countb holdsSlot (a ++ t :: b)) in Sl, Hslot.
  rewrite countb_middle in Sl, Hslot. rewrite creating_middle in P. apply (pool_ok_perm _ _ _ _ (inUse_middle a t b)) in P.
  pose proof (slots_cover (a ++ b)) as Hcov.
  split; cbn [bpool threads closing drained]; rewrite ?Hins, ?Hc; try done.
  - rewrite creating_middle. eapply pool_ok_perm; [symmetry; apply inUse_middle|]. apply Hgo; [done|lia].
  - unfold slotsTaken. cbn [threads drained]. fold (countb holdsSlot (a ++ t' :: b)). rewrite countb_middle.
    destruct (holdsSlot t'); [destruct (Hslot eq_refl) as [Ht|Ht]; [rewrite Ht in Sl|]|]; lia.
  - intros Hd. apply Hidle; [rewrite Hc; apply Cl; congruence|by apply Dr].
  - by rewrite length_app in *.
Qed.

(** The same for a step that does not touch the pool. *)
Lemma phase_step y i t t' : sys_ok y -> threads y !! i = Some t ->
  (holdsSlot t' = true -> holdsSlot t = true \/ Z.of_nat (slotsTaken y) < poolSize) ->
  busySession t' = busySession t -> isCreating t' = isCreating t ->
  sys_ok (mkSys (bpool y) (<[i := t']> (threads y)) (closing y) (drained y)).
Proof.
  intros Hy Hi Hslot Hb Hc. apply (thread_step y i t t'); try done; [apply Hy|]. intros a b. by rewrite Hb, Hc.
Qed.

Lemma pool_step y p : sys_ok y -> (forall out c, pool_ok (bpool y) out c -> pool_ok p out c) -> open p = open (bpool y) ->
  closed p = closed (bpool y) -> idle p = idle (bpool y) -> sys_ok (mkSys p (threads y) (closing y) (drained y)).
Proof.
  intros [P Cap Sl Cl Dr Th] Hok Ho Hc Hi.
  split; cbn [bpool threads closing drained]; rewrite ?Ho, ?Hc, ?Hi; try done. by apply Hok.
Qed.

Lemma pool_ok_emit evs p out c : total openDelta evs = 0 -> total useDelta evs = 0 -> pool_ok p out c -> pool_ok (bemit evs p) out c.
Proof.
  intros T1 T2 [O N S F C G U]. split; cbn [bemit idle open browser sessions nextId bevents]; rewrite ?total_app; try done; lia.
Qed.

Lemma pool_ok_failed p out c : pool_ok p out (S c) -> pool_ok (set_open (open p - 1) p) out c.
Proof. intros [O N S F C G U]. split; cbn [set_open idle open]; try done. lia. Qed.

(** The phases in which a fetch gets its session. *)
Definition acquiring (key : string) (t : tphase) : Prop := t = TChecked key \/ t = TLaunching key.

(** A fetch past the check of [closed] leaves room for its session. *)
Lemma acquire_room y i key t : sys_ok y -> threads y !! i = Some t -> acquiring key t ->
  exists out c, pool_ok (bpool y) out c /\ Z.of_nat (length out + c) < poolSize.
Proof.
  intros [P _ Sl _ _ _] Hi Ht. destruct (list_split_at _ _ _ Hi) as (a & b & Hw & _). unfold slotsTaken in Sl.
  rewrite Hw in P, Sl. fold (countb holdsSlot (a ++ t :: b)) in Sl. rewrite countb_middle in Sl.
  rewrite creating_middle in P. apply (pool_ok_perm _ _ _ _ (inUse_middle a _ b)) in P.
  pose proof (slots_cover (a ++ b)) as Hcov. exists (inUse (a ++ b)), (creating (a ++ b)).
  destruct Ht as [-> | ->]; cbn [busySession option_list app isCreating holdsSlot] in *; rewrite Nat.add_0_r in P; (split; [done|lia]).
Qed.

(** The section of [acquire] after [browserLocked] has left [p1] and answered [rb]. *)
Lemma acquire_step i key t rb p1 y : sys_ok y -> threads y !! i = Some t -> acquiring key t ->
  (forall out c, pool_ok (bpool y) out c -> pool_ok p1 out c) -> open p1 <= open (bpool y) -> closed p1 = closed (bpool y) ->
  (idle (bpool y) = [] -> idle p1 = []) -> (forall b, rb = inr b -> browser p1 = Some b /\ b ∈ connected p1) ->
  sys_ok (afterAcquire i key (acquireLocked poolSize key rb p1) y).
Proof.
  intros Hy Hi Ht Hp1 Hopen Hclosed Hidle1 Hrb. pose proof (so_cap _ Hy) as Hcap.
  assert (Hacq : forall t', holdsSlot t' = true -> forall p, closed p = closed (bpool y) -> open p <= poolSize ->
    (idle (bpool y) = [] -> idle p = []) ->
    (forall out c, pool_ok (bpool y) out c -> Z.of_nat (length out + c) < poolSize ->
      pool_ok p (option_list (busySession t') ++ out) (c + if isCreating t' then 1 else 0)) ->
    sys_ok (mkSys p (<[i := t']> (threads y)) (closing y) (drained y))).
  { intros t' Ht' p Hc Ho Hidle Hgo. apply (thread_step y i t t'); try done; [intros _; left; by destruct Ht as [-> | ->]|].
    intros a b Hab Hroom. destruct Ht as [-> | ->]; cbn [busySession isCreating option_list app holdsSlot] in Hab, Hroom;
      rewrite Nat.add_0_r in Hab; (apply Hgo; [done|lia]). }
  assert (Hlock := fun out c H => acquireLocked_ok key rb p1 out c (Hp1 out c H) ltac:(lia)).
  destruct (acquire_room y i key t Hy Hi Ht) as (out0 & c0 & Hok0 & Hr0). pose proof (Hlock out0 c0 Hok0 Hr0 Hrb) as Hown.
  unfold afterAcquire. destruct (acquireLocked poolSize key rb p1) as [p r]. destruct Hown as (Ho & Hc & Hidle & _).
  rewrite Hclosed in Hc. assert (Hid : idle (bpool y) = [] -> idle p = []) by (intros Hnil; by apply Hidle, Hidle1).
  cbn [fst snd]. destruct r as [e|s|b]; apply Hacq; try done; intros out c Hok Hr;
    specialize (Hlock out c Hok Hr Hrb); destruct Hlock as (_ & _ & _ & Hlock);
    cbn [busySession isCreating option_list app]; rewrite ?Nat.add_0_r, ?Nat.add_1_r; try done; by destruct Hlock.
Qed.

(** The two steps of [acquire] under [mu]. *)
Lemma lock_step e y y' : sys_ok y -> match e with EAcquire _ _ | ELaunched _ _ _ => True | _ => False end ->
  bstep poolSize maxUses e y = Some y' -> sys_ok y'.
Proof.
  intros Hy He Hs. destruct e; try done; cbn [bstep] in Hs; destruct (threads y !! i) as [[]|] eqn:Hi; try done.
  - destruct (muFree y); [|done]. pose proof (browserCheck_spec now (bpool y)) as Hc.
    destruct (browserCheck now (bpool y)) as [b|e|]; injection Hs as <-.
    + apply (acquire_step i key (TChecked key)); try done; [by left|]. by intros b' [= <-].
    + apply (acquire_step i key (TChecked key)); try done. by left.
    + apply (phase_step y i (TChecked key)); try done. by left.
  - destruct (launchLocked now launch (bpool y)) as [p rb] eqn:Hl. injection Hs as <-.
    assert (Hok := fun out c H => launchLocked_ok now launch (bpool y) out c H). rewrite Hl in Hok.
    destruct (Hok _ _ (so_pool _ Hy)) as (_ & Ho & Hc & Hidle & Hb).
    apply (acquire_step i key (TLaunching key)); try done; [by right|]. intros out c H. by apply Hok.
Qed.

(** The fetches' own steps. *)
Lemma fetch_step e y y' : sys_ok y ->
  match e with EGetSlot _ _ | ECheckClosed _ | ENewSession _ _ | ERelease _ _ | EFreeSlot _ => True | _ => False end ->
  bstep poolSize maxUses e y = Some y' -> sys_ok y'.
Proof.
  intros Hy He Hs. destruct e as [i key|i|i now|i now launch|i ok|i healthy|i| | | | | |]; try done; cbn [bstep] in Hs;
    destruct (threads y !! i) as [[]|] eqn:Hi; try done.
  - destruct (Z.ltb_spec (Z.of_nat (slotsTaken y)) poolSize); [|done]. injection Hs as <-.
    apply (phase_step y i TOut (TSlot key)); try done. by right.
  - injection Hs as <-. destruct (closed (bpool y)); apply (phase_step y i (TSlot key)); try done; by left.
  - destruct ok.
    + destruct (sessionCreated key b (bpool y)) as [p s] eqn:Hn. injection Hs as <-.
      pose proof (sessionCreated_ok key b (bpool y)) as Hc. rewrite Hn in Hc.
      injection Hn as Hp _. apply (thread_step y i (TCreating key b) (TBusy s)); rewrite <- ?Hp; try done; [by left|apply Hy|].
      rewrite Hp. intros a b' Hab _. cbn [busySession isCreating option_list app] in *. rewrite Nat.add_0_r.
      apply Hc. by rewrite Nat.add_1_r in Hab.
    + destruct (muFree y); [|done]. injection Hs as <-. apply (thread_step y i (TCreating key b) TDone); try done; [by left|cbn; pose proof (so_cap _ Hy); lia|].
      intros a b' Hab _. cbn [busySession isCreating option_list app] in *. rewrite Nat.add_1_r in Hab. rewrite Nat.add_0_r.
      by apply pool_ok_failed.
  - destruct (muFree y); [|done]. injection Hs as <-. destruct (list_split_at _ _ _ Hi) as (a0 & b0 & Hw & _). pose proof Hy as [P Cap _ _ _ _].
    rewrite Hw in P. rewrite creating_middle in P. apply (pool_ok_perm _ _ _ _ (inUse_middle a0 _ b0)) in P.
    destruct (releaseLocked_ok s healthy _ _ _ P) as (_ & Ho & Hc & Hidle).
    apply (thread_step y i (TBusy s) TDone); try done; [by left|lia|intros Hcl Hnil; rewrite Hidle; [done|congruence]|].
    intros a b Hab _. by apply releaseLocked_ok.
  - injection Hs as <-. by apply (phase_step y i TDone TOut).
Qed.

Lemma bstep_ok e y y' : sys_ok y -> bstep poolSize maxUses e y = Some y' -> sys_ok y'.
Proof.
  intros Hy Hs. destruct e as [i key|i|i now|i now launch|i ok|i healthy|i| | | |b|s|s];
    [eapply fetch_step; [done| |done]; done|eapply fetch_step; [done| |done]; done|
     eapply lock_step; [done| |done]; done|eapply lock_step; [done| |done]; done|eapply fetch_step; [done| |done]; done|eapply fetch_step; [done| |done]; done|eapply fetch_step; [done| |done]; done|..].
  - cbn [bstep] in Hs. destruct Hy as [P Cap Sl Cl Dr Th]. destruct (closing y) eqn:Hcl; try done. injection Hs as <-.
    split; cbn [bpool threads closing drained set_closed open closed]; try done. by destruct P.
  - cbn [bstep] in Hs. destruct Hy as [P Cap Sl Cl Dr Th]. destruct (closing y) eqn:Hcl; try done. destruct (muFree y); [|done]. injection Hs as <-.
    split; cbn [bpool threads closing drained closeIdleLocked closeSessions bemit set_idle set_open open closed idle]; try done; [|lia|].
    + by apply pool_ok_close.
    + rewrite Cl. by split.
  - cbn [bstep] in Hs. destruct Hy as [P Cap Sl Cl Dr Th]. destruct (closing y) eqn:Hcl; try done.
    destruct (Z.ltb_spec (Z.of_nat (slotsTaken y)) poolSize); [|done]. injection Hs as <-.
    split; try done. unfold slotsTaken in *. cbn [threads drained] in *. lia.
  - cbn [bstep] in Hs. destruct (negb (IsConnected b (bpool y))); [done|]. injection Hs as <-. apply pool_step; try done.
    + intros out c Hok. destruct (closed (bpool y)); [by destruct Hok|].
      pose proof (pool_ok_emit [EvDisconnect] _ out c eq_refl eq_refl Hok) as He. by destruct He.
    + cbn. by destruct (closed (bpool y)) eqn:?.
    + cbn. by destruct (closed (bpool y)) eqn:?.
    + cbn. by destruct (closed (bpool y)) eqn:?.
  - injection Hs as <-. apply pool_step; try done. intros out c Hok.
    apply (pool_ok_alter crash s (bemit [EvPageCrash] (bpool y))); try done. by apply pool_ok_emit.
  - injection Hs as <-. apply pool_step; try done. intros out c Hok. by apply pool_ok_alter.
Qed.

Lemma breach_ok y : breach poolSize maxUses nthreads y -> sys_ok y.
Proof. induction 1; [apply sys_ok_init|by eapply bstep_ok]. Qed.

End Inv.

(** * The claims *)

(** C2. However fetches, closing, crashes and disconnections interleave, the
    pool's count of open sessions is the idle ones plus those with a fetch plus
    those being created, and never more than [PoolSize]; no session is idle or
    in use twice; each has served fewer than [MaxSessionUses] fetches; the
    sessions-open and sessions-in-use gauges are exact; and once [Close] has
    taken the idle sessions none becomes idle again. *)
Theorem browser_pool_invariant poolSize maxUses nthreads y :
  0 < poolSize -> 0 < maxUses <= int64_max -> breach poolSize maxUses nthreads y ->
  let p := bpool y in
  open p = Z.of_nat (length (idle p) + length (inUse (threads y)) + creating (threads y)) /\
  open p <= poolSize /\ Z.of_nat (slotsTaken y) <= poolSize /\
  NoDup (idle p ++ inUse (threads y)) /\
  (forall s, s ∈ (idle p ++ inUse (threads y))%list -> exists x, sessions p !! s = Some x /\ 0 <= uses x < maxUses) /\
  total openDelta (bevents p) = Z.of_nat (length (idle p) + length (inUse (threads y))) /\
  total useDelta (bevents p) = Z.of_nat (length (inUse (threads y))) /\
  (closing y = CDraining -> idle p = []).
Proof.
  intros Hp Hu Hr p. pose proof (breach_ok _ _ _ Hp Hu y Hr) as [P Cap Sl Cl Dr Th]. destruct P. by repeat split.
Qed.

(** Runs of events. *)
Fixpoint bruns (poolSize maxUses : Z) (es : list bevent) (y : Sys) : option Sys :=
  match es with [] => Some y | e :: es => match bstep poolSize maxUses e y with Some y => bruns poolSize maxUses es y | None => None end end.

Lemma bruns_reach poolSize maxUses n es y y' : breach poolSize maxUses n y -> bruns poolSize maxUses es y = Some y' ->
  breach poolSize maxUses n y'.
Proof.
  revert y. induction es as [|e es IH]; cbn [bruns]; intros y Hy Hs; [by injection Hs as <-|].
  destruct (bstep poolSize maxUses e y) as [y1|] eqn:He; [|done]. apply (IH y1); [|done]. by econstructor.
Qed.

(** A fetch opens a session and leaves it idle; another reuses it while a
    third opens a second one. *)
Definition toyReq : Request := mkRequest "q" "" "agent" "http://proxy" "us" "en" "Mobile" "".

Definition toyBefore : list bevent :=
  [EGetSlot 0 (sessionKey toyReq); ECheckClosed 0; EAcquire 0 5; ENewSession 0 true; ERelease 0 true; EFreeSlot 0;
   EGetSlot 1 (sessionKey toyReq); ECheckClosed 1; EGetSlot 0 "l"; ECheckClosed 0].
Definition toyAfter : list bevent := [EAcquire 1 6; EAcquire 0 6; ENewSession 0 true].

Definition runFrom (es : list bevent) (y : Sys) : Sys := default y (bruns 2 50 es y).
Definition toyMid : Sys := runFrom toyBefore (binitial 2).
Definition toySys : Sys := runFrom toyAfter toyMid.

Lemma runFrom_reach es y : breach 2 50 2 y -> breach 2 50 2 (runFrom es y).
Proof. unfold runFrom. intros Hy. destruct (bruns 2 50 es y) as [y'|] eqn:He; [by eapply bruns_reach|done]. Qed.

Lemma toyMid_reach : breach 2 50 2 toyMid.
Proof. apply runFrom_reach. constructor. Qed.

Lemma toySys_reach : breach 2 50 2 toySys.
Proof. apply runFrom_reach, toyMid_reach. Qed.

Lemma toy_uses : 0 < 50 <= int64_max.
Proof. unfold int64_max. lia. Qed.

Lemma browser_pool_invariant_witness : open (bpool toySys) = 2 /\ open (bpool toySys) <= 2.
Proof.
  split; [vm_compute; reflexivity|].
  exact (proj1 (proj2 (browser_pool_invariant 2 50 2 toySys eq_refl toy_uses toySys_reach))).
Defined.

(** ** Reuse *)

Definition nulFree (s : string) : bool := allb (fun a => negb (Ascii.eqb a (chr 0))) s.

Lemma nul_split a b x y : nulFree a = true -> nulFree b = true -> a ++ NUL ++ x = b ++ NUL ++ y -> a = b /\ x = y.
Proof.
  unfold nulFree. revert b. induction a as [|c a IH]; intros [|d b] Ha Hb; cbn [String.append allb] in *.
  - intros [= ->]. done.
  - intros [= <- _]. done.
  - intros [= -> _]. done.
  - intros [= -> H]. apply andb_true_iff in Ha as [_ Ha]. apply andb_true_iff in Hb as [_ Hb].
    by destruct (IH b Ha Hb H) as [-> ->].
Qed.

(** The fields of a request that a session fixes. *)
Definition sessionProfile (req : Request) : string * string * string * string :=
  (ProxyURL req, UserAgent req, localeTag (Language req) (Country req), dname (deviceProfileFor (Device req))).

Lemma sessionKey_inj r1 r2 :
  nulFree (ProxyURL r1) = true -> nulFree (UserAgent r1) = true -> nulFree (localeTag (Language r1) (Country r1)) = true ->
  nulFree (ProxyURL r2) = true -> nulFree (UserAgent r2) = true -> nulFree (localeTag (Language r2) (Country r2)) = true ->
  sessionKey r1 = sessionKey r2 -> sessionProfile r1 = sessionProfile r2.
Proof.
  unfold sessionKey, sessionProfile, Join. cbn [String.concat]. intros P1 U1 L1 P2 U2 L2 H.
  apply nul_split in H as [-> H]; [|done..]. apply nul_split in H as [-> H]; [|done..].
  apply nul_split in H as [-> ->]; done.
Qed.

(** The key of a session determines the context it was opened with. *)
Lemma profile_context `{NetURL} userinfo r1 r2 : sessionProfile r1 = sessionProfile r2 ->
  contextOptions userinfo r1 = contextOptions userinfo r2.
Proof.
  unfold sessionProfile, contextOptions. intros [= -> -> -> Hd].
  assert (deviceProfileFor (Device r1) = deviceProfileFor (Device r2)) as ->; [|done].
  revert Hd. unfold deviceProfileFor. repeat case_decide; done.
Qed.

Lemma acquireLocked_reuse poolSize key rb p p' s : acquireLocked poolSize key rb p = (p', AcqReuse s) -> s ∈ idle p.
Proof.
  unfold acquireLocked. destruct rb as [e|b]; [done|].
  pose proof (scanIdle_spec p key b (idle p)) as Hs. destruct (scanIdle p key b (idle p) None) as [[kept stale] [r|]].
  - intros [= _ <-]. destruct Hs as [Hs _]. rewrite Hs. set_solver.
  - destruct (_ <=? _); [destruct kept|]; done.
Qed.

(** A step changes the phase of its own fetch only. *)
Definition fetchOf (e : bevent) : option nat :=
  match e with
  | EGetSlot i _ | ECheckClosed i | EAcquire i _ | ELaunched i _ _ | ENewSession i _ | ERelease i _ | EFreeSlot i => Some i
  | _ => None
  end.

Lemma afterAcquire_threads i key pr y : exists t', threads (afterAcquire i key pr y) = <[i := t']> (threads y).
Proof. unfold afterAcquire. destruct pr.2; by eexists. Qed.

Lemma bstep_own poolSize maxUses e y y' : bstep poolSize maxUses e y = Some y' ->
  match fetchOf e with
  | Some i => exists t t', threads y !! i = Some t /\ threads y' = <[i := t']> (threads y)
  | None => threads y' = threads y
  end.
Proof.
  destruct e as [i key|i|i now|i now launch|i ok|i healthy|i| | | |b|s|s]; cbn [bstep fetchOf]; intros Hs;
    try (destruct (threads y !! i) as [[]|] eqn:Hi; try done);
    repeat match type of Hs with
           | (if ?b then _ else _) = _ => destruct b; try done
           | match closing y with _ => _ end = _ => destruct (closing y); try done
           | match browserCheck _ _ with _ => _ end = _ => destruct (browserCheck _ _)
           | (let '(_, _) := ?x in _) = _ => destruct x
           end; injection Hs as <-; try done; try (by eexists _, _).
  all: match goal with |- context [afterAcquire ?i ?k ?pr ?y] => destruct (afterAcquire_threads i k pr y) as [t' Ht'] end; by eexists _, _.
Qed.

(** A fetch only gets an idle session from a browser that needed no launch. *)
Lemma reuse_step poolSize maxUses e y y' i key t s :
  (forall now launch, idle (launchLocked now launch (bpool y)).1 = []) -> acquiring key t -> threads y !! i = Some t ->
  bstep poolSize maxUses e y = Some y' -> threads y' !! i = Some (TBusy s) ->
  exists b, liveBrowser (bpool y) = Some b /\ (acquireLocked poolSize key (inr b) (bpool y)).2 = AcqReuse s /\
    y' = afterAcquire i key (acquireLocked poolSize key (inr b) (bpool y)) y.
Proof.
  intros Hl Ht Hi Hs Hi'. pose proof (bstep_own _ _ _ _ _ Hs) as Hown.
  assert (Hlt : (i < length (threads y))%nat) by (by eapply lookup_lt_Some).
  destruct (fetchOf e) as [j|] eqn:Hj; [|rewrite Hown in Hi'; rewrite Hi in Hi'; injection Hi' as ->; by destruct Ht].
  destruct Hown as (t1 & t2 & _ & Hth). destruct (decide (j = i)) as [->|Hne].
  2: { rewrite Hth, list_lookup_insert_ne in Hi' by done. rewrite Hi in Hi'. injection Hi' as ->. by destruct Ht. }
  clear Hth t1 t2.
  assert (Hafter : forall pr, y' = afterAcquire i key pr y -> pr.2 = AcqReuse s).
  { intros pr ->. unfold afterAcquire in Hi'. destruct pr.2 as [e1|s1|b1]; cbn [threads] in Hi'; rewrite list_lookup_insert_eq in Hi' by done;
      try done. by injection Hi' as ->. }
  destruct e; try done; cbn [fetchOf] in Hj; injection Hj as ->; cbn [bstep] in Hs; rewrite Hi in Hs; destruct Ht as [-> | ->]; try done.
  - destruct (muFree y); [|done]. unfold browserCheck in Hs. destruct (liveBrowser (bpool y)) as [b|].
    + injection Hs as <-. exists b. split; [done|]. split; [by apply Hafter|done].
    + destruct (closed (bpool y)); [|destruct (Before _ _)]; injection Hs as <-; [by pose proof (Hafter _ eq_refl)|by pose proof (Hafter _ eq_refl)|].
      cbn [threads] in Hi'. by rewrite list_lookup_insert_eq in Hi' by done.
  - specialize (Hl now launch). destruct (launchLocked now launch (bpool y)) as [p rb]. cbn [fst] in Hl. injection Hs as <-.
    pose proof (Hafter _ eq_refl) as Hr. destruct (acquireLocked poolSize key rb p) as [p' r] eqn:Ha. cbn [snd] in Hr. subst r.
    apply acquireLocked_reuse in Ha. rewrite Hl in Ha. by apply not_elem_of_nil in Ha.
Qed.

(** C18. A fetch is only given a session that was idle, that no other fetch
    has, whose page has neither crashed nor been closed, which belongs to the
    current and connected browser, has served fewer than [MaxSessionUses]
    fetches and was made for the same key; and, NUL bytes aside, a request with
    that key would open its context with the same options: device profile,
    User-Agent, locale and proxy. *)
Theorem session_reuse_sound `{NetURL} userinfo poolSize maxUses nthreads y y' e i t req s :
  0 < poolSize -> 0 < maxUses <= int64_max -> breach poolSize maxUses nthreads y ->
  acquiring (sessionKey req) t -> threads y !! i = Some t ->
  bstep poolSize maxUses e y = Some y' -> threads y' !! i = Some (TBusy s) ->
  s ∈ idle (bpool y) /\ s ∉ inUse (threads y) /\ s ∉ idle (bpool y') /\
  exists x, sessions (bpool y') !! s = Some x /\ crashed x = false /\ pageClosed x = false /\ 0 <= uses x < maxUses /\
    browser (bpool y') = Some (sbrowser x) /\ sbrowser x ∈ connected (bpool y') /\ skey x = sessionKey req /\
    forall req', skey x = sessionKey req' ->
      Forall (fun r => nulFree (ProxyURL r) && nulFree (UserAgent r) && nulFree (localeTag (Language r) (Country r)) = true) [req; req'] ->
      contextOptions userinfo req = contextOptions userinfo req'.
Proof.
  intros Hp Hu Hr Hacq Hi Hs Hi'. pose proof (breach_ok _ _ _ Hp Hu y Hr) as Hy.
  pose proof (breach_ok _ _ _ Hp Hu y' (breach_step _ _ _ _ _ _ Hr Hs)) as Hy'.
  destruct (acquire_room _ _ _ _ _ _ _ Hy Hi Hacq) as (out & c & Hok & Hroom).
  assert (Hidle : forall now launch, idle (launchLocked now launch (bpool y)).1 = []).
  { intros now launch. pose proof (launchLocked_ok _ _ Hp Hu now launch _ _ _ Hok) as Hl.
    destruct (launchLocked now launch (bpool y)). apply Hl. }
  destruct (reuse_step _ _ _ _ _ _ _ _ _ Hidle Hacq Hi Hs Hi') as (b & Hlive & Ha & Hy1). apply liveBrowser_spec in Hlive.
  pose proof (acquireLocked_ok _ _ Hp Hu (sessionKey req) (inr b) _ _ _ Hok (so_cap _ _ _ _ Hy) Hroom
                ltac:(by intros b' [= <-])) as Hl.
  assert (Hlt : (i < length (threads y))%nat) by (by eapply lookup_lt_Some).
  destruct (acquireLocked poolSize (sessionKey req) (inr b) (bpool y)) as [p r] eqn:Hacl. cbn [snd] in Ha. subst r.
  unfold afterAcquire in Hy1. cbn [fst snd] in Hy1. subst y'.
  destruct Hl as (_ & _ & _ & _ & b' & Hb & Hcon & Hd & Hk & Hsb).
  pose proof (acquireLocked_reuse _ _ _ _ _ _ Hacl) as Hin.
  destruct (so_pool _ _ _ _ Hy) as [_ N _ _ _ _ _]. destruct (so_pool _ _ _ _ Hy') as [_ N' S' _ _ _ _].
  apply NoDup_app in N as (_ & N & _). apply NoDup_app in N' as (_ & N' & _).
  assert (Hbusy : s ∈ inUse (<[i:=TBusy s]> (threads y))).
  { apply list_elem_of_omap. exists (TBusy s). split; [|done]. apply list_elem_of_lookup. exists i. by apply list_lookup_insert_eq. }
  split; [done|]. split; [by apply N|]. split; [intros Hidle'; by apply (N' s)|].
  destruct (S' s) as (x & Hx & Hr'); [apply elem_of_app; by right|]. cbn [bpool bemit sessions] in Hx.
  exists x. unfold session in *. rewrite Hx in Hd, Hk, Hsb. cbn [default] in *. unfold id in *. unfold dead in Hd.
  apply orb_false_iff in Hd as [Hc Hpc]. split; [done|]. split; [done|]. split; [done|]. split; [done|].
  split; [cbn; by rewrite Hsb|]. split; [cbn; by rewrite Hsb|]. split; [done|]. intros req' Hk' Hnul.
  rewrite Hk in Hk'. rewrite !Forall_cons in Hnul. destruct Hnul as (H1 & H2 & _).
  rewrite !andb_true_iff in H1, H2. destruct H1 as [[? ?] ?], H2 as [[? ?] ?]. by apply profile_context, sessionKey_inj.
Qed.

Lemma session_reuse_sound_witness : sessionKey toyReq <> "" /\ 1%nat ∈ idle (bpool toyMid).
Proof.
  split; [by vm_compute|].
  assert (Hs : bstep 2 50 (EAcquire 1 6) toyMid = Some (runFrom [EAcquire 1 6] toyMid)) by (vm_compute; reflexivity).
  exact (proj1 (session_reuse_sound (H := toyURL) (fun _ => None) 2 50 2 toyMid _ _ 1 _ toyReq 1 eq_refl toy_uses toyMid_reach
           (or_introl eq_refl) ltac:(vm_compute; reflexivity) Hs ltac:(vm_compute; reflexivity))).
Defined.

(** ** Launching *)

Lemma launchBackoff_spec n : 1 <= n -> launchBackoff n = (if n - 1 <? 5 then 2 ^ (n - 1) else 30) * Second.
Proof.
  intros Hn. unfold launchBackoff, maxLaunchBackoff.
  destruct (Z.ltb_spec (n - 1) 5); [|by rewrite Z.min_r by lia].
  assert (Hk : n = 1 \/ n = 2 \/ n = 3 \/ n = 4 \/ n = 5) by lia.
  by destruct Hk as [->|[->|[->|[->| ->]]]].
Qed.

(** After a failed launch no other is tried before the backoff has passed,
    whatever a launch would answer: 1s, 2s, 4s, 8s, 16s, then 30s for every
    further failure.  A success resets the series, and a closed fetcher never
    launches. *)
Theorem launch_backoff_exact now launch p :
  let '(p', r) := browserLocked now launch p in
  match r with
  | inr b => browser p' = Some b /\ b ∈ connected p' /\
             (liveBrowser p = Some b \/ closed p = false /\ nextLaunch p <= now /\ launchFailures p' = 0 /\ nextLaunch p' = zeroTime)
  | inl _ =>
      liveBrowser p = None /\
      ((p' = p /\ (closed p = true \/ now < nextLaunch p)) \/
       (exists e, launch = Some e /\ closed p = false /\ nextLaunch p <= now /\
          (0 <= launchFailures p < int64_max ->
           launchFailures p' = launchFailures p + 1 /\
           nextLaunch p' = now + (if launchFailures p <? 5 then 2 ^ launchFailures p else 30) * Second /\
           forall now' launch', now' < nextLaunch p' -> fst (browserLocked now' launch' p') = p')))
  end.
Proof.
  destruct (browserLocked now launch p) as [p' r] eqn:Hr. unfold browserLocked, browserCheck, launchLocked in Hr.
  destruct (liveBrowser p) as [b|] eqn:Hl.
  { injection Hr as <- <-. pose proof Hl as Hl'. unfold liveBrowser, IsConnected in Hl'. destruct (browser p) as [b'|]; [|done].
    case_bool_decide; [|done]. injection Hl' as ->. auto. }
  destruct (closed p) eqn:Hc; [injection Hr as <- <-; auto|]. unfold Before in Hr.
  destruct (Z.ltb_spec now (nextLaunch p)); [injection Hr as <- <-; auto|].
  set (p1 := match browser p with Some b => dropDead b p | None => p end) in Hr.
  assert (Hp1 : browser p1 = browser p /\ connected p1 = connected p /\ closed p1 = false /\ launchFailures p1 = launchFailures p)
    by (unfold p1; destruct (browser p) eqn:Hb; repeat split; done).
  clearbody p1. destruct Hp1 as (Hb & Hcon & Hcl & Hf). destruct launch as [e|]; injection Hr as <- <-.
  - split; [done|]. right. exists e. split; [done|]. split; [done|]. split; [lia|]. intros Hrange.
    cbn [bemit launchFailures nextLaunch]. rewrite Hf, wrap64_id by (unfold in_int64, int64_min, int64_max in *; lia).
    rewrite launchBackoff_spec by lia. replace (launchFailures p + 1 - 1) with (launchFailures p) by lia.
    split; [done|]. split; [done|]. intros now' launch' Hnow. unfold browserLocked, browserCheck, liveBrowser in *.
    cbn [bemit browser connected closed nextLaunch IsConnected] in *. unfold IsConnected in *. cbn [bemit connected].
    rewrite Hb, Hcon, Hl, Hcl. unfold Before. by rewrite (proj2 (Z.ltb_lt _ _) Hnow).
  - cbn [bemit browser connected launchFailures nextLaunch]. split; [done|]. split; [set_solver|]. right. split_and!; [done|lia|done..].
Qed.

Definition failedPool : BPool := fst (browserLocked 5 (Some (EText "no chromium")) (set_connected ∅ (bpool (binitial 1)))).

Lemma launch_backoff_exact_witness : launchFailures failedPool = 1 /\
  fst (browserLocked (5 + Second - 1) None failedPool) = failedPool.
Proof.
  split; [vm_compute; reflexivity|].
  pose proof (launch_backoff_exact 5 (Some (EText "no chromium")) (set_connected ∅ (bpool (binitial 1)))) as H.
  destruct (browserLocked 5 (Some (EText "no chromium")) (set_connected ∅ (bpool (binitial 1)))) as [p' r] eqn:He.
  assert (Hp : failedPool = p') by (unfold failedPool; by rewrite He). rewrite Hp.
  vm_compute in He. injection He as <- <-. destruct H as [_ [[_ [H|H]]|(e & _ & _ & _ & H)]]; [done| |].
  - by vm_compute in H.
  - destruct H as (_ & _ & H); [by vm_compute|]. apply H. by vm_compute.
Defined.
