(* ===== verification/BrowserLife.v ===== *)
(** * The life of the browser ([internal/fetcher/playwright.go])

    How the driver is started and stopped, what creating a session asks of it,
    and what [Close] leaves behind.  The driver is Playwright, a parameter: each
    operation on it is recorded with its answer. *)

From Stdlib Require Import Ascii.
From stdpp Require Import gmap.
From S2P Require Import Prelude GoString Web Errors Metrics Browser BrowserPool BrowserSpec.

Open Scope string_scope.
Open Scope Z_scope.

(** ** The driver *)

Record LaunchOptions := mkLaunch {
  loHeadless : bool; loExecutablePath : option string; loSIGINT : bool; loSIGTERM : bool; loSIGHUP : bool }.

(** What is asked of the driver, with its error, if any. *)
Inductive drvop :=
  | DRun (err : option goerr)                         (* start the driver *)
  | DLaunch (o : LaunchOptions) (err : option goerr)
  | DNewContext (o : ContextOptions) (err : option goerr)
  | DAddCookie (name value url : string) (err : option goerr)
  | DNewPage (err : option goerr)
  | DOnCrash                                          (* the handler is registered *)
  | DCloseContext
  | DCloseBrowser (err : option goerr)
  | DStop (err : option goerr).

(** The options [browserLocked] launches Chromium with. *)
Definition launchOptions (cfg : PlaywrightConfig) : LaunchOptions :=
  mkLaunch (pwHeadless cfg) (setIf (pwExecutablePath cfg)) false false false.

(** ** [NewPlaywrightFetcher] *)

(** The pool before the first launch. *)
Definition emptyPool : BPool := mkBPool None [] 0 0 zeroTime None false ∅ ∅ 0 [].

Definition startFetcher (cfg : PlaywrightConfig) (now : time) (run launch stop : option goerr) :
    list drvop * (goerr + (PlaywrightConfig * BPool)) :=
  match newConfig cfg with
  | inl e => ([], inl e)
  | inr cfg =>
      match run with
      | Some e => ([DRun run], inl (EWrapf "playwright fetcher: start driver" e))
      | None =>
          let '(p, r) := browserLocked now launch emptyPool in
          let ops := [DRun None; DLaunch (launchOptions cfg) launch] in
          match r with
          | inl e => ((ops ++ [DStop stop])%list, inl e)
          | inr _ => (ops, inr (cfg, p))
          end
      end
  end.

(** ** [newSession] *)

Section Session_.
Context `{NetURL} (userinfo : URL -> option (string * option string)).

(** The cookie is seeded only for the search page the fetcher was made for. *)
Definition seedsConsent (cfg : PlaywrightConfig) : bool := negb (pwGeneric cfg) && negb (bool_decide (pwEndpoint cfg = "")).

Definition newSession (cfg : PlaywrightConfig) (req : Request) (newContext addCookies newPage : option goerr) :
    list drvop * option goerr :=
  match contextOptions userinfo req with
  | inl e => ([], Some e)
  | inr opts =>
      match newContext with
      | Some e => ([DNewContext opts newContext], Some (EWrapf "playwright fetcher: new browser context" e))
      | None =>
          let ops := (DNewContext opts None ::
                      if seedsConsent cfg then [DAddCookie "CONSENT" "YES+" (pwEndpoint cfg) addCookies] else [])%list in
          match (if seedsConsent cfg then addCookies else None) with
          | Some e => ((ops ++ [DCloseContext])%list, Some (EWrapf "playwright fetcher: seed consent cookie" e))
          | None =>
              match newPage with
              | Some e => ((ops ++ [DNewPage newPage; DCloseContext])%list, Some (EWrapf "playwright fetcher: new page" e))
              | None => ((ops ++ [DNewPage None; DOnCrash])%list, None)
              end
          end
      end
  end.
End Session_.

(** ** The end of [Close] *)

Section Close_.
(** [errors.Is(_, playwright.ErrTargetClosed)] of one error of a chain. *)
Context (targetClosed : goerr -> bool).

(** Once the slots are taken, or the wait for them is over. *)
Definition shutdown (p : BPool) (closeErr stopErr : option goerr) : list drvop * option goerr :=
  let '(ops, err) :=
    match browser p with
    | Some _ =>
        ([DCloseBrowser closeErr],
         match closeErr with
         | Some e => if Is targetClosed e then None else Some (EWrapf "playwright fetcher: close browser" e)
         | None => None
         end)
    | None => ([], None)
    end in
  ((ops ++ [DStop stopErr])%list,
   match stopErr, err with
   | Some e, None => Some (EWrapf "playwright fetcher: stop driver" e)
   | _, _ => err
   end).

(** [closeOnce]: every later call does nothing and answers nil. *)
Definition CloseFetcher (called : bool) (p : BPool) (closeErr stopErr : option goerr) : list drvop * option goerr :=
  if called then ([], None) else shutdown p closeErr stopErr.
End Close_.

(** What closing the browser does to the pool. *)
Definition browserGone (p : BPool) : BPool :=
  match browser p with Some b => set_connected (connected p ∖ {[b]}) p | None => p end.

(** * Properties *)

(** ** Nothing is leaked *)

(** Contexts, and drivers, that are open after some operations. *)
Definition contextDelta (o : drvop) : Z := match o with DNewContext _ None => 1 | DCloseContext => -1 | _ => 0 end.
Definition driverDelta (o : drvop) : Z := match o with DRun None => 1 | DStop _ => -1 | _ => 0 end.
Definition sumOf (f : drvop -> Z) (ops : list drvop) : Z := fold_right (fun o n => f o + n) 0 ops.

(** A session that could not be created leaves no context open; one that was
    has one, with a page whose crashes are handled, and the cookie was set
    before the page existed. *)
Lemma newSession_no_leak `{NetURL} userinfo cfg req newContext addCookies newPage :
  let '(ops, err) := newSession userinfo cfg req newContext addCookies newPage in
  match err with
  | Some _ => sumOf contextDelta ops = 0
  | None => sumOf contextDelta ops = 1 /\ exists opts, contextOptions userinfo req = inr opts /\
      ops = (DNewContext opts None ::
             (if seedsConsent cfg then [DAddCookie "CONSENT" "YES+" (pwEndpoint cfg) None] else []) ++
             [DNewPage None; DOnCrash])%list
  end.
Proof.
  unfold newSession. destruct (contextOptions _ _) as [e|opts]; [done|]. destruct newContext; [done|].
  destruct (seedsConsent cfg), addCookies, newPage; cbn; try done; (split; [done|by exists opts]).
Qed.

(** A fetcher that could not be made leaves no driver running; one that was is
    the initial state of [BrowserPool]. *)
Lemma startFetcher_spec cfg now run launch stop n : 0 <= now ->
  let '(ops, r) := startFetcher cfg now run launch stop in
  match r with
  | inl _ => sumOf driverDelta ops = 0
  | inr (cfg', p) => sumOf driverDelta ops = 1 /\ newConfig cfg = inr cfg' /\ p = bpool (binitial n)
  end.
Proof.
  intros Hnow. unfold startFetcher. destruct (newConfig cfg) as [e|cfg'] eqn:Hc; [done|]. destruct run; [done|].
  unfold browserLocked, browserCheck, launchLocked. cbn [liveBrowser browser emptyPool closed nextLaunch].
  assert (Hb : Before now zeroTime = false) by (unfold Before, zeroTime; lia). rewrite Hb.
  by destruct launch.
Qed.

(** ** One browser, and none after [Close] *)

(** No browser but the current one is connected. *)
Definition one_browser (p : BPool) : Prop := forall b, b ∈ connected p -> browser p = Some b.

(** The steps that leave the browser alone. *)
Definition same_browser (p p' : BPool) : Prop :=
  browser p' = browser p /\ connected p' = connected p /\ closed p' = closed p.

Lemma launchLocked_browser now launch p : let '(p', _) := launchLocked now launch p in
  closed p' = closed p /\ (one_browser p -> liveBrowser p = None -> one_browser p').
Proof.
  unfold launchLocked. set (q := match browser p with Some b => dropDead b p | None => p end).
  assert (Hq : same_browser p q) by (unfold q; by destruct (browser p)). destruct Hq as (Hb & Hcn & Hc).
  destruct launch as [e|]; (split; [done|]); unfold one_browser; cbn [bemit connected browser]; rewrite ?Hb, ?Hcn; [done|].
  intros Hone Hl b [Hin%elem_of_singleton|Hin]%elem_of_union; [by subst|].
  unfold liveBrowser in Hl. rewrite (Hone b Hin) in Hl. unfold IsConnected in Hl. by rewrite bool_decide_eq_true_2 in Hl.
Qed.

Lemma acquireLocked_browser poolSize key rb p : same_browser p (acquireLocked poolSize key rb p).1.
Proof.
  unfold acquireLocked. destruct rb as [e|b]; [done|]. destruct (scanIdle p key b (idle p) None) as [[kept stale] reuse].
  destruct reuse; [done|]. destruct (_ <=? _); [|done]. by destruct kept.
Qed.

Lemma releaseLocked_browser maxUses s healthy p : same_browser p (releaseLocked maxUses s healthy p).
Proof. unfold releaseLocked. by destruct (_ && IsConnected _ _). Qed.

(** The browsers launched so far. *)
Definition isLaunch (e : browser_event) : bool := match e with EvLaunch => true | _ => false end.
Definition launches (p : BPool) : nat := countb isLaunch (bevents p).

(** [mu] is held by at most one fetch, which found no usable browser; [Close] has
    waited for it. *)
Record mu_ok (y : Sys) : Prop := mkMuOk {
  mo_one : one_browser (bpool y);
  mo_mu : (launching (threads y) <= 1)%nat;
  mo_dead : launching (threads y) <> 0%nat -> liveBrowser (bpool y) = None;
  mo_drain : closing y = CDraining -> launching (threads y) = 0%nat }.
(** A pool that has launched nothing, and may have lost connections. *)
Record quiet (p p' : BPool) : Prop := mkQuiet {
  qu_browser : browser p' = browser p;
  qu_connected : connected p' ⊆ connected p;
  qu_closed : closed p = true -> closed p' = true;
  qu_launches : launches p' = launches p }.

Lemma quiet_refl p : quiet p p.
Proof. by split. Qed.

Lemma quiet_trans p q r : quiet p q -> quiet q r -> quiet p r.
Proof. intros [A1 A2 A3 A4] [B1 B2 B3 B4]. split; [congruence|by etrans|by intros ?%A3%B3|congruence]. Qed.

Lemma quiet_emit evs p : forallb (fun e => negb (isLaunch e)) evs = true -> quiet p (bemit evs p).
Proof.
  intros He. split; try done. unfold launches. cbn [bemit bevents]. rewrite countb_app.
  rewrite (countb_none isLaunch evs); [lia|]. intros e Hin. rewrite forallb_forall in He. apply negb_true_iff, He. by apply list_elem_of_In.
Qed.

Lemma quiet_closeSessions ss p : quiet p (closeSessions ss p).
Proof. apply quiet_emit. by induction ss. Qed.

Lemma acquireLocked_quiet poolSize key rb p : quiet p (acquireLocked poolSize key rb p).1.
Proof.
  unfold acquireLocked. destruct rb as [e|b]; [apply quiet_refl|]. destruct (scanIdle p key b (idle p) None) as [[kept stale] reuse].
  assert (Hq : forall l n, quiet p (closeSessions stale (set_open n (set_idle l p)))) by (intros l n; apply (quiet_trans _ (set_open n (set_idle l p))); [by split|apply quiet_closeSessions]).
  destruct reuse as [s|]; [apply Hq|]. destruct (_ <=? _); [destruct kept as [|e rest]|]; cbn [fst]; try apply (Hq _ (_ + 1)).
  eapply quiet_trans; [apply (Hq rest (open p - Z.of_nat (length stale)))|]. apply (quiet_closeSessions [e]).
Qed.
(** With every slot taken by [Close], no fetch is under way. *)
Lemma drained_out poolSize maxUses n y : sys_ok poolSize maxUses n y -> Z.of_nat (drained y) = poolSize ->
  Forall (fun t => t = TOut) (threads y) /\ inUse (threads y) = [] /\ creating (threads y) = 0%nat.
Proof.
  intros [_ _ Sl _ _ _] Hd. unfold slotsTaken in Sl.
  assert (Hz : countb holdsSlot (threads y) = 0%nat) by (unfold countb; lia). clear Sl Hd.
  pose proof (slots_cover (threads y)) as Hc. split_and!; [|apply nil_length_inv; lia|lia]. clear Hc.
  induction (threads y) as [|t ts IH]; [done|]. unfold countb in *. cbn [List.filter] in Hz.
  destruct t; cbn [holdsSlot length] in Hz; try lia. constructor; [done|by apply IH].
Qed.

Lemma launching_insert i t t' ts : ts !! i = Some t ->
  (launching (<[i := t']> ts) + (if isLaunching t then 1 else 0) = launching ts + if isLaunching t' then 1 else 0)%nat.
Proof.
  intros Hi. destruct (list_split_at _ _ _ Hi) as (a & b & -> & ->). unfold launching. rewrite !countb_middle. lia.
Qed.

Lemma releaseLocked_quiet maxUses s healthy p : quiet p (releaseLocked maxUses s healthy p).
Proof.
  unfold releaseLocked. set (p1 := bemit [EvSessionsInUse (-1)] _).
  assert (H1 : quiet p p1) by (apply (quiet_trans _ (bemit [EvSessionsInUse (-1)] p)); [by apply quiet_emit|by split]).
  destruct (_ && IsConnected _ _); [eapply quiet_trans; [exact H1|by split]|]. eapply quiet_trans; [exact H1|].
  eapply quiet_trans; [|apply quiet_closeSessions]. by split.
Qed.

(** What a step does to the browser, [Close] having begun or not. *)
Record life_step (y y' : Sys) : Prop := mkLifeStep {
  ls_mu : mu_ok y';
  ls_launches : closed (bpool y) = true -> closed (bpool y') = true /\
    (launches (bpool y') + launching (threads y') <= launches (bpool y) + launching (threads y))%nat;
  ls_same : closed (bpool y) = true -> launching (threads y) = 0%nat -> launching (threads y') = 0%nat /\
    browser (bpool y') = browser (bpool y) /\ connected (bpool y') ⊆ connected (bpool y);
  ls_drained : closing y = CDraining -> closing y' = CDraining /\ (drained y <= drained y')%nat }.

Lemma life_quiet y p ts c d : mu_ok y -> quiet (bpool y) p -> (launching ts <= launching (threads y))%nat ->
  (c = CDraining -> closing y <> CDraining -> launching (threads y) = 0%nat) ->
  (closing y = CDraining -> c = CDraining /\ (drained y <= d)%nat) -> life_step y (mkSys p ts c d).
Proof.
  intros [M1 M2 M3 M4] [Qb Qc Qcl Ql] Hle Hdr Hd. split; cbn [bpool threads closing drained].
  - split; cbn [bpool threads closing].
    + intros b Hb. rewrite Qb. apply M1. set_solver.
    + lia.
    + intros Hne. specialize (M3 ltac:(lia)). unfold liveBrowser, IsConnected in *. rewrite Qb. destruct (browser (bpool y)); [|done].
      rewrite (bool_decide_eq_false_2 (_ ∈ connected p)); [done|]. intros Hin. rewrite bool_decide_eq_true_2 in M3; [done|set_solver].
    + intros Hc. destruct (closing y) eqn:Hcy; [specialize (Hdr Hc ltac:(done))|specialize (Hdr Hc ltac:(done))|specialize (M4 eq_refl)]; lia.
  - intros Hc. split; [by apply Qcl|lia].
  - intros _ H0. split; [lia|done].
  - done.
Qed.

(** A fetch moves on with a quiet pool, not into a launch. *)
Lemma life_phase y i t t' p : mu_ok y -> threads y !! i = Some t -> quiet (bpool y) p -> isLaunching t' = false ->
  life_step y (mkSys p (<[i := t']> (threads y)) (closing y) (drained y)).
Proof.
  intros Hmu Hi Hq Ht'. pose proof (launching_insert i t t' _ Hi) as Hl. rewrite Ht' in Hl.
  apply life_quiet; try done. lia.
Qed.

Lemma life_after y i key t pr : mu_ok y -> threads y !! i = Some t -> quiet (bpool y) pr.1 ->
  life_step y (afterAcquire i key pr y).
Proof.
  intros Hmu Hi Hq. unfold afterAcquire. destruct pr.2; apply (life_phase y i t); try done.
  eapply quiet_trans; [exact Hq|by apply quiet_emit].
Qed.

Lemma after_pool i key pr y : quiet pr.1 (bpool (afterAcquire i key pr y)) /\ closing (afterAcquire i key pr y) = closing y /\
  drained (afterAcquire i key pr y) = drained y /\
  exists t, isLaunching t = false /\ threads (afterAcquire i key pr y) = <[i := t]> (threads y).
Proof.
  unfold afterAcquire. destruct pr.2; cbn [bpool closing drained threads];
    (split; [first [apply quiet_refl|by apply quiet_emit]|split_and!; [done|done|eexists; split; [|reflexivity]; done]]).
Qed.

(** The launch in progress returns. *)
Lemma life_launched poolSize y i key now launch : mu_ok y -> threads y !! i = Some (TLaunching key) ->
  life_step y (let '(p, rb) := launchLocked now launch (bpool y) in afterAcquire i key (acquireLocked poolSize key rb p) y).
Proof.
  intros [M1 M2 M3 M4] Hi. pose proof (launchLocked_browser now launch (bpool y)) as Hb.
  assert (Hn : (launches (launchLocked now launch (bpool y)).1 <= S (launches (bpool y)))%nat).
  { unfold launchLocked. set (q := match browser (bpool y) with Some b => dropDead b (bpool y) | None => bpool y end).
    assert (Hq : launches q = launches (bpool y)).
    { unfold q. destruct (browser (bpool y)) as [b|]; [|done]. unfold dropDead. by rewrite (qu_launches _ _ (quiet_closeSessions _ _)). }
    destruct launch; unfold launches in *; cbn [fst bemit bevents]; rewrite countb_app; cbn; lia. }
  destruct (launchLocked now launch (bpool y)) as [p rb]. destruct Hb as [Hcl Hone]. cbn [fst] in Hn.
  pose proof (acquireLocked_quiet poolSize key rb p) as Hq. set (pr := acquireLocked poolSize key rb p) in *.
  destruct (after_pool i key pr y) as (Hq2 & Hc & Hd & t & Ht & Hth).
  pose proof (launching_insert i (TLaunching key) t _ Hi) as Hl. rewrite Ht, <- Hth in Hl. cbn [isLaunching] in Hl.
  destruct (quiet_trans _ _ _ Hq Hq2) as [Qb Qc Qcl Ql].
  assert (H0 : launching (threads (afterAcquire i key pr y)) = 0%nat) by lia.
  split.
  - split; [|lia|lia|done]. intros b Hin. rewrite Qb. apply Hone; [done|apply M3; lia|set_solver].
  - intros Hclosed. split; [apply Qcl; congruence|lia].
  - intros _ Hz. lia.
  - rewrite Hc, Hd. done.
Qed.

Lemma bstep_life poolSize maxUses e y y' : (closed (bpool y) = true <-> closing y <> COpen) -> mu_ok y ->
  bstep poolSize maxUses e y = Some y' -> life_step y y'.
Proof.
  intros Hclosed Hmu Hs. destruct e as [i key|i|i now|i now launch|i ok|i healthy|i| | | |b|s|s]; cbn [bstep] in Hs;
    try (destruct (threads y !! i) as [[]|] eqn:Hi; try done).
  - destruct (_ <? _); [|done]. injection Hs as <-. eapply life_phase; [done|exact Hi|apply quiet_refl|done].
  - injection Hs as <-. eapply life_phase; [done|exact Hi|apply quiet_refl|by destruct (closed _)].
  - destruct (muFree y) eqn:Hfree; [|done]. apply bool_decide_eq_true in Hfree.
    pose proof (browserCheck_spec now (bpool y)) as Hb. destruct (browserCheck now (bpool y)) as [b|e|]; injection Hs as <-;
      try (eapply life_after; [done|exact Hi|apply acquireLocked_quiet]).
    destruct Hb as (Hl & Hcl & _). pose proof (launching_insert i _ (TLaunching key) _ Hi) as Hn. cbn [isLaunching] in Hn.
    destruct Hmu as [M1 M2 M3 M4]. split; cbn [bpool threads closing drained]; [|congruence|congruence|done].
    split; cbn [bpool threads closing]; [done|lia|done|]. intros Hd. rewrite (proj2 Hclosed) in Hcl; [done|congruence].
  - pose proof (life_launched poolSize y i key now launch Hmu Hi) as H. destruct (launchLocked _ _ _). by injection Hs as <-.
  - destruct ok; [|destruct (muFree y); [|done]]; injection Hs as <-; (eapply life_phase; [done|exact Hi| |done]); [|by split].
    eapply quiet_trans; [|by apply quiet_emit]. eapply quiet_trans; [|apply (quiet_emit [EvSessionsOpen 1]); done]. by split.
  - destruct (muFree y); [|done]. injection Hs as <-. eapply life_phase; [done|exact Hi|apply releaseLocked_quiet|done].
  - injection Hs as <-. eapply life_phase; [done|exact Hi|apply quiet_refl|done].
  - destruct (closing y) eqn:Hc; try done. injection Hs as <-. apply life_quiet; [done|by split|lia|done|by rewrite Hc].
  - destruct (closing y) eqn:Hc; try done. destruct (muFree y) eqn:Hfree; [|done]. apply bool_decide_eq_true in Hfree.
    injection Hs as <-. apply life_quiet; [done| |lia|done|by rewrite Hc].
    unfold closeIdleLocked. eapply quiet_trans; [|apply quiet_closeSessions]. by split.
  - destruct (closing y) eqn:Hc; try done. destruct (_ <? _); [|done]. injection Hs as <-.
    apply life_quiet; [done|apply quiet_refl|lia|by rewrite Hc|]. intros _. split; [done|lia].
  - destruct (negb _); [done|]. injection Hs as <-. apply life_quiet; [done| |lia|by intros ? ?|done].
    assert (Hq : quiet (bpool y) (if closed (bpool y) then bpool y else bemit [EvDisconnect] (bpool y)))
      by (destruct (closed (bpool y)); [apply quiet_refl|by apply quiet_emit]).
    eapply quiet_trans; [exact Hq|]. destruct (closed (bpool y)); split; try done; by apply subseteq_difference_l.
  - injection Hs as <-. apply life_quiet; [done| |lia|by intros ? ?|done]. eapply quiet_trans; [apply (quiet_emit [EvPageCrash]); done|]. by split.
  - injection Hs as <-. apply life_quiet; [done|by split|lia|by intros ? ?|done].
Qed.

Lemma breach_mu poolSize maxUses n y : 0 < poolSize -> 0 < maxUses <= int64_max -> breach poolSize maxUses n y -> mu_ok y.
Proof.
  intros Hp Hu. induction 1 as [|e y y' Hy IH Hs].
  - assert (Hz : launching (replicate n TOut) = 0%nat) by (unfold launching, countb; clear; by induction n as [|n IHn]).
    split; cbn [binitial bpool threads]; rewrite ?Hz; try done; [|lia]. intros b. cbn [connected browser]. by intros ->%elem_of_singleton.
  - exact (ls_mu _ _ (bstep_life _ _ _ _ _ (so_closed _ _ _ _ (breach_ok _ _ _ Hp Hu y Hy)) IH Hs)).
Qed.

(** What happens after [closed] is set, over any number of steps. *)
Lemma bruns_life poolSize maxUses n es y y' : 0 < poolSize -> 0 < maxUses <= int64_max ->
  breach poolSize maxUses n y -> bruns poolSize maxUses es y = Some y' -> life_step y y'.
Proof.
  intros Hp Hu. revert y. induction es as [|e es IH]; cbn [bruns]; intros y Hy Hs.
  - injection Hs as <-. split; [by eapply breach_mu|done..].
  - destruct (bstep poolSize maxUses e y) as [y1|] eqn:He; [|done].
    destruct (bstep_life _ _ _ _ _ (so_closed _ _ _ _ (breach_ok _ _ _ Hp Hu y Hy)) (breach_mu _ _ _ _ Hp Hu Hy) He) as [M1 L1 S1 D1].
    destruct (IH y1 ltac:(by econstructor) Hs) as [M2 L2 S2 D2]. split; [done|..].
    + intros Hc. destruct (L1 Hc) as [Hc1 Hle1]. destruct (L2 Hc1) as [Hc2 Hle2]. split; [done|lia].
    + intros Hc Hz. destruct (L1 Hc) as [Hc1 _]. destruct (S1 Hc Hz) as (Hz1 & Hb1 & Hn1). destruct (S2 Hc1 Hz1) as (Hz2 & Hb2 & Hn2).
      split_and!; [done|congruence|by etrans].
    + intros Hd. destruct (D1 Hd) as [Hd1 Hle1]. destruct (D2 Hd1) as [Hd2 Hle2]. split; [done|lia].
Qed.

(** C17. [Close] is final.  Once it has set [closed], the only browser that can
    still be launched is that of a launch then in progress, for which [Close]
    waits before it takes the idle sessions: from there on none is launched,
    however fetches, crashes and disconnections go on, and the browser stays the
    one it was.  At most one browser is connected, the one [Close] then closes,
    after which none is; and if [Close] got every slot before its timer, no fetch
    is under way, no session is open, the gauge of open sessions is back at zero,
    and all of this stays so. *)
Theorem close_final poolSize maxUses n es y y' :
  0 < poolSize -> 0 < maxUses <= int64_max -> breach poolSize maxUses n y ->
  closed (bpool y) = true -> bruns poolSize maxUses es y = Some y' ->
  (launching (threads y) <= 1)%nat /\
  (launches (bpool y') + launching (threads y') <= launches (bpool y) + launching (threads y))%nat /\
  (closing y = CDraining -> launching (threads y) = 0%nat) /\
  (launching (threads y) = 0%nat ->
     browser (bpool y') = browser (bpool y) /\ connected (bpool y') ⊆ connected (bpool y)) /\
  connected (browserGone (bpool y')) = ∅ /\
  (closing y = CDraining -> idle (bpool y') = [] /\
     (Z.of_nat (drained y) = poolSize ->
        Forall (fun t => t = TOut) (threads y') /\ open (bpool y') = 0 /\ total openDelta (bevents (bpool y')) = 0)).
Proof.
  intros Hp Hu Hy Hc Hs. destruct (bruns_life _ _ _ _ _ _ Hp Hu Hy Hs) as [M2 L S D].
  pose proof (breach_mu _ _ _ _ Hp Hu Hy) as [M _ _ Mdr].
  pose proof (bruns_reach _ _ _ _ _ _ Hy Hs) as Hy'. pose proof (breach_ok _ _ _ Hp Hu y' Hy') as Hok.
  split_and!; [apply (breach_mu _ _ _ _ Hp Hu Hy)|by apply L|done|by apply S| |].
  - pose proof (mo_one _ M2) as Hone. apply set_eq. intros b. split; [|by intros ?%not_elem_of_empty].
    unfold browserGone. destruct (browser (bpool y')) as [b'|] eqn:Hb'; cbn [set_connected connected].
    + intros [Hin Hn]%elem_of_difference. apply Hone in Hin. rewrite Hb' in Hin. injection Hin as ->. by destruct Hn; apply elem_of_singleton.
    + intros Hin%Hone. congruence.
  - intros Hd. destruct (D Hd) as [Hd' Hle]. pose proof (so_drained _ _ _ _ Hok Hd') as Hidle. split; [done|]. intros Hfull.
    pose proof (so_slots _ _ _ _ Hok) as Hsl. unfold slotsTaken in Hsl.
    destruct (drained_out _ _ _ _ Hok ltac:(lia)) as (Hout & Hin & Hcr). split; [done|].
    destruct (so_pool _ _ _ _ Hok) as [O _ _ _ _ G _]. rewrite Hidle, Hin, Hcr in O. rewrite Hidle, Hin in G. done.
Qed.

(** One fetch, then [Close] takes the idle session and both slots; afterwards
    the browser disconnects. *)
Definition closedRun : list bevent :=
  [EGetSlot 0 "k"; ECheckClosed 0; EAcquire 0 5; ENewSession 0 true; ERelease 0 true; EFreeSlot 0;
   EClose; ECloseIdle; EDrain; EDrain].

Definition closedSys : Sys := runFrom closedRun (binitial 2).

Lemma closedSys_reach : breach 2 50 2 closedSys.
Proof. apply runFrom_reach. constructor. Qed.

Lemma close_final_witness : exists y', bruns 2 50 [EDisconnect 0] closedSys = Some y' /\ closed (bpool closedSys) = true /\
  open (bpool y') = 0 /\ connected (browserGone (bpool y')) = ∅.
Proof.
  destruct (bruns 2 50 [EDisconnect 0] closedSys) as [y'|] eqn:Hs; [|by vm_compute in Hs].
  exists y'. split; [reflexivity|]. split; [vm_compute; reflexivity|].
  destruct (close_final 2 50 2 [EDisconnect 0] closedSys y' eq_refl toy_uses closedSys_reach
    ltac:(vm_compute; reflexivity) Hs) as (_ & _ & _ & _ & H3 & H4).
  split; [|exact H3]. exact (proj1 (proj2 (proj2 (H4 ltac:(vm_compute; reflexivity)) ltac:(vm_compute; reflexivity)))).
Defined.

(** [Close] stops the driver whatever closing the browser answered, and asks for
    both at most once; its error is that of the browser, unless the browser was
    already gone, else that of the driver. *)
Lemma close_stops targetClosed p closeErr stopErr :
  let '(ops, err) := CloseFetcher targetClosed false p closeErr stopErr in
  last ops = Some (DStop stopErr) /\ (browser p <> None <-> ops = [DCloseBrowser closeErr; DStop stopErr]) /\
  (err = None <-> stopErr = None /\ (browser p <> None -> forall e, closeErr = Some e -> Is targetClosed e = true)) /\
  CloseFetcher targetClosed true p closeErr stopErr = ([], None).
Proof.
  unfold CloseFetcher, shutdown.
  destruct (browser p) as [b|]; [destruct closeErr as [e|]; [destruct (Is targetClosed e) eqn:Ht|]|]; destruct stopErr; cbn;
    split_and!; try done; split; intros H; try done; try (by destruct H); try (split; [done|]; intros; congruence).
  - destruct H as [_ H]. rewrite (H ltac:(done) e eq_refl) in Ht. done.
Qed.

(** The launch in progress when [Close] begins: a browser appears after [closed]
    was set, and [Close] cannot take the idle sessions before it does. *)
Definition lateLaunch : list bevent :=
  [EDisconnect 0; EGetSlot 0 "k"; ECheckClosed 0; EAcquire 0 5; EClose].

Example launch_during_close :
  exists y y', bruns 2 50 lateLaunch (binitial 2) = Some y /\ closed (bpool y) = true /\ bstep 2 50 ECloseIdle y = None /\
    bstep 2 50 (ELaunched 0 6 None) y = Some y' /\ browser (bpool y') = Some 1%nat /\ bstep 2 50 ECloseIdle y' <> None.
Proof. eexists _, _. split_and!; [vm_compute; reflexivity|reflexivity|reflexivity|vm_compute; reflexivity|reflexivity|by vm_compute]. Qed.
