(* ===== verification/Pipeline.v ===== *)
(** * From a request to its status

    The components composed: the API puts a run's jobs on the stream, the Redis
    source hands them to the workers of a harvester, their results become rows,
    and the API counts the rows.  The theorems relate what the status endpoint
    reports, and what the reporter prints, to what happened to the jobs. *)

From Stdlib Require Import Ascii.
From stdpp Require Import gmap strings.
From S2P Require Import Prelude Float64 GoString Errors Metrics Reporter Model Worker PoolRun PoolRunSpec Jobs JobsSpec Schema.
From S2P Require ProxyPool RateLimit.

Open Scope string_scope.
Open Scope Z_scope.

(** Nothing is left to do: no job with the source or in the channel, no worker
    processing one. *)
Definition drained (s : RState) : Prop := toSend s = [] /\ buffer s = [] /\ omap current (workers s) = [].

Lemma no_current_acting ws : omap current ws = [] -> concat (map acting ws) = [].
Proof. induction ws as [|p ws IH]; [done|]. destruct p; cbn; try exact IH. done. Qed.

Section Status.
Context {T : RateLimit.TokenBucket} {NS : Type}.
Context (E : Env (T := T) (NS := NS)) (Parse : string -> string -> goerr + SerpResult).
Context (fuel : nat) (cfg : PoolConfig).

Abbreviation harvests capacity closes := (tstep capacity closes (jobActions E Parse fuel cfg)).

(** In every state of a harvest, a run has at most as many results as jobs; once
    all is processed, a job has a result or was dropped. *)
Lemma run_results capacity closes k jobs s R : rtc (harvests capacity closes) (initial k jobs) s ->
  (runCount R (sinkAfter (log s)) <= countb (ofRun R) jobs)%nat /\
  (drained s -> (runCount R (sinkAfter (log s)) + droppedOf R (processed s) = countb (ofRun R) jobs)%nat).
Proof.
  intros Hr. pose proof (run_inv_reach _ _ _ k jobs s Hr) as Hi.
  pose proof (run_sink_bounded _ (jobBound cfg) k jobs s R Hi) as Hb. destruct Hi as [I1 I2 I3 I4 _ _ _ _ _]. split.
  - rewrite I1, countb_app. lia.
  - intros (Ht & Hbuf & Hcur). rewrite Ht, Hbuf, !app_nil_r in I1. rewrite Hcur, app_nil_r in I2.
    rewrite (no_current_acting _ Hcur), app_nil_r in I3. rewrite I1, (countb_perm _ _ _ I2).
    destruct (processed_log _ (jobBound cfg) _ I4) as (P1 & _).
    assert (Hs : sinkAfter (log s) ≡ₚ omap pOut (processed s)) by (unfold sinkAfter; rewrite I3; by rewrite P1).
    unfold runCount. rewrite (countb_perm _ _ _ Hs). by apply (processed_runs _ (jobBound cfg)).
Qed.

(** C5. What [GET /jobs/{run_id}] reports of a run accepted over the Redis stream,
    while a harvester with any number of workers works through the stream: the
    number submitted is the number of queries; the number completed, counted
    from the rows, never exceeds it, whatever interleaving, cancellation or
    failed insert; and when every job read has been processed and no insert
    failed, completed plus the jobs dropped is the number submitted.  The
    counting query is assumed to count the rows of the run, and the random run ID
    to be new. *)
Theorem run_status_exact {W} (XAdd : Values_ -> W -> W * option goerr) (entries : W -> list XMessage) QueryRow
    errorText req rand submitted w submitted' w' R n reads later ready capacity k s rows :
  (forall v w w', XAdd v w = (w', None) -> exists id, entries w' = (entries w ++ [mkMsg id v])%list) ->
  handleCreateJob (Producer0 := pushStream XAdd) errorText (inr req) rand submitted w = (submitted', w', RCreated R n) ->
  messages reads = (entries w' ++ later)%list ->
  (forall m, m ∈ (entries w ++ later)%list -> jRunID (jobOf m) <> R) ->
  rtc (harvests capacity false) (initial k (handedJobs (jobsLoop ready 0 reads))) s ->
  rows `sublist_of` sinkAfter (log s) ->
  QueryRow "SELECT COUNT(*) FROM serp_results WHERE run_id = $1" R = inr (Z.of_nat (runCount R rows)) ->
  exists c, handleJobStatus errorText (Some (CountByRunID QueryRow)) R submitted' = RStatus R n c true true /\
    0 <= c <= n /\
    (drained s -> rows = sinkAfter (log s) -> (forall i, ready i = true) ->
     forallb (fun r => negb (stops r)) reads = true -> c + Z.of_nat (droppedOf R (processed s)) = n).
Proof.
  intros Hx Hc Hm Hfresh Hr Hrows Hq.
  destruct (created_run (Producer0:=pushStream XAdd) _ _ _ _ _ _ _ _ _ Hc) as (req' & b & [= <-] & HR & Hn & Hsub & Hp).
  apply (pushes_queued (Producer0:=stream_producer XAdd) _ (QueueLaws0:=stream_laws XAdd entries Hx)) in Hp.
  exists (Z.of_nat (runCount R rows)).
  assert (Hstream : countb (ofRun R) (map jobOf (messages reads)) = length (crQueries req)).
  { rewrite Hm, map_app, Hp, !countb_app.
    assert (Hnone : forall ms, (forall m, m ∈ ms -> m ∈ (entries w ++ later)%list) -> countb (ofRun R) (map jobOf ms) = 0%nat).
    { intros ms Hms. apply countb_none. intros j (m & -> & Hin)%list_elem_of_fmap. apply bool_decide_eq_false, Hfresh. by apply Hms. }
    rewrite !Hnone by (intros m Hin; apply elem_of_app; auto). unfold jobsOf. rewrite Nat.add_0_r. cbn [Nat.add].
    rewrite countb_full; [apply length_map|]. intros j (q & -> & _)%list_elem_of_fmap. by apply bool_decide_eq_true. }
  destruct (run_results _ _ _ _ _ R Hr) as [Hle Hex].
  destruct (jobsLoop_prefix ready 0 reads) as (i & Hloop & Hall). rewrite Hloop, handedJobs_handled in Hle, Hex.
  assert (Htake : (countb (ofRun R) (map jobOf (take i (messages reads))) <= length (crQueries req))%nat).
  { rewrite <- Hstream. rewrite <- (take_drop i (messages reads)) at 2. rewrite map_app, countb_app. lia. }
  assert (Hcount : (runCount R rows <= runCount R (sinkAfter (log s)))%nat) by (by apply countb_sublist).
  split_and!; try lia.
  - unfold handleJobStatus, CountByRunID. rewrite HR, (TrimSpace_words ("run-" ++ hexEncode b)) by (rewrite allb_app; by rewrite hexEncode_words).
    rewrite decide_False by done. rewrite <- HR, Hq, Hsub, lookup_insert_eq. done.
  - intros Hd -> Hready Hst. specialize (Hex Hd). rewrite take_ge in Hex by (by apply Hall). rewrite Hstream in Hex. lia.
Qed.

(** The last line a harvest prints accounts for its jobs: when [Run] has
    returned and [main] ends the reporter, the reporter prints a line for every
    tick before and one last line, whose [success] is the number of results
    handed to the sink and whose [completed] is the number of jobs taken: all of
    them, unless the run was interrupted. *)
Theorem harvest_final_report capacity closes k jobs s ticks fin rest : Z.of_nat (length jobs) < 2 ^ 64 ->
  rtc (harvests capacity closes) (initial k jobs) s -> returned s = true ->
  Forall (fun x => wkWhy x = Tick) ticks -> wkWhy fin = CtxDone ->
  Success (wkCounters fin) = Success (countersAfter (log s)) -> Dropped (wkCounters fin) = Dropped (countersAfter (log s)) ->
  exists lines last, reporter (ticks ++ fin :: rest)%list = ((lines ++ [last])%list, true) /\ length lines = length ticks /\
    snSuccess (rpSnapshot last) = Z.of_nat (length (sinkAfter (log s))) /\
    rpCompleted last = Z.of_nat (length (taken s)) /\
    (ctxEnded s = false -> (0 < k)%nat -> rpCompleted last = Z.of_nat (length jobs)).
Proof.
  intros Hlen Hr Hret Hticks Hfin HS HD.
  destruct (run_exact _ _ _ (jobBound cfg) k jobs s Hlen Hr Hret) as (Hj & _ & _ & _ & Hs & Hd & Hall).
  eexists (map _ ticks), _. split; [rewrite (reporter_flushes ticks fin rest Hticks Hfin), map_app; reflexivity|].
  split; [apply length_map|]. cbn [report rpSnapshot rpCompleted snapshot snSuccess snDropped]. rewrite HS, HD, Hs.
  assert (Htk : Z.of_nat (length (taken s)) <= Z.of_nat (length jobs)) by (rewrite Hj, length_app; lia).
  rewrite Hs in Hd. rewrite Hd, wrapu64_id by lia. split_and!; [done|done|]. intros Hc Hk. by rewrite (Hall Hc Hk).
Qed.

End Status.

(** ** Witnesses: one query, from the request to its status *)

Definition oneCreate : createJobRequest := mkCreate ["cats"] "us" "en" "".

Definition oneJob : Job := mkJob "cats" "run-6162" "us-en" "".

Definition oneEntries : list XMessage := [mkMsg "0" (jobValues oneJob)].

Definition oneSub : gmap string Z := {["run-6162" := 1]}.

Lemma run_status_exact_witness : exists c,
  handleJobStatus (fun _ => "") (Some (CountByRunID (fun _ _ => inr 1))) "run-6162" oneSub = RStatus "run-6162" 1 c true true /\ c = 1.
Proof.
  destruct (run_status_exact servingEnv servedParse 2 servedCfg listXAdd id (fun _ _ => inr 1) (fun _ => "") oneCreate (inr "ab")
    noneSubmitted [] oneSub oneEntries "run-6162" 1 [ReadBatch oneEntries] [] (fun _ => true) 0 1 (soloDone oneJob)
    [servedResult oneJob]) as (c & H1 & _ & H3).
  - intros v w w' [= <-]. by eexists.
  - vm_compute. reflexivity.
  - reflexivity.
  - by intros m ?%not_elem_of_nil.
  - exact (solo_done 0 servedCfg oneJob (served_ok oneJob) false).
  - reflexivity.
  - reflexivity.
  - exists c. split; [exact H1|]. specialize (H3 ltac:(by split_and!) eq_refl (fun _ => eq_refl) eq_refl).
    change (c + 0 = 1) in H3. lia.
Defined.

Lemma harvest_final_report_witness : exists last,
  reporter [mkWoken CtxDone 0 (countersAfter (log (soloEnd oneJob))) None] = ([last], true) /\ rpCompleted last = 1.
Proof.
  destruct (harvest_final_report servingEnv servedParse 2 servedCfg 0 true 1 [oneJob] (soloEnd oneJob) []
    (mkWoken CtxDone 0 (countersAfter (log (soloEnd oneJob))) None) []) as (lines & last & H1 & H2 & _ & _ & H5);
    [reflexivity|exact (solo_run 0 servedCfg oneJob (served_ok oneJob))|reflexivity|constructor|reflexivity..|].
  destruct lines; [|discriminate H2]. exists last. split; [exact H1|]. apply H5; [reflexivity|lia].
Defined.
