(* ===== verification/Commands.v ===== *)
(** * The commands ([cmd/harvester], [cmd/crawl], [cmd/api], [internal/config])

    The configuration and the decisions [main] takes: which fetcher, parser, sink
    and queue are built, when the process refuses to run, what a crawl prints of
    each target.  Reading files and the environment, YAML, opening sinks and
    launching browsers are parameters; [log.Fatal] and [os.Exit] are errors. *)

From Stdlib Require Import Ascii.
From S2P Require Import Prelude Float64 GoString Errors HttpFetch ProxyPool RateLimit Browser Extract CrawlScope Jobs.
From S2P Require Metrics Reporter Worker Crawl.

Open Scope string_scope.
Open Scope Z_scope.

(** ** [internal/config] *)

Record Config := mkConfig {
  Mode : string;
  cQueries : list string;
  QueueBackend : string; RedisAddr : string; RedisStream : string; RedisGroup : string; RedisConsumer : string;
  RedisSeedQueue : bool;
  Concurrency : Z; MaxRetries : Z;
  RatePerProxyRPS : f64; RateBurst : Z; AdaptiveRate : bool; RateMinRPS : f64;
  Proxies : list string; ProxyBanFails : Z; ProxyBanCooldown : duration; ProxyBanCooldownMax : duration;
  ProxyStrategy : string; MaxProxyWait : duration;
  LiveEndpoint : string; RequestTimeout : duration; MockFixtureDir : string;
  ProviderBaseURL : string; ProviderAPIKeyEnv : string; ProviderEngine : string;
  BrowserPoolSize : Z; BrowserHeadful : bool; BrowserExecutablePath : string; BrowserWaitSelector : string;
  BrowserMaxSessionUses : Z;
  SinkBackend : string; PostgresDSNEnv : string; OutputPath : string; ReportInterval : duration; MetricsAddr : string }.

Definition Default : Config :=
  mkConfig "mock" [] "memory" "localhost:6379" "serp-harvester:queries" "harvesters" "worker-1" false
    8 2 f64_one 1 true f64_zero [] 3 (30 * Second) (10 * Minute) "round_robin" (2 * Minute)
    "https://www.google.com/search" (10 * Second) "internal/parser/testdata" "" "" "google"
    4 false "" "" 50 "jsonl" "POSTGRES_DSN" "-" (2 * Second) "".

(** [Load]: the file overlays the defaults; [unmarshal] is [yaml.Unmarshal] into a
    value, answering the value even when it fails. *)
Definition Load (unmarshal : string -> Config -> Config * option goerr) (path : string) (file : goerr + string) : Config * option goerr :=
  match file with
  | inl e => (Default, Some (EWrapf ("config: read " ++ path) e))
  | inr b =>
      let '(cfg, err) := unmarshal b Default in
      match err with Some e => (cfg, Some (EWrapf ("config: parse " ++ path) e)) | None => (cfg, None) end
  end.

(** ** What a process builds *)

(** How a process ends before it started: [log.Fatal] or [os.Exit(1)]. *)
Inductive Exit := Fatal (msg : string) | Refused.

Inductive FetcherKind :=
  | KMock (dir : string)
  | KHTTP (f : HTTPFetcher) (timeout : duration)
  | KProvider (f : ProviderFetcher) (timeout : duration)
  | KBrowser (cfg : PlaywrightConfig)
  | KFailover (primary secondary : FetcherKind).

Inductive ParserKind := PHTML | PJSON.

#[export] Instance ParserKind_eq_dec : EqDecision ParserKind.
Proof. solve_decision. Defined.

Inductive SinkKind := SinkStdout | SinkFile (path : string) | SinkPostgres (dsn : string).

Inductive SourceKind :=
  | SourceMemory (queries : list string) (buffer : Z)
  | SourceRedis (stream group consumer : string) (seeded : list string).

Section Start.
Context `{TokenBucket}.
(** [os.Getenv]; the errors of loading fixtures, of the Playwright driver, of
    creating a file, of connecting to Postgres and to Redis, of seeding a query. *)
Context (Getenv : string -> string) (errorText : goerr -> string).
Context (loadFixtures launch createFile connect redis seed : string -> option goerr).

Definition must {A} (what : string) (err : option goerr) (a : A) : Exit + A :=
  match err with Some e => inl (Fatal (what ++ ": " ++ errorText e)) | None => inr a end.

Definition NewHTTPFetcher (endpoint : string) (timeout : duration) : FetcherKind :=
  KHTTP (mkHTTPFetcher endpoint false false) timeout.

(** [NewPlaywrightFetcher]: the checks and defaults, then the driver and the browser. *)
Definition NewPlaywrightFetcher (cfg : PlaywrightConfig) : goerr + FetcherKind :=
  match newConfig cfg with
  | inl e => inl e
  | inr cfg => match launch (pwExecutablePath cfg) with Some e => inl e | None => inr (KBrowser cfg) end
  end.

Definition buildBrowser (cfg : PlaywrightConfig) : Exit + FetcherKind :=
  match NewPlaywrightFetcher cfg with
  | inl e => inl (Fatal ("build playwright fetcher: " ++ errorText e ++
      " (install the driver and Chromium with `make playwright-install` / scripts/install-playwright.sh)"))
  | inr f => inr f
  end.

(** ** [cmd/harvester] *)

Definition harvestBrowser (cfg : Config) : PlaywrightConfig :=
  mkPlaywright (LiveEndpoint cfg) (RequestTimeout cfg) (BrowserPoolSize cfg) (BrowserMaxSessionUses cfg)
    (negb (BrowserHeadful cfg)) (BrowserExecutablePath cfg) false (BrowserWaitSelector cfg).

Definition buildFetcherAndParser (cfg : Config) (reviewed : bool) : Exit + (FetcherKind * ParserKind) :=
  if decide (Mode cfg = "mock") then
    must "build mock fetcher" (loadFixtures (MockFixtureDir cfg)) (KMock (MockFixtureDir cfg), PHTML)
  else if decide (Mode cfg = "live") then
    if reviewed then inr (NewHTTPFetcher (LiveEndpoint cfg) (RequestTimeout cfg), PHTML) else inl Refused
  else if decide (Mode cfg = "provider") then
    if decide (ProviderBaseURL cfg = "") then inl (Fatal "provider mode requires provider_base_url in config")
    else
      let apiKey := Getenv (ProviderAPIKeyEnv cfg) in
      if decide (apiKey = "") then
        inl (Fatal ("provider mode requires the " ++ ProviderAPIKeyEnv cfg ++ " environment variable to be set"))
      else inr (KProvider (NewProviderFetcher (ProviderBaseURL cfg) apiKey (ProviderEngine cfg)) (RequestTimeout cfg), PJSON)
  else if decide (Mode cfg = "playwright" \/ Mode cfg = "hybrid") then
    if negb reviewed then inl Refused
    else match buildBrowser (harvestBrowser cfg) with
         | inl e => inl e
         | inr browser =>
             if decide (Mode cfg = "playwright") then inr (browser, PHTML)
             else inr (KFailover (NewHTTPFetcher (LiveEndpoint cfg) (RequestTimeout cfg)) browser, PHTML)
         end
  else inl (Fatal ("unknown mode " ++ quoted (Mode cfg) ++ " (want mock|live|provider|playwright|hybrid)")).

Definition buildSink (cfg : Config) : Exit + SinkKind :=
  if decide (SinkBackend cfg = "" \/ SinkBackend cfg = "jsonl") then
    if decide (OutputPath cfg = "-" \/ OutputPath cfg = "") then inr SinkStdout
    else must "create output file" (createFile (OutputPath cfg)) (SinkFile (OutputPath cfg))
  else if decide (SinkBackend cfg = "postgres") then
    let dsn := Getenv (PostgresDSNEnv cfg) in
    if decide (dsn = "") then
      inl (Fatal ("sink_backend: postgres requires the " ++ PostgresDSNEnv cfg ++ " environment variable to be set"))
    else must "build postgres sink" (connect dsn) (SinkPostgres dsn)
  else inl (Fatal ("unknown sink_backend " ++ quoted (SinkBackend cfg) ++ " (want jsonl|postgres)")).

Definition parseProxyStrategy (s : string) : Exit + Strategy :=
  if decide (s = "" \/ s = "round_robin") then inr RoundRobin
  else if decide (s = "random") then inr Random
  else if decide (s = "weighted_success_rate") then inr WeightedSuccessRate
  else inl (Fatal ("unknown proxy_strategy " ++ quoted s ++ " (want round_robin|random|weighted_success_rate)")).

Definition bind {A B} (x : Exit + A) (f : A -> Exit + B) : Exit + B := match x with inl e => inl e | inr a => f a end.

(** The first query that cannot be pushed ends the process. *)
Fixpoint seedQueries (qs : list string) : Exit + unit :=
  match qs with
  | [] => inr tt
  | q :: rest => bind (must ("redis queue: seed query " ++ quoted q) (seed q) tt) (fun _ => seedQueries rest)
  end.

Definition buildJobSource (cfg : Config) : Exit + SourceKind :=
  if decide (QueueBackend cfg = "" \/ QueueBackend cfg = "memory") then
    inr (SourceMemory (cQueries cfg) (wrap64 (Concurrency cfg * 2)))
  else if decide (QueueBackend cfg = "redis") then
    let seeds := if RedisSeedQueue cfg then cQueries cfg else [] in
    bind (must "redis queue" (redis (RedisAddr cfg)) tt) (fun _ =>
    bind (seedQueries seeds) (fun _ => inr (SourceRedis (RedisStream cfg) (RedisGroup cfg) (RedisConsumer cfg) seeds)))
  else inl (Fatal ("unknown queue_backend " ++ quoted (QueueBackend cfg) ++ " (want memory|redis)")).

Definition buildLimiter (adaptive : bool) (rps : f64) (burst : Z) (floor : f64) : Limiter _ :=
  if adaptive then NewAdaptive rps burst floor else New rps burst.

(** The pool of one process or target. *)
Definition buildProxies (cfg : Config) (s : Strategy) : ProxyPool.Pool :=
  with_config s (ProxyBanCooldownMax cfg) (NewPool (Proxies cfg) (ProxyBanFails cfg) (ProxyBanCooldown cfg)).

Record Harvesting := mkHarvesting {
  hFetcher : FetcherKind; hParser : ParserKind; hSink : SinkKind; hPool : ProxyPool.Pool; hLimiter : Limiter _; hSource : SourceKind }.

(** The flags [-mode] and [-queries] on top of the loaded configuration. *)
Definition withFlags (mode queries : string) (c : Config) : Config :=
  mkConfig (if decide (mode = "") then Mode c else mode)
    (if decide (queries = "") then cQueries c else SplitByte "," queries)
    (QueueBackend c) (RedisAddr c) (RedisStream c) (RedisGroup c) (RedisConsumer c) (RedisSeedQueue c)
    (Concurrency c) (MaxRetries c) (RatePerProxyRPS c) (RateBurst c) (AdaptiveRate c) (RateMinRPS c)
    (Proxies c) (ProxyBanFails c) (ProxyBanCooldown c) (ProxyBanCooldownMax c) (ProxyStrategy c) (MaxProxyWait c)
    (LiveEndpoint c) (RequestTimeout c) (MockFixtureDir c) (ProviderBaseURL c) (ProviderAPIKeyEnv c) (ProviderEngine c)
    (BrowserPoolSize c) (BrowserHeadful c) (BrowserExecutablePath c) (BrowserWaitSelector c) (BrowserMaxSessionUses c)
    (SinkBackend c) (PostgresDSNEnv c) (OutputPath c) (ReportInterval c) (MetricsAddr c).

(** [main] up to [pool.Run]. *)
Definition startHarvest (cfg : Config) (mode queries : string) (reviewed : bool) : Exit + Harvesting :=
  let cfg := withFlags mode queries cfg in
  if bool_decide (cQueries cfg = []) && negb (bool_decide (QueueBackend cfg = "redis"))
  then inl (Fatal "no queries configured (set queries: in config or pass -queries)")
  else
    bind (buildFetcherAndParser cfg reviewed) (fun fp =>
    bind (buildSink cfg) (fun sink =>
    bind (parseProxyStrategy (ProxyStrategy cfg)) (fun s =>
    bind (buildJobSource cfg) (fun src =>
    inr (mkHarvesting fp.1 fp.2 sink (buildProxies cfg s)
           (buildLimiter (AdaptiveRate cfg) (RatePerProxyRPS cfg) (RateBurst cfg) (RateMinRPS cfg)) src))))).

(** [main] from the configuration file on. *)
Definition loadAndStartHarvest (unmarshal : string -> Config -> Config * option goerr) (path : string) (file : goerr + string)
    (mode queries : string) (reviewed : bool) : Exit + Harvesting :=
  let '(cfg, err) := Load unmarshal path file in
  bind (must "load config" err cfg) (fun cfg => startHarvest cfg mode queries reviewed).

(** The worker pool of a harvest: its workers and their settings; the user agent
    rotates. *)
Definition harvestPool (cfg : Config) : Z * Worker.PoolConfig :=
  (Concurrency cfg, Worker.mkPoolConfig (MaxRetries cfg) (MaxProxyWait cfg) "").

(** What a scrape of a harvest reads; [clk] gives the clock readings of [Counts]. *)
Definition harvestGauges (clk : nat -> time) (pl : ProxyPool.Pool) (l : Limiter _) : Metrics.ProxyGauges :=
  let '(available, cooling) := ProxyPool.Counts clk pl in
  Metrics.mkGauges available cooling (Throttled l).

(** ** [cmd/crawl] *)

Record crawlConfig := mkCrawlConfig {
  base : Config; ccUserAgent : string; RobotsAgent : string; RatePerHostRPS : f64; Targets : list Target }.

(** [defaults()] of the crawler. *)
Definition crawlDefaults : crawlConfig :=
  mkCrawlConfig
    (mkConfig "mock" [] "memory" "localhost:6379" "serp-harvester:queries" "harvesters" "worker-1" false
       4 2 f64_one 1 true f64_zero [] 3 (30 * Second) (10 * Minute) "round_robin" (2 * Minute)
       "https://www.google.com/search" (20 * Second) "internal/parser/testdata" "" "" "google"
       4 false "" "" 50 "jsonl" "POSTGRES_DSN" "-" (2 * Second) "")
    "Mozilla/5.0 (compatible; web-harvester/0.1; +https://github.com/HenryMorganDibie/web-harvester)"
    "web-harvester" f64_one [].

(** [load] *)
Definition load (unmarshal : string -> crawlConfig -> crawlConfig * option goerr) (path : string) (file : goerr + string)
    : crawlConfig * option goerr :=
  if decide (path = "") then (crawlDefaults, None)
  else match file with
       | inl e => (crawlDefaults, Some (EWrapf ("read " ++ path) e))
       | inr b =>
           let '(cfg, err) := unmarshal b crawlDefaults in
           match err with Some e => (cfg, Some (EWrapf ("parse " ++ path) e)) | None => (cfg, None) end
       end.

(** [newRunID]: a failure of [rand.Read] is ignored and leaves the eight bytes zero. *)
Definition crawlRunID (rand : goerr + string) : string :=
  "crawl-" ++ hexEncode (match rand with inr b => b | inl _ => String.concat "" (repeat (String (chr 0) "") 8) end).

Definition adhocTarget (urls render : string) (depth maxPages : Z) : Target :=
  mkTarget "adhoc" (SplitByte "," urls) [] depth maxPages "" [] [] render "" (mkSpec [] None 0 false) None 0 "" "".

(** The targets that run: [-url] replaces those of the file, [-target] keeps one name. *)
Definition selectTargets (file : list Target) (configPath urls only render : string) (depth maxPages : Z) : Exit + list Target :=
  let ts := if decide (urls = "") then file else [adhocTarget urls render depth maxPages] in
  if decide (only = "") then
    match ts with [] => inl (Fatal "no targets: set targets: in -config, or pass -url") | _ => inr ts end
  else
    let kept := List.filter (fun t => bool_decide (tName t = only)) ts in
    match kept with [] => inl (Fatal ("no target named " ++ quoted only ++ " in " ++ configPath)) | _ => inr kept end.

Definition wantsBrowser (t : Target) : bool := bool_decide (Render t = "browser") || bool_decide (Render t = "auto").

Definition crawlBrowser (cfg : Config) : PlaywrightConfig :=
  mkPlaywright "" (RequestTimeout cfg) (BrowserPoolSize cfg) (BrowserMaxSessionUses cfg)
    (negb (BrowserHeadful cfg)) (BrowserExecutablePath cfg) true "".

(** The fetcher of a target; [browser] is nil when no target needs one, and then
    a call through it would panic. *)
Definition targetFetcher (http shellAware : FetcherKind) (browser : option FetcherKind) (t : Target) : option FetcherKind :=
  if decide (Render t = "browser") then browser
  else if decide (Render t = "auto") then option_map (KFailover shellAware) browser
  else Some http.

(** What the function that [buildSink] returns closes. *)
Inductive CloseSink := CloseNothing | CloseFile | CloseDB.

(** The crawler's [buildSink]. *)
Definition buildPageSink (cfg : Config) : Exit + (SinkKind * CloseSink) :=
  if decide (SinkBackend cfg = "" \/ SinkBackend cfg = "jsonl") then
    if decide (OutputPath cfg = "-" \/ OutputPath cfg = "") then inr (SinkStdout, CloseNothing)
    else must "create output file" (createFile (OutputPath cfg)) (SinkFile (OutputPath cfg), CloseFile)
  else if decide (SinkBackend cfg = "postgres") then
    let dsn := Getenv (PostgresDSNEnv cfg) in
    if decide (dsn = "") then
      inl (Fatal ("sink_backend: postgres requires the " ++ PostgresDSNEnv cfg ++ " environment variable to be set"))
    else must "build postgres sink" (connect dsn) (SinkPostgres dsn, CloseDB)
  else inl (Fatal ("unknown sink_backend " ++ quoted (SinkBackend cfg) ++ " (want jsonl|postgres)")).

Record Crawling := mkCrawling {
  robotsFetcher : FetcherKind; perTarget : list (Target * option FetcherKind * ProxyPool.Pool);
  crawlSink : SinkKind * CloseSink; crawlLimiter : Limiter _ }.

Definition startCrawl (cfg : crawlConfig) (configPath urls only render : string) (depth maxPages : Z) (reviewed : bool) : Exit + Crawling :=
  bind (selectTargets (Targets cfg) configPath urls only render depth maxPages) (fun targets =>
  if negb reviewed then inl Refused
  else
    let c := base cfg in
    let http := KHTTP (mkHTTPFetcher "" true false) (RequestTimeout c) in
    let shellAware := KHTTP (mkHTTPFetcher "" true true) (RequestTimeout c) in
    bind (if existsb wantsBrowser targets
          then bind (buildBrowser (crawlBrowser c)) (fun b => inr (Some b)) else inr None) (fun browser =>
    bind (buildPageSink c) (fun sink =>
    bind (parseProxyStrategy (ProxyStrategy c)) (fun s =>
    inr (mkCrawling http (map (fun t => (t, targetFetcher http shellAware browser t, buildProxies c s)) targets) sink
           (buildLimiter (AdaptiveRate c) (RatePerHostRPS cfg) (RateBurst c) (RateMinRPS c))))))).

Definition loadAndStartCrawl (unmarshal : string -> crawlConfig -> crawlConfig * option goerr) (configPath : string)
    (file : goerr + string) (urls only render : string) (depth maxPages : Z) (reviewed : bool) : Exit + Crawling :=
  let '(cfg, err) := load unmarshal configPath file in
  bind (must "load config" err cfg) (fun cfg => startCrawl cfg configPath urls only render depth maxPages reviewed).

(** The worker pools of a target, for its pages and for robots.txt: the same
    settings. *)
Definition crawlPools (cfg : crawlConfig) : Worker.PoolConfig * Worker.PoolConfig :=
  let c := Worker.mkPoolConfig (MaxRetries (base cfg)) (MaxProxyWait (base cfg)) (ccUserAgent cfg) in (c, c).

(** What a scrape of a crawl reads: the sums over the pools of the targets. *)
Definition crawlGauges (clk : nat -> time) (pools : list ProxyPool.Pool) (l : Limiter _) : Metrics.ProxyGauges :=
  let '(a, c) := fold_left (fun '(a, c) pl => let '(a', c') := ProxyPool.Counts clk pl in (wrap64 (a + a'), wrap64 (c + c')))
                   pools (0, 0) in
  Metrics.mkGauges a c (Throttled l).

(** What is logged of a target when its [Run] returned. *)
Inductive TargetLog := TargetError (e : goerr) | TargetDone (elapsed : duration) (stats : Crawl.CrawlStats).

Definition targetLog (elapsed : duration) (stats : Crawl.CrawlStats) (err ctxErr : option goerr) : TargetLog :=
  match err, ctxErr with
  | Some e, None => TargetError e
  | _, _ => TargetDone (Reporter.Round elapsed Millisecond) stats
  end.

(** ** [cmd/api] *)

Record APIProcess := mkAPI {
  apiAddr : string; apiRedis : string; apiStream : string;
  apiCounter : option string;                    (* the DSN of the sink that counts *)
  apiSchedule : option (list Harvest) }.         (* the harvests registered, when there is a schedule *)

(** The loop over the harvests of the schedule. *)
Fixpoint addHarvests (parseCron : string -> option goerr) (hs : list Harvest) (sched : Scheduler) : Exit + Scheduler :=
  match hs with
  | [] => inr sched
  | h :: rest =>
      let '(sched, err) := AddHarvest parseCron h sched in
      bind (must "register scheduled harvest" err sched) (addHarvests parseCron rest)
  end.

(** The sink that counts results, when its environment variable is set. *)
Definition openCounter (dsnEnv : string) : Exit + option string :=
  let dsn := Getenv dsnEnv in
  if decide (dsn <> "") then must "connect to postgres for job-status counting" (connect dsn) (Some dsn) else inr None.

(** The schedule, when a file is given. *)
Definition openSchedule (parseYAML : string -> goerr + list Harvest) (parseCron : string -> option goerr) (scheduleFile : string)
    (file : FileRead) : Exit + option (list Harvest) :=
  if decide (scheduleFile <> "") then
    match LoadHarvests parseYAML scheduleFile file with
    | inl e => inl (Fatal ("load schedule: " ++ errorText e))
    | inr hs => bind (addHarvests parseCron hs NewScheduler) (fun sched => inr (Some (registered sched)))
    end
  else inr None.

(** [main] up to [ListenAndServe]. *)
Definition startAPI (parseYAML : string -> goerr + list Harvest) (parseCron : string -> option goerr)
    (addr redisAddr redisStream dsnEnv scheduleFile : string) (file : FileRead) : Exit + APIProcess :=
  bind (openCounter dsnEnv) (fun counter =>
  bind (openSchedule parseYAML parseCron scheduleFile file) (fun schedule =>
  inr (mkAPI addr redisAddr redisStream counter schedule))).

(** How [ListenAndServe] ended: [None] when the server was shut down. *)
Definition serveEnd (r : Reporter.ServeResult) : option Exit :=
  match r with Reporter.ServeErr e => Some (Fatal ("serve: " ++ errorText e)) | _ => None end.

End Start.

(** * Properties *)

Section Properties.
Context `{TokenBucket} (Getenv : string -> string) (errorText : goerr -> string).
Context (loadFixtures launch createFile connect redis seed : string -> option goerr).

(** What a fetcher sends to the target site itself, rather than to a provider
    or nowhere. *)
Fixpoint sendsLive (f : FetcherKind) : bool :=
  match f with KMock _ | KProvider _ _ => false | KHTTP _ _ | KBrowser _ => true | KFailover p s => sendsLive p || sendsLive s end.

(** The format a fetcher's bodies have. *)
Fixpoint speaks (f : FetcherKind) : option ParserKind :=
  match f with
  | KMock _ | KHTTP _ _ | KBrowser _ => Some PHTML
  | KProvider _ _ => Some PJSON
  | KFailover p s => if decide (speaks p = speaks s) then speaks p else None
  end.

Lemma bind_inr {A B} (x : Exit + A) (f : A -> Exit + B) b : bind x f = inr b -> exists a, x = inr a /\ f a = inr b.
Proof. destruct x as [|a]; [done|]. by exists a. Qed.

Lemma buildBrowser_inr cfg f : buildBrowser errorText launch cfg = inr f -> exists c, f = KBrowser c.
Proof.
  unfold buildBrowser, NewPlaywrightFetcher. destruct (newConfig cfg) as [|c]; [done|]. destruct (launch _); [done|].
  intros [= <-]. by exists c.
Qed.

(** The modes that send requests to the target itself. *)
Definition liveMode (m : string) : Prop := m ∈ ["live"; "playwright"; "hybrid"].

Lemma buildFetcher_sound cfg reviewed f p :
  buildFetcherAndParser Getenv errorText loadFixtures launch cfg reviewed = inr (f, p) -> speaks f = Some p.
Proof.
  unfold buildFetcherAndParser, must. repeat case_decide; try done.
  - destruct (loadFixtures _); [done|]. by intros [= <- <-].
  - destruct reviewed; [|done]. by intros [= <- <-].
  - by intros [= <- <-].
  - destruct reviewed; [|done]. cbn [negb]. destruct (buildBrowser _ _ _) as [|b] eqn:Hb; [done|].
    apply buildBrowser_inr in Hb as [c ->]. by intros [= <- <-].
  - destruct reviewed; [|done]. cbn [negb]. destruct (buildBrowser _ _ _) as [|b] eqn:Hb; [done|].
    apply buildBrowser_inr in Hb as [c ->]. by intros [= <- <-].
Qed.

Lemma buildFetcher_live cfg reviewed f p :
  buildFetcherAndParser Getenv errorText loadFixtures launch cfg reviewed = inr (f, p) -> sendsLive f = true <-> liveMode (Mode cfg).
Proof.
  unfold buildFetcherAndParser, must, liveMode. rewrite !elem_of_cons, elem_of_nil. repeat case_decide; try done.
  - destruct (loadFixtures _); [done|]. intros [= <- _]. split; [done|]. intros [?|[?|[?|[]]]]; congruence.
  - destruct reviewed; [|done]. intros [= <- _]. split; [|done]. by left.
  - intros [= <- _]. split; [done|]. intros [?|[?|[?|[]]]]; congruence.
  - destruct (negb reviewed); [done|]. destruct (buildBrowser _ _ _) as [|b] eqn:Hb; [done|].
    apply buildBrowser_inr in Hb as [c ->]. intros [= <- _]. split; [|done]. tauto.
  - destruct (negb reviewed); [done|]. destruct (buildBrowser _ _ _) as [|b] eqn:Hb; [done|].
    intros [= <- _]. split; [|done]. tauto.
Qed.

Lemma buildFetcher_refused cfg : liveMode (Mode cfg) ->
  buildFetcherAndParser Getenv errorText loadFixtures launch cfg false = inl Refused.
Proof.
  unfold liveMode, buildFetcherAndParser. rewrite !elem_of_cons, elem_of_nil. by intros [->|[->|[->|[]]]].
Qed.

(** The jobs of a harvest: the queries themselves, at least one, or a Redis stream
    whose group exists, onto which the queries were pushed first when they are to
    seed it. *)
Definition feeds (cfg : Config) (src : SourceKind) : Prop :=
  match src with
  | SourceMemory qs _ => qs = cQueries cfg /\ qs <> [] /\ (QueueBackend cfg = "" \/ QueueBackend cfg = "memory")
  | SourceRedis stream group consumer seeded =>
      QueueBackend cfg = "redis" /\ stream = RedisStream cfg /\ group = RedisGroup cfg /\ consumer = RedisConsumer cfg /\
      redis (RedisAddr cfg) = None /\
      seeded = (if RedisSeedQueue cfg then cQueries cfg else []) /\ Forall (fun q => seed q = None) seeded
  end.

Lemma seedQueries_inr qs u : seedQueries errorText seed qs = inr u -> Forall (fun q => seed q = None) qs.
Proof.
  induction qs as [|q qs IH]; intros Hs; [by constructor|]. cbn [seedQueries] in Hs. unfold must in Hs.
  destruct (seed q) eqn:Hq; [done|]. constructor; [done|]. by apply IH.
Qed.

Lemma buildJobSource_feeds cfg src : cQueries cfg <> [] \/ QueueBackend cfg = "redis" ->
  buildJobSource errorText redis seed cfg = inr src -> feeds cfg src.
Proof.
  unfold buildJobSource, must. intros Hq. case_decide as Hm.
  - intros [= <-]. split; [done|]. split; [|done]. destruct Hq as [Hq|Hq]; [done|]. rewrite Hq in Hm. by destruct Hm.
  - case_decide as Hr; [|done]. destruct (redis _) eqn:Hg; [done|]. cbn [bind]. intros (u & Hs%seedQueries_inr & [= <-])%bind_inr.
    by split_and!.
Qed.

(** C31. A harvest only starts in a consistent set-up: the parser reads the
    format its fetcher answers in, whichever of the two fetchers of a hybrid run
    answers; its jobs are the queries, of which there is at least one, or, for a
    Redis queue, those of a stream whose group could be created, with the queries
    pushed onto it first when they are to seed it (the stream may be empty: the
    harvest then waits); and no fetcher that sends requests to the target itself is
    ever built without the review flag: in the modes that use one such a start is
    refused before anything is built, whatever its environment, and in the others
    no start builds one. *)
Theorem harvest_wiring_sound cfg mode queries reviewed :
  let c := withFlags mode queries cfg in
  let started := startHarvest Getenv errorText loadFixtures launch createFile connect redis seed cfg mode queries reviewed in
  (forall h, started = inr h ->
     speaks (hFetcher h) = Some (hParser h) /\ (sendsLive (hFetcher h) = true <-> liveMode (Mode c)) /\ feeds c (hSource h)) /\
  (liveMode (Mode c) -> reviewed = false -> cQueries c <> [] \/ QueueBackend c = "redis" -> started = inl Refused) /\
  (cQueries c = [] -> QueueBackend c <> "redis" -> exists msg, started = inl (Fatal msg)).
Proof.
  unfold startHarvest. set (c := withFlags mode queries cfg). clearbody c. cbv zeta.
  destruct (bool_decide (cQueries c = []) && negb (bool_decide (QueueBackend c = "redis"))) eqn:Hq.
  - split_and!; [done| |by eexists]. apply andb_true_iff in Hq as [Hq Hr%negb_true_iff].
    apply bool_decide_eq_true in Hq. apply bool_decide_eq_false in Hr. by intros _ _ [].
  - apply andb_false_iff in Hq. rewrite negb_false_iff, bool_decide_eq_false, bool_decide_eq_true in Hq. split_and!.
    + intros h ([f p] & Hf & (sink & _ & (s & _ & (src & Hsrc & Hh)%bind_inr)%bind_inr)%bind_inr)%bind_inr.
      injection Hh as <-. cbn [hFetcher hParser hSource fst snd]. split_and!; [by eapply buildFetcher_sound|by eapply buildFetcher_live|].
      by apply buildJobSource_feeds.
    + intros Hl -> _. by rewrite buildFetcher_refused.
    + intros Hn Hr. by destruct Hq.
Qed.

(** Both commands open the same sink for a configuration or refuse it alike, and
    the crawler closes what it opened itself: nothing but standard output stays
    open. *)
Lemma page_sink_agrees cfg :
  buildSink Getenv errorText createFile connect cfg =
    bind (buildPageSink Getenv errorText createFile connect cfg) (fun x => inr x.1) /\
  forall k c, buildPageSink Getenv errorText createFile connect cfg = inr (k, c) -> (c = CloseNothing <-> k = SinkStdout).
Proof.
  unfold buildSink, buildPageSink, must. repeat case_decide; try (split; [done|by intros]).
  - split; [done|]. by intros k c [= <- <-].
  - destruct (createFile _); (split; [done|]); [done|]. by intros k c [= <- <-].
  - destruct (connect _); (split; [done|]); [done|]. by intros k c [= <- <-].
Qed.

(** A plain HTTP fetcher of a crawl; [shells] for the one that reports app shells. *)
Definition plain (cfg : crawlConfig) (shells : bool) : FetcherKind :=
  KHTTP (mkHTTPFetcher "" true shells) (RequestTimeout (base cfg)).

(** The fetcher a target is to have, in a crawl whose browser has the settings [bc]. *)
Definition rendersWith (cfg : crawlConfig) (bc : PlaywrightConfig) (t : Target) (f : FetcherKind) : Prop :=
  (Render t = "browser" -> f = KBrowser bc) /\
  (Render t = "auto" -> f = KFailover (plain cfg true) (KBrowser bc)) /\
  (Render t <> "browser" -> Render t <> "auto" -> f = plain cfg false).

Lemma targetFetcher_renders cfg bc t : rendersWith cfg bc t
  (default (plain cfg false) (targetFetcher (plain cfg false) (plain cfg true) (Some (KBrowser bc)) t)).
Proof. unfold rendersWith, targetFetcher. split_and!; repeat case_decide; cbn; congruence. Qed.

Lemma targetFetcher_no_browser http shellAware b t : wantsBrowser t = false ->
  targetFetcher http shellAware None t = targetFetcher http shellAware b t.
Proof.
  unfold wantsBrowser, targetFetcher. intros [H1%bool_decide_eq_false H2%bool_decide_eq_false]%orb_false_iff.
  by rewrite !decide_False.
Qed.

Lemma wantsBrowser_none ts t : existsb wantsBrowser ts = false -> t ∈ ts -> wantsBrowser t = false.
Proof.
  intros He Ht. destruct (wantsBrowser t) eqn:Hw; [|done]. rewrite <- He. symmetry. apply existsb_exists. exists t.
  by rewrite <- list_elem_of_In.
Qed.

Lemma selectTargets_some file configPath urls only render depth maxPages ts :
  selectTargets file configPath urls only render depth maxPages = inr ts -> ts <> [].
Proof.
  unfold selectTargets. case_decide; [destruct (if decide (urls = "") then _ else _)|destruct (List.filter _ _)]; try done; by intros [= <-].
Qed.

(** The browser of a crawl has the settings of the configuration, with the
    defaults of the fetcher; it was launched. *)
Lemma crawl_browser cfg b : buildBrowser errorText launch (crawlBrowser (base cfg)) = inr b ->
  exists bc, newConfig (crawlBrowser (base cfg)) = inr bc /\ b = KBrowser bc /\ launch (BrowserExecutablePath (base cfg)) = None.
Proof.
  unfold buildBrowser, NewPlaywrightFetcher, newConfig, crawlBrowser. cbn [pwGeneric pwEndpoint negb andb]. rewrite andb_false_r.
  cbn [pwExecutablePath]. destruct (launch _); [done|]. intros [= <-]. by eexists.
Qed.

(** C32. A crawl only starts after review, with at least one target, and each target
    that runs is fetched the way it asks: in the browser, by plain HTTP with the
    browser as its fallback for app shells, or by plain HTTP; none gets the nil
    browser that the process keeps when no target renders.  The browser is launched
    when some target renders, and then a start needs it to come up; when none does,
    the start is the same whatever launching it would have done.  robots.txt is
    always fetched plainly. *)
Theorem crawl_wiring_sound cfg configPath urls only render depth maxPages reviewed c :
  startCrawl Getenv errorText launch createFile connect cfg configPath urls only render depth maxPages reviewed = inr c ->
  reviewed = true /\ robotsFetcher c = plain cfg false /\
  exists ts bc s, selectTargets (Targets cfg) configPath urls only render depth maxPages = inr ts /\ ts <> [] /\
    map (fun x => x.1.1) (perTarget c) = ts /\
    newConfig (crawlBrowser (base cfg)) = inr bc /\
    Forall (fun x => x.2 = buildProxies (base cfg) s /\ exists f, x.1.2 = Some f /\ rendersWith cfg bc x.1.1 f) (perTarget c) /\
    (existsb wantsBrowser ts = true -> launch (BrowserExecutablePath (base cfg)) = None) /\
    (existsb wantsBrowser ts = false -> forall launch' : string -> option goerr,
       startCrawl Getenv errorText launch' createFile connect cfg configPath urls only render depth maxPages reviewed = inr c).
Proof.
  unfold startCrawl. intros (ts & Hts & H1)%bind_inr. destruct reviewed; [|done]. cbn [negb] in H1 |- *.
  apply bind_inr in H1 as (b & Hb & H1). pose proof H1 as (sink & _ & (s & _ & Hc)%bind_inr)%bind_inr. 
  assert (Hf : exists bc, newConfig (crawlBrowser (base cfg)) = inr bc /\
    (existsb wantsBrowser ts = true -> launch (BrowserExecutablePath (base cfg)) = None) /\
    forall t, t ∈ ts -> targetFetcher (plain cfg false) (plain cfg true) b t =
                        targetFetcher (plain cfg false) (plain cfg true) (Some (KBrowser bc)) t).
  { destruct (existsb wantsBrowser ts) eqn:He.
    - apply bind_inr in Hb as (f & (bc & Hn & -> & Hl)%crawl_browser & [= <-]). by exists bc.
    - injection Hb as <-. eexists. split; [unfold newConfig, crawlBrowser; cbn; rewrite andb_false_r; reflexivity|].
      split; [done|]. intros t Ht. by apply targetFetcher_no_browser, (wantsBrowser_none ts). }
  destruct Hf as (bc & Hn & Hl & Hf). split; [done|]. injection Hc as <-. split; [done|]. exists ts, bc, s.
  split_and!; [done|by eapply selectTargets_some| |done| |done|].
  - cbn [perTarget]. rewrite map_map. apply map_id.
  - apply Forall_forall. intros x Hx. apply list_elem_of_In, in_map_iff in Hx as (t & <- & Ht%list_elem_of_In).
    split; [done|]. cbn [fst snd]. pose proof (targetFetcher_renders cfg bc t) as Hr. fold (plain cfg false) (plain cfg true).
    rewrite (Hf t Ht). unfold targetFetcher in *. repeat case_decide; eexists; (split; [reflexivity|exact Hr]).
  - intros He launch'. rewrite Hts. cbn [bind]. rewrite He in Hb |- *. injection Hb as <-. exact H1.
Qed.

Lemma addHarvests_spec parseCron hs : forall sched sched', addHarvests errorText parseCron hs sched = inr sched' ->
  registered sched' = (registered sched ++ hs)%list /\ Forall (fun h => parseCron (CronExpr h) = None) hs.
Proof.
  induction hs as [|h hs IH]; intros sched sched' Ha; cbn [addHarvests] in Ha; [injection Ha as <-; by rewrite app_nil_r|].
  unfold AddHarvest, must in Ha. destruct (parseCron (CronExpr h)) eqn:Hp; [done|]. cbn [bind] in Ha.
  destruct (IH _ _ Ha) as [Hr Hf]. split; [rewrite Hr; cbn [registered]; by rewrite <- app_assoc|by constructor].
Qed.

(** The API process starts with exactly what it was given: completion is
    counted in the database named by the environment variable, when it is set,
    and only after that database answered; with a schedule file every harvest in
    it is registered, in order and with a cron expression that parses, and a file
    that cannot be read, parsed or registered stops the process; a file that
    does not exist is an empty schedule. *)
Theorem api_start_sound parseYAML parseCron addr redisAddr redisStream dsnEnv scheduleFile file p :
  startAPI Getenv errorText connect parseYAML parseCron addr redisAddr redisStream dsnEnv scheduleFile file = inr p ->
  match apiCounter p with
  | Some dsn => dsn = Getenv dsnEnv /\ dsn <> "" /\ connect dsn = None
  | None => Getenv dsnEnv = ""
  end /\
  match apiSchedule p with
  | None => scheduleFile = ""
  | Some hs => scheduleFile <> "" /\ Forall (fun h => parseCron (CronExpr h) = None) hs /\
      match file with
      | FileMissing _ => hs = []
      | FileError _ => False
      | FileData b => parseYAML b = inr hs
      end
  end.
Proof.
  unfold startAPI, openCounter, openSchedule. intros (counter & Hc & (sched & Hs & Hp)%bind_inr)%bind_inr. injection Hp as <-.
  cbn [apiCounter apiSchedule]. split.
  - destruct (decide (Getenv dsnEnv <> "")) as [Hne|He]; [|injection Hc as <-; by apply dec_stable].
    unfold must in Hc. destruct (connect _) eqn:Hcon; [done|]. by injection Hc as <-.
  - destruct (decide (scheduleFile <> "")) as [Hne|He]; [|injection Hs as <-; by apply dec_stable].
    destruct (LoadHarvests _ _ _) as [|hs] eqn:Hl; [done|]. apply bind_inr in Hs as (sc & Ha & [= <-]).
    apply addHarvests_spec in Ha as [-> Hf]. cbn [registered NewScheduler app]. split_and!; [done|done|].
    unfold LoadHarvests in Hl. rewrite decide_False in Hl by done.
    destruct file as [e|e|b]; [by injection Hl|done|]. destruct (parseYAML b); [done|]. by injection Hl as ->.
Qed.

End Properties.

Definition noError (_ : string) : option goerr := None.

(** A hybrid harvest of a Redis stream that the queries seed. *)
Definition toyConfig : Config :=
  mkConfig "hybrid" ["a"; "b"] "redis" "localhost:6379" "s" "g" "w" true
    8 2 f64_one 1 true f64_zero [] 3 (30 * Second) (10 * Minute) "round_robin" (2 * Minute)
    "https://www.google.com/search" (10 * Second) "" "" "" "google" 4 false "" "" 50 "jsonl" "" "-" (2 * Second) "".

Definition toyHarvest : Harvesting :=
  match startHarvest (H := rateBucket) (fun _ => "") (fun _ => "") noError noError noError noError noError noError toyConfig "" "" true with
  | inr h => h
  | inl _ => mkHarvesting (KMock "") PHTML SinkStdout (buildProxies Default RoundRobin) (buildLimiter true f64_one 1 f64_zero) (SourceMemory [] 0)
  end.

Lemma harvest_wiring_sound_witness :
  sendsLive (hFetcher toyHarvest) = true /\ speaks (hFetcher toyHarvest) = Some PHTML /\
  hSource toyHarvest = SourceRedis "s" "g" "w" ["a"; "b"] /\ feeds noError noError toyConfig (hSource toyHarvest) /\
  startHarvest (H := rateBucket) (fun _ => "") (fun _ => "") noError noError noError noError noError noError toyConfig "" "" false = inl Refused.
Proof.
  split; [vm_compute; reflexivity|].
  destruct (harvest_wiring_sound (H := rateBucket) (fun _ => "") (fun _ => "") noError noError noError noError noError noError
    toyConfig "" "" true) as (Hs & _). specialize (Hs toyHarvest eq_refl).
  split; [exact (proj1 Hs)|]. split; [vm_compute; reflexivity|]. split; [exact (proj2 (proj2 Hs))|].
  destruct (harvest_wiring_sound (H := rateBucket) (fun _ => "") (fun _ => "") noError noError noError noError noError noError
    toyConfig "" "" false) as (_ & Hr & _). apply Hr; [right; right; left|reflexivity|left; discriminate].
Defined.

Definition toyCrawl : Crawling :=
  match startCrawl (H := rateBucket) (fun _ => "") (fun _ => "") noError noError noError
          crawlDefaults "" "http://a/,http://b/" "" "auto" 1 10 true with
  | inr c => c
  | inl _ => mkCrawling (KMock "") [] (SinkStdout, CloseNothing) (buildLimiter true f64_one 1 f64_zero)
  end.

Lemma crawl_wiring_sound_witness :
  map (fun x => x.1.2) (perTarget toyCrawl) =
    [Some (KFailover (plain crawlDefaults true) (KBrowser (mkPlaywright "" (20 * Second) 4 50 true "" true "")))] /\
  robotsFetcher toyCrawl = plain crawlDefaults false /\ existsb wantsBrowser (map (fun x => x.1.1) (perTarget toyCrawl)) = true.
Proof.
  split; [vm_compute; reflexivity|].
  destruct (crawl_wiring_sound (H := rateBucket) (fun _ => "") (fun _ => "") noError noError noError
    crawlDefaults "" "http://a/,http://b/" "" "auto" 1 10 true toyCrawl eq_refl) as (_ & H2 & _).
  split; [exact H2|vm_compute; reflexivity].
Defined.

Definition toyHarvests : list Harvest := [mkHarvest "morning" "0 10 * * *" ["cats"] "US" "en" ""].

Definition toyEnv (e : string) : string := if decide (e = "POSTGRES_DSN") then "postgres://db" else "".

Definition toyAPI : Exit + APIProcess :=
  startAPI toyEnv (fun _ => "") noError
    (fun _ => inr toyHarvests) noError ":8080" "localhost:6379" "serp-harvester:queries" "POSTGRES_DSN" "s.yaml" (FileData "harvests").

Definition toyAPIProcess : APIProcess :=
  mkAPI ":8080" "localhost:6379" "serp-harvester:queries" (Some "postgres://db") (Some toyHarvests).

Lemma api_start_sound_witness : toyAPI = inr toyAPIProcess /\ Forall (fun h => noError (CronExpr h) = None) toyHarvests.
Proof.
  assert (Hs : toyAPI = inr toyAPIProcess) by (vm_compute; reflexivity). split; [exact Hs|].
  destruct (api_start_sound toyEnv (fun _ => "") noError
    (fun _ => inr toyHarvests) noError ":8080" "localhost:6379" "serp-harvester:queries" "POSTGRES_DSN" "s.yaml" (FileData "harvests")
    toyAPIProcess Hs) as [_ (_ & H & _)]. exact H.
Defined.
