(* ===== verification/Process.v ===== *)
(** * The life of a process ([cmd/harvester], [cmd/crawl], [cmd/api])

    [main] of the three commands from the flags to the return: what is acquired,
    in which order, when the work runs, what the deferred calls release and what
    nothing does.  A process is its trace of effects; [log.Fatal] and [os.Exit] end it where it
    stands, without the deferred calls.  What the work itself does is in
    [PoolRun], [Coordinator] and [Jobs]. *)

From Stdlib Require Import Ascii.
From S2P Require Import Prelude Float64 GoString Errors RateLimit CrawlScope Jobs Commands.
From S2P Require Reporter.

Open Scope string_scope.

(** ** Effects *)

(** What a process takes hold of. *)
Inductive resource :=
  | RBrowser                         (* the fetcher with a browser *)
  | RSink (k : SinkKind)             (* the result sink of the harvester *)
  | RPageSink (k : SinkKind) (c : CloseSink)
  | RSignals                         (* [signal.NotifyContext] *)
  | RReporter
  | RRedis (addr : string)           (* [redis.NewClient] *)
  | RCounter (dsn : string)          (* the sink that counts results *)
  | RScheduler.

Inductive effect :=
  | Acquired (r : resource)
  | Released (r : resource)
  | MetricsStarted (addr : string)
  | TargetStarted (name : string)    (* [go func] of a target *)
  | WorkBegun                        (* [pool.Run], [ListenAndServe] called *)
  | WorkDone.                        (* [pool.Run], [wg.Wait], [ListenAndServe] returned *)

(** A trace, and the exit that cut it short or the value it leads to. *)
Definition Proc (A : Type) : Type := (list effect * (Exit + A))%type.

#[export] Instance Proc_ret : MRet Proc := fun _ a => ([], inr a).
#[export] Instance Proc_bind : MBind Proc := fun _ _ f p =>
  match p.2 with
  | inl e => (p.1, inl e)
  | inr a => let q := f a in ((p.1 ++ q.1)%list, q.2)
  end.

Definition does (es : list effect) : Proc unit := (es, inr tt).
Definition lift {A} (x : Exit + A) : Proc A := ([], x).

(** A fetcher that is an [io.Closer]. *)
Definition isCloser (f : FetcherKind) : bool := match f with KBrowser _ | KFailover _ _ => true | _ => false end.

Definition metricsServer (addr : string) : list effect := if decide (addr = "") then [] else [MetricsStarted addr].

Section Main.
Context (Getenv : string -> string) (errorText : goerr -> string).
Context (loadFixtures launch createFile connect redis seed : string -> option goerr).

(** ** [cmd/harvester] *)

Definition checkQueries (cfg : Config) : Exit + unit :=
  if bool_decide (cQueries cfg = []) && negb (bool_decide (QueueBackend cfg = "redis"))
  then inl (Fatal "no queries configured (set queries: in config or pass -queries)") else inr tt.

(** The deferred [Close] of a fetcher that has one, and what comes before it. *)
Definition harvestMain (unmarshal : string -> Config -> Config * option goerr) (path : string) (file : goerr + string)
    (mode queries : string) (reviewed : bool) : Proc unit :=
  let '(cfg, err) := Load unmarshal path file in
  cfg ← lift (must errorText "load config" err cfg);
  let cfg := withFlags mode queries cfg in
  _ ← lift (checkQueries cfg);
  fp ← lift (buildFetcherAndParser Getenv errorText loadFixtures launch cfg reviewed);
  let browser := if isCloser fp.1 then [RBrowser] else [] in
  _ ← does (map Acquired browser);
  sink ← lift (buildSink Getenv errorText createFile connect cfg);
  _ ← does [Acquired (RSink sink)];
  _ ← lift (parseProxyStrategy (ProxyStrategy cfg));
  _ ← does ([Acquired RSignals] ++ metricsServer (MetricsAddr cfg) ++ [Acquired RReporter]);
  _ ← does (if decide (QueueBackend cfg = "redis") then [Acquired (RRedis (RedisAddr cfg))] else []);
  _ ← lift (buildJobSource errorText redis seed cfg);
  does ([WorkBegun; WorkDone; Released RReporter; Released RSignals] ++ map Released browser).

(** ** [cmd/crawl] *)

(** The loop that starts the targets. *)
Fixpoint startTargets (strategy : string) (ts : list Target) : Proc unit :=
  match ts with
  | [] => mret tt
  | t :: rest =>
      _ ← lift (parseProxyStrategy strategy);
      _ ← does [TargetStarted (tName t)];
      startTargets strategy rest
  end.

Definition crawlMain (unmarshal : string -> crawlConfig -> crawlConfig * option goerr) (configPath : string)
    (file : goerr + string) (urls only render : string) (depth maxPages : Z) (reviewed : bool) : Proc unit :=
  let '(cfg, err) := load unmarshal configPath file in
  cfg ← lift (must errorText "load config" err cfg);
  targets ← lift (selectTargets (Targets cfg) configPath urls only render depth maxPages);
  _ ← lift (if reviewed then inr tt else inl Refused);
  let c := base cfg in
  let browser := if existsb wantsBrowser targets then [RBrowser] else [] in
  _ ← lift (if existsb wantsBrowser targets then bind (buildBrowser errorText launch (crawlBrowser c)) (fun _ => inr tt) else inr tt);
  _ ← does (map Acquired browser);
  sink ← lift (buildPageSink Getenv errorText createFile connect c);
  _ ← does ([Acquired (RPageSink sink.1 sink.2); Acquired RSignals] ++ metricsServer (MetricsAddr c) ++ [Acquired RReporter]);
  _ ← startTargets (ProxyStrategy c) targets;
  does ([WorkDone; Released RReporter; Released RSignals; Released (RPageSink sink.1 sink.2)] ++ map Released browser).

(** ** [cmd/api] *)

Definition apiMain (parseYAML : string -> goerr + list Harvest) (parseCron : string -> option goerr)
    (redisAddr dsnEnv scheduleFile : string) (file : FileRead) (served : Reporter.ServeResult) : Proc unit :=
  _ ← does [Acquired (RRedis redisAddr)];
  counter ← lift (openCounter Getenv errorText connect dsnEnv);
  let db := match counter with Some dsn => [RCounter dsn] | None => [] end in
  _ ← does (map Acquired db ++ [Acquired RSignals]);
  schedule ← lift (openSchedule errorText parseYAML parseCron scheduleFile file);
  let cron := match schedule with Some _ => [RScheduler] | None => [] end in
  _ ← does (map Acquired cron);
  _ ← does [WorkBegun];
  _ ← lift (match serveEnd errorText served with Some e => inl e | None => inr tt end);
  does ([WorkDone] ++ map Released cron ++ [Released RSignals] ++ map Released db).

End Main.

(** * Properties *)

#[export] Instance resource_eq_dec : EqDecision resource.
Proof. assert (EqDecision CloseSink) by solve_decision. assert (EqDecision SinkKind) by solve_decision. solve_decision. Defined.

(** What a trace takes hold of, in order. *)
Fixpoint acquired (tr : list effect) : list resource :=
  match tr with
  | [] => []
  | Acquired r :: tr => r :: acquired tr
  | _ :: tr => acquired tr
  end.

(** What no command closes: the sink of a harvest and the Redis clients last as
    long as the process. *)
Definition keeps (r : resource) : bool := match r with RSink _ | RRedis _ => true | _ => false end.

Definition isRelease (e : effect) : bool := match e with Released _ => true | _ => false end.

(** The work: from the first target, [pool.Run] or [ListenAndServe] on. *)
Definition isWork (e : effect) : bool := match e with TargetStarted _ | WorkBegun | WorkDone => true | _ => false end.

Definition preparing (e : effect) : bool := negb (isRelease e) && negb (isWork e).

(** A process cut short: nothing was released and the work did not end; it had
    begun or not. *)
Definition cut (begun : bool) (tr : list effect) : Prop :=
  forallb (fun e => negb (isRelease e)) tr = true /\ existsb isWork tr = begun /\ WorkDone ∉ tr.

(** A process that returned: the preparation, the work from its beginning to its
    end, and then the release of everything that is not kept, the last acquired
    first. *)
Definition orderly (tr : list effect) : Prop :=
  exists before work, tr = (before ++ work ++ WorkDone :: map Released (rev (List.filter (fun r => negb (keeps r)) (acquired before))))%list /\
    forallb preparing before = true /\ forallb isWork work = true /\ work <> [].

(** ** Reasoning about traces *)

(** However the process ends: cut short before its work, or with [Q] of its trace and value. *)
Definition ends {A} (p : Proc A) (Q : list effect -> A -> Prop) : Prop :=
  match p.2 with inl _ => forallb preparing p.1 = true | inr a => Q p.1 a end.

Lemma preparing_cut tr : forallb preparing tr = true -> cut false tr.
Proof.
  unfold cut. induction tr as [|e tr IH]; cbn; [by split; [|split; [|apply not_elem_of_nil]]|]. intros [He (H1 & H2 & H3)%IH]%andb_true_iff.
  unfold preparing in He. apply andb_true_iff in He as [Hr Hw%negb_true_iff]. rewrite Hr, Hw, H1, H2. split; [done|]. split; [done|].
  apply not_elem_of_cons. by destruct e.
Qed.

Lemma acquired_app a b : acquired (a ++ b) = (acquired a ++ acquired b)%list.
Proof. induction a as [|[] a IH]; cbn; by rewrite ?IH. Qed.

Lemma ends_bind {A B} (p : Proc A) (f : A -> Proc B) Q :
  ends p (fun tr a => forallb preparing tr = true /\ ends (f a) (fun tr' b => Q (tr ++ tr')%list b)) -> ends (p ≫= f) Q.
Proof.
  unfold ends. destruct p as [tr [e|a]]; cbn; [done|]. intros [Ht Hf]. destruct (f a) as [tr' [e|b]]; cbn in *; [|done].
  by rewrite forallb_app, Ht.
Qed.

Lemma ends_lift {A} (x : Exit + A) (Q : list effect -> A -> Prop) : (forall a, x = inr a -> Q [] a) -> ends (lift x) Q.
Proof. unfold ends, lift. destruct x as [e|a]; cbn; [done|]. intros H. by apply H. Qed.

(** The step of a process that takes a value. *)
Ltac proc_lift := apply ends_bind, ends_lift; intros ? ?; split; [done|]; cbv beta.

(** The step of a process that has effects, by cases on what they depend on. *)
Ltac proc_does := apply ends_bind; split;
  [unfold metricsServer; cbn [fst does]; repeat case_decide; try done; by repeat case_match|]; cbv beta.

Lemma metricsServer_cases addr : metricsServer addr = [] \/ metricsServer addr = [MetricsStarted addr].
Proof. unfold metricsServer. case_decide; auto. Qed.

Lemma startTargets_eq strategy ts : ts <> [] ->
  startTargets strategy ts =
    match parseProxyStrategy strategy with
    | inl e => ([], inl e)
    | inr _ => (map (fun t => TargetStarted (tName t)) ts, inr tt)
    end.
Proof.
  induction ts as [|t ts IH]; [done|]. intros _. cbn [startTargets]. unfold mbind, Proc_bind, lift, does.
  destruct (parseProxyStrategy strategy) as [e|s]; [done|]. cbn [fst snd app]. destruct ts as [|t' ts]; [done|]. by rewrite IH.
Qed.

Lemma orderly_intro before work tr : work <> [] -> forallb preparing before = true -> forallb isWork work = true ->
  tr = (before ++ work ++ WorkDone :: map Released (rev (List.filter (fun r => negb (keeps r)) (acquired before))))%list -> orderly tr.
Proof. intros Hn Hp Hw ->. by exists before, work. Qed.

(** Splits a trace that is known up to its data into preparation and work. *)
Ltac work_split := match goal with |- orderly ?tr => apply (orderly_intro (List.filter preparing tr) [WorkBegun]) end.

Ltac cut_split := split; [|split]; [done..|rewrite ?not_elem_of_cons; repeat split; try done; apply not_elem_of_nil].

Section Lifecycle.
Context `{TokenBucket} (Getenv : string -> string) (errorText : goerr -> string).
Context (loadFixtures launch createFile connect redis seed : string -> option goerr).

(** The modes that fetch through a browser. *)
Definition browserMode (c : Config) : Prop := Mode c = "playwright" \/ Mode c = "hybrid".

Lemma browserMode_closer cfg reviewed fp : buildFetcherAndParser Getenv errorText loadFixtures launch cfg reviewed = inr fp ->
  isCloser fp.1 = true <-> browserMode cfg.
Proof.
  unfold buildFetcherAndParser, must, browserMode. repeat case_decide; try done.
  - destruct (loadFixtures _); [done|]. intros [= <-]. split; [done|]. intros [E|E]; congruence.
  - destruct reviewed; [|done]. intros [= <-]. split; [done|]. intros [E|E]; congruence.
  - intros [= <-]. split; [done|]. intros [E|E]; congruence.
  - destruct reviewed; [|done]. destruct (buildBrowser _ _ _) as [|b] eqn:Hb; [done|]. apply buildBrowser_inr in Hb as [c ->].
    by intros [= <-].
  - destruct reviewed; [|done]. destruct (buildBrowser _ _ _) as [|b]; [done|]. by intros [= <-].
Qed.

Lemma harvest_ends unmarshal path file mode queries reviewed :
  ends (harvestMain Getenv errorText loadFixtures launch createFile connect redis seed unmarshal path file mode queries reviewed)
    (fun tr _ => orderly tr /\ (RBrowser ∈ acquired tr <-> browserMode (withFlags mode queries (Load unmarshal path file).1))).
Proof.
  unfold harvestMain. destruct (Load unmarshal path file) as [cfg err]. cbn [fst]. apply ends_bind, ends_lift. intros a Ha.
  unfold must in Ha. destruct err; [done|]. injection Ha as <-. split; [done|]. proc_lift.
  apply ends_bind, ends_lift. intros fp Hfp%browserMode_closer. split; [done|]. cbv beta.
  proc_does. proc_lift. proc_does. proc_lift. proc_does. proc_does. proc_lift. unfold ends, does. cbn [fst snd].
  rewrite <- Hfp. clear Hfp.
  destruct (metricsServer_cases (MetricsAddr (withFlags mode queries cfg))) as [->| ->], (isCloser fp.1), (decide (QueueBackend _ = "redis")).
  all: split; [by work_split|cbn; rewrite ?elem_of_cons, ?elem_of_nil; intuition congruence].
Qed.

Lemma acquired_targets ts : acquired (map (fun t => TargetStarted (tName t)) ts) = [].
Proof. by induction ts. Qed.

Lemma crawl_ends unmarshal configPath file urls only render depth maxPages reviewed :
  ends (crawlMain Getenv errorText launch createFile connect unmarshal configPath file urls only render depth maxPages reviewed)
    (fun tr _ => orderly tr /\ forallb (fun r => negb (keeps r)) (acquired tr) = true /\
       exists ts, selectTargets (Targets (load unmarshal configPath file).1) configPath urls only render depth maxPages = inr ts /\
         (RBrowser ∈ acquired tr <-> existsb wantsBrowser ts = true)).
Proof.
  unfold crawlMain. destruct (load unmarshal configPath file) as [cfg err]. cbn [fst]. apply ends_bind, ends_lift. intros a Ha.
  unfold must in Ha. destruct err; [done|]. injection Ha as <-. split; [done|].
  apply ends_bind, ends_lift. intros ts Hts. split; [done|]. proc_lift. proc_lift. proc_does. proc_lift. proc_does.
  rewrite startTargets_eq by (by eapply selectTargets_some). destruct (parseProxyStrategy _) as [|s]; [done|].
  unfold ends, does, mbind, Proc_bind. cbn [fst snd]. 
  set (started := map _ ts).
  assert (Hw : forallb isWork started = true /\ started <> [] /\ acquired started = []).
  { split; [by apply forallb_forall; intros e (t & <- & _)%in_map_iff|]. split; [|apply acquired_targets].
    apply selectTargets_some in Hts. by destruct ts. }
  destruct Hw as (Hw & Hn & Ha). 
  set (browser := if existsb wantsBrowser ts then [RBrowser] else []). set (metrics := metricsServer _). clearbody started.
  split; [|split].
  - apply (orderly_intro (map Acquired browser ++ [Acquired (RPageSink a1.1 a1.2); Acquired RSignals] ++ metrics ++ [Acquired RReporter]) started);
      [done| |done|].
    all: unfold browser, metrics; destruct (metricsServer_cases (MetricsAddr (base cfg))) as [->| ->], (existsb wantsBrowser ts); done.
  - rewrite !acquired_app, Ha. unfold browser, metrics.
    by destruct (metricsServer_cases (MetricsAddr (base cfg))) as [->| ->], (existsb wantsBrowser ts).
  - exists ts. split; [done|]. rewrite !acquired_app, Ha. unfold browser, metrics.
    destruct (metricsServer_cases (MetricsAddr (base cfg))) as [->| ->], (existsb wantsBrowser ts); cbn;
      rewrite ?elem_of_cons, ?elem_of_nil; intuition congruence.
Qed.

Lemma api_ends parseYAML parseCron addr redisAddr redisStream dsnEnv scheduleFile file served :
  let '(tr, r) := apiMain Getenv errorText connect parseYAML parseCron redisAddr dsnEnv scheduleFile file served in
  match r with
  | inr _ => orderly tr
  | inl _ =>
      cut (match startAPI Getenv errorText connect parseYAML parseCron addr redisAddr redisStream dsnEnv scheduleFile file with
           | inr _ => true | inl _ => false end) tr
  end.
Proof.
  unfold apiMain, startAPI, cut, mbind, Proc_bind, lift, does. cbn [fst snd app].
  destruct (openCounter _ _ _ _) as [e|[dsn|]]; cbn [bind fst snd app map].
  1: by cut_split.
  all: destruct (openSchedule _ _ _ _ _) as [e|[hs|]]; cbn [bind fst snd app map]; [by cut_split|..].
  all: destruct (serveEnd _ _) as [e|]; cbn [bind fst snd app map]; [by cut_split|by work_split].
Qed.

(** ** The exit is that of the start *)

Lemma snd_bind {A B} (p : Proc A) (f : A -> Proc B) : (p ≫= f).2 = bind p.2 (fun a => (f a).2).
Proof. by destruct p as [tr [e|a]]. Qed.

(** One step of [main] and of the start it is compared with. *)
Ltac next := rewrite snd_bind; cbn [lift does snd bind].

Lemma harvest_exit unmarshal path file mode queries reviewed :
  (harvestMain Getenv errorText loadFixtures launch createFile connect redis seed unmarshal path file mode queries reviewed).2 =
  bind (loadAndStartHarvest Getenv errorText loadFixtures launch createFile connect redis seed unmarshal path file mode queries reviewed)
    (fun _ => inr tt).
Proof.
  unfold harvestMain, loadAndStartHarvest, startHarvest, checkQueries. destruct (Load unmarshal path file) as [cfg err].
  next. destruct (must _ _ _ _) as [e|c]; [done|]. cbn [bind].
  next. destruct (_ && _); [done|]. cbn [bind].
  next. destruct (buildFetcherAndParser _ _ _ _ _ _) as [e|fp]; [done|]. cbn [bind].
  next. next. destruct (buildSink _ _ _ _ _) as [e|k]; [done|]. cbn [bind].
  next. next. destruct (parseProxyStrategy _) as [e|s]; [done|]. cbn [bind].
  next. next. next. by destruct (buildJobSource _ _ _ _).
Qed.

Lemma crawl_exit unmarshal configPath file urls only render depth maxPages reviewed :
  (crawlMain Getenv errorText launch createFile connect unmarshal configPath file urls only render depth maxPages reviewed).2 =
  bind (loadAndStartCrawl Getenv errorText launch createFile connect unmarshal configPath file urls only render depth maxPages reviewed)
    (fun _ => inr tt).
Proof.
  unfold crawlMain, loadAndStartCrawl, startCrawl. destruct (load unmarshal configPath file) as [cfg err].
  next. destruct (must _ _ _ _) as [e|c]; [done|]. cbn [bind].
  next. destruct (selectTargets _ _ _ _ _ _ _) as [e|ts] eqn:Hts; [done|]. cbn [bind].
  rewrite snd_bind. destruct reviewed; [|done]. cbn [lift snd bind negb].
  next.
  assert (Hb : forall x, (if existsb wantsBrowser ts then bind x (fun _ => inr tt) else inr tt) =
    bind (if existsb wantsBrowser ts then bind x (fun b => inr (Some b)) else inr None) (fun _ : option FetcherKind => (inr tt : Exit + unit)))
    by (intros x; destruct (existsb _ _); [by destruct x|done]).
  rewrite Hb. destruct (if existsb wantsBrowser ts then _ else _) as [e|b]; [done|]. cbn [bind].
  next. next. destruct (buildPageSink _ _ _ _ _) as [e|k]; [done|]. cbn [bind].
  next. rewrite snd_bind, startTargets_eq by (by eapply selectTargets_some).
  by destruct (parseProxyStrategy _).
Qed.

Lemma api_exit parseYAML parseCron addr redisAddr redisStream dsnEnv scheduleFile file served :
  (apiMain Getenv errorText connect parseYAML parseCron redisAddr dsnEnv scheduleFile file served).2 =
  bind (startAPI Getenv errorText connect parseYAML parseCron addr redisAddr redisStream dsnEnv scheduleFile file)
    (fun _ => match serveEnd errorText served with Some e => inl e | None => inr tt end).
Proof.
  unfold apiMain, startAPI. next. next. destruct (openCounter _ _ _ _) as [e|c]; [done|]. cbn [bind].
  next. next. destruct (openSchedule _ _ _ _ _) as [e|sc]; [done|]. cbn [bind].
  next. next. next. by destruct (serveEnd _ _).
Qed.

(** C24. The life of the three processes.  Each ends as its start-up decides: the
    harvester and the crawler exit early exactly when their set-up does, with its
    message, and the API also when its server fails.  A process that returns has
    acquired everything before its work, and released it after the work ended, the
    last acquired first, except the result sink of a harvest and the Redis clients,
    which no command closes and which last until the process is gone; the crawler
    leaves nothing.  So a browser, which such a harvest has launched exactly in the modes
    playwright and hybrid and such a crawl exactly when some target renders, is closed
    once the workers are done and the last report is printed, and a page sink is
    closed while the browser still runs.  A process that exits early released
    nothing; the harvester and the crawler have then not begun their work, while an
    API whose server fails has, and leaves its scheduler and its database open. *)
Theorem process_lifecycle :
  (forall unmarshal path file mode queries reviewed,
     let '(tr, r) := harvestMain Getenv errorText loadFixtures launch createFile connect redis seed unmarshal path file mode queries reviewed in
     r = bind (loadAndStartHarvest Getenv errorText loadFixtures launch createFile connect redis seed unmarshal path file mode queries reviewed)
           (fun _ => inr tt) /\
     match r with
     | inr _ => orderly tr /\ (RBrowser ∈ acquired tr <-> browserMode (withFlags mode queries (Load unmarshal path file).1))
     | inl _ => cut false tr
     end) /\
  (forall unmarshal configPath file urls only render depth maxPages reviewed,
     let '(tr, r) := crawlMain Getenv errorText launch createFile connect unmarshal configPath file urls only render depth maxPages reviewed in
     r = bind (loadAndStartCrawl Getenv errorText launch createFile connect unmarshal configPath file urls only render depth maxPages reviewed)
           (fun _ => inr tt) /\
     match r with
     | inr _ => orderly tr /\ forallb (fun r => negb (keeps r)) (acquired tr) = true /\
         exists ts, selectTargets (Targets (load unmarshal configPath file).1) configPath urls only render depth maxPages = inr ts /\
           (RBrowser ∈ acquired tr <-> existsb wantsBrowser ts = true)
     | inl _ => cut false tr
     end) /\
  (forall parseYAML parseCron addr redisAddr redisStream dsnEnv scheduleFile file served,
     let '(tr, r) := apiMain Getenv errorText connect parseYAML parseCron redisAddr dsnEnv scheduleFile file served in
     let started := startAPI Getenv errorText connect parseYAML parseCron addr redisAddr redisStream dsnEnv scheduleFile file in
     r = bind started (fun _ => match serveEnd errorText served with Some e => inl e | None => inr tt end) /\
     match r with
     | inr _ => orderly tr
     | inl _ => cut (match started with inr _ => true | inl _ => false end) tr
     end).
Proof.
  split_and!; intros.
  - pose proof (harvest_ends unmarshal path file mode queries reviewed) as He.
    pose proof (harvest_exit unmarshal path file mode queries reviewed) as Hx.
    destruct (harvestMain _ _ _ _ _ _ _ _ _ _ _ _ _ _) as [tr [e|[]]]; split; try done. by apply preparing_cut.
  - pose proof (crawl_ends unmarshal configPath file urls only render depth maxPages reviewed) as He.
    pose proof (crawl_exit unmarshal configPath file urls only render depth maxPages reviewed) as Hx.
    destruct (crawlMain _ _ _ _ _ _ _ _ _ _ _ _ _ _) as [tr [e|[]]]; split; try done. by apply preparing_cut.
  - pose proof (api_ends parseYAML parseCron addr redisAddr redisStream dsnEnv scheduleFile file served) as He.
    pose proof (api_exit parseYAML parseCron addr redisAddr redisStream dsnEnv scheduleFile file served) as Hx.
    destruct (apiMain _ _ _ _ _ _ _ _ _ _) as [tr r]. by split.
Qed.

End Lifecycle.

(** ** Exits that leave a browser running

    The harvester defers the [Close] of its browser, but a bad sink, strategy or
    queue ends it through [log.Fatal], which runs no deferred call. *)
Example fatal_skips_close :
  let '(tr, r) := harvestMain (fun _ => "") (fun _ => "") noError noError noError noError noError noError
    (fun _ _ => (withFlags "playwright" "cats" (mkConfig "mock" [] "kafka" "" "" "" "" false 8 2 f64_one 1 true f64_zero [] 3
       (30 * Second) (10 * Minute) "round_robin" (2 * Minute) "https://www.google.com/search" (10 * Second) "" "" "" "google" 4 false "" ""
       50 "jsonl" "" "-" (2 * Second) ""), None)) "c.yaml" (inr "") "" "" true in
  r = inl (Fatal ("unknown queue_backend " ++ quoted "kafka" ++ " (want memory|redis)")) /\
  tr = [Acquired RBrowser; Acquired (RSink SinkStdout); Acquired RSignals; Acquired RReporter].
Proof. by vm_compute. Qed.
