(* ===== verification/Shutdown.v ===== *)
(** * The shutdown of the API ([cmd/api], [internal/api])

    The requests in flight, the signal, [http.Server.Shutdown] and the return of
    [main] as a transition system.  [net/http] documents that [ListenAndServe]
    returns as soon as [Shutdown] is called, while [Shutdown] itself waits for the
    requests in flight or its context; [main] returns after the former, and with it
    the process ends.  A server that fails ends the process through [log.Fatalf]. *)

From Stdlib Require Import Ascii.
From S2P Require Import Prelude GoString Errors Model Jobs.

Open Scope list_scope.

(** A [POST /jobs] in its loop: the jobs of the request pushed, and those left. *)
Record Handling := mkHandling { hPushed : list Job; hTodo : list Job }.

(** Where [main] is: in [ListenAndServe], past it, or gone with the process. *)
Inductive mphase := Serving | ListenReturned | Exited.

#[export] Instance mphase_eq_dec : EqDecision mphase.
Proof. solve_decision. Defined.








(** * Properties *)

#[export] Instance Handling_eq_dec : EqDecision Handling.
Proof. solve_decision. Defined.












