(* ===== verification/LoadTest.v ===== *)
(** * The load test ([cmd/loadtest])

    What the command measures and how: the pool it builds, its synthetic
    queries, the numbers of a fixed run, the samples of a soak run and what is
    printed of them.  Formatting and the memory statistics are library code; the
    clock readings are arguments. *)

From Stdlib Require Import Ascii DecimalString DecimalN.
From S2P Require Import Prelude Float64 GoString Errors Metrics Reporter Model Worker WorkerSpec PoolRun PoolRunSpec Jobs.
From S2P Require ProxyPool RateLimit.

Open Scope string_scope.
Open Scope Z_scope.

(** ** Flags and set-up *)

(** The loop of [parseIntList]: the first part that is no number is the error. *)
Fixpoint parseInts (parts : list string) : goerr + list Z :=
  match parts with
  | [] => inr []
  | p :: rest =>
      match Atoi (TrimSpace p) with
      | None => inl (EWrapf (quoted p) (EText "strconv.Atoi"))
      | Some v => match parseInts rest with inl e => inl e | inr vs => inr (v :: vs) end
      end
  end.

Definition parseIntList (s : string) : goerr + list Z := parseInts (SplitByte "," s).

(** What [main] runs. *)
Inductive LoadMode := Soak (d interval : duration) | Sweep (levels : list Z) | Fixed.

(** [None] is a panic of [main]; [parseDuration] is [time.ParseDuration]. *)
Definition loadMode (parseDuration : string -> option duration) (duration_ sweep sampleInterval : string) : option LoadMode :=
  if decide (duration_ <> "") then
    match parseDuration duration_, parseDuration sampleInterval with
    | Some d, Some i => Some (Soak d i)
    | _, _ => None
    end
  else if decide (sweep <> "") then match parseIntList sweep with inr levels => Some (Sweep levels) | inl _ => None end
  else Some Fixed.

(** The pool of [buildPool]: no proxies, never banned, unthrottled. *)
Record TestPool {T : RateLimit.TokenBucket} := mkTestPool {
  tpConcurrency : Z; tpConfig : PoolConfig; tpProxies : ProxyPool.Pool; tpLimiter : RateLimit.Limiter T }.
Arguments TestPool T : clear implicits.

Definition buildPool {T : RateLimit.TokenBucket} (concurrency : Z) : TestPool T :=
  mkTestPool T concurrency (mkPoolConfig 1 0 "") (ProxyPool.NewPool [] 1000000 Millisecond)
    (RateLimit.New (f64_of_Z 1000000) 1000000).

(** ** Synthetic queries *)

(** [%d] of a number that is not negative. *)
Definition itoa (n : N) : string := NilEmpty.string_of_uint (N.to_uint n).

Definition syntheticQueries (n : nat) : list string := map (fun i => "synthetic query " ++ itoa (N.of_nat i)) (seq 0 n).

(** The jobs [infiniteJobs] has offered after [n] sends; its [uint64] wraps. *)
Definition soakJobs (n : nat) : list Job :=
  map (fun i => mkJob ("soak query " ++ itoa (N.of_nat i mod 2 ^ 64)) "" "" "") (seq 0 n).

(** ** A fixed run *)

(** What [runFixed] builds before [Run]: the jobs of the queue and its capacity.
    [None] is a panic: a negative length or capacity. *)
Definition fixedSetup (concurrency n : Z) : option (list Job * nat) :=
  if (n <? 0) || (wrap64 (concurrency * 2) <? 0) then None
  else Some (map (fun q => mkJob q "" "" "") (syntheticQueries (Z.to_nat n)), Z.to_nat (wrap64 (concurrency * 2))).

Record runResult := mkRunResult {
  rrConcurrency : Z; rrN : Z; rrElapsed : duration; rrMetrics : Snapshot; rrLatency : LatencyStats; rrRPS : f64 }.

(** What it answers when [Run] has returned. *)
Definition fixedResult (concurrency : Z) (elapsed : duration) (c : Counters) (l : LatencyRecorder) : option runResult :=
  let snap := snapshot c in
  option_map (fun ls => mkRunResult concurrency (snSuccess snap) elapsed snap ls (perSecond (snSuccess snap) elapsed)) (Stats l).

(** The latencies as they are printed. *)
Definition roundedLatency (ls : LatencyStats) : LatencyStats :=
  mkLatency (Count ls) (TotalRecorded ls) (Round (Min ls) Millisecond) (Round (P50 ls) Millisecond) (Round (P95 ls) Millisecond)
    (Round (P99 ls) Millisecond) (Round (Max ls) Millisecond).

(** The lines [printResult] prints; [TotalRecorded] is not printed. *)
Record Printed := mkPrinted {
  ptN : Z; ptConcurrency : Z; ptElapsed : duration; ptSuccess : Z; ptFailure : Z; ptDropped : Z; ptRetried : Z;
  ptLatency : LatencyStats; ptRPS : f64; ptDaily : f64 }.

Definition printResult (r : runResult) : Printed :=
  let m := rrMetrics r in
  mkPrinted (rrN r) (rrConcurrency r) (Round (rrElapsed r) Millisecond) (snSuccess m) (snFailure m) (snDropped m) (snRetried m)
    (roundedLatency (rrLatency r)) (rrRPS r) (perDay (rrRPS r)).

(** A row of the table of [runSweep]. *)
Record SweepRow := mkRow {
  rowConcurrency : Z; rowSuccess : Z; rowFailure : Z; rowDropped : Z; rowElapsed : duration; rowRPS : f64;
  rowP50 : duration; rowP95 : duration; rowP99 : duration }.

Definition sweepRow (r : runResult) : SweepRow :=
  let m := rrMetrics r in let l := roundedLatency (rrLatency r) in
  mkRow (rrConcurrency r) (snSuccess m) (snFailure m) (snDropped m) (Round (rrElapsed r) Millisecond) (rrRPS r) (P50 l) (P95 l) (P99 l).

(** [runSweep]: one fixed run per level, in order, and its row; a panic ends it
    ([false]) after the rows printed before. *)
Fixpoint runSweep (runFixed : Z -> option runResult) (levels : list Z) : list SweepRow * bool :=
  match levels with
  | [] => ([], true)
  | c :: rest =>
      match runFixed c with
      | None => ([], false)
      | Some r => let '(rows, ok) := runSweep runFixed rest in (sweepRow r :: rows, ok)
      end
  end.

(** ** A soak run

    Its jobs are [soakJobs] from a source that closes only when the context ends. *)

Definition soakSetup (concurrency : Z) : option nat :=
  if wrap64 (concurrency * 2) <? 0 then None else Some (Z.to_nat (wrap64 (concurrency * 2))).

(** What it prints in the end. *)
Record SoakReport := mkSoak {
  skElapsed : duration; skRequested : duration; skTotals : Snapshot; skLatency : LatencyStats; skRPS : f64; skDaily : f64 }.

Definition soakResult (d elapsed : duration) (c : Counters) (l : LatencyRecorder) : option SoakReport :=
  let snap := snapshot c in
  let rps := perSecond (snSuccess snap) elapsed in
  option_map (fun ls => mkSoak (Round elapsed Second) d snap (roundedLatency ls) rps (perDay rps)) (Stats l).

(** A tick of [sampleLoop]: when, and what it reads. *)
Record Sample := mkSample { smAt : time; smCounters : Counters; smLatencies : LatencyRecorder }.

Definition smSuccess (s : Sample) : Z := snSuccess (snapshot (smCounters s)).

Definition intervalRPS (lastSuccess : Z) (lastAt : time) (s : Sample) : f64 :=
  let elapsed := smAt s - lastAt in
  if f64_ltb f64_zero (Seconds elapsed) then f64_div (f64_of_Z (wrapu64 (smSuccess s - lastSuccess))) (Seconds elapsed)
  else f64_zero.

(** The line of a tick, without the memory statistics; [slNew] is the number of
    successes since the last tick, which is printed as a rate. *)
Record SoakLine := mkLine {
  slElapsed : duration; slSuccess : Z; slFailure : Z; slDropped : Z; slNew : Z; slRPS : f64;
  slP50 : duration; slP95 : duration; slP99 : duration }.

Definition soakLine (startedAt : time) (lastSuccess : Z) (lastAt : time) (s : Sample) : option SoakLine :=
  let snap := snapshot (smCounters s) in
  option_map (fun ls => let l := roundedLatency ls in
    mkLine (Round (smAt s - startedAt) Second) (snSuccess snap) (snFailure snap) (snDropped snap)
      (wrapu64 (snSuccess snap - lastSuccess)) (intervalRPS lastSuccess lastAt s) (P50 l) (P95 l) (P99 l)) (Stats (smLatencies s)).

(** The lines printed until the loop is stopped; [None] is a panic. *)
Fixpoint sampleLoop (startedAt : time) (lastSuccess : Z) (lastAt : time) (ticks : list Sample) : option (list SoakLine) :=
  match ticks with
  | [] => Some []
  | s :: rest =>
      match soakLine startedAt lastSuccess lastAt s with
      | None => None
      | Some line => option_map (cons line) (sampleLoop startedAt (smSuccess s) (smAt s) rest)
      end
  end.

(** * Properties *)

Lemma itoa_inj a b : itoa a = itoa b -> a = b.
Proof.
  unfold itoa. intros H. apply (f_equal NilEmpty.uint_of_string) in H. rewrite !NilEmpty.usu in H.
  injection H as H. by apply Unsigned.to_uint_inj.
Qed.

Lemma app_inj_str p a b : p ++ a = p ++ b -> a = b.
Proof. induction p as [|x p IH]; [done|]. cbn. intros [= H]. by apply IH. Qed.

(** The queries of a load test are all different, so no two jobs are alike. *)
Lemma synthetic_distinct n : NoDup (syntheticQueries n).
Proof.
  apply NoDup_fmap_2; [|apply NoDup_ListNoDup, seq_NoDup]. intros i j H%app_inj_str%itoa_inj. lia.
Qed.

Lemma last_cons_default (l : list Z) x d : List.last (x :: l) d = List.last l x.
Proof.
  revert x d. induction l as [|y l IH]; intros x d; [done|].
  change (List.last (x :: y :: l) d) with (List.last (y :: l) d). by rewrite !IH.
Qed.

(** The successes of the lines add up to those counted at the last tick, when
    the counter does not wrap. *)
Lemma samples_add_up startedAt ticks : forall last lastAt lines, 0 <= last ->
  Forall (fun s => smSuccess s < 2 ^ 64) ticks -> StronglySorted Z.le (last :: map smSuccess ticks) ->
  sampleLoop startedAt last lastAt ticks = Some lines ->
  map slSuccess lines = map smSuccess ticks /\
  fold_right Z.add 0 (map slNew lines) = List.last (map smSuccess ticks) last - last.
Proof.
  induction ticks as [|s ticks IH]; intros lst lastAt lines Hl Hb Hs; cbn [sampleLoop]; [intros [= <-]; split; [done|cbn; lia]|].
  unfold soakLine. destruct (Stats (smLatencies s)) as [ls|]; cbn [option_map]; [|done].
  destruct (sampleLoop startedAt (smSuccess s) (smAt s) ticks) as [rest|] eqn:Hrest; [|done]. intros [= <-].
  apply Forall_cons in Hb as [Hb1 Hb]. apply StronglySorted_inv in Hs as [Hs Hle].
  cbn [map] in Hle. apply Forall_cons in Hle as [Hle _]. cbn [map fold_right slNew slSuccess].
  destruct (IH (smSuccess s) (smAt s) rest ltac:(lia) Hb Hs Hrest) as [-> ->]. change (Success (smCounters s)) with (smSuccess s).
  rewrite wrapu64_id by lia.
  rewrite last_cons_default. split; [done|lia].
Qed.

(** The table of a sweep has a row per level, in order, unless a run panics. *)
Lemma sweep_rows runFixed levels : (forall c r, runFixed c = Some r -> rrConcurrency r = c) ->
  exists n, map rowConcurrency (runSweep runFixed levels).1 = take n levels /\
    ((runSweep runFixed levels).2 = true -> map rowConcurrency (runSweep runFixed levels).1 = levels).
Proof.
  intros Hc. induction levels as [|c levels (n & IH1 & IH2)]; [by exists 0%nat|]. cbn [runSweep].
  destruct (runFixed c) as [r|] eqn:Hr; [|by exists 0%nat]. destruct (runSweep runFixed levels) as [rows ok]. cbn [fst snd] in *.
  exists (S n). cbn [map take rowConcurrency sweepRow]. rewrite (Hc _ _ Hr), IH1. split; [done|]. intros Hok. by rewrite <- IH1, IH2.
Qed.

Lemma syntheticQueries_length n : length (syntheticQueries n) = n.
Proof. unfold syntheticQueries. by rewrite length_map, length_seq. Qed.

(** A fixed load test accounts for every query: with at least one worker, when
    [Run] has returned, success plus dropped is the number asked for, [N] is the
    number of results the sink was handed, each for another query, and nothing is
    left in the queue; whatever the fetcher, the parser and the interleaving. *)
Theorem load_test_exact {T : RateLimit.TokenBucket} {NS : Type} (E : Env (T := T) (NS := NS)) Parse fuel concurrency n jobs capacity s
    elapsed lat r :
  fixedSetup concurrency n = Some (jobs, capacity) -> in_int64 n -> 0 < concurrency ->
  rtc (tstep capacity true (jobActions E Parse fuel (tpConfig (buildPool (T := T) concurrency))))
    (initial (Z.to_nat concurrency) jobs) s ->
  returned s = true -> ctxEnded s = false ->
  fixedResult concurrency elapsed (countersAfter (log s)) lat = Some r ->
  snSuccess (rrMetrics r) + snDropped (rrMetrics r) = n /\
  rrN r = Z.of_nat (length (sinkAfter (log s))) /\
  NoDup (map jQuery (map pJob (processed s))) /\ buffer s = [] /\ toSend s = [].
Proof.
  intros Hset Hn Hpos Hr Hret Hc Hres. unfold fixedSetup in Hset.
  destruct (Z.ltb_spec n 0) as [|Hn0]; [done|]. destruct (_ <? 0); [done|]. injection Hset as <- _.
  unfold in_int64, int64_max in Hn. set (js := map (fun q => mkJob q "" "" "") (syntheticQueries (Z.to_nat n))) in *.
  assert (Hlen : length js = Z.to_nat n) by (unfold js; rewrite length_map; apply syntheticQueries_length).
  destruct (run_exact capacity true (jobActions E Parse fuel (tpConfig (buildPool (T := T) concurrency)))
    (jobBound (tpConfig (buildPool (T := T) concurrency))) (Z.to_nat concurrency) js s)
    as (Hj & Hperm & _ & _ & Hs & Hd & Hall); [lia|exact Hr|exact Hret|].
  specialize (Hall Hc ltac:(lia)). rewrite Hall in Hj, Hd, Hperm. rewrite Hlen in Hd.
  unfold fixedResult in Hres. destruct (Stats lat) as [ls|]; [|done]. injection Hres as <-.
  cbn [rrMetrics rrN snapshot snSuccess snDropped].
  assert (Hrest : (buffer s ++ toSend s = [])%list).
  { apply (f_equal length) in Hj. rewrite !length_app in Hj. apply nil_length_inv. rewrite length_app. lia. }
  apply app_nil in Hrest as [Hb Ht].
  split_and!; [lia|done| |done|done]. rewrite Hperm. unfold js. rewrite map_map. cbn [jQuery]. rewrite map_id. apply synthetic_distinct.
Qed.

Definition zeroJob : Job := mkJob "synthetic query 0" "" "" "".

(** What [runFixed] answers there. *)
Definition zeroRun : option runResult :=
  fixedResult 1 Second (countersAfter (log (soloEnd zeroJob))) (NewLatencyRecorder 200000).

Lemma zero_ok : jobActions servingEnv servedParse 2 (tpConfig (buildPool (T := RateLimit.rateBucket) 1)) zeroJob (servedActs zeroJob)
  (Some (servedResult zeroJob)).
Proof.
  exists (idleWorld (ProxyPool.NewPool ["p"] 3 30)).
  destruct (process servingEnv servedParse 2 (tpConfig (buildPool (T := RateLimit.rateBucket) 1)) zeroJob
    (idleWorld (ProxyPool.NewPool ["p"] 3 30))) as [w' r] eqn:Hp.
  exists w', [IncOutcome "success"; IncSuccess]. vm_compute in Hp. injection Hp as <- <-. split_and!; reflexivity.
Qed.

Lemma load_test_exact_witness : exists r, zeroRun = Some r /\ snSuccess (rrMetrics r) + snDropped (rrMetrics r) = 1.
Proof.
  destruct zeroRun as [r|] eqn:Hr; [|by vm_compute in Hr]. exists r. split; [reflexivity|].
  refine (proj1 (load_test_exact servingEnv servedParse 2 1 1 [zeroJob] 2 (soloEnd zeroJob) Second (NewLatencyRecorder 200000) r
    _ _ _ _ _ _ Hr)); [vm_compute; reflexivity|split; discriminate|reflexivity| |reflexivity|reflexivity].
  exact (solo_run 2 _ zeroJob zero_ok).
Defined.
