(* ===== verification/BrowserRefine.v ===== *)
(** * The browser pool refines an exclusive lease

    What the fetches need of the pool is a bounded set of sessions each held by
    one of them: [lease].  Every run of the pool, whatever its interleaving, is
    a run of that specification. *)

From S2P Require Import Prelude Errors Metrics Browser BrowserPool BrowserSpec.

Open Scope string_scope.
Open Scope Z_scope.

(** ** The specification *)

Inductive label := Take (s : nat) | Give (s : nat).

(** The sessions held; a session is taken when nobody holds it and fewer than
    [size] are held, and given back by its holder. *)
Inductive lease (sz : Z) : gset nat -> label -> gset nat -> Prop :=
  | lease_take X s : s ∉ X -> Z.of_nat (size X) < sz -> lease sz X (Take s) ({[s]} ∪ X)
  | lease_give X s : s ∈ X -> lease sz X (Give s) (X ∖ {[s]}).

Inductive leases (sz : Z) : gset nat -> list label -> gset nat -> Prop :=
  | leases_nil X : leases sz X [] X
  | leases_snoc X ls l Y Z : leases sz X ls Y -> lease sz Y l Z -> leases sz X (ls ++ [l]) Z.

(** ** The abstraction *)

(** The sessions with a fetch. *)
Definition held (ts : list tphase) : gset nat := list_to_set (inUse ts).

(** What a step of fetch [i] does to the sessions it holds. *)
Definition moved (i : nat) (y y' : Sys) : list label :=
  match y.(threads) !! i ≫= busySession, y'.(threads) !! i ≫= busySession with
  | None, Some s => [Take s]
  | Some s, None => [Give s]
  | _, _ => []
  end.

Definition labels (e : bevent) (y y' : Sys) : list label :=
  match fetchOf e with Some i => moved i y y' | None => [] end.

(** Runs with what they do to the sessions held. *)
Inductive traced (poolSize maxUses : Z) (n : nat) : Sys -> list label -> Prop :=
  | traced_init : traced poolSize maxUses n (binitial n) []
  | traced_step e y y' ls : traced poolSize maxUses n y ls -> bstep poolSize maxUses e y = Some y' ->
      traced poolSize maxUses n y' (ls ++ labels e y y').

(** ** The simulation *)

Lemma traced_breach poolSize maxUses n y ls : traced poolSize maxUses n y ls -> breach poolSize maxUses n y.
Proof. induction 1; by econstructor. Qed.

(** A fetch does not go from one session to another in one step. *)
Lemma bstep_threads poolSize maxUses e y y' : bstep poolSize maxUses e y = Some y' ->
  match fetchOf e with
  | Some i => exists t t', threads y !! i = Some t /\ threads y' = <[i := t']> (threads y) /\
                (busySession t = None \/ busySession t' = None)
  | None => threads y' = threads y
  end.
Proof.
  intros Hs. pose proof (bstep_own _ _ _ _ _ Hs) as Hown. destruct (fetchOf e) as [i|] eqn:Hf; [|done].
  destruct Hown as (t & t' & Hi & Ht). exists t, t'. split; [done|]. split; [done|].
  destruct t; try (by left). right. assert (Hlt : (i < length (threads y))%nat) by (by eapply lookup_lt_Some).
  destruct e; try done; cbn [fetchOf] in Hf; injection Hf as ->; cbn [bstep] in Hs; rewrite Hi in Hs; try done.
  destruct (muFree y); [|done]. injection Hs as <-. cbn [threads] in Ht.
  apply (f_equal (fun l => l !! i)) in Ht. rewrite !list_lookup_insert_eq in Ht by done. by injection Ht as <-.
Qed.

Lemma held_size poolSize maxUses n y : sys_ok poolSize maxUses n y ->
  NoDup (inUse (threads y)) /\ Z.of_nat (length (inUse (threads y))) <= poolSize.
Proof.
  intros [[O N _ _ _ _ _] Cap _ _ _ _]. split; [by apply NoDup_app in N as (_ & _ & N)|]. lia.
Qed.

Lemma held_middle a t b : held (a ++ t :: b) = list_to_set (option_list (busySession t)) ∪ held (a ++ b).
Proof.
  unfold held. apply set_eq. intros x. rewrite elem_of_union, !elem_of_list_to_set, inUse_middle. apply elem_of_app.
Qed.

Lemma lease_step poolSize maxUses n e y y' : sys_ok poolSize maxUses n y -> sys_ok poolSize maxUses n y' ->
  bstep poolSize maxUses e y = Some y' ->
  (labels e y y' = [] /\ held (threads y') = held (threads y)) \/
  exists l, labels e y y' = [l] /\ lease poolSize (held (threads y)) l (held (threads y')).
Proof.
  intros Hy Hy' Hs. pose proof (bstep_threads _ _ _ _ _ Hs) as Ht. unfold labels.
  destruct (fetchOf e) as [i|]; [|left; split; [done|by rewrite Ht]].
  destruct Ht as (t & t' & Hi & Hts & Hone). unfold moved. rewrite Hi, Hts, list_lookup_insert_eq by (by eapply lookup_lt_Some).
  cbn [mbind option_bind]. destruct (list_split_at _ _ _ Hi) as (a & b & Hw & Hins).
  destruct (held_size _ _ _ _ Hy) as [N _]. destruct (held_size _ _ _ _ Hy') as [N' Hle].
  rewrite Hts, Hins in N', Hle. rewrite Hins, Hw. rewrite Hw in N. rewrite !held_middle.
  rewrite inUse_middle in N, N', Hle. unfold held.
  destruct (busySession t) as [s|], (busySession t') as [s'|]; simpl in *;
    rewrite ?union_empty_r_L, ?union_empty_l_L.
  - by destruct Hone.
  - right. exists (Give s). split; [done|]. apply NoDup_cons in N as [Hn _].
    assert (Hd : (list_to_set (inUse (a ++ b)) : gset nat) = ({[s]} ∪ list_to_set (inUse (a ++ b))) ∖ {[s]})
      by (apply set_eq; intros x; rewrite elem_of_difference, elem_of_union, !elem_of_list_to_set, elem_of_singleton; naive_solver).
    rewrite Hd at 2. apply lease_give. set_solver.
  - right. exists (Take s'). split; [done|]. apply NoDup_cons in N' as [Hn N'].
    apply lease_take; [by rewrite elem_of_list_to_set|]. rewrite size_list_to_set by done. cbn [length] in Hle. lia.
  - by left.
Qed.

(** C1. Every run of the browser pool, however fetches, closing, crashes and
    disconnections interleave, is a run of the abstract lease: a session is
    taken only when no fetch holds it and fewer than [PoolSize] are held, it is
    given back by the fetch that holds it, and the sessions held in between are
    those of the specification. *)
Theorem browser_pool_refines_lease poolSize maxUses n y ls :
  0 < poolSize -> 0 < maxUses <= int64_max -> traced poolSize maxUses n y ls ->
  leases poolSize ∅ ls (held (threads y)).
Proof.
  intros Hp Hu. induction 1 as [|e y y' ls Ht IH Hs].
  - replace (held (threads (binitial n))) with (∅ : gset nat); [constructor|].
    unfold held. cbn [binitial threads]. clear. symmetry. by induction n.
  - pose proof (traced_breach _ _ _ _ _ Ht) as Hr.
    destruct (lease_step poolSize maxUses n e y y') as [[-> ->]|(l & -> & Hl)]; [| |done|by rewrite app_nil_r|by econstructor].
    + by apply breach_ok.
    + apply breach_ok; [done..|]. by econstructor.
Qed.

(** The labels of a run of events. *)
Fixpoint runLabels (poolSize maxUses : Z) (es : list bevent) (y : Sys) : list label :=
  match es with
  | [] => []
  | e :: es => match bstep poolSize maxUses e y with
               | Some y' => labels e y y' ++ runLabels poolSize maxUses es y'
               | None => []
               end
  end.

Lemma bruns_traced poolSize maxUses n es y y' ls : traced poolSize maxUses n y ls -> bruns poolSize maxUses es y = Some y' ->
  traced poolSize maxUses n y' (ls ++ runLabels poolSize maxUses es y).
Proof.
  revert y ls. induction es as [|e es IH]; intros y ls Ht; cbn [bruns runLabels].
  - intros [= <-]. by rewrite app_nil_r.
  - destruct (bstep poolSize maxUses e y) as [y1|] eqn:He; [|done]. intros Hr. rewrite app_assoc. apply IH; [by econstructor|done].
Qed.

Lemma browser_pool_refines_lease_witness :
  runLabels 2 50 (toyBefore ++ toyAfter) (binitial 2) = [Take 1; Give 1; Take 1; Take 2] /\
  leases 2 ∅ [Take 1; Give 1; Take 1; Take 2] (held (threads toySys)).
Proof.
  assert (Hl : runLabels 2 50 (toyBefore ++ toyAfter) (binitial 2) = [Take 1; Give 1; Take 1; Take 2])
    by (vm_compute; reflexivity).
  assert (Hr : bruns 2 50 (toyBefore ++ toyAfter) (binitial 2) = Some toySys) by (vm_compute; reflexivity).
  split; [exact Hl|]. rewrite <- Hl.
  exact (browser_pool_refines_lease 2 50 2 toySys _ eq_refl toy_uses (bruns_traced 2 50 2 _ _ _ [] (traced_init 2 50 2) Hr)).
Defined.
