(* ===== verification/Fixture.v ===== *)
(** * The fixture site and proxies ([tests/integration/fixture], [fixtureserver])

    The fictional search site of the end-to-end run: proxies with scripted
    behaviour, the page that needs JavaScript, and what the HTTP fetcher makes
    of them.  The embedded pages are the files under [testdata], with every
    double quote written as a backtick (they hold no backtick). *)

From Stdlib Require Import Ascii.
From S2P Require Import Prelude GoString Web Errors Classify HttpFetch FetchSpec.

Open Scope string_scope.
Open Scope Z_scope.

Definition Host : string := "serp.fixture.test".

(** ** The embedded pages *)

Fixpoint unquoted (s : string) : string :=
  match s with
  | EmptyString => EmptyString
  | String c rest => String (if Ascii.eqb c "`" then "034" else c)%char (unquoted rest)
  end.

Definition jsCheckPage : string := unquoted "<!DOCTYPE html>
<!--
  Synthetic fixture, not captured Google markup: js_results.html plus the
  no-JavaScript fallback of a JS check (a noscript meta refresh to
  /httpservice/retry/enablejs), the shape documented in README `Live
  mode`. A plain HTTP fetch sees only the fallback; a browser runs the
  script and gets the three results.
-->
<html>
<head><meta charset=`utf-8`><meta name=`viewport` content=`width=device-width, initial-scale=1`><title>Rendered results fixture</title></head>
<body>
  <noscript><meta http-equiv=`refresh` content=`0;url=/httpservice/retry/enablejs?sei=fixture`><div>If you are not redirected, <a href=`/httpservice/retry/enablejs?sei=fixture`>click here</a>.</div></noscript>
  <div id=`search`></div>
  <div id=`probe`></div>
  <script>
    (function () {
      var params = new URLSearchParams(location.search);
      var q = params.get(`q`) || ``;
      var search = document.getElementById(`search`);
      for (var i = 1; i <= 3; i++) {
        var r = document.createElement(`div`);
        r.className = `organic-result`;
        r.innerHTML =
          '<a class=`organic-link` href=`https://example.com/' + i + '`>' +
          '<h3 class=`organic-title`>Result ' + i + ' for ' + q.replace(/</g, ``) + '</h3></a>' +
          '<span class=`organic-snippet`>Rendered client-side.</span>';
        search.appendChild(r);
      }
      var probe = document.getElementById(`probe`);
      probe.setAttribute(`data-q`, q);
      probe.setAttribute(`data-language`, navigator.language);
      probe.setAttribute(`data-width`, String(window.innerWidth));
      probe.setAttribute(`data-touch`, String(navigator.maxTouchPoints > 0));
    })();
  </script>
</body>
</html>
".

Definition captchaPage : string := unquoted "<!DOCTYPE html>
<!--
  Synthetic `unusual traffic` page for the Playwright fetcher tests. The
  fetcher must classify it as a CAPTCHA block and return an error, never
  interact with it.
-->
<html>
<head><meta charset=`utf-8`><title>Sorry...</title></head>
<body>
  <p>Our systems have detected unusual traffic from your computer network.</p>
  <form id=`captcha-form` action=`/sorry/index` method=`POST`>
    <div class=`g-recaptcha` data-sitekey=`fixture`></div>
    <input type=`submit` value=`Submit`>
  </form>
</body>
</html>
".

(** ** Handlers

    What a handler wrote: the status ([200] unless [WriteHeader] was called),
    the headers it set, the body.  [net/http] adds a [Content-Type] found by
    [DetectContentType] when the handler set none. *)

Record Written := mkWritten { wStatus : Z; wHeader : list (string * string); wBody : string }.

(** [http.Error]. *)
Definition Error (text : string) (code : Z) : Written :=
  mkWritten code [("Content-Type", "text/plain; charset=utf-8"); ("X-Content-Type-Options", "nosniff")]
    (text ++ String "010" "").

Definition htmlHeader : list (string * string) := [("Content-Type", "text/html; charset=utf-8")].

(** The request as a handler sees it: [r.URL.Host] is empty in origin form. *)
Record Incoming := mkIncoming { inMethod : string; inHost : string; inPath : string }.

Definition Origin (r : Incoming) : Written :=
  if decide (inPath r = "/healthz") then mkWritten 200 [] "ok" else mkWritten 200 htmlHeader jsCheckPage.

(** [Behavior] is a string type with three named values. *)
Definition Good : string := "good".
Definition Captcha : string := "captcha".
Definition RateLimitOnce : string := "ratelimit-once".

Record FixtureProxy := mkFixtureProxy { behavior : string; Requests : Z }.

Definition NewProxy (b : string) : FixtureProxy := mkFixtureProxy b 0.

(** [ServeHTTP]; [Requests.Add(1)] wraps at 64 bits. *)
Definition ServeHTTP (p : FixtureProxy) (r : Incoming) : FixtureProxy * Written :=
  if decide (inMethod r = "CONNECT") then (p, Error "fixture proxy: no TLS" 405)
  else if decide (inPath r = "/healthz" /\ inHost r = "") then (p, mkWritten 200 [] "ok")
  else
    let n := wrap64 (Requests p + 1) in
    let p1 := mkFixtureProxy (behavior p) n in
    (p1,
     if decide (behavior p = Captcha) then mkWritten 429 htmlHeader captchaPage
     else if decide (behavior p = RateLimitOnce /\ n = 1)
     then mkWritten 429 [("Retry-After", "30")] "slow down"
     else Origin r).

(** [fixtureserver]: which behaviour listens at which address. *)
Definition fixtureServers (good captcha limited : string) : list (string * FixtureProxy) :=
  [(captcha, NewProxy Captcha); (limited, NewProxy RateLimitOnce); (good, NewProxy Good)].

(** ** A client of the proxies

    [http.Client.Do] as the fetcher uses it, through one of the proxies: the
    absolute URL of the request goes to the proxy, which has answered the
    earlier requests sent by the same route.  An [https] target is asked for
    with [CONNECT], which the proxy refuses; no answer of the site redirects. *)

Section Client.
Context {N : NetURL} (DetectContentType : string -> string).

Definition headerOf (w : Written) (k : string) : string :=
  match find (fun kv => bool_decide (kv.1 = k)) (wHeader w) with
  | Some kv => kv.2
  | None => if decide (k = "Content-Type") then DetectContentType (wBody w) else ""
  end.

Definition asIncoming (method : string) (u : URL) : Incoming :=
  mkIncoming (if decide (Scheme u = "https") then "CONNECT" else method) (Web.Host u) (Path u).

Definition serve1 (p : FixtureProxy) (r : HttpReq) : FixtureProxy :=
  match url_Parse (Target r) with
  | Some u => (ServeHTTP p (asIncoming (Method r) u)).1
  | None => p
  end.

(** The proxy listening at an address, after the requests of [history]. *)
Definition proxyAfter (servers : list (string * FixtureProxy)) (addr : string) (history : list HttpReq)
    : option FixtureProxy :=
  match find (fun s => bool_decide (s.1 = addr)) servers with
  | Some s => Some (fold_left serve1 (List.filter (fun r => bool_decide (Via r = addr)) history) s.2)
  | None => None
  end.

Definition fixtureDo (servers : list (string * FixtureProxy)) (history : list HttpReq) (r : HttpReq)
    : goerr + HttpResp :=
  match proxyAfter servers (Via r) history, url_Parse (Target r) with
  | Some p, Some u =>
      let w := (ServeHTTP p (asIncoming (Method r) u)).2 in
      if decide (Scheme u = "https") then inl (EUrl (EText "Method Not Allowed"))
      else inr (mkHttpResp (wStatus w) u (headerOf w) (wBody w) None)
  | _, _ => inl (EUrl (EText "dial"))
  end.

End Client.

(** ** What the proxies answer *)

Lemma wrap64_count n : 0 <= n -> n < int64_max -> wrap64 (n + 1) = n + 1.
Proof. intros. apply wrap64_id. unfold in_int64, int64_min, int64_max in *. lia. Qed.

(** A request for the site, as opposed to [CONNECT] and the health check. *)
Definition proxied (r : Incoming) : Prop :=
  inMethod r <> "CONNECT" /\ ~ (inPath r = "/healthz" /\ inHost r = "").

Lemma serve_proxied p r : proxied r ->
  ServeHTTP p r =
    let n := wrap64 (Requests p + 1) in
    (mkFixtureProxy (behavior p) n,
     if decide (behavior p = Captcha) then mkWritten 429 htmlHeader captchaPage
     else if decide (behavior p = RateLimitOnce /\ n = 1) then mkWritten 429 [("Retry-After", "30")] "slow down"
     else Origin r).
Proof.
  intros [Hc Hh]. unfold ServeHTTP.
  rewrite (decide_False (P := inMethod r = "CONNECT") _ _ Hc).
  now rewrite (decide_False (P := inPath r = "/healthz" /\ inHost r = "") _ _ Hh).
Qed.

Lemma serve_counts p r : proxied r -> 0 <= Requests p < int64_max ->
  (ServeHTTP p r).1 = mkFixtureProxy (behavior p) (Requests p + 1).
Proof. intros Hr Hn. rewrite (serve_proxied _ _ Hr). cbn. now rewrite wrap64_count by lia. Qed.

Lemma serve_limited n r : proxied r -> 0 <= n < int64_max ->
  (ServeHTTP (mkFixtureProxy RateLimitOnce n) r).2 =
    if decide (n = 0) then mkWritten 429 [("Retry-After", "30")] "slow down" else Origin r.
Proof.
  intros Hr Hn. rewrite (serve_proxied _ _ Hr). cbn. rewrite wrap64_count by lia.
  destruct (decide (n = 0)) as [->|H0]; [done|].
  rewrite decide_False by discriminate. rewrite decide_False; [reflexivity|]. intros [_ ?]. lia.
Qed.

Lemma serve_captcha n r : proxied r ->
  (ServeHTTP (mkFixtureProxy Captcha n) r).2 = mkWritten 429 htmlHeader captchaPage.
Proof. intros Hr. now rewrite (serve_proxied _ _ Hr). Qed.

(** The site's page is the shell of a JavaScript check; the captcha page is not. *)
Lemma js_page_requires_js : requiresJS jsCheckPage = true /\ requiresJS captchaPage = false.
Proof. split; vm_compute; reflexivity. Qed.

Lemma page_sizes : len jsCheckPage = 1707 /\ len captchaPage = 532.
Proof. split; vm_compute; reflexivity. Qed.

(** ** What the fetchers make of the site *)

Section Fetched.
Context {N : NetURL} {D : DOM} (DetectContentType : string -> string).
Context (ParseTime : string -> option time) (now : time) (elapsed : duration) (badURL : string -> goerr).
Context (servers : list (string * FixtureProxy)) (f : HTTPFetcher) (req : Request) (u : URL).

Local Abbreviation via := (ProxyURL req).
Local Abbreviation fetch := (httpFetch (fixtureDo DetectContentType servers) ParseTime now elapsed badURL f req).

(** A search fetcher whose request for the site goes out, unencrypted, through a proxy. *)
Record Searching : Prop := mkSearching {
  srGeneric : Generic f = false;
  srTransport : transportFor badURL via = None;
  srTarget : url_Parse (searchURL f req) = Some u;
  srScheme : Scheme u <> "https";
  srHost : Web.Host u <> "" }.

Definition outgoing : HttpReq :=
  mkHttpReq "GET" (searchURL f req) "" (setHeaders (UserAgent req)) via.

Lemma searching_proxied : Searching -> proxied (asIncoming "GET" u).
Proof.
  intros Hs. unfold proxied, asIncoming. cbn. rewrite decide_False by apply Hs.
  split; [discriminate|]. intros [_ ?]. now apply (srHost Hs).
Qed.

Lemma truncate_all s n : len s <= n -> truncate s n = s.
Proof. intros H. unfold truncate. now rewrite (proj2 (Z.leb_le _ _) H). Qed.

(** One fetch: the proxy's answer, classified. *)
Lemma fetch_answer s p w : Searching -> proxyAfter servers via (sent s) = Some p ->
  (ServeHTTP p (asIncoming "GET" u)).2 = w -> len (wBody w) <= maxBodyBytes ->
  let ct := headerOf DetectContentType w "Content-Type" in
  let kind := if isHTML ct then classifyPage (url_String u) (wBody w) else pageNormal in
  kind <> pageConsent ->
  fetch s = (mkNet (sent s ++ [outgoing])%list (consentsHandled s),
             finish ParseTime now elapsed (wStatus w) u (headerOf DetectContentType w) (wBody w)
               (withJSCheck f kind ct (wBody w))).
Proof.
  intros Hs Hp Hw Hlen ct kind Hk. unfold httpFetch.
  rewrite (srTransport Hs). unfold newRequest. rewrite (srTarget Hs).
  unfold do_, fixtureDo. cbn [Via Target Method]. rewrite Hp, (srTarget Hs), Hw.
  rewrite (decide_False (P := Scheme u = "https") _ _ (srScheme Hs)). cbn [BodyErr RespBody Status RespURL Header].
  rewrite (truncate_all _ _ Hlen).
  unfold classify. rewrite (srGeneric Hs). fold ct. fold kind. now rewrite decide_False by done.
Qed.

(** A blocked proxy: the captcha page is classified as such, not as a rate
    limit although its status is 429, and hybrid mode does not go on to the browser. *)
Lemma captcha_blocks s n : Searching -> proxyAfter servers via (sent s) = Some (mkFixtureProxy Captcha n) ->
  classifyPage (url_String u) captchaPage = pageCaptcha ->
  (fetch s).2 = inl (EBlocked (mkBlocked "captcha" (url_String u) 429 captchaPage)) /\
  Classify (EBlocked (mkBlocked "captcha" (url_String u) 429 captchaPage)) = OutcomeCaptcha /\
  DefaultFailoverOn OutcomeCaptcha = false.
Proof.
  intros Hs Hp Hk. split; [|now split].
  rewrite (fetch_answer s _ _ Hs Hp (serve_captcha n _ (searching_proxied Hs)));
    cbn -[captchaPage classifyPage]; rewrite ?Hk; [reflexivity|vm_compute; discriminate|discriminate].
Qed.

(** The rate-limited proxy's first answer: a rate limit of thirty seconds. *)
Lemma first_answer_limited s : Searching -> DetectContentType "slow down" = "text/plain; charset=utf-8" ->
  proxyAfter servers via (sent s) = Some (NewProxy RateLimitOnce) ->
  (fetch s).2 = inl (ERateLimit (mkRateLimit 429 (30 * Second) "slow down")).
Proof.
  intros Hs Hd Hp.
  assert (Hct : headerOf DetectContentType (mkWritten 429 [("Retry-After", "30")] "slow down") "Content-Type"
                = "text/plain; charset=utf-8") by exact Hd.
  rewrite (fetch_answer s _ _ Hs Hp (serve_limited 0 _ (searching_proxied Hs) ltac:(now split)));
    cbn [decide wBody wStatus]; rewrite ?Hct; [reflexivity|vm_compute; discriminate|discriminate].
Qed.

(** The site's page, however it is reached: a block that hybrid mode renders. *)
Lemma site_needs_browser s p : Searching -> Path u <> "/healthz" ->
  proxyAfter servers via (sent s) = Some p -> (ServeHTTP p (asIncoming "GET" u)).2 = Origin (asIncoming "GET" u) ->
  classifyPage (url_String u) jsCheckPage = pageNormal ->
  fetch s = (mkNet (sent s ++ [outgoing])%list (consentsHandled s),
             inl (EBlocked (mkBlocked "interstitial" (url_String u) 200 jsCheckPage))) /\
  classifyResult (fetch s).2 = OutcomeInterstitial /\ DefaultFailoverOn OutcomeInterstitial = true.
Proof.
  intros Hs Hpath Hp Ho Hk.
  assert (He : fetch s = (mkNet (sent s ++ [outgoing])%list (consentsHandled s),
             inl (EBlocked (mkBlocked "interstitial" (url_String u) 200 jsCheckPage)))).
  { unfold Origin in Ho. cbn [inPath asIncoming] in Ho.
    rewrite (decide_False (P := Path u = "/healthz") _ _ Hpath) in Ho.
    rewrite (fetch_answer s _ _ Hs Hp Ho); cbn -[jsCheckPage classifyPage withJSCheck requiresJS];
      rewrite ?Hk; [|vm_compute; discriminate|discriminate].
    unfold withJSCheck, needsJS. rewrite (srGeneric Hs), (proj1 js_page_requires_js). reflexivity. }
  rewrite He. now split.
Qed.

Lemma proxy_after_sent hist p : url_Parse (searchURL f req) = Some u -> proxyAfter servers via hist = Some p ->
  proxyAfter servers via (hist ++ [outgoing])%list = Some (ServeHTTP p (asIncoming "GET" u)).1.
Proof.
  unfold proxyAfter. intros Hu. destruct (find _ servers) as [[a q]|]; [|done]. intros [= <-].
  rewrite List.filter_app. cbn [List.filter Via outgoing]. rewrite bool_decide_true by done.
  rewrite fold_left_app. cbn. unfold serve1 at 1. cbn [Target outgoing]. now rewrite Hu.
Qed.

(** The end-to-end run, through the rate-limited proxy: the first page comes
    back as a rate limit of thirty seconds, which hybrid mode reports without
    trying the browser; the next is the browser's to render. *)
Theorem rate_limited_then_rendered good captcha (browser : Fetcher NetState) :
  Searching -> Path u <> "/healthz" -> servers = fixtureServers good captcha via -> captcha <> via ->
  DetectContentType "slow down" = "text/plain; charset=utf-8" ->
  classifyPage (url_String u) jsCheckPage = pageNormal ->
  let hybrid := failoverFetch
    (mkFailover (httpFetch (fixtureDo DetectContentType servers) ParseTime now elapsed badURL f) browser None None)
    (fun _ => false) in
  let '(s1, r1) := hybrid req (mkNet [] 0) in
  r1 = inl (ERateLimit (mkRateLimit 429 (30 * Second) "slow down")) /\
  hybrid req s1 = browser req (mkNet [outgoing; outgoing] 0).
Proof.
  intros Hs Hpath Hsrv Hne Hd Hk hybrid.
  assert (Hp : proxyAfter servers via (sent (mkNet [] 0)) = Some (NewProxy RateLimitOnce)).
  { rewrite Hsrv. unfold proxyAfter, fixtureServers. cbn [find fst].
    rewrite (bool_decide_false (captcha = via) Hne). now rewrite (bool_decide_true (via = via) eq_refl). }
  pose proof (first_answer_limited _ Hs Hd Hp) as H1.
  pose proof (proxy_after_sent _ _ (srTarget Hs) Hp) as Hp1.
  rewrite (serve_counts (NewProxy RateLimitOnce) _ (searching_proxied Hs) ltac:(now split)) in Hp1.
  unfold hybrid, failoverFetch. cbn [Primary Secondary FailoverOn OnFailover].
  assert (Hf : (fetch (mkNet [] 0)).1 = mkNet [outgoing] 0).
  { rewrite (fetch_answer _ _ _ Hs Hp (serve_limited 0 _ (searching_proxied Hs) ltac:(now split))); [done|..];
      cbn [decide wBody]; [vm_compute; discriminate|].
    replace (headerOf _ _ _) with "text/plain; charset=utf-8" by (symmetry; exact Hd). discriminate. }
  destruct (fetch (mkNet [] 0)) as [s1 r1] eqn:E1. cbn in H1, Hf. subst s1 r1. cbn.
  split; [done|].
  destruct (site_needs_browser (mkNet [outgoing] 0) _ Hs Hpath Hp1
              (serve_limited 1 _ (searching_proxied Hs) ltac:(now split)) Hk) as [He _].
  now rewrite He.
Qed.

End Fetched.

Lemma rate_limited_then_rendered_witness :
  let u := mkURL "http" "" Host "/search?q=go" "" "" "" "" in
  let f := mkHTTPFetcher "http://serp.fixture.test/search" false false in
  let req := mkRequest "go" "" "" "http://p3:8083/" "" "" "" "" in
  let detect (_ : string) := "text/plain; charset=utf-8" in
  let servers := fixtureServers "http://p1:8081/" "http://p2:8082/" "http://p3:8083/" in
  let hybrid := failoverFetch
    (mkFailover (httpFetch (fixtureDo detect servers) (fun _ => None) 0 0 (fun _ => EText "parse") f)
       (fun _ s => (s, inl ECanceled)) None None) (fun _ => false) in
  let '(s1, r1) := hybrid req (mkNet [] 0) in
  classifyResult r1 = OutcomeRateLimited.
Proof.
  intros u f req detect servers hybrid.
  pose proof (rate_limited_then_rendered detect (fun _ => None) 0 0 (fun _ => EText "parse") servers f req u
                "http://p1:8081/" "http://p2:8082/" (fun _ s => (s, inl ECanceled))) as H.
  cbv zeta in H. fold hybrid in H. destruct (hybrid req (mkNet [] 0)) as [s1 r1].
  destruct H as [H _].
  - split; vm_compute; first [reflexivity | discriminate].
  - discriminate.
  - reflexivity.
  - discriminate.
  - reflexivity.
  - vm_compute. reflexivity.
  - now rewrite H.
Defined.
